(** * ReDoc [OpenAPIParser]: reference resolution and [allOf] merging

    A shallow embedding of [src/services/OpenAPIParser.ts].

    JavaScript objects and arrays live in a store of cells addressed
    by natural numbers, so that "the same object" and "a fresh copy"
    are different things in the model, as they are in the program.
    A method of the parser is a function from a state (the store and
    the parser's [_refCounter]) to an outcome and a new state. *)

From Stdlib Require Import ZArith Ascii String List Lia.
From stdpp Require Import base option list strings gmap pretty.

Open Scope Z_scope.

(* ================================================================== *)
(** * JavaScript values                                                *)
(* ================================================================== *)

(** Numbers are the integers (counters, and the integer literals of a
    JSON document); strings are byte strings, exact for ASCII text. *)
Inductive val : Type :=
  | VUndef
  | VNull
  | VBool (b : bool)
  | VNum (n : Z)
  | VStr (s : string)
  | VRef (a : nat).

Inductive cell : Type :=
  | CObj (fields : list (string * val))
  | CArr (elems : list val).

#[global] Instance val_eq_dec : EqDecision val.
Proof. solve_decision. Defined.

#[global] Instance cell_eq_dec : EqDecision cell.
Proof. solve_decision. Defined.

Inductive error : Type :=
  | TypeError
  | URIError
  | Error (msg : string).

(** An outcome that is neither a value nor an exception: the model
    ran out of fuel, or the program left the modelled fragment of
    JavaScript (the string image of an object, a dangling address). *)
Inductive halt : Type := OutOfFuel | Unmodelled.

Inductive outcome (A : Type) : Type :=
  | Ret (a : A)
  | Throw (e : error)
  | Halt (w : halt).
Arguments Ret {A} a.
Arguments Throw {A} e.
Arguments Halt {A} w.

(** ** Coercions and operators *)

(** [!!v] *)
Definition truthy (v : val) : bool :=
  match v with
  | VUndef | VNull => false
  | VBool b => b
  | VNum n => negb (n =? 0)
  | VStr s => negb (bool_decide (s = EmptyString))
  | VRef _ => true
  end.

(** [v === w]; objects compare by identity. *)
Definition strict_eq (v w : val) : bool := bool_decide (v = w).

Definition is_undef (v : val) : bool := bool_decide (v = VUndef).

(** [a || b] *)
Definition js_or (a b : val) : val := if truthy a then a else b.

(** [String(v)] for primitives. *)
Definition to_string (v : val) : option string :=
  match v with
  | VUndef => Some "undefined"%string
  | VNull => Some "null"%string
  | VBool true => Some "true"%string
  | VBool false => Some "false"%string
  | VNum n => Some (pretty n)
  | VStr s => Some s
  | VRef _ => None
  end.

(** ** Objects as ordered field lists *)

Fixpoint obj_get (k : string) (fs : list (string * val)) : option val :=
  match fs with
  | [] => None
  | (k', v) :: fs' => if decide (k = k') then Some v else obj_get k fs'
  end.

(** A field list is in the order in which the object enumerates its
    own keys: the array indices first, in ascending order, then the
    other keys in the order in which they were added. *)

Definition digit (c : ascii) : option N :=
  let n := N_of_ascii c in
  if ((48 <=? n) && (n <=? 57))%N then Some (n - 48)%N else None.

Fixpoint numeral (l : list ascii) (acc : N) : option N :=
  match l with
  | [] => Some acc
  | c :: l' =>
      match digit c with
      | Some d => numeral l' (10 * acc + d)%N
      | None => None
      end
  end.

(** The array index that a key is, when it is one: a decimal numeral
    with no leading zero, below [2^32 - 1]. *)
Definition index_of (k : string) : option N :=
  match list_ascii_of_string k with
  | [] => None
  | c :: l =>
      if bool_decide (c = "0"%char) && negb (bool_decide (l = [])) then None
      else match numeral (c :: l) 0 with
           | Some n => if (n <? 4294967295)%N then Some n else None
           | None => None
           end
  end.

(** A new key [k] is enumerated before the key [k'] that is there. *)
Definition before (k k' : string) : bool :=
  match index_of k, index_of k' with
  | Some i, Some j => (i <? j)%N
  | Some _, None => true
  | None, _ => false
  end.

(** [o[k] = v] on the field list: replace in place; a new key goes
    to its place among the array indices when it is one, and to the
    end otherwise. *)
Fixpoint obj_set (k : string) (v : val) (fs : list (string * val))
  : list (string * val) :=
  match fs with
  | [] => [(k, v)]
  | (k', v') :: fs' =>
      if decide (k = k') then (k, v) :: fs'
      else if before k k' && negb (bool_decide (k ∈ map fst fs'))
           then (k, v) :: (k', v') :: fs'
           else (k', v') :: obj_set k v fs'
  end.

(** [o.k] on a field list: an absent property reads [undefined]. *)
Definition field (k : string) (fs : list (string * val)) : val :=
  default VUndef (obj_get k fs).

(** CopyDataProperties: for each own key of [src], in order, read
    [src[k]] and define it on [dst].  This is [{...dst, ...src}] and
    [Object.assign(dst, src)]. *)
Definition spread (dst src : list (string * val)) : list (string * val) :=
  fold_left (fun acc k => obj_set k (field k src) acc) (map fst src) dst.

Definition index_keys (vs : list val) : list (string * val) :=
  imap (fun i v => (pretty i, v)) vs.

Definition chars (s : string) : list val :=
  map (fun c => VStr (String c EmptyString)) (list_ascii_of_string s).

(** Own enumerable properties of a value in store [h]; [None] on a
    dangling address. *)
Definition own_props (h : list cell) (v : val)
  : option (list (string * val)) :=
  match v with
  | VUndef | VNull | VBool _ | VNum _ => Some []
  | VStr s => Some (index_keys (chars s))
  | VRef a =>
      match h !! a with
      | Some (CObj fs) => Some fs
      | Some (CArr vs) => Some (index_keys vs)
      | None => None
      end
  end.

(** [v.k] for the property names the parser reads ([$ref], [allOf],
    [type], [properties], [required], [title], [parentRefs]); none of
    them is an index, [length] or an inherited member, so arrays and
    primitives read [undefined]. *)
Definition getp (h : list cell) (v : val) (k : string) : outcome val :=
  match v with
  | VUndef | VNull => Throw TypeError
  | VBool _ | VNum _ | VStr _ => Ret VUndef
  | VRef a =>
      match h !! a with
      | Some (CObj fs) => Ret (field k fs)
      | Some (CArr _) => Ret VUndef
      | None => Halt Unmodelled
      end
  end.

(** Whether [v] is a Reference: it is truthy and its [$ref] is
    neither [undefined] nor [null]. *)
Definition is_reference (h : list cell) (v : val) : outcome bool :=
  if negb (truthy v) then Ret false
  else
    match getp h v "$ref" with
    | Ret r => Ret (negb (is_undef r) && negb (strict_eq r VNull))
    | Throw e => Throw e
    | Halt w => Halt w
    end.

(** The elements of [v] when it is an array. *)
Definition as_array (h : list cell) (v : val) : option (list val) :=
  match v with
  | VRef a => match h !! a with Some (CArr vs) => Some vs | _ => None end
  | _ => None
  end.

(* ================================================================== *)
(** * RefCounter                                                       *)
(* ================================================================== *)

(** [_counter] is an object literal used as a map from pointer
    strings to numbers, so a read goes through the prototype chain: a
    key the counter does not own reads [undefined], unless it is the
    name of a member of [Object.prototype] (such as [constructor]),
    where it reads that member.  [visit] and [exit] then compute with
    what they read: a member [+ 1] is a string, and a member or a
    string [- 1] is [NaN]. *)
Module RefCounter.

(** What a slot reads: [undefined], a number, [NaN], a member that
    the counter inherits from [Object.prototype] (a function, or the
    prototype itself under [__proto__]), or the string that [+ 1]
    makes of a member or of a string.  Such a string is the text of
    the member followed by ones: it is not empty and it is not a
    numeral. *)
Inductive slot : Type :=
  | Undefined
  | Num (n : Z)
  | NaN
  | Inherited
  | Text.

#[global] Instance slot_eq_dec : EqDecision slot.
Proof. solve_decision. Defined.

(** The names of the members of [Object.prototype]. *)
Definition members : list string :=
  ["constructor"; "__defineGetter__"; "__defineSetter__"; "hasOwnProperty";
   "__lookupGetter__"; "__lookupSetter__"; "isPrototypeOf";
   "propertyIsEnumerable"; "toString"; "valueOf"; "__proto__";
   "toLocaleString"]%string.

Definition inherited (ref : string) : bool := bool_decide (ref ∈ members).

(** [this._counter[ref]].  [__proto__] is an accessor of the
    prototype: the counter never owns it. *)
Definition read (c : gmap string slot) (ref : string) : slot :=
  if decide (ref = "__proto__"%string) then Inherited
  else match c !! ref with
       | Some v => v
       | None => if inherited ref then Inherited else Undefined
       end.

(** [this._counter[ref] = v] for a primitive [v]: the setter of
    [__proto__] ignores it, any other key becomes an own property. *)
Definition write (ref : string) (v : slot) (c : gmap string slot)
  : gmap string slot :=
  if decide (ref = "__proto__"%string) then c else <[ref := v]> c.

Definition truthy (v : slot) : bool :=
  match v with
  | Undefined | NaN => false
  | Num n => negb (n =? 0)
  | Inherited | Text => true
  end.

(** [v + 1] *)
Definition add1 (v : slot) : slot :=
  match v with
  | Num n => Num (n + 1)
  | Undefined | NaN => NaN
  | Inherited | Text => Text
  end.

(** [v - 1] *)
Definition sub1 (v : slot) : slot :=
  match v with
  | Num n => Num (n - 1)
  | Undefined | NaN | Inherited | Text => NaN
  end.

Definition reset : gmap string slot := ∅.

(** [this._counter[ref] = this._counter[ref] ? this._counter[ref] + 1 : 1] *)
Definition visit (ref : string) (c : gmap string slot) : gmap string slot :=
  write ref (if truthy (read c ref) then add1 (read c ref) else Num 1) c.

(** [this._counter[ref] = this._counter[ref] && this._counter[ref] - 1] *)
Definition exit (ref : string) (c : gmap string slot) : gmap string slot :=
  write ref (if truthy (read c ref) then sub1 (read c ref) else read c ref) c.

(** [!!this._counter[ref]] *)
Definition visited (ref : string) (c : gmap string slot) : bool :=
  truthy (read c ref).

(** The logical value of a slot: the number it holds; [undefined],
    and anything else that is not a number, counts as zero. *)
Definition count (c : gmap string slot) (ref : string) : Z :=
  match read c ref with
  | Num n => n
  | _ => 0
  end.

(** The slot of [ref] holds a number or [undefined]. *)
Definition numeric (c : gmap string slot) (ref : string) : bool :=
  match read c ref with
  | Undefined | Num _ => true
  | _ => false
  end.

Inductive call : Type :=
  | Visit (ref : string)
  | Exit (ref : string)
  | Visited (ref : string).

Definition step (c : gmap string slot) (o : call) : gmap string slot :=
  match o with
  | Visit r => visit r c
  | Exit r => exit r c
  | Visited _ => c
  end.

Definition run (calls : list call) (c : gmap string slot)
  : gmap string slot :=
  fold_left step calls c.

(** No slot holds a negative number. *)
Definition wf (c : gmap string slot) : Prop :=
  ∀ ref, 0 <= count c ref.

(** Only the names of the members of [Object.prototype] have a slot
    that holds something else than a number or [undefined]. *)
Definition tidy (c : gmap string slot) : Prop :=
  ∀ ref, inherited ref = false -> numeric c ref = true.

End RefCounter.

(* ================================================================== *)
(** * The state of a parser and its computations                       *)
(* ================================================================== *)

Record state : Type := State {
  heap : list cell;
  refCounter : gmap string RefCounter.slot;
}.

Definition M (A : Type) : Type := state -> outcome A * state.

Definition ret {A} (a : A) : M A := fun s => (Ret a, s).
Definition throw {A} (e : error) : M A := fun s => (Throw e, s).
Definition stop {A} (w : halt) : M A := fun s => (Halt w, s).

Definition bind {A B} (m : M A) (k : A -> M B) : M B :=
  fun s =>
    match m s with
    | (Ret a, s') => k a s'
    | (Throw e, s') => (Throw e, s')
    | (Halt w, s') => (Halt w, s')
    end.

Notation "'let!' x ':=' m 'in' k" := (bind m (fun x => k))
  (at level 10, x pattern, m at level 100, k at level 200).
Notation "m ';;;' k" := (bind m (fun _ => k))
  (at level 100, k at level 200, right associativity).

Fixpoint map_each {A B} (f : A -> M B) (l : list A) : M (list B) :=
  match l with
  | [] => ret []
  | x :: l' =>
      let! y := f x in
      let! ys := map_each f l' in
      ret (y :: ys)
  end.

(** Lift a pure read of the store. *)
Definition reading {A} (f : list cell -> outcome A) : M A :=
  fun s => (f (heap s), s).

Definition get_prop (v : val) (k : string) : M val :=
  reading (fun h => getp h v k).

Definition props_of (v : val) : M (list (string * val)) :=
  reading (fun h =>
    match own_props h v with
    | Some fs => Ret fs
    | None => Halt Unmodelled
    end).

(** A fresh object or array. *)
Definition alloc (c : cell) : M val :=
  fun s => (Ret (VRef (length (heap s))),
            State (heap s ++ [c]) (refCounter s)).

(** [o.k = v] (module code is strict: a primitive base throws). *)
Definition set_prop (o : val) (k : string) (v : val) : M unit :=
  fun s =>
    match o with
    | VRef a =>
        match heap s !! a with
        | Some (CObj fs) =>
            (Ret tt, State (<[a := CObj (obj_set k v fs)]> (heap s))
                           (refCounter s))
        | _ => (Halt Unmodelled, s)
        end
    | _ => (Throw TypeError, s)
    end.

(** [o.push(...items)]: only an array has a callable [push]. *)
Definition array_push (o : val) (items : list val) : M unit :=
  fun s =>
    match o with
    | VRef a =>
        match heap s !! a with
        | Some (CArr vs) =>
            (Ret tt, State (<[a := CArr (vs ++ items)]> (heap s))
                           (refCounter s))
        | Some (CObj _) => (Throw TypeError, s)
        | None => (Halt Unmodelled, s)
        end
    | _ => (Throw TypeError, s)
    end.

(** The elements [...v] iterates over: an array or a string; any
    other value is not iterable. *)
Definition iterate (v : val) : M (list val) :=
  reading (fun h =>
    match v with
    | VStr s => Ret (chars s)
    | VRef a =>
        match h !! a with
        | Some (CArr vs) => Ret vs
        | Some (CObj _) => Throw TypeError
        | None => Halt Unmodelled
        end
    | _ => Throw TypeError
    end).

(** The elements of [v] for an array method ([map], [find]) to walk;
    on anything but an array the method is missing and the call
    throws. *)
Definition array_elems (v : val) : M (list val) :=
  reading (fun h =>
    match v with
    | VRef a =>
        match h !! a with
        | Some (CArr vs) => Ret vs
        | Some (CObj _) => Throw TypeError
        | None => Halt Unmodelled
        end
    | _ => Throw TypeError
    end).

(** [base.concat(arg)]: a fresh array for an array base (an array
    argument is flattened one level), a string for a string base. *)
Definition js_concat (base arg : val) : M val :=
  fun s =>
    match base with
    | VStr b =>
        match to_string arg with
        | Some t => (Ret (VStr (b +:+ t)), s)
        | None => (Halt Unmodelled, s)
        end
    | VRef a =>
        match heap s !! a with
        | Some (CArr xs) =>
            match arg with
            | VRef a' =>
                match heap s !! a' with
                | Some (CArr ys) => alloc (CArr (xs ++ ys)) s
                | Some (CObj _) => alloc (CArr (xs ++ [arg])) s
                | None => (Halt Unmodelled, s)
                end
            | _ => alloc (CArr (xs ++ [arg])) s
            end
        | Some (CObj _) => (Throw TypeError, s)
        | None => (Halt Unmodelled, s)
        end
    | _ => (Throw TypeError, s)
    end.

(** The key a value names in [_counter]. *)
Definition to_key (v : val) : M string :=
  match to_string v with
  | Some k => ret k
  | None => stop Unmodelled
  end.

Definition rc_visited (ref : val) : M bool :=
  let! k := to_key ref in
  fun s => (Ret (RefCounter.visited k (refCounter s)), s).

Definition rc_visit (ref : val) : M unit :=
  let! k := to_key ref in
  fun s => (Ret tt, State (heap s) (RefCounter.visit k (refCounter s))).

Definition rc_exit (ref : val) : M unit :=
  let! k := to_key ref in
  fun s => (Ret tt, State (heap s) (RefCounter.exit k (refCounter s))).

(* ================================================================== *)
(** * decodeURIComponent                                               *)
(* ================================================================== *)

Definition hex_digit (c : ascii) : option N :=
  let n := N_of_ascii c in
  if ((48 <=? n) && (n <=? 57))%N then Some (n - 48)%N
  else if ((65 <=? n) && (n <=? 70))%N then Some (n - 55)%N
  else if ((97 <=? n) && (n <=? 102))%N then Some (n - 87)%N
  else None.

Definition hex_byte (c1 c2 : ascii) : option N :=
  match hex_digit c1, hex_digit c2 with
  | Some h, Some l => Some (16 * h + l)%N
  | _, _ => None
  end.

(** How many octets a UTF-8 sequence led by [b] has; [None] for a
    continuation octet or an octet that leads nothing. *)
Definition utf8_length (b : N) : option nat :=
  if (b <? 128)%N then Some 1%nat
  else if (b <? 192)%N then None
  else if (b <? 224)%N then Some 2%nat
  else if (b <? 240)%N then Some 3%nat
  else if (b <? 248)%N then Some 4%nat
  else None.

Definition is_continuation (b : N) : bool := ((128 <=? b) && (b <? 192))%N.

(** Well-formed sequences of the Unicode standard: no overlong form,
    no surrogate, nothing above U+10FFFF. *)
Definition utf8_ok (octets : list N) : bool :=
  match octets with
  | b0 :: b1 :: _ =>
      if (b0 <? 194)%N then false
      else if (b0 =? 224)%N then (160 <=? b1)%N
      else if (b0 =? 237)%N then (b1 <? 160)%N
      else if (b0 =? 240)%N then (144 <=? b1)%N
      else if (b0 =? 244)%N then (b1 <? 144)%N
      else (b0 <? 244)%N
  | _ => false
  end.

(** One pass over the characters.  [need] continuation escapes are
    still due for the sequence whose octets so far are [pend]. *)
Fixpoint decode_from (l : list ascii) (need : nat) (pend : list N)
  : option (list ascii) :=
  match l with
  | [] => match need with O => Some [] | S _ => None end
  | c :: rest =>
      if decide (c = "%"%char) then
        match rest with
        | c1 :: c2 :: rest' =>
            match hex_byte c1 c2 with
            | None => None
            | Some b =>
                match need with
                | O =>
                    match utf8_length b with
                    | Some 1%nat =>
                        option_map (cons (ascii_of_N b)) (decode_from rest' O [])
                    | Some (S n) => decode_from rest' n [b]
                    | _ => None
                    end
                | S n =>
                    if is_continuation b then
                      match n with
                      | O =>
                          if utf8_ok (pend ++ [b]) then
                            option_map (app (map ascii_of_N (pend ++ [b])))
                                       (decode_from rest' O [])
                          else None
                      | S _ => decode_from rest' n (pend ++ [b])
                      end
                    else None
                end
            end
        | _ => None
        end
      else
        match need with
        | O => option_map (cons c) (decode_from rest O [])
        | S _ => None
        end
  end.

(** [decodeURIComponent s]; [None] stands for the URIError. *)
Definition decodeURIComponent (s : string) : option string :=
  option_map string_of_list_ascii (decode_from (list_ascii_of_string s) O []).

(* ================================================================== *)
(** * OpenAPIParser                                                    *)
(* ================================================================== *)

Section Parser.

(** The helpers of [utils/JsonPointer] and [utils/openapi] are taken
    as given.  [JsonPointer_get h root p] is [JsonPointer.get(root, p)]
    in store [h], with [None] when the call throws;
    [JsonPointer_baseName p] is a name, or [None] for [undefined]. *)
Variable JsonPointer_get : list cell -> val -> string -> option val.
Variable isNamedDefinition : val -> bool.
Variable JsonPointer_baseName : val -> option string.

(** [this.spec] *)
Variable spec : val.

(** [receiver.title = JsonPointer.baseName(pointer)] *)
Definition base_title (pointer : val) : val :=
  match JsonPointer_baseName pointer with
  | Some name => VStr name
  | None => VUndef
  end.

Definition byRef (ref : val) : M val :=
  if is_undef spec then ret VUndef
  else
    match ref with
    | VStr r =>
        let r1 := if bool_decide (String.get 0 r = Some "#"%char)
                  then r else ("#" +:+ r)%string in
        match decodeURIComponent r1 with
        | None => throw URIError
        | Some r2 =>
            reading (fun h =>
              match JsonPointer_get h spec r2 with
              | Some res => Ret res
              | None => Ret VUndef
              end)
        end
    | _ => throw TypeError
    end.

Definition isRef (obj : val) : M bool :=
  if negb (truthy obj) then ret false
  else
    let! r := get_prop obj "$ref" in
    ret (negb (is_undef r) && negb (strict_eq r VNull)).

Definition resetVisited : M unit :=
  fun s => (Ret tt, State (heap s) RefCounter.reset).

Definition exitRef (ref : val) : M unit :=
  let! b := isRef ref in
  if negb b then ret tt
  else
    let! r := get_prop ref "$ref" in
    rc_exit r.

(** [Object.assign({}, resolved, { 'x-circular-ref': true })] *)
Definition circular_copy (resolved : val) : M val :=
  let! fs := props_of resolved in
  alloc (CObj (spread (spread [] fs) [("x-circular-ref"%string, VBool true)])).

Fixpoint deref (fuel : nat) (obj : val) (forceCircular : bool) : M val :=
  match fuel with
  | O => stop OutOfFuel
  | S fuel' =>
      let! b := isRef obj in
      if b then
        let! r := get_prop obj "$ref" in
        let! resolved := byRef r in
        let! visited := rc_visited r in
        rc_visit r;;;
        if visited && negb forceCircular then
          circular_copy resolved
        else
          let! b' := isRef resolved in
          if b' then
            let! res := deref fuel' resolved false in
            exitRef resolved;;;
            ret res
          else ret resolved
      else ret obj
  end.

(** The callback of [schema.allOf.map]; [merge] is the recursive
    call. *)
Definition map_branch (merge : val -> val -> M val) (dfuel : nat)
    (receiver : val) (forceCircular : bool) (subSchema : val)
  : M (val * val) :=
  let! resolved := deref dfuel subSchema forceCircular in
  let! sr := get_prop subSchema "$ref" in
  let subRef := js_or sr VUndef in
  let! subMerged := merge resolved subRef in
  let! rp := get_prop receiver "parentRefs" in
  let! sp := get_prop subMerged "parentRefs" in
  let! src := (if truthy sp then ret sp else alloc (CArr [])) in
  let! items := iterate src in
  array_push rp items;;;
  ret (subRef, subMerged).

(** The loop over [allOfSchemas], one definition for each statement
    of its body. *)

(** The text of the error: the pointer between double quotes. *)
Definition dquote : string := String (ascii_of_nat 34) EmptyString.

Definition type_conflict_message (p : string) : string :=
  "Uncopatible types in allOf at " +:+ dquote +:+ p +:+ dquote.

(** The guard: both declare a [type] and the two differ. *)
Definition check_types (ref receiver subSchema : val) : M unit :=
  let! rt := get_prop receiver "type" in
  let! bt := get_prop subSchema "type" in
  if negb (strict_eq rt bt) && negb (is_undef rt) && negb (is_undef bt) then
    match to_string ref with
    | Some p =>
        throw (Error (type_conflict_message p))
    | None => stop Unmodelled
    end
  else ret tt.

Definition merge_type (receiver subSchema : val) : M unit :=
  let! bt := get_prop subSchema "type" in
  if negb (is_undef bt) then set_prop receiver "type" bt else ret tt.

Definition merge_properties (receiver subSchema : val) : M unit :=
  let! bp := get_prop subSchema "properties" in
  if negb (is_undef bp) then
    let! rp := get_prop receiver "properties" in
    let! base := (if truthy rp then ret rp else alloc (CObj [])) in
    let! fr := props_of base in
    let! fb := props_of bp in
    let! o := alloc (CObj (spread (spread [] fr) fb)) in
    set_prop receiver "properties" o
  else ret tt.

Definition merge_required (receiver subSchema : val) : M unit :=
  let! bq := get_prop subSchema "required" in
  if negb (is_undef bq) then
    let! rq := get_prop receiver "required" in
    let! base := (if truthy rq then ret rq else alloc (CArr [])) in
    let! q := js_concat base bq in
    set_prop receiver "required" q
  else ret tt.

(** [receiver = { ...subSchema, ...receiver }] *)
Definition merge_rest (receiver subSchema : val) : M val :=
  let! fb := props_of subSchema in
  let! fr := props_of receiver in
  alloc (CObj (spread (spread [] fb) fr)).

(** [if (subSchemaRef) { ... }] *)
Definition note_parent (receiver subSchemaRef : val) : M unit :=
  if truthy subSchemaRef then
    let! rp := get_prop receiver "parentRefs" in
    array_push rp [subSchemaRef];;;
    let! t := get_prop receiver "title" in
    if is_undef t && isNamedDefinition subSchemaRef then
      set_prop receiver "title" (base_title subSchemaRef)
    else ret tt
  else ret tt.

(** The body of the loop; returns the receiver of the next round. *)
Definition fold_branch (ref : val) (receiver : val) (branch : val * val)
  : M val :=
  let subSchemaRef := branch.1 in
  let subSchema := branch.2 in
  check_types ref receiver subSchema;;;
  merge_type receiver subSchema;;;
  merge_properties receiver subSchema;;;
  merge_required receiver subSchema;;;
  let! receiver' := merge_rest receiver subSchema in
  note_parent receiver' subSchemaRef;;;
  ret receiver'.

Fixpoint fold_branches (ref : val) (receiver : val)
    (branches : list (val * val)) : M val :=
  match branches with
  | [] => ret receiver
  | b :: rest =>
      let! receiver' := fold_branch ref receiver b in
      fold_branches ref receiver' rest
  end.

(** The receiver and [allOfSchemas]: the first half of [mergeAllOf],
    with [merge] for the recursive call. *)
Definition collect_branches (merge : val -> val -> M val) (dfuel : nat)
    (schema allOf : val) (forceCircular : bool)
  : M (val * list (val * val)) :=
  let! fs := props_of schema in
  let! parentRefs := alloc (CArr []) in
  let! receiver :=
    alloc (CObj (obj_set "parentRefs" parentRefs
                   (obj_set "allOf" VUndef (spread [] fs)))) in
  let! subs := array_elems allOf in
  let! allOfSchemas :=
    map_each (map_branch merge dfuel receiver forceCircular) subs in
  ret (receiver, allOfSchemas).

(** "name of definition or title on top level" *)
Definition name_top_level (schema ref receiver : val) : M unit :=
  let! t := get_prop schema "title" in
  if is_undef t && isNamedDefinition ref then
    set_prop receiver "title" (base_title ref)
  else ret tt.

Fixpoint mergeAllOf (fuel : nat) (schema : val) (ref : val)
    (forceCircular : bool) : M val :=
  match fuel with
  | O => stop OutOfFuel
  | S fuel' =>
      let! allOf := get_prop schema "allOf" in
      if is_undef allOf then ret schema
      else
        let! collected :=
          collect_branches
            (fun resolved subRef =>
               mergeAllOf fuel' resolved subRef forceCircular)
            fuel' schema allOf forceCircular in
        let! receiver := fold_branches ref collected.1 collected.2 in
        name_top_level schema ref receiver;;;
        ret receiver
  end.

(** [obj => obj.$ref !== undefined && $refs.indexOf(obj.$ref) > -1] *)
Definition refers_to (refs : list string) (obj : val) : M bool :=
  let! r := get_prop obj "$ref" in
  ret (negb (is_undef r) &&
       match r with
       | VStr p => bool_decide (p ∈ refs)
       | _ => false
       end).

(** [arr.find(p)] over the elements of the array. *)
Fixpoint findM (p : val -> M bool) (l : list val) : M val :=
  match l with
  | [] => ret VUndef
  | x :: l' =>
      let! b := p x in
      if b then ret x else findM p l'
  end.

(** One round of the loop over the definition names; [schemas] are
    the properties of the object the loop walks. *)
Definition derived_step (fuel : nat) (refs : list string) (res : val)
    (schemas : list (string * val)) (defName : string) : M unit :=
  let! def := deref fuel (field defName schemas) false in
  let! allOf := get_prop def "allOf" in
  if negb (is_undef allOf) then
    let! elems := array_elems allOf in
    let! found := findM (refers_to refs) elems in
    if truthy found then
      set_prop res ("#/components/schemas/" +:+ defName) (VStr defName)
    else ret tt
  else ret tt.

Fixpoint for_in (body : string -> M unit) (keys : list string) : M unit :=
  match keys with
  | [] => ret tt
  | k :: keys' => body k;;; for_in body keys'
  end.

(** [(this.spec.components && this.spec.components.schemas) || {}],
    as the properties the loop walks. *)
Definition definitions : M (list (string * val)) :=
  let! components := get_prop spec "components" in
  let! inner :=
    (if truthy components then get_prop components "schemas"
     else ret components) in
  let! dict := (if truthy inner then ret inner else alloc (CObj [])) in
  props_of dict.

Definition findDerived (fuel : nat) (refs : list string) : M val :=
  let! res := alloc (CObj []) in
  let! schemas := definitions in
  for_in (derived_step fuel refs res schemas) (map fst schemas);;;
  ret res.

(** The definition [defName] is derived from one of [refs] when it is
    dereferenced in state [s]: the value [deref] returns declares an
    [allOf] array with an element whose [$ref] is in [refs]. *)
Definition derived_at (fuel : nat) (refs : list string)
    (schemas : list (string * val)) (s : state) (defName : string) : Prop :=
  exists (def allOf obj : val) (s1 : state) (elems : list val) (r : string),
    deref fuel (field defName schemas) false s = (Ret def, s1) /\
    getp (heap s1) def "allOf" = Ret allOf /\ allOf <> VUndef /\
    as_array (heap s1) allOf = Some elems /\
    obj ∈ elems /\ getp (heap s1) obj "$ref" = Ret (VStr r) /\ r ∈ refs.

(** The definition [d], as it stands in store [h], declares an
    [allOf] array with an element whose [$ref] is in [refs]. *)
Definition derives (h : list cell) (refs : list string) (d : val) : Prop :=
  exists (allOf obj : val) (elems : list val) (r : string),
    getp h d "allOf" = Ret allOf /\ allOf <> VUndef /\
    as_array h allOf = Some elems /\
    obj ∈ elems /\ getp h obj "$ref" = Ret (VStr r) /\ r ∈ refs.

(** The state in which the loop reaches its [i]-th definition. *)
Definition round_state (fuel : nat) (refs : list string) (res : val)
    (schemas : list (string * val)) (s : state) (i : nat) : state :=
  (for_in (derived_step fuel refs res schemas)
          (take i (map fst schemas)) s).2.

(** ** Chains of references

    What [byRef] returns for a pointer string in store [h], when it
    returns: the node found, or [undefined] when the lookup failed;
    [None] when the pointer is not a percent-encoding. *)
Definition normalize (r : string) : string :=
  if bool_decide (String.get 0 r = Some "#"%char) then r else ("#" +:+ r)%string.

Definition resolve (h : list cell) (r : string) : option val :=
  if is_undef spec then Some VUndef
  else
    match decodeURIComponent (normalize r) with
    | Some r2 => Some (default VUndef (JsonPointer_get h spec r2))
    | None => None
    end.

(** The pointer of [v] when [v] is a Reference with a string [$ref]. *)
Definition ref_of (h : list cell) (v : val) : option string :=
  match getp h v "$ref" with
  | Ret (VStr r) => Some r
  | _ => None
  end.

(** The pointer that the node at [r] holds, when that node is a
    Reference. *)
Definition next (h : list cell) (r : string) : option string :=
  match resolve h r with
  | Some node => ref_of h node
  | None => None
  end.

(** The pointer reached from [r] after [k] References. *)
Fixpoint chain (h : list cell) (r : string) (k : nat) : option string :=
  match k with
  | O => Some r
  | S k' =>
      match next h r with
      | Some r' => chain h r' k'
      | None => None
      end
  end.

(** Following References from [r], a pointer that is marked visited
    comes up within [n] steps, each step marking its own pointer. *)
Fixpoint hits (h : list cell) (n : nat) (r : string)
    (c : gmap string RefCounter.slot) : Prop :=
  exists r', next h r = Some r' /\
    (RefCounter.visited r c = true \/
     match n with
     | O => False
     | S n' => hits h n' r' (RefCounter.visit r c)
     end).

(** A caller's use of the parser: any sequence of calls, each run in
    the state the one before left, whether it returned or threw. *)
Inductive request : Type :=
  | Deref (obj : val) (forceCircular : bool)
  | MergeAllOf (schema ref : val) (forceCircular : bool)
  | FindDerived (refs : list string).

Definition perform (fuel : nat) (q : request) : M val :=
  match q with
  | Deref obj forceCircular => deref fuel obj forceCircular
  | MergeAllOf schema ref forceCircular =>
      mergeAllOf fuel schema ref forceCircular
  | FindDerived refs => findDerived fuel refs
  end.

Definition session (fuel : nat) (qs : list request) (s : state) : state :=
  fold_left (fun s q => (perform fuel q s).2) qs s.

(** The pointers [rs] are those met, in order, when following
    References from the node at [r]. *)
Fixpoint follows (h : list cell) (r : string) (rs : list string) : Prop :=
  match rs with
  | [] => True
  | r' :: rs' => next h r = Some r' /\ follows h r' rs'
  end.

(** Following References from [r] in counter [c], each step marking
    its own pointer: the pointers [rs] are met in turn, none read
    visited before the last of them, [rl], which does; [rl] is [r]
    itself when [rs] is empty. *)
Fixpoint stops_at (h : list cell) (rs : list string) (r : string)
    (c : gmap string RefCounter.slot) (rl : string) : Prop :=
  match rs with
  | [] => r = rl /\ RefCounter.visited r c = true
  | r' :: rs' =>
      RefCounter.visited r c = false /\ next h r = Some r' /\
      stops_at h rs' r' (RefCounter.visit r c) rl
  end.

(** Every public method that reads or writes [_refCounter], in any
    order. *)
Inductive operation : Type :=
  | Call (q : request)
  | ExitRef (ref : val)
  | ResetVisited.

Definition apply_operation (fuel : nat) (o : operation) (s : state) : state :=
  match o with
  | Call q => (perform fuel q s).2
  | ExitRef ref => (exitRef ref s).2
  | ResetVisited => (resetVisited s).2
  end.

Definition play (fuel : nat) (os : list operation) (s : state) : state :=
  fold_left (fun s o => apply_operation fuel o s) os s.

End Parser.

(* ================================================================== *)
(** * Construction                                                     *)
(* ================================================================== *)

Section Construction.

(** What the constructor takes from outside this file:
    [this.options.noAutoAuth]; whether the regular expression built
    from [COMPONENT_REGEXP] for [<security-definitions>] matches a
    text; [buildComponentComment('security-definitions')];
    [appendToMdHeading]; [isBrowser], [window.location.href] and
    [url.resolve]. *)
Variable noAutoAuth : bool.
Variable securityRegexp_test : string -> bool.
Variable security_comment : string.
Variable appendToMdHeading : string -> string -> string -> string.
Variable isBrowser : bool.
Variable location_href : string.
Variable urlResolve : string -> string -> string.

Definition validate (spec : val) : M unit :=
  let! openapi := get_prop spec "openapi" in
  if is_undef openapi then
    throw (Error "Document must be valid OpenAPI 3.0.0 definition")
  else ret tt.

(** The description is a string, or falsy and then replaced by the
    empty string; no other value is modelled. *)
Definition preprocess (spec : val) : M unit :=
  if noAutoAuth then ret tt
  else
    let! info := get_prop spec "info" in
    if negb (truthy info) then ret tt
    else
      let! components := get_prop spec "components" in
      if negb (truthy components) then ret tt
      else
        let! securitySchemes := get_prop components "securitySchemes" in
        if negb (truthy securitySchemes) then ret tt
        else
          let! d := get_prop info "description" in
          match js_or d (VStr EmptyString) with
          | VStr description =>
              if securityRegexp_test description then ret tt
              else
                set_prop info "description"
                  (VStr (appendToMdHeading description "Authentication"
                           security_comment))
          | _ => stop Unmodelled
          end.

(** [new OpenAPIParser(spec, specUrl, options)]: the field
    initializer gives the parser a new counter; the result is
    [this.spec] and [this.specUrl]. *)
Definition construct (spec specUrl : val) : M (val * string) :=
  (fun s => (Ret tt, State (heap s) RefCounter.reset));;;
  validate spec;;;
  preprocess spec;;;
  let href := if isBrowser then location_href else EmptyString in
  match specUrl with
  | VStr u => ret (spec, urlResolve href u)
  | _ => ret (spec, href)
  end.

End Construction.

(* ================================================================== *)
(** * The helpers outside this file                                    *)
(* ================================================================== *)

Module Utils.

Fixpoint split_slash (l cur : list ascii) : list string :=
  match l with
  | [] => [string_of_list_ascii (rev cur)]
  | c :: l' =>
      if decide (c = "/"%char)
      then string_of_list_ascii (rev cur) :: split_slash l' []
      else split_slash l' (c :: cur)
  end.

(** Modelled from the spec: the path segments of a pointer, which is
    [utils/JsonPointer]'s [parse]: "a slash-delimited path from the
    root" after the fragment marker; [None] for a malformed pointer. *)
Definition parse (p : string) : option (list string) :=
  let l := list_ascii_of_string p in
  let l := match l with
           | c :: l' => if decide (c = "#"%char) then l' else l
           | [] => l
           end in
  match l with
  | [] => Some []
  | c :: l' => if decide (c = "/"%char) then Some (split_slash l' []) else None
  end.

Definition step_into (h : list cell) (v : val) (tok : string) : option val :=
  match v with
  | VRef a =>
      match h !! a with
      | Some (CObj fs) => obj_get tok fs
      | Some (CArr vs) => obj_get tok (index_keys vs)
      | None => None
      end
  | _ => None
  end.

Fixpoint walk (h : list cell) (v : val) (toks : list string) : option val :=
  match toks with
  | [] => Some v
  | t :: ts =>
      match step_into h v t with
      | Some v' => walk h v' ts
      | None => None
      end
  end.

(** Modelled from the spec: [utils/JsonPointer]'s [get], the
    PointerResolver: "walks the pointer's path segments through the
    document tree; a missing key, missing index, or type mismatch
    (e.g., indexing into a scalar) fails". *)
Definition get (h : list cell) (root : val) (p : string) : option val :=
  match parse p with
  | Some toks => walk h root toks
  | None => None
  end.

Fixpoint strip_prefix (pre l : list ascii) : option (list ascii) :=
  match pre, l with
  | [], _ => Some l
  | c :: pre', d :: l' => if decide (c = d) then strip_prefix pre' l' else None
  | _ :: _, [] => None
  end.

(** Modelled from the spec: [utils/openapi]'s [isNamedDefinition]: the
    pointer "names a first-class reusable definition", a top-level
    entry [#/components/schemas/<name>]. *)
Definition isNamedDefinition (pointer : val) : bool :=
  match pointer with
  | VStr p =>
      match strip_prefix (list_ascii_of_string "#/components/schemas/")
                         (list_ascii_of_string p) with
      | Some name =>
          negb (bool_decide (name = [])) &&
          negb (bool_decide ("/"%char ∈ name))
      | None => false
      end
  | _ => false
  end.

(** Modelled from the spec: [utils/JsonPointer]'s [baseName], "that
    definition's base name": the last segment of the pointer. *)
Definition baseName (pointer : val) : option string :=
  match pointer with
  | VStr p =>
      match parse p with
      | Some toks => last toks
      | None => None
      end
  | _ => None
  end.

End Utils.

(* ================================================================== *)
(** * Documents                                                        *)
(* ================================================================== *)

(** A parsed document before it is placed in the store. *)
#[warnings="-register-all"]
Inductive json : Type :=
  | JNull
  | JBool (b : bool)
  | JNum (n : Z)
  | JStr (s : string)
  | JArr (items : list json)
  | JObj (members : list (string * json)).

(** Place a document in the store, children first; returns its value
    and the grown store. *)
Fixpoint load (j : json) (h : list cell) : val * list cell :=
  match j with
  | JNull => (VNull, h)
  | JBool b => (VBool b, h)
  | JNum n => (VNum n, h)
  | JStr s => (VStr s, h)
  | JArr items =>
      let '(vs, h') :=
        (fix go (js : list json) (h : list cell) : list val * list cell :=
           match js with
           | [] => ([], h)
           | j :: js' =>
               let '(v, h1) := load j h in
               let '(vs, h2) := go js' h1 in
               (v :: vs, h2)
           end) items h in
      (VRef (length h'), h' ++ [CArr vs])
  | JObj members =>
      let '(fs, h') :=
        (fix go (ms : list (string * json)) (h : list cell)
           : list (string * val) * list cell :=
           match ms with
           | [] => ([], h)
           | (k, j) :: ms' =>
               let '(v, h1) := load j h in
               let '(fs, h2) := go ms' h1 in
               ((k, v) :: fs, h2)
           end) members h in
      (VRef (length h'), h' ++ [CObj fs])
  end.

(** ** Example documents *)

Module Examples.

Definition petstore : json :=
  JObj [("openapi", JStr "3.0.0");
        ("components", JObj [("schemas", JObj [
           ("Base", JObj [("type", JStr "object");
                          ("properties", JObj [("id", JObj [])]);
                          ("required", JArr [JStr "id"])]);
           ("Pet", JObj [("allOf", JArr [
              JObj [("$ref", JStr "#/components/schemas/Base")];
              JObj [("properties", JObj [("name", JObj [])]);
                    ("required", JArr [JStr "name"])]])]);
           ("Loop", JObj [("$ref", JStr "#/components/schemas/Loop")]);
           ("Alias", JObj [("$ref", JStr "#/components/schemas/Pet")]);
           ("Shape", JObj [("allOf", JArr [
              JObj [("type", JStr "object")];
              JObj [("type", JStr "object");
                    ("properties", JObj [("id", JObj [])]);
                    ("required", JArr [JStr "id"])]])])])]);
        ("viaAlias", JObj [("$ref", JStr "#/components/schemas/Alias")]);
        ("dangling", JObj [("$ref", JStr "#/components/schemas/Nope")]);
        ("malformed", JObj [("$ref", JStr "#/%")]);
        ("clash", JObj [("allOf", JArr [
              JObj [("type", JStr "object")];
              JObj [("type", JStr "string")]])])]%string.

(** The store holding the document, its root, and a parser state with
    a new counter. *)
Definition store : list cell := (load petstore []).2.
Definition root : val := (load petstore []).1.
Definition start : state := State store RefCounter.reset.

(** The node at a pointer of the document. *)
Definition at_ (p : string) : val := default VUndef (Utils.get store root p).

(** A receiver in the middle of a fold, and the next branch. *)
Definition merging : json :=
  JObj [("receiver", JObj [("type", JStr "object");
                           ("properties", JObj [("a", JObj [])]);
                           ("required", JArr [JStr "a"]);
                           ("description", JStr "the receiver");
                           ("parentRefs", JArr [])]);
        ("branch", JObj [("properties", JObj [("a", JObj [("x", JNum 1)]);
                                              ("b", JObj [])]);
                         ("required", JArr [JStr "a"; JStr "b"]);
                         ("description", JStr "the branch");
                         ("format", JStr "int32")])]%string.

Definition merging_state : state :=
  State (load merging []).2 RefCounter.reset.

Definition merging_at (p : string) : val :=
  default VUndef (Utils.get (load merging []).2 (load merging []).1 p).

(** Three generations: [Dog] extends [Pet], which extends [Base]. *)
Definition lineage : json :=
  JObj [("openapi", JStr "3.0.0");
        ("components", JObj [("schemas", JObj [
           ("Base", JObj [("type", JStr "object")]);
           ("Pet", JObj [("allOf", JArr [
              JObj [("$ref", JStr "#/components/schemas/Base")];
              JObj [("properties", JObj [("name", JObj [])])]])]);
           ("Dog", JObj [("allOf", JArr [
              JObj [("$ref", JStr "#/components/schemas/Pet")];
              JObj [("properties", JObj [("bark", JObj [])])]])])])])]%string.

Definition lineage_store : list cell := (load lineage []).2.
Definition lineage_root : val := (load lineage []).1.
Definition lineage_start : state := State lineage_store RefCounter.reset.

Definition lineage_at (p : string) : val :=
  default VUndef (Utils.get lineage_store lineage_root p).

(** A document with security schemes, a schema that declares more
    than its branches, and a schema whose [allOf] is empty. *)
Definition labelled : json :=
  JObj [("openapi", JStr "3.0.0");
        ("info", JObj [("title", JStr "Labelled");
                       ("description", JStr "An API.")]);
        ("components", JObj [
           ("schemas", JObj [
              ("Named", JObj [("type", JStr "object");
                              ("description", JStr "the base");
                              ("format", JStr "plain")]);
              ("Cat", JObj [("description", JStr "a cat");
                            ("type", JStr "object");
                            ("allOf", JArr [
                               JObj [("$ref",
                                      JStr "#/components/schemas/Named")];
                               JObj [("description", JStr "inline");
                                     ("type", JStr "object")]])]);
              ("Empty", JObj [("description", JStr "nothing to merge");
                              ("allOf", JArr [])])]);
           ("securitySchemes", JObj [("key", JObj [])])])]%string.

Definition labelled_store : list cell := (load labelled []).2.
Definition labelled_root : val := (load labelled []).1.
Definition labelled_start : state := State labelled_store RefCounter.reset.

Definition labelled_at (p : string) : val :=
  default VUndef (Utils.get labelled_store labelled_root p).

(** A schema that declares [required] and [properties] of its own,
    with two branches that declare them again. *)
Definition tagged : json :=
  JObj [("openapi", JStr "3.0.0");
        ("components", JObj [("schemas", JObj [
           ("Named", JObj [("type", JStr "object");
                           ("properties",
                            JObj [("name", JObj [("type", JStr "string")])]);
                           ("required", JArr [JStr "name"])]);
           ("Tagged", JObj [
              ("required", JArr [JStr "tag"]);
              ("properties",
               JObj [("tag", JObj []);
                     ("name", JObj [("maxLength", JNum 8)])]);
              ("allOf", JArr [
                 JObj [("$ref", JStr "#/components/schemas/Named")];
                 JObj [("required", JArr [JStr "name"; JStr "tag"]);
                       ("properties",
                        JObj [("tag",
                               JObj [("type", JStr "string")])])]])])])])]
  %string.

Definition tagged_store : list cell := (load tagged []).2.
Definition tagged_root : val := (load tagged []).1.
Definition tagged_start : state := State tagged_store RefCounter.reset.

Definition tagged_at (p : string) : val :=
  default VUndef (Utils.get tagged_store tagged_root p).

(** Two branches that declare the same keys, and a schema that
    declares neither. *)
Definition described : json :=
  JObj [("openapi", JStr "3.0.0");
        ("components", JObj [("schemas", JObj [
           ("Base", JObj [("description", JStr "the base");
                          ("format", JStr "plain")]);
           ("Both", JObj [
              ("allOf", JArr [
                 JObj [("$ref", JStr "#/components/schemas/Base")];
                 JObj [("description", JStr "inline");
                       ("format", JStr "fancy");
                       ("example", JNum 1)]])])])])]%string.

Definition described_store : list cell := (load described []).2.
Definition described_root : val := (load described []).1.
Definition described_start : state :=
  State described_store RefCounter.reset.

Definition described_at (p : string) : val :=
  default VUndef (Utils.get described_store described_root p).

(** A named schema with a title of its own, and two branches with
    titles. *)
Definition titled : json :=
  JObj [("openapi", JStr "3.0.0");
        ("components", JObj [("schemas", JObj [
           ("Animal", JObj [("title", JStr "An animal");
                            ("type", JStr "object")]);
           ("Pet", JObj [
              ("title", JStr "A pet");
              ("allOf", JArr [
                 JObj [("$ref", JStr "#/components/schemas/Animal")];
                 JObj [("title", JStr "inline")]])])])])]%string.

Definition titled_store : list cell := (load titled []).2.
Definition titled_root : val := (load titled []).1.
Definition titled_start : state := State titled_store RefCounter.reset.

Definition titled_at (p : string) : val :=
  default VUndef (Utils.get titled_store titled_root p).

(** Aliases of aliases, a [$ref] that is the name of a member of
    [Object.prototype], and a branch whose [$ref] is the empty
    string. *)
Definition aliased : json :=
  JObj [("openapi", JStr "3.0.0");
        ("components", JObj [("schemas", JObj [
           ("Base", JObj [("type", JStr "object")]);
           ("Pet", JObj [("allOf", JArr [
              JObj [("$ref", JStr "#/components/schemas/Base")];
              JObj [("properties", JObj [("name", JObj [])])]])]);
           ("Alias", JObj [("$ref", JStr "#/components/schemas/Pet")]);
           ("Via1", JObj [("$ref", JStr "#/components/schemas/Alias")]);
           ("Via2", JObj [("$ref", JStr "#/components/schemas/Alias")])])]);
        ("viaAlias", JObj [("$ref", JStr "#/components/schemas/Alias")]);
        ("viaVia", JObj [("$ref", JStr "#/viaAlias")]);
        ("odd", JObj [("$ref", JStr "constructor")]);
        ("blank", JObj [("allOf", JArr [
              JObj [("$ref", JStr EmptyString)]])])]%string.

Definition aliased_store : list cell := (load aliased []).2.
Definition aliased_root : val := (load aliased []).1.
Definition aliased_start : state := State aliased_store RefCounter.reset.

Definition aliased_at (p : string) : val :=
  default VUndef (Utils.get aliased_store aliased_root p).

(** A schema with a branch whose [$ref] is the name of a member of
    [Object.prototype]. *)
Definition strange : json :=
  JObj [("openapi", JStr "3.0.0");
        ("components", JObj [("schemas", JObj [
           ("Odd", JObj [("allOf", JArr [
              JObj [("$ref", JStr "constructor")];
              JObj [("type", JStr "object")]])])])])]%string.

Definition strange_store : list cell := (load strange []).2.
Definition strange_root : val := (load strange []).1.
Definition strange_start : state := State strange_store RefCounter.reset.

Definition strange_at (p : string) : val :=
  default VUndef (Utils.get strange_store strange_root p).

End Examples.

(* ================================================================== *)
(** * Predicates on stores and runs                                    *)
(* ================================================================== *)

(** Store [h'] is no shorter than [h] and agrees with it on every
    address of [h] that satisfies [P]. *)
Definition keeps (P : nat -> Prop) (h h' : list cell) : Prop :=
  (length h <= length h')%nat /\
  forall a : nat, P a -> (a < length h)%nat -> h' !! a = h !! a.

(** Every address. *)
Definition all : nat -> Prop := fun _ => True.

(** Every address but those listed. *)
Definition but (l : list nat) : nat -> Prop := fun a => a ∉ l.

(** Running [m] from [s] leaves the cells that satisfy [P] as they
    were, whatever the outcome, and a returned value satisfies [Q]. *)
Definition run_ok {A} (P : nat -> Prop) (m : M A) (s : state)
    (Q : A -> state -> Prop) : Prop :=
  keeps P (heap s) (heap (m s).2) /\
  match (m s).1 with
  | Ret a => Q a (m s).2
  | _ => True
  end.

(** [m] never changes the store. *)
Definition heap_same {A} (m : M A) : Prop :=
  forall s, heap (m s).2 = heap s.

(** The receiver of a merge in progress: an object at [r] whose
    [parentRefs] is the array at [p]. *)
Definition recv_inv (r p : nat) (h : list cell) : Prop :=
  exists fs xs, h !! r = Some (CObj fs) /\
    field "parentRefs" fs = VRef p /\ h !! p = Some (CArr xs).

(** Addresses below [n]. *)
Definition below (n : nat) : nat -> Prop := fun a => (a < n)%nat.

(** [v] is a primitive, or an address that satisfies [P]. *)
Definition val_in (P : nat -> Prop) (v : val) : Prop :=
  match v with
  | VRef a => P a
  | _ => True
  end.

(** The values a cell holds. *)
Definition cell_vals (c : cell) : list val :=
  match c with
  | CObj fs => map snd fs
  | CArr vs => vs
  end.

(** Every cell at an address that satisfies [P] is allocated and
    holds only primitives and addresses that satisfy [P]. *)
Definition closed (P : nat -> Prop) (h : list cell) : Prop :=
  forall a, P a ->
    exists c, h !! a = Some c /\ Forall (val_in P) (cell_vals c).

(** A lookup function finds only what can be reached from its root:
    in a part of the store that is closed, from a root in that part,
    it returns a value of that part. *)
Definition reaches (get : list cell -> val -> string -> option val) : Prop :=
  forall (P : nat -> Prop) (h : list cell) (root : val) (p : string) (v : val),
    closed P h -> val_in P root -> get h root p = Some v -> val_in P v.

(** Addresses that satisfy [P], and those from [n] up to [m]. *)
Definition grow (P : nat -> Prop) (n m : nat) : nat -> Prop :=
  fun a => P a \/ (n <= a < m)%nat.

(** [v] and, when [v] is an object, its [parentRefs] are primitives
    or addresses that satisfy [G]. *)
Definition pr_ok (G : nat -> Prop) (h : list cell) (v : val) : Prop :=
  val_in G v /\
  forall a fs, v = VRef a -> h !! a = Some (CObj fs) ->
    val_in G (field "parentRefs" fs).

(** What [...(subMerged.parentRefs || [])] spreads, read in store
    [h]. *)
Definition parent_items (h : list cell) (subMerged : val) : list val :=
  match getp h subMerged "parentRefs" with
  | Ret sp =>
      if truthy sp then
        match sp with
        | VStr t => chars t
        | _ => default [] (as_array h sp)
        end
      else []
  | _ => []
  end.

(** Every address a cell of the store holds is allocated. *)
Definition wf_store (h : list cell) : bool :=
  forallb (fun c =>
             forallb (fun v => match v with
                               | VRef a => bool_decide (a < length h)%nat
                               | _ => true
                               end) (cell_vals c)) h.

(** Addresses of [h] other than [r]. *)
Definition others (h : list cell) (r : nat) : nat -> Prop :=
  fun a => (a < length h)%nat /\ a <> r.

(** The pointers that the loop over [allOfSchemas] appends to
    [parentRefs]: those of the branches that came from a reference. *)
Definition direct_refs (bs : list (val * val)) : list val :=
  flat_map (fun b => if truthy b.1 then [b.1] else []) bs.

(** A definition that [findDerived] can examine as it stands in
    store [h]: a node that is not a Reference and whose [allOf], when
    declared, is an array of nodes that can be asked for their
    [$ref]. *)
Definition inline_schema (h : list cell) (d : val) : Prop :=
  is_reference h d = Ret false /\
  exists allOf, getp h d "allOf" = Ret allOf /\
    (allOf = VUndef \/
     exists elems, as_array h allOf = Some elems /\
       Forall (fun obj => exists r, getp h obj "$ref" = Ret r) elems).

(** Whatever [m] does without running out of fuel, [m'] does too. *)
Definition refines {A} (m m' : M A) : Prop :=
  forall (s s' : state) (o : outcome A),
    m s = (o, s') -> o <> Halt OutOfFuel -> m' s = (o, s').

(** A property of counters that a new counter has and that [visit]
    and [exit] keep. *)
Definition invariant (P : gmap string RefCounter.slot -> Prop) : Prop :=
  P RefCounter.reset /\
  (forall r c, P c -> P (RefCounter.visit r c)) /\
  (forall r c, P c -> P (RefCounter.exit r c)).

(** [m] changes the counter by [visit], by [exit] and by taking a new
    counter only: it keeps every property of counters that these
    keep, such as that no slot holds a negative number. *)
Definition counter_ok {A} (m : M A) : Prop :=
  forall P, invariant P ->
  forall s, P (refCounter s) -> P (refCounter (m s).2).

(** The field list [fs] has every key that [Want] asks for, with the
    value asked. *)
Definition has_fields (Want : string -> val -> Prop)
    (fs : list (string * val)) : Prop :=
  forall k x, Want k x -> obj_get k fs = Some x.

(** The guard of the merge loop lets a receiver of type [rt] and a
    branch of type [bt] pass. *)
Definition types_pass (rt bt : val) : Prop :=
  rt = bt \/ rt = VUndef \/ bt = VUndef.

(** [receiver.type] after the assignment of the loop. *)
Definition typed (bt : val) (fr : list (string * val))
  : list (string * val) :=
  if is_undef bt then fr else obj_set "type" bt fr.

(** The elements of [v || []] when it is an array. *)
Definition elements_of (h : list cell) (v : val) : option (list val) :=
  if truthy v then as_array h v else Some [].

(** The own fields of [v || {}]. *)
Definition fields_of (h : list cell) (v : val)
  : option (list (string * val)) :=
  if truthy v then own_props h v else Some [].

(** What [concat] appends for a branch [x]: nothing when [x.required]
    is [undefined], its elements when it is an array, and the value
    itself otherwise. *)
Definition required_items (h : list cell) (x : val) : list val :=
  match getp h x "required" with
  | Ret q =>
      if is_undef q then []
      else match as_array h q with
           | Some l => l
           | None => [q]
           end
  | _ => []
  end.

(** The fields of [receiver.properties] after a branch [x], from the
    fields [acc] before it. *)
Definition merged_properties (h : list cell) (acc : list (string * val))
    (x : val) : list (string * val) :=
  match getp h x "properties" with
  | Ret bp =>
      if is_undef bp then acc
      else match own_props h bp with
           | Some pb => spread (spread [] acc) pb
           | None => acc
           end
  | _ => acc
  end.

(** The value under key [k] of [receiver.properties] after a branch
    [x], from the value [acc] before it: the one the [properties] of
    the branch has for [k], when it has one. *)
Definition merged_property (k : string) (h : list cell) (acc : option val)
    (x : val) : option val :=
  match getp h x "properties" with
  | Ret bp =>
      if is_undef bp then acc
      else match own_props h bp with
           | Some pb =>
               match obj_get k pb with
               | Some v => Some v
               | None => acc
               end
           | None => acc
           end
  | _ => acc
  end.

(** Addresses below [n] other than [r] and [p]. *)
Definition old_but (n r p : nat) : nat -> Prop :=
  fun a => (a < n)%nat /\ a <> r /\ a <> p.

(** [x] is an object of store [h] other than the receiver [r] and
    its [parentRefs] [p], and holds neither of them. *)
Definition apart (h : list cell) (r p : nat) (x : val) : Prop :=
  exists (ab : nat) (fb : list (string * val)),
    x = VRef ab /\ old_but (length h) r p ab /\
    h !! ab = Some (CObj fb) /\
    Forall (val_in (old_but (length h) r p)) (map snd fb).

(** How many times the pointer [x] is listed in [l]. *)
Definition listed (x : string) (l : list val) : Z :=
  Z.of_nat (length (filter (fun v => v = VStr x) l)).

(** A value that [$ref] holds in a document: none, or a pointer that
    is not the empty string. *)
Definition ref_value (v : val) : Prop :=
  v = VUndef \/ v = VNull \/ exists p, v = VStr p /\ p <> EmptyString.

(** The first [n] cells of store [h] are a document as a parser is
    given one: no object declares [parentRefs], and [$ref] holds a
    pointer wherever it is declared. *)
Definition plain (n : nat) (h : list cell) : Prop :=
  forall a fs, (a < n)%nat -> h !! a = Some (CObj fs) ->
    field "parentRefs" fs = VUndef /\ ref_value (field "$ref" fs).

(** The same, decided cell by cell. *)
Definition plain_store (h : list cell) : bool :=
  forallb (fun c =>
             match c with
             | CObj fs =>
                 is_undef (field "parentRefs" fs) &&
                 match field "$ref" fs with
                 | VUndef | VNull => true
                 | VStr p => negb (bool_decide (p = EmptyString))
                 | _ => false
                 end
             | CArr _ => true
             end) h.

(** [v], when it is an object of [h], declares no [parentRefs] and
    its [allOf] is in the first [n] cells. *)
Definition clean (n : nat) (h : list cell) (v : val) : Prop :=
  forall a fs, v = VRef a -> h !! a = Some (CObj fs) ->
    field "parentRefs" fs = VUndef /\ val_in (below n) (field "allOf" fs).

(** [m] leaves the counter as it is. *)
Definition rc_same {A} (m : M A) : Prop :=
  forall s, refCounter (m s).2 = refCounter s.

(** From the counter [c] to [c'], every slot that held a number or
    [undefined] still does, and counts [f] more. *)
Definition rises (c c' : gmap string RefCounter.slot) (f : string -> Z)
  : Prop :=
  forall x, RefCounter.numeric c x = true ->
    RefCounter.numeric c' x = true /\
    RefCounter.count c' x = (RefCounter.count c x + f x)%Z.

(** The value under key [k] that the first of the schema itself
    ([own]) and the branches [bs], read in store [h], declares. *)
Definition first_declared (k : string) (h : list cell) (own : option val)
    (bs : list (val * val)) : option val :=
  fold_left
    (fun acc b =>
       match acc with
       | Some x => Some x
       | None =>
           match own_props h b.2 with
           | Some fb => obj_get k fb
           | None => None
           end
       end) bs own.

(* ================================================================== *)
(** * Field lists                                                      *)
(* ================================================================== *)

Lemma obj_get_set (k k' : string) (v : val) (fs : list (string * val)) :
  obj_get k (obj_set k' v fs) =
  if decide (k = k') then Some v else obj_get k fs.
Proof.
  induction fs as [|[k0 v0] fs IH]; simpl.
  - destruct (decide (k = k')); reflexivity.
  - destruct (decide (k' = k0)) as [->|Hne]; simpl.
    + destruct (decide (k = k0)); reflexivity.
    + destruct (before k' k0 && negb (bool_decide (k' ∈ map fst fs))); simpl.
      * destruct (decide (k = k')); reflexivity.
      * destruct (decide (k = k0)) as [->|Hne'].
        -- destruct (decide (k0 = k')); [congruence|reflexivity].
        -- exact IH.
Qed.

Lemma field_set (k k' : string) (v : val) (fs : list (string * val)) :
  field k (obj_set k' v fs) = if decide (k = k') then v else field k fs.
Proof.
  unfold field. rewrite obj_get_set. destruct (decide (k = k')); reflexivity.
Qed.

Lemma obj_get_keys (k : string) (fs : list (string * val)) :
  k ∈ map fst fs <-> is_Some (obj_get k fs).
Proof.
  induction fs as [|[k0 v0] fs IH]; simpl.
  - split; [intros H; inversion H | intros [? ?]; discriminate].
  - destruct (decide (k = k0)) as [->|Hne].
    + split; [eauto | intros; left].
    + rewrite <- IH. split.
      * intros H. inversion H; subst; [congruence | assumption].
      * intros H. right. assumption.
Qed.

Lemma obj_get_fold_set (f : string -> val) (ks : list string) (k : string)
    (dst : list (string * val)) :
  obj_get k (fold_left (fun acc k' => obj_set k' (f k') acc) ks dst) =
  if decide (k ∈ ks) then Some (f k) else obj_get k dst.
Proof.
  revert dst. induction ks as [|k0 ks IH]; intros dst; simpl.
  - destruct (decide (k ∈ [])) as [H|_]; [inversion H | reflexivity].
  - rewrite IH. destruct (decide (k ∈ ks)) as [Hin|Hnin].
    + destruct (decide (k ∈ k0 :: ks)) as [_|Hn]; [reflexivity|].
      exfalso. apply Hn. right. assumption.
    + rewrite obj_get_set. destruct (decide (k = k0)) as [->|Hne].
      * destruct (decide (k0 ∈ k0 :: ks)) as [_|Hn]; [reflexivity|].
        exfalso. apply Hn. left.
      * destruct (decide (k ∈ k0 :: ks)) as [Hin|_]; [|reflexivity].
        inversion Hin; subst; contradiction.
Qed.

(** In [{...dst, ...src}] a key of [src] reads as in [src], any other
    key as in [dst]. *)
Lemma obj_get_spread (k : string) (dst src : list (string * val)) :
  obj_get k (spread dst src) =
  match obj_get k src with
  | Some v => Some v
  | None => obj_get k dst
  end.
Proof.
  unfold spread. rewrite obj_get_fold_set.
  destruct (decide (k ∈ map fst src)) as [Hin|Hnin].
  - apply obj_get_keys in Hin as [v Hv]. unfold field. rewrite Hv. reflexivity.
  - destruct (obj_get k src) as [v|] eqn:Hv; [|reflexivity].
    exfalso. apply Hnin. apply obj_get_keys. eauto.
Qed.

Lemma field_spread (k : string) (dst src : list (string * val)) :
  field k (spread dst src) =
  match obj_get k src with
  | Some v => v
  | None => field k dst
  end.
Proof.
  unfold field. rewrite obj_get_spread. destruct (obj_get k src); reflexivity.
Qed.

(* ================================================================== *)
(** * RefCounter: the counter is never negative                        *)
(* ================================================================== *)

Module RefCounterFacts.
Import RefCounter.

Lemma read_write (r ref : string) (v : slot) (c : gmap string slot) :
  read (write r v c) ref =
  if decide (r = ref)
  then (if decide (r = "__proto__"%string) then Inherited else v)
  else read c ref.
Proof.
  unfold write, read.
  destruct (decide (r = ref)) as [<-|Hne];
    destruct (decide (r = "__proto__"%string)) as [Hr|Hr]; try reflexivity.
  - rewrite lookup_insert. destruct (decide (r = r)); [reflexivity|congruence].
  - destruct (decide (ref = "__proto__"%string)); [reflexivity|].
    rewrite lookup_insert. destruct (decide (r = ref)); [contradiction|].
    reflexivity.
Qed.

Lemma read_proto (c : gmap string slot) : read c "__proto__" = Inherited.
Proof. reflexivity. Qed.

Lemma read_visit (r ref : string) (c : gmap string slot) :
  read (visit r c) ref =
  if decide (r = ref)
  then (if decide (r = "__proto__"%string) then Inherited
        else if truthy (read c r) then add1 (read c r) else Num 1)
  else read c ref.
Proof. apply read_write. Qed.

Lemma read_exit (r ref : string) (c : gmap string slot) :
  read (exit r c) ref =
  if decide (r = ref)
  then (if decide (r = "__proto__"%string) then Inherited
        else if truthy (read c r) then sub1 (read c r) else read c r)
  else read c ref.
Proof. apply read_write. Qed.

Lemma read_visit_ne (r ref : string) (c : gmap string slot) :
  r <> ref -> read (visit r c) ref = read c ref.
Proof.
  intros H. rewrite read_visit. destruct (decide (r = ref)); [contradiction|].
  reflexivity.
Qed.

Lemma read_exit_ne (r ref : string) (c : gmap string slot) :
  r <> ref -> read (exit r c) ref = read c ref.
Proof.
  intros H. rewrite read_exit. destruct (decide (r = ref)); [contradiction|].
  reflexivity.
Qed.

Lemma numeric_not_proto (c : gmap string slot) (ref : string) :
  numeric c ref = true -> ref <> "__proto__"%string.
Proof. intros H ->. discriminate. Qed.

(** [visit] on a slot that holds a number or [undefined]. *)
Lemma count_visit (r ref : string) (c : gmap string slot) :
  numeric c r = true ->
  count (visit r c) ref =
  if decide (r = ref)
  then (if count c r =? 0 then 1 else count c r + 1)
  else count c ref.
Proof.
  intros Hn. pose proof (numeric_not_proto _ _ Hn) as Hp.
  unfold count. rewrite read_visit.
  destruct (decide (r = ref)) as [->|]; [|reflexivity].
  destruct (decide (ref = "__proto__"%string)); [contradiction|].
  unfold numeric in Hn.
  destruct (read c ref) as [|z| | |]; try discriminate; simpl; [reflexivity|].
  destruct (z =? 0); reflexivity.
Qed.

Lemma count_visit_ne (r ref : string) (c : gmap string slot) :
  r <> ref -> count (visit r c) ref = count c ref.
Proof. intros H. unfold count. rewrite read_visit_ne by exact H. reflexivity. Qed.

(** [visit] on a slot that does not read visited. *)
Lemma count_visit_unvisited (r ref : string) (c : gmap string slot) :
  visited r c = false ->
  count (visit r c) ref = count c ref + (if decide (ref = r) then 1 else 0).
Proof.
  intros Hv. destruct (decide (ref = r)) as [->|Hne].
  - unfold count. rewrite read_visit.
    destruct (decide (r = r)); [|congruence].
    destruct (decide (r = "__proto__"%string)) as [->|]; [discriminate|].
    unfold visited in Hv. rewrite Hv.
    destruct (read c r) as [|z| | |]; try discriminate; try reflexivity.
    simpl in Hv. apply negb_false_iff, Z.eqb_eq in Hv. subst z. reflexivity.
  - rewrite count_visit_ne by congruence. lia.
Qed.

Lemma count_exit (r ref : string) (c : gmap string slot) :
  count (exit r c) ref =
  if decide (r = ref)
  then (if count c r =? 0 then 0 else count c r - 1)
  else count c ref.
Proof.
  unfold count. rewrite read_exit.
  destruct (decide (r = ref)) as [->|]; [|reflexivity].
  destruct (decide (ref = "__proto__"%string)) as [->|]; [reflexivity|].
  destruct (read c ref) as [|z| | |]; simpl; try reflexivity.
  destruct (z =? 0) eqn:E; simpl; [|reflexivity].
  apply Z.eqb_eq in E. assumption.
Qed.

Lemma visited_count (ref : string) (c : gmap string slot) :
  numeric c ref = true -> visited ref c = negb (count c ref =? 0).
Proof.
  unfold numeric, visited, count.
  destruct (read c ref); try discriminate; reflexivity.
Qed.

(** What counts is visited, whatever the slot holds. *)
Lemma count_visited (ref : string) (c : gmap string slot) :
  count c ref <> 0 -> visited ref c = true.
Proof.
  unfold visited, count. destruct (read c ref) as [|z| | |]; try congruence.
  intros H. simpl. apply negb_true_iff, Z.eqb_neq, H.
Qed.

Lemma numeric_visit (r ref : string) (c : gmap string slot) :
  numeric c ref = true -> numeric (visit r c) ref = true.
Proof.
  intros Hn. pose proof (numeric_not_proto _ _ Hn) as Hp.
  unfold numeric in *. rewrite read_visit.
  destruct (decide (r = ref)) as [->|]; [|exact Hn].
  destruct (decide (ref = "__proto__"%string)); [contradiction|].
  destruct (read c ref) as [|z| | |]; try discriminate; simpl; [reflexivity|].
  destruct (negb (z =? 0)); reflexivity.
Qed.

Lemma numeric_exit (r ref : string) (c : gmap string slot) :
  numeric c ref = true -> numeric (exit r c) ref = true.
Proof.
  intros Hn. pose proof (numeric_not_proto _ _ Hn) as Hp.
  unfold numeric in *. rewrite read_exit.
  destruct (decide (r = ref)) as [->|]; [|exact Hn].
  destruct (decide (ref = "__proto__"%string)); [contradiction|].
  destruct (read c ref) as [|z| | |]; try discriminate; simpl; [reflexivity|].
  destruct (negb (z =? 0)); reflexivity.
Qed.

Lemma numeric_step (c : gmap string slot) (o : call) (ref : string) :
  numeric c ref = true -> numeric (step c o) ref = true.
Proof. destruct o; simpl; auto using numeric_visit, numeric_exit. Qed.

Lemma numeric_run (calls : list call) (c : gmap string slot) (ref : string) :
  numeric c ref = true -> numeric (run calls c) ref = true.
Proof.
  revert c. induction calls as [|o calls IH]; intros c H; simpl; [assumption|].
  apply IH, numeric_step, H.
Qed.

Lemma numeric_reset (ref : string) :
  inherited ref = false -> numeric reset ref = true.
Proof.
  intros H. unfold numeric, read, reset. rewrite lookup_empty, H.
  destruct (decide (ref = "__proto__"%string)) as [->|]; [discriminate|].
  reflexivity.
Qed.

Lemma tidy_reset : tidy reset.
Proof. intros ref. apply numeric_reset. Qed.

Lemma tidy_visit (r : string) (c : gmap string slot) :
  tidy c -> tidy (visit r c).
Proof. intros H ref Hr. apply numeric_visit, H, Hr. Qed.

Lemma tidy_exit (r : string) (c : gmap string slot) :
  tidy c -> tidy (exit r c).
Proof. intros H ref Hr. apply numeric_exit, H, Hr. Qed.

Lemma wf_reset : wf reset.
Proof.
  intros ref. unfold count, read, reset. rewrite lookup_empty.
  destruct (decide _); [simpl; lia|]. destruct (inherited ref); simpl; lia.
Qed.

Lemma wf_visit (r : string) (c : gmap string slot) :
  wf c -> wf (visit r c).
Proof.
  intros H ref. specialize (H ref) as Href. specialize (H r).
  unfold count in *. rewrite read_visit.
  destruct (decide (r = ref)); [|assumption].
  destruct (decide (r = "__proto__"%string)); [lia|].
  destruct (read c r) as [|z| | |]; simpl; try lia.
  destruct (negb (z =? 0)); lia.
Qed.

Lemma wf_exit (r : string) (c : gmap string slot) :
  wf c -> wf (exit r c).
Proof.
  intros H ref. rewrite count_exit. specialize (H ref) as Href.
  specialize (H r). destruct (decide (r = ref)); [|assumption].
  destruct (count c r =? 0) eqn:E; [lia|]. apply Z.eqb_neq in E. lia.
Qed.

Lemma wf_step (c : gmap string slot) (o : call) :
  wf c -> wf (step c o).
Proof. destruct o; simpl; auto using wf_visit, wf_exit. Qed.

Lemma wf_run (calls : list call) (c : gmap string slot) :
  wf c -> wf (run calls c).
Proof.
  revert c. induction calls as [|o calls IH]; intros c H; simpl; [assumption|].
  apply IH, wf_step, H.
Qed.

Lemma visited_visit (r : string) (c : gmap string slot) :
  wf c -> visited r (visit r c) = true.
Proof.
  intros H. specialize (H r). unfold visited, count in *. rewrite read_visit.
  destruct (decide (r = r)); [|congruence].
  destruct (decide (r = "__proto__"%string)); [reflexivity|].
  destruct (read c r) as [|z| | |]; simpl; try reflexivity.
  destruct (z =? 0) eqn:E; simpl; [reflexivity|].
  apply Z.eqb_neq in E. apply negb_true_iff, Z.eqb_neq. lia.
Qed.

Lemma visited_visit_other (r ref : string) (c : gmap string slot) :
  visited ref c = true -> wf c -> visited ref (visit r c) = true.
Proof.
  intros Hv H. destruct (decide (r = ref)) as [->|Hne].
  - apply visited_visit, H.
  - unfold visited. rewrite read_visit_ne by exact Hne. exact Hv.
Qed.

(** C9, for the pointers that are not the name of a member of
    [Object.prototype].  Whatever calls of [visit], [exit] and
    [visited] were made on a new counter, and for every such pointer:
    the counter of the pointer is not negative; [exit] on a pointer
    whose counter is zero (never visited, or exited as often as
    visited) leaves it at zero, and otherwise takes one off; and
    [visited] answers true exactly when the counter is positive. *)
Theorem refcounter_never_negative (calls : list call) (ref : string) :
  inherited ref = false ->
  let c := run calls reset in
  0 <= count c ref /\
  (count c ref = 0 -> count (exit ref c) ref = 0) /\
  (0 < count c ref -> count (exit ref c) ref = count c ref - 1) /\
  (visited ref c = true <-> 0 < count c ref).
Proof.
  intros Hin c. assert (Hwf : wf c) by apply wf_run, wf_reset.
  assert (Hn : numeric c ref = true) by apply numeric_run, numeric_reset, Hin.
  specialize (Hwf ref) as Hr. repeat split.
  - exact Hr.
  - intros H0. rewrite count_exit. destruct (decide (ref = ref)); [|congruence].
    rewrite H0. reflexivity.
  - intros Hpos. rewrite count_exit. destruct (decide (ref = ref)); [|congruence].
    destruct (count c ref =? 0) eqn:E; [|reflexivity].
    apply Z.eqb_eq in E. lia.
  - rewrite (visited_count _ _ Hn). intros H.
    apply negb_true_iff, Z.eqb_neq in H. lia.
  - rewrite (visited_count _ _ Hn). intros H.
    apply negb_true_iff, Z.eqb_neq. lia.
Qed.

End RefCounterFacts.

Lemma refcounter_never_negative_witness :
  let c := RefCounter.run
             [RefCounter.Visit "#/components/schemas/Pet";
              RefCounter.Visit "#/components/schemas/Pet";
              RefCounter.Exit "#/components/schemas/Pet";
              RefCounter.Visited "#/components/schemas/Pet"]%string
             RefCounter.reset in
  RefCounter.count c "#/components/schemas/Pet" = 1 /\
  RefCounter.count (RefCounter.exit "#/components/schemas/Pet" c)
    "#/components/schemas/Pet" = 0 /\
  RefCounter.visited "#/components/schemas/Pet" c = true.
Proof.
  intros c.
  destruct (RefCounterFacts.refcounter_never_negative
              [RefCounter.Visit "#/components/schemas/Pet";
               RefCounter.Visit "#/components/schemas/Pet";
               RefCounter.Exit "#/components/schemas/Pet";
               RefCounter.Visited "#/components/schemas/Pet"]%string
              "#/components/schemas/Pet" eq_refl)
    as (_ & _ & Hexit & Hv).
  assert (Hc : RefCounter.count c "#/components/schemas/Pet" = 1)
    by (vm_compute; reflexivity).
  split; [exact Hc|]. split.
  - fold c in Hexit. rewrite Hexit; [rewrite Hc; reflexivity | rewrite Hc; lia].
  - apply Hv. fold c. rewrite Hc. lia.
Defined.

(** C9 as stated fails for a pointer that is the name of a member of
    [Object.prototype].  On a new counter, with no call made,
    [visited] answers true for [constructor], whose counter holds no
    number; [visit] then stores a string, and [exit] stores [NaN],
    after which [visited] answers false although the one [visit] was
    never exited twice. *)
Lemma refcounter_inherited_name :
  RefCounter.visited "constructor" RefCounter.reset = true /\
  RefCounter.count RefCounter.reset "constructor" = 0 /\
  RefCounter.read (RefCounter.visit "constructor" RefCounter.reset)
    "constructor" = RefCounter.Text /\
  RefCounter.read (RefCounter.exit "constructor" RefCounter.reset)
    "constructor" = RefCounter.NaN /\
  RefCounter.visited "constructor"
    (RefCounter.run [RefCounter.Visit "constructor";
                     RefCounter.Visit "constructor";
                     RefCounter.Exit "constructor"]%string
       RefCounter.reset) = false.
Proof. vm_compute. repeat split; reflexivity. Qed.

(* ================================================================== *)
(** * Reasoning about runs                                             *)
(* ================================================================== *)

Lemma keeps_refl (P : nat -> Prop) (h : list cell) : keeps P h h.
Proof. split; [lia | reflexivity]. Qed.

Lemma keeps_trans (P : nat -> Prop) (h1 h2 h3 : list cell) :
  keeps P h1 h2 -> keeps P h2 h3 -> keeps P h1 h3.
Proof.
  intros [L1 K1] [L2 K2]. split; [lia|].
  intros a Pa Ha. rewrite K2, K1 by (assumption || lia). reflexivity.
Qed.

Lemma keeps_mono (P P' : nat -> Prop) (h h' : list cell) :
  (forall a, P a -> P' a) -> keeps P' h h' -> keeps P h h'.
Proof. intros HP [L K]. split; [exact L|]. intros a Pa Ha. apply K; auto. Qed.

Lemma keeps_alloc (P : nat -> Prop) (h : list cell) (c : cell) :
  keeps P h (h ++ [c]).
Proof.
  split.
  - rewrite length_app. simpl. lia.
  - intros a _ Ha. apply lookup_app_l. lia.
Qed.

Lemma keeps_insert (P : nat -> Prop) (a : nat) (h : list cell) (c : cell) :
  ~ P a -> keeps P h (<[a := c]> h).
Proof.
  intros Hn. split.
  - rewrite length_insert. lia.
  - intros b Pb Hb. apply list_lookup_insert_ne. intros ->. contradiction.
Qed.

Lemma keeps_lookup (P : nat -> Prop) (h h' : list cell) (a : nat) (c : cell) :
  keeps P h h' -> P a -> h !! a = Some c -> h' !! a = Some c.
Proof.
  intros [_ K] Pa Hc. rewrite K; [assumption | assumption|].
  eapply lookup_lt_Some, Hc.
Qed.

Lemma keeps_prefix (h h' : list cell) : keeps all h h' -> h `prefix_of` h'.
Proof.
  intros [L K]. exists (drop (length h) h').
  rewrite <- (take_drop (length h) h') at 1. f_equal.
  apply list_eq. intros i. destruct (decide (i < length h)%nat) as [Hi|Hi].
  - rewrite lookup_take_lt by assumption. apply K; [exact I | exact Hi].
  - rewrite lookup_take_ge by lia. symmetry. apply lookup_ge_None. lia.
Qed.

Lemma keeps_getp (P : nat -> Prop) (h h' : list cell) (v w : val) (k : string) :
  keeps P h h' -> (forall a, v = VRef a -> P a) ->
  getp h v k = Ret w -> getp h' v k = Ret w.
Proof.
  intros K Pv. destruct v; simpl; try congruence.
  destruct (h !! a) as [c|] eqn:E; [|discriminate].
  rewrite (keeps_lookup _ _ _ _ _ K (Pv a eq_refl) E). trivial.
Qed.

Lemma keeps_own_props (P : nat -> Prop) (h h' : list cell) (v : val)
    (fs : list (string * val)) :
  keeps P h h' -> (forall a, v = VRef a -> P a) ->
  own_props h v = Some fs -> own_props h' v = Some fs.
Proof.
  intros K Pv. destruct v; simpl; try congruence.
  destruct (h !! a) as [c|] eqn:E; [|discriminate].
  rewrite (keeps_lookup _ _ _ _ _ K (Pv a eq_refl) E). trivial.
Qed.

Lemma keeps_as_array (P : nat -> Prop) (h h' : list cell) (v : val)
    (vs : list val) :
  keeps P h h' -> (forall a, v = VRef a -> P a) ->
  as_array h v = Some vs -> as_array h' v = Some vs.
Proof.
  intros K Pv. destruct v; simpl; try congruence.
  destruct (h !! a) as [c|] eqn:E; [|discriminate].
  rewrite (keeps_lookup _ _ _ _ _ K (Pv a eq_refl) E). trivial.
Qed.

Lemma run_ok_bind {A B} (P P' : nat -> Prop) (m : M A) (k : A -> M B)
    (s : state) (Q : A -> state -> Prop) (R : B -> state -> Prop) :
  (forall a, P a -> P' a) ->
  run_ok P' m s Q ->
  (forall a s1, keeps P' (heap s) (heap s1) -> Q a s1 -> run_ok P (k a) s1 R) ->
  run_ok P (bind m k) s R.
Proof.
  unfold run_ok, bind. intros HP [K HQ] Hk.
  destruct (m s) as [[a|e|w] s1]; simpl in *.
  - specialize (Hk a s1 K HQ) as [K' HR]. split; [|exact HR].
    eapply keeps_trans; [eapply keeps_mono; eassumption | exact K'].
  - split; [eapply keeps_mono; eassumption | exact I].
  - split; [eapply keeps_mono; eassumption | exact I].
Qed.

Lemma run_ok_weaken {A} (P P' : nat -> Prop) (m : M A) (s : state)
    (Q Q' : A -> state -> Prop) :
  (forall a, P a -> P' a) ->
  run_ok P' m s Q ->
  (forall a s', keeps P' (heap s) (heap s') -> Q a s' -> Q' a s') ->
  run_ok P m s Q'.
Proof.
  unfold run_ok. intros HP [K HQ] HQ'. split; [eapply keeps_mono; eassumption|].
  destruct ((m s).1); auto.
Qed.

(** What a run that returned has established. *)
Lemma run_ok_inv {A} (P : nat -> Prop) (m : M A) (s s' : state) (a : A)
    (Q : A -> state -> Prop) :
  run_ok P m s Q -> m s = (Ret a, s') ->
  keeps P (heap s) (heap s') /\ Q a s'.
Proof. unfold run_ok. intros [K HQ] E. rewrite E in *. auto. Qed.

Lemma bind_ret_inv {A B} (m : M A) (k : A -> M B) (s s' : state) (b : B) :
  bind m k s = (Ret b, s') ->
  exists a s1, m s = (Ret a, s1) /\ k a s1 = (Ret b, s').
Proof.
  unfold bind. destruct (m s) as [[a|e|w] s1]; [eauto | discriminate..].
Qed.

Lemma run_ok_ret {A} (P : nat -> Prop) (a : A) (s : state)
    (Q : A -> state -> Prop) :
  Q a s -> run_ok P (ret a) s Q.
Proof. intros H. split; [apply keeps_refl | exact H]. Qed.

Lemma run_ok_throw {A} (P : nat -> Prop) (e : error) (s : state)
    (Q : A -> state -> Prop) :
  run_ok P (throw e) s Q.
Proof. split; [apply keeps_refl | exact I]. Qed.

Lemma run_ok_stop {A} (P : nat -> Prop) (w : halt) (s : state)
    (Q : A -> state -> Prop) :
  run_ok P (stop w) s Q.
Proof. split; [apply keeps_refl | exact I]. Qed.

Lemma run_ok_reading {A} (f : list cell -> outcome A) (s : state) :
  run_ok all (reading f) s (fun a s' => s' = s /\ f (heap s) = Ret a).
Proof.
  unfold run_ok, reading. simpl. split; [apply keeps_refl|].
  destruct (f (heap s)); auto.
Qed.

Lemma run_ok_alloc (c : cell) (s : state) :
  run_ok all (alloc c) s
    (fun v s' => v = VRef (length (heap s)) /\
                 heap s' = heap s ++ [c] /\ refCounter s' = refCounter s).
Proof. unfold run_ok, alloc. simpl. split; [apply keeps_alloc | auto]. Qed.

Lemma run_ok_set_prop (a : nat) (k : string) (v : val) (s : state) :
  run_ok (but [a]) (set_prop (VRef a) k v) s
    (fun _ s' => exists fs, heap s !! a = Some (CObj fs) /\
                 heap s' = <[a := CObj (obj_set k v fs)]> (heap s) /\
                 refCounter s' = refCounter s).
Proof.
  unfold run_ok, set_prop.
  destruct (heap s !! a) as [[fs|vs]|] eqn:E; simpl;
    try (split; [apply keeps_refl | exact I]).
  split; [|eauto]. apply keeps_insert. unfold but. set_solver.
Qed.

Lemma run_ok_array_push (a : nat) (items : list val) (s : state) :
  run_ok (but [a]) (array_push (VRef a) items) s
    (fun _ s' => exists vs, heap s !! a = Some (CArr vs) /\
                 heap s' = <[a := CArr (vs ++ items)]> (heap s) /\
                 refCounter s' = refCounter s).
Proof.
  unfold run_ok, array_push.
  destruct (heap s !! a) as [[fs|vs]|] eqn:E; simpl;
    try (split; [apply keeps_refl | exact I]).
  split; [|eauto]. apply keeps_insert. unfold but. set_solver.
Qed.

Lemma run_ok_js_concat (base arg : val) (s : state) :
  run_ok all (js_concat base arg) s
    (fun v s' => refCounter s' = refCounter s /\
       ((exists b t, base = VStr b /\ s' = s /\ to_string arg = Some t /\
           v = VStr (b +:+ t)) \/
        (exists a xs, base = VRef a /\ heap s !! a = Some (CArr xs) /\
           v = VRef (length (heap s)) /\
           heap s' = heap s ++
             [CArr (xs ++ match as_array (heap s) arg with
                          | Some l => l
                          | None => [arg]
                          end)]))).
Proof.
  unfold run_ok, js_concat.
  destruct base as [| | | |b|a]; simpl; try (split; [apply keeps_refl | exact I]).
  - destruct (to_string arg) eqn:Et; simpl; (split; [apply keeps_refl|]);
      eauto 10.
  - destruct (heap s !! a) as [[fs|xs]|] eqn:E; simpl;
      try (split; [apply keeps_refl | exact I]).
    unfold as_array.
    destruct arg as [| | | | |a']; simpl;
      try (split; [apply keeps_alloc
                  | split; [reflexivity | right; eauto 10]]).
    destruct (heap s !! a') as [[fs'|ys]|] eqn:E'; simpl;
      try (split; [apply keeps_refl | exact I]);
      (split; [apply keeps_alloc
              | split; [reflexivity | right; eauto 10]]).
Qed.

(** The optional temporary of [x || []] and [x || {}]. *)
Lemma run_ok_or_alloc (v : val) (c : cell) (s : state) :
  run_ok all (if truthy v then ret v else alloc c) s
    (fun w s' => refCounter s' = refCounter s /\
       if truthy v then w = v /\ s' = s
       else w = VRef (length (heap s)) /\ heap s' = heap s ++ [c]).
Proof.
  destruct (truthy v).
  - apply run_ok_ret. auto.
  - eapply run_ok_weaken; [intros ? HP; exact HP | apply run_ok_alloc|].
    intros a s' _ (-> & H & Hc). auto.
Qed.

(* ================================================================== *)
(** * Operations that leave the store alone                            *)
(* ================================================================== *)

Lemma run_ok_same {A} (m : M A) (s : state) :
  heap_same m ->
  run_ok all m s (fun a s' => heap s' = heap s /\ m s = (Ret a, s')).
Proof.
  intros H. unfold run_ok. specialize (H s). rewrite H.
  split; [apply keeps_refl|].
  destruct (m s) as [[a|e|w] s'] eqn:E; simpl in *; auto.
Qed.

Lemma heap_same_ret {A} (a : A) : heap_same (ret a).
Proof. intros s. reflexivity. Qed.

Lemma heap_same_throw {A} (e : error) : heap_same (@throw A e).
Proof. intros s. reflexivity. Qed.

Lemma heap_same_stop {A} (w : halt) : heap_same (@stop A w).
Proof. intros s. reflexivity. Qed.

Lemma heap_same_reading {A} (f : list cell -> outcome A) :
  heap_same (reading f).
Proof. intros s. reflexivity. Qed.

Lemma heap_same_bind {A B} (m : M A) (k : A -> M B) :
  heap_same m -> (forall a, heap_same (k a)) -> heap_same (bind m k).
Proof.
  intros Hm Hk s. unfold bind. specialize (Hm s).
  destruct (m s) as [[a|e|w] s1]; simpl in *; [|assumption..].
  rewrite Hk. assumption.
Qed.

Lemma heap_same_to_key (v : val) : heap_same (to_key v).
Proof.
  unfold to_key. destruct (to_string v);
    [apply heap_same_ret | apply heap_same_stop].
Qed.

Lemma heap_same_rc_visited (v : val) : heap_same (rc_visited v).
Proof.
  apply heap_same_bind; [apply heap_same_to_key | intros k s; reflexivity].
Qed.

Lemma heap_same_rc_visit (v : val) : heap_same (rc_visit v).
Proof.
  apply heap_same_bind; [apply heap_same_to_key | intros k s; reflexivity].
Qed.

Lemma heap_same_rc_exit (v : val) : heap_same (rc_exit v).
Proof.
  apply heap_same_bind; [apply heap_same_to_key | intros k s; reflexivity].
Qed.

Lemma heap_same_isRef (obj : val) : heap_same (isRef obj).
Proof.
  unfold isRef. destruct (negb (truthy obj)); [apply heap_same_ret|].
  apply heap_same_bind; [apply heap_same_reading | intros; apply heap_same_ret].
Qed.

Lemma heap_same_exitRef (ref : val) : heap_same (exitRef ref).
Proof.
  unfold exitRef. apply heap_same_bind; [apply heap_same_isRef|].
  intros b. destruct (negb b); [apply heap_same_ret|].
  apply heap_same_bind; [apply heap_same_reading | intros; apply heap_same_rc_exit].
Qed.

Lemma heap_same_refers_to (refs : list string) (obj : val) :
  heap_same (refers_to refs obj).
Proof.
  apply heap_same_bind; [apply heap_same_reading | intros; apply heap_same_ret].
Qed.

Lemma heap_same_findM (p : val -> M bool) (l : list val) :
  (forall x, heap_same (p x)) -> heap_same (findM p l).
Proof.
  intros Hp. induction l as [|x l IH]; simpl; [apply heap_same_ret|].
  apply heap_same_bind; [apply Hp|].
  intros b. destruct b; [apply heap_same_ret | exact IH].
Qed.

Lemma isRef_is_reference (obj : val) (s : state) :
  isRef obj s = (is_reference (heap s) obj, s).
Proof.
  unfold isRef, is_reference. destruct (negb (truthy obj)); [reflexivity|].
  unfold bind, get_prop, reading. destruct (getp (heap s) obj "$ref"); reflexivity.
Qed.

(* ================================================================== *)
(** * The statements of the merge loop                                 *)
(* ================================================================== *)

Lemma recv_inv_keeps (P : nat -> Prop) (r p : nat) (h h' : list cell) :
  recv_inv r p h -> keeps P h h' -> P r -> P p -> recv_inv r p h'.
Proof.
  intros (fs & xs & Hfs & Hpr & Hp) K Pr Pp. exists fs, xs.
  repeat split; [|assumption|]; eapply keeps_lookup; eassumption.
Qed.

Lemma recv_inv_getp (r p : nat) (h : list cell) :
  recv_inv r p h -> getp h (VRef r) "parentRefs" = Ret (VRef p).
Proof. intros (fs & xs & Hfs & Hpr & _). simpl. rewrite Hfs, Hpr. reflexivity. Qed.

Lemma recv_inv_ne (r p : nat) (h : list cell) : recv_inv r p h -> r <> p.
Proof. intros (fs & xs & Hfs & _ & Hp) ->. congruence. Qed.

Lemma keeps_below_all (h h' : list cell) :
  keeps (below (length h)) h h' -> keeps all h h'.
Proof. intros [L K]. split; [exact L|]. intros a _ Ha. apply K; assumption. Qed.

Lemma run_ok_below_all {A} (m : M A) (s : state) (Q : A -> state -> Prop) :
  run_ok (below (length (heap s))) m s Q -> run_ok all m s Q.
Proof. intros [K HQ]. split; [apply keeps_below_all, K | exact HQ]. Qed.

Lemma lookup_snoc (h : list cell) (c : cell) : (h ++ [c]) !! length h = Some c.
Proof. rewrite lookup_app_r by reflexivity. rewrite Nat.sub_diag. reflexivity. Qed.

Lemma all_any (P : nat -> Prop) : forall a, P a -> all a.
Proof. intros a _. exact I. Qed.

Section Blocks.

Variable isNamedDefinition : val -> bool.
Variable JsonPointer_baseName : val -> option string.

Lemma heap_same_check_types (ref receiver sub : val) :
  heap_same (check_types ref receiver sub).
Proof.
  unfold check_types. apply heap_same_bind; [apply heap_same_reading|].
  intros rt. apply heap_same_bind; [apply heap_same_reading|].
  intros bt. destruct (_ && _); [|apply heap_same_ret].
  destruct (to_string ref); [apply heap_same_throw | apply heap_same_stop].
Qed.

(** [check_types] returns only when the guard is false, and does
    nothing then. *)
Lemma check_types_ret (ref receiver sub : val) (s s' : state) :
  check_types ref receiver sub s = (Ret tt, s') ->
  s' = s /\ exists rt bt,
    getp (heap s) receiver "type" = Ret rt /\
    getp (heap s) sub "type" = Ret bt /\
    (rt = bt \/ rt = VUndef \/ bt = VUndef).
Proof.
  unfold check_types, bind, get_prop, reading.
  destruct (getp (heap s) receiver "type") as [rt| |]; try discriminate.
  destruct (getp (heap s) sub "type") as [bt| |]; try discriminate.
  destruct (negb (strict_eq rt bt) && negb (is_undef rt) && negb (is_undef bt))
    eqn:E.
  - destruct (to_string ref); discriminate.
  - intros [= <-]. split; [reflexivity|]. exists rt, bt.
    split; [reflexivity|]. split; [reflexivity|].
    unfold strict_eq, is_undef in E.
    destruct (decide (rt = bt)); [auto|].
    destruct (decide (rt = VUndef)); [auto|].
    destruct (decide (bt = VUndef)); [auto|].
    rewrite !bool_decide_eq_false_2 in E by assumption. discriminate.
Qed.

Lemma run_ok_merge_type (r : nat) (sub : val) (fr : list (string * val))
    (s : state) :
  heap s !! r = Some (CObj fr) ->
  run_ok (but [r]) (merge_type (VRef r) sub) s
    (fun _ s' => exists bt, getp (heap s) sub "type" = Ret bt /\
       length (heap s') = length (heap s) /\
       heap s' !! r =
         Some (CObj (if is_undef bt then fr else obj_set "type" bt fr))).
Proof.
  intros Hr. unfold merge_type.
  eapply run_ok_bind; [apply all_any | apply run_ok_reading|].
  intros bt s1 _ [-> Hbt]. destruct (is_undef bt) eqn:E; simpl.
  - apply run_ok_ret. exists bt. rewrite E. auto.
  - eapply run_ok_weaken; [intros ? HP; exact HP | apply run_ok_set_prop|].
    intros [] s' _ (fs & Hfs & -> & _). exists bt. rewrite E.
    assert (fs = fr) as -> by congruence.
    split; [assumption|]. split; [apply length_insert|].
    apply list_lookup_insert_eq. eapply lookup_lt_Some, Hr.
Qed.

Lemma run_ok_merge_properties (r : nat) (sub : val)
    (fr : list (string * val)) (s : state) :
  heap s !! r = Some (CObj fr) ->
  run_ok (but [r]) (merge_properties (VRef r) sub) s
    (fun _ s' => exists bp, getp (heap s) sub "properties" = Ret bp /\
       if is_undef bp then s' = s
       else exists (o : nat) (h1 : list cell) (fbase fb : list (string * val)),
         keeps all (heap s) h1 /\
         own_props h1 bp = Some fb /\
         (if truthy (field "properties" fr)
          then own_props (heap s) (field "properties" fr) = Some fbase
          else fbase = []) /\
         (length (heap s) <= o < length (heap s'))%nat /\
         heap s' !! o = Some (CObj (spread (spread [] fbase) fb)) /\
         heap s' !! r = Some (CObj (obj_set "properties" (VRef o) fr))).
Proof.
  intros Hr. pose proof (lookup_lt_Some _ _ _ Hr) as Hlt. unfold merge_properties.
  eapply run_ok_bind; [apply all_any | apply run_ok_reading|].
  intros bp s1 _ [-> Hbp]. destruct (is_undef bp) eqn:E; simpl.
  { apply run_ok_ret. exists bp. rewrite E. auto. }
  eapply run_ok_bind; [apply all_any | apply run_ok_reading|].
  intros rp s1 _ [-> Hrp]. simpl in Hrp. rewrite Hr in Hrp. injection Hrp as <-.
  eapply run_ok_bind; [apply all_any | apply run_ok_or_alloc|].
  intros base s1 K1 [_ Hbase].
  eapply run_ok_bind; [apply all_any | apply run_ok_reading|].
  intros fbase s2 _ [-> Hfbase].
  eapply run_ok_bind; [apply all_any | apply run_ok_reading|].
  intros fb s2 _ [-> Hfb].
  eapply run_ok_bind; [apply all_any | apply run_ok_alloc|].
  intros v s3 K3 (-> & H3 & _).
  assert (Hr3 : heap s3 !! r = Some (CObj fr)).
  { eapply keeps_lookup; [exact K3 | exact I|].
    eapply keeps_lookup; [exact K1 | exact I | exact Hr]. }
  eapply run_ok_weaken; [intros ? HP; exact HP | apply run_ok_set_prop|].
  intros [] s' _ (fs & Hfs & -> & _). assert (fs = fr) as -> by congruence.
  exists bp. rewrite E. split; [assumption|].
  destruct (own_props (heap s1) base) as [fbase'|] eqn:Hb; [|discriminate].
  injection Hfbase as ->.
  destruct (own_props (heap s1) bp) as [fb'|] eqn:Hb'; [|discriminate].
  injection Hfb as ->.
  exists (length (heap s1)), (heap s1), fbase, fb.
  pose proof (proj1 K1) as L1.
  assert (Hne : length (heap s1) <> r) by lia.
  repeat split.
  - exact L1.
  - apply K1.
  - assumption.
  - destruct (truthy (field "properties" fr)).
    + destruct Hbase as [-> ->]. exact Hb.
    + destruct Hbase as [-> Hh]. rewrite Hh in Hb. simpl in Hb.
      rewrite lookup_snoc in Hb. congruence.
  - exact L1.
  - rewrite length_insert, H3, length_app. simpl. lia.
  - rewrite list_lookup_insert_ne by (intros Heq; apply Hne; auto).
    rewrite H3. apply lookup_snoc.
  - apply list_lookup_insert_eq. eapply lookup_lt_Some, Hr3.
Qed.

Lemma run_ok_merge_required (r : nat) (sub : val)
    (fr : list (string * val)) (s : state) :
  heap s !! r = Some (CObj fr) ->
  run_ok (but [r]) (merge_required (VRef r) sub) s
    (fun _ s' => exists bq, getp (heap s) sub "required" = Ret bq /\
       if is_undef bq then s' = s
       else exists q : val,
         heap s' !! r = Some (CObj (obj_set "required" q fr)) /\
         ((exists b t, field "required" fr = VStr b /\
             truthy (VStr b) = true /\ to_string bq = Some t /\
             q = VStr (b +:+ t)) \/
          exists (a : nat) (h1 : list cell) (xs : list val),
            q = VRef a /\ (length (heap s) <= a < length (heap s'))%nat /\
            keeps all (heap s) h1 /\
            (if truthy (field "required" fr)
             then as_array (heap s) (field "required" fr) = Some xs
             else xs = []) /\
            heap s' !! a =
              Some (CArr (xs ++ match as_array h1 bq with
                                | Some l => l
                                | None => [bq]
                                end)))).
Proof.
  intros Hr. pose proof (lookup_lt_Some _ _ _ Hr) as Hlt. unfold merge_required.
  eapply run_ok_bind; [apply all_any | apply run_ok_reading|].
  intros bq s1 _ [-> Hbq]. destruct (is_undef bq) eqn:E; simpl.
  { apply run_ok_ret. exists bq. rewrite E. auto. }
  eapply run_ok_bind; [apply all_any | apply run_ok_reading|].
  intros rq s1 _ [-> Hrq]. simpl in Hrq. rewrite Hr in Hrq. injection Hrq as <-.
  eapply run_ok_bind; [apply all_any | apply run_ok_or_alloc|].
  intros base s1 K1 [_ Hbase].
  eapply run_ok_bind; [apply all_any | apply run_ok_js_concat|].
  intros q s2 K2 [_ Hq].
  assert (Hr2 : heap s2 !! r = Some (CObj fr)).
  { eapply keeps_lookup; [exact K2 | exact I|].
    eapply keeps_lookup; [exact K1 | exact I | exact Hr]. }
  eapply run_ok_weaken; [intros ? HP; exact HP | apply run_ok_set_prop|].
  intros [] s' _ (fs & Hfs & -> & _). assert (fs = fr) as -> by congruence.
  exists bq. rewrite E. split; [assumption|]. exists q. split.
  { apply list_lookup_insert_eq. eapply lookup_lt_Some, Hr2. }
  destruct Hq as [(b & t & Hb & _ & Ht & ->) | (a & xs & Hb & Ha & -> & H2)].
  { left. exists b, t. destruct (truthy (field "required" fr)) eqn:Etr.
    - destruct Hbase as [-> _]. rewrite Hb in Etr |- *. auto.
    - destruct Hbase as [-> _]. discriminate. }
  right. pose proof (proj1 K1) as L1.
  exists (length (heap s1)), (heap s1), xs. split; [reflexivity|].
  assert (Hne : length (heap s1) <> r) by lia.
  repeat split.
  - exact L1.
  - rewrite length_insert, H2, length_app. simpl. lia.
  - exact L1.
  - apply K1.
  - destruct (truthy (field "required" fr)).
    + destruct Hbase as [-> ->]. rewrite Hb. unfold as_array. rewrite Ha.
      reflexivity.
    + destruct Hbase as [-> Hh]. injection Hb as <-.
      rewrite Hh, lookup_snoc in Ha. congruence.
  - rewrite list_lookup_insert_ne by (intros Heq; apply Hne; auto).
    rewrite H2. apply lookup_snoc.
Qed.

Lemma run_ok_merge_rest (r : nat) (sub : val) (fr : list (string * val))
    (s : state) :
  heap s !! r = Some (CObj fr) ->
  run_ok all (merge_rest (VRef r) sub) s
    (fun v s' => exists fb, own_props (heap s) sub = Some fb /\
       v = VRef (length (heap s)) /\
       heap s' = heap s ++ [CObj (spread (spread [] fb) fr)]).
Proof.
  intros Hr. unfold merge_rest.
  eapply run_ok_bind; [apply all_any | apply run_ok_reading|].
  intros fb s1 _ [-> Hfb].
  eapply run_ok_bind; [apply all_any | apply run_ok_reading|].
  intros fr' s1 _ [-> Hfr]. simpl in Hfr. rewrite Hr in Hfr. injection Hfr as <-.
  eapply run_ok_weaken; [intros ? HP; exact HP | apply run_ok_alloc|].
  intros v s' _ (-> & H & _). exists fb.
  destruct (own_props (heap s) sub); [|discriminate]. injection Hfb as ->. auto.
Qed.

Lemma run_ok_note_parent (r p : nat) (subRef : val)
    (fr : list (string * val)) (xs : list val) (s : state) :
  heap s !! r = Some (CObj fr) -> field "parentRefs" fr = VRef p ->
  heap s !! p = Some (CArr xs) ->
  run_ok (but [r; p]) (note_parent isNamedDefinition JsonPointer_baseName
                         (VRef r) subRef) s
    (fun _ s' =>
       length (heap s') = length (heap s) /\
       heap s' !! p =
         Some (CArr (xs ++ if truthy subRef then [subRef] else [])) /\
       heap s' !! r =
         Some (CObj (if truthy subRef && is_undef (field "title" fr) &&
                        isNamedDefinition subRef
                     then obj_set "title"
                            (base_title JsonPointer_baseName subRef) fr
                     else fr))).
Proof.
  intros Hr Hpr Hp. unfold note_parent.
  assert (Hne : r <> p) by (intros ->; congruence).
  destruct (truthy subRef); simpl.
  2:{ apply run_ok_ret. rewrite app_nil_r. auto. }
  eapply run_ok_bind; [apply all_any | apply run_ok_reading|].
  intros rp s1 _ [-> Hrp]. simpl in Hrp. rewrite Hr, Hpr in Hrp.
  injection Hrp as <-.
  eapply run_ok_bind; [|apply run_ok_array_push|].
  { intros a Ha Hin. apply Ha. right. exact Hin. }
  intros [] s2 _ (vs & Hvs & H2 & _). assert (vs = xs) as -> by congruence.
  assert (Hr2 : heap s2 !! r = Some (CObj fr)).
  { rewrite H2, list_lookup_insert_ne by auto. exact Hr. }
  assert (Hp2 : heap s2 !! p = Some (CArr (xs ++ [subRef]))).
  { rewrite H2. apply list_lookup_insert_eq. eapply lookup_lt_Some, Hp. }
  assert (L2 : length (heap s2) = length (heap s)).
  { rewrite H2. apply length_insert. }
  eapply run_ok_bind; [apply all_any | apply run_ok_reading|].
  intros t s3 _ [-> Ht]. simpl in Ht. rewrite Hr2 in Ht. injection Ht as <-.
  destruct (is_undef (field "title" fr) && isNamedDefinition subRef); simpl.
  2:{ apply run_ok_ret. auto. }
  eapply run_ok_weaken; [|apply run_ok_set_prop|].
  { intros a Ha Hin. apply Ha. apply list_elem_of_singleton in Hin as ->. left. }
  intros [] s' _ (fs & Hfs & -> & _). assert (fs = fr) as -> by congruence.
  repeat split.
  - rewrite length_insert. exact L2.
  - rewrite list_lookup_insert_ne by auto. exact Hp2.
  - apply list_lookup_insert_eq. eapply lookup_lt_Some, Hr2.
Qed.

Lemma run_ok_name_top_level (r : nat) (schema ref : val)
    (fr : list (string * val)) (s : state) :
  heap s !! r = Some (CObj fr) ->
  run_ok (but [r])
    (name_top_level isNamedDefinition JsonPointer_baseName schema ref (VRef r))
    s
    (fun _ s' => exists t, getp (heap s) schema "title" = Ret t /\
       length (heap s') = length (heap s) /\
       heap s' !! r =
         Some (CObj (if is_undef t && isNamedDefinition ref
                     then obj_set "title"
                            (base_title JsonPointer_baseName ref) fr
                     else fr))).
Proof.
  intros Hr. unfold name_top_level.
  eapply run_ok_bind; [apply all_any | apply run_ok_reading|].
  intros t s1 _ [-> Ht].
  destruct (is_undef t && isNamedDefinition ref) eqn:E.
  - eapply run_ok_weaken; [intros ? HP; exact HP | apply run_ok_set_prop|].
    intros [] s' _ (fs & Hfs & -> & _). assert (fs = fr) as -> by congruence.
    exists t. rewrite E. split; [assumption|]. split; [apply length_insert|].
    apply list_lookup_insert_eq. eapply lookup_lt_Some, Hr.
  - apply run_ok_ret. exists t. rewrite E. auto.
Qed.

End Blocks.
(* ================================================================== *)
(** * No call changes a cell it did not allocate                       *)
(* ================================================================== *)

Section ParserFrame.

Variable JsonPointer_get : list cell -> val -> string -> option val.
Variable isNamedDefinition : val -> bool.
Variable JsonPointer_baseName : val -> option string.
Variable spec : val.

Lemma heap_same_byRef (ref : val) : heap_same (byRef JsonPointer_get spec ref).
Proof.
  unfold byRef. destruct (is_undef spec); [apply heap_same_ret|].
  destruct ref; try apply heap_same_throw.
  destruct (decodeURIComponent _); [apply heap_same_reading | apply heap_same_throw].
Qed.

Lemma run_ok_circular_copy (resolved : val) (s : state) :
  run_ok all (circular_copy resolved) s
    (fun v s' => exists fs, own_props (heap s) resolved = Some fs /\
       v = VRef (length (heap s)) /\
       heap s' = heap s ++
         [CObj (spread (spread [] fs) [("x-circular-ref"%string, VBool true)])] /\
       refCounter s' = refCounter s).
Proof.
  unfold circular_copy.
  eapply run_ok_bind; [apply all_any | apply run_ok_reading|].
  intros fs s1 _ [-> Hfs]. simpl in *.
  eapply run_ok_weaken; [apply all_any | apply run_ok_alloc|].
  intros v s' _ (-> & Hh & Hc). exists fs.
  destruct (own_props (heap s) resolved); [|discriminate].
  injection Hfs as ->. auto.
Qed.

(** [deref] leaves every cell of the store it was called in as it
    was. *)
Lemma deref_keeps (fuel : nat) :
  forall (obj : val) (force : bool) (s : state),
  run_ok all (deref JsonPointer_get spec fuel obj force) s (fun _ _ => True).
Proof.
  induction fuel as [|fuel IH]; intros obj force s; simpl.
  { apply run_ok_stop. }
  eapply run_ok_bind; [apply all_any | apply run_ok_same, heap_same_isRef|].
  intros b s1 _ _. destruct b; [|apply run_ok_ret; exact I].
  eapply run_ok_bind; [apply all_any | apply run_ok_same, heap_same_reading|].
  intros r s2 _ _.
  eapply run_ok_bind; [apply all_any | apply run_ok_same, heap_same_byRef|].
  intros resolved s3 _ _.
  eapply run_ok_bind; [apply all_any | apply run_ok_same, heap_same_rc_visited|].
  intros visited s4 _ _.
  eapply run_ok_bind; [apply all_any | apply run_ok_same, heap_same_rc_visit|].
  intros [] s5 _ _.
  destruct (visited && negb force).
  { eapply run_ok_weaken; [apply all_any | apply run_ok_circular_copy | auto]. }
  eapply run_ok_bind; [apply all_any | apply run_ok_same, heap_same_isRef|].
  intros b' s6 _ _. destruct b'; [|apply run_ok_ret; exact I].
  eapply run_ok_bind; [apply all_any | apply IH|].
  intros res s7 _ _.
  eapply run_ok_bind; [apply all_any | apply run_ok_same, heap_same_exitRef|].
  intros [] s8 _ _. apply run_ok_ret. exact I.
Qed.

Section Branches.

Variable merge : val -> val -> M val.
Hypothesis merge_keeps :
  forall (resolved subRef : val) (s : state),
  run_ok all (merge resolved subRef) s (fun _ _ => True).

Lemma map_branch_keeps (dfuel r p : nat) (force : bool) (sub : val)
    (s : state) :
  recv_inv r p (heap s) ->
  run_ok (but [p])
    (map_branch JsonPointer_get spec merge dfuel (VRef r) force sub) s
    (fun _ s' => recv_inv r p (heap s')).
Proof.
  intros Hinv. unfold map_branch.
  eapply run_ok_bind; [apply all_any | apply deref_keeps|].
  intros resolved s1 K1 _.
  pose proof (recv_inv_keeps _ _ _ _ _ Hinv K1 I I) as Hinv1.
  eapply run_ok_bind; [apply all_any | apply run_ok_same, heap_same_reading|].
  intros sr s2 _ [H2 _]. rewrite <- H2 in Hinv1.
  eapply run_ok_bind; [apply all_any | apply merge_keeps|].
  intros subMerged s3 K3 _.
  pose proof (recv_inv_keeps _ _ _ _ _ Hinv1 K3 I I) as Hinv3.
  eapply run_ok_bind; [apply all_any | apply run_ok_reading|].
  intros rp s4 _ [-> Hrp]. rewrite (recv_inv_getp _ _ _ Hinv3) in Hrp.
  injection Hrp as <-.
  eapply run_ok_bind; [apply all_any | apply run_ok_same, heap_same_reading|].
  intros sp s5 _ [H5 _]. rewrite <- H5 in Hinv3.
  eapply run_ok_bind; [apply all_any | apply run_ok_or_alloc|].
  intros src s6 K6 _.
  pose proof (recv_inv_keeps _ _ _ _ _ Hinv3 K6 I I) as Hinv6.
  eapply run_ok_bind; [apply all_any | apply run_ok_same, heap_same_reading|].
  intros items s7 _ [H7 _]. rewrite <- H7 in Hinv6.
  eapply run_ok_bind; [intros ? HP; exact HP | apply run_ok_array_push|].
  intros [] s8 _ (vs & Hp & H8 & _).
  apply run_ok_ret. rewrite H8.
  pose proof (recv_inv_ne _ _ _ Hinv6) as Hne.
  destruct Hinv6 as (fs & xs & Hfs & Hpr & Hxs).
  exists fs, (vs ++ items). repeat split; [|assumption|].
  - rewrite list_lookup_insert_ne by auto. assumption.
  - apply list_lookup_insert_eq. eapply lookup_lt_Some, Hp.
Qed.

Lemma map_each_branch_keeps (dfuel r p : nat) (force : bool)
    (subs : list val) :
  forall s : state,
  recv_inv r p (heap s) ->
  run_ok (but [p])
    (map_each (map_branch JsonPointer_get spec merge dfuel (VRef r) force) subs)
    s (fun _ s' => recv_inv r p (heap s')).
Proof.
  induction subs as [|sub subs IH]; intros s Hinv; simpl.
  - apply run_ok_ret, Hinv.
  - eapply run_ok_bind; [intros ? HP; exact HP | apply map_branch_keeps, Hinv|].
    intros b s1 _ Hinv1.
    eapply run_ok_bind; [intros ? HP; exact HP | apply IH, Hinv1|].
    intros bs s2 _ Hinv2. apply run_ok_ret, Hinv2.
Qed.

(** The receiver and its [parentRefs] are new, and nothing older is
    touched. *)
Lemma collect_branches_keeps (dfuel : nat) (schema allOf : val)
    (force : bool) (s : state) :
  run_ok all
    (collect_branches JsonPointer_get spec merge dfuel schema allOf force) s
    (fun c s' => exists r p, c.1 = VRef r /\
       (length (heap s) <= r)%nat /\ (length (heap s) <= p)%nat /\
       recv_inv r p (heap s')).
Proof.
  apply run_ok_below_all. unfold collect_branches.
  eapply run_ok_bind; [apply all_any | apply run_ok_same, heap_same_reading|].
  intros fs s1 _ [H1 _].
  eapply run_ok_bind; [apply all_any | apply run_ok_alloc|].
  intros v s2 K2 (-> & H2 & _).
  eapply run_ok_bind; [apply all_any | apply run_ok_alloc|].
  intros v s3 K3 (-> & H3 & _).
  set (p := length (heap s1)) in *. set (r := length (heap s2)) in *.
  assert (Hr : (length (heap s) <= r)%nat).
  { unfold r. rewrite H2, length_app, H1. lia. }
  assert (Hp : (length (heap s) <= p)%nat) by (unfold p; rewrite H1; lia).
  assert (Hinv : recv_inv r p (heap s3)).
  { rewrite H3. eexists _, []. split; [apply lookup_snoc|].
    split; [rewrite field_set; reflexivity|].
    rewrite lookup_app_l by (rewrite H2, length_app; simpl; lia).
    rewrite H2. apply lookup_snoc. }
  eapply run_ok_bind; [apply all_any | apply run_ok_same, heap_same_reading|].
  intros subs s4 _ [H4 _]. rewrite <- H4 in Hinv.
  eapply run_ok_bind; [|apply map_each_branch_keeps, Hinv|].
  { intros a Ha Hin. apply list_elem_of_singleton in Hin. subst a.
    unfold below in Ha. lia. }
  intros bs s5 _ Hinv5. apply run_ok_ret. exists r, p. simpl. auto.
Qed.

End Branches.

Lemma fold_branch_struct (ref : val) (n r0 r p : nat) (b : val * val)
    (fr : list (string * val)) (xs : list val) (s : state) :
  (n <= length (heap s))%nat -> r = r0 \/ (n <= r)%nat ->
  heap s !! r = Some (CObj fr) -> field "parentRefs" fr = VRef p ->
  heap s !! p = Some (CArr xs) ->
  run_ok (old_but n r0 p)
    (fold_branch isNamedDefinition JsonPointer_baseName ref (VRef r) b) s
    (fun v s' => exists r' fr', v = VRef r' /\
       (length (heap s) <= r' < length (heap s'))%nat /\
       heap s' !! r' = Some (CObj fr') /\
       field "parentRefs" fr' = VRef p /\
       heap s' !! p = Some (CArr (xs ++ if truthy b.1 then [b.1] else []))).
Proof.
  intros Hn Hr0 Hr Hpr Hp. assert (Hne : r <> p) by (intros ->; congruence).
  assert (Hw : forall a, old_but n r0 p a -> but [r] a).
  { intros a (Ha & Har & Hap) Hin. apply list_elem_of_singleton in Hin as ->.
    destruct Hr0; [contradiction | lia]. }
  unfold fold_branch.
  eapply run_ok_bind;
    [apply all_any | apply run_ok_same, heap_same_check_types|].
  intros [] s1 _ [H1 _]. rewrite <- H1 in Hr, Hp.
  assert (L1 : (length (heap s) <= length (heap s1))%nat) by (rewrite H1; lia).
  clear H1.
  (* type *)
  eapply run_ok_bind; [exact Hw | apply run_ok_merge_type, Hr|].
  intros [] s2 K2 (bt & _ & L2 & Hr2).
  assert (Hp2 : heap s2 !! p = Some (CArr xs)).
  { eapply keeps_lookup; [exact K2 | | exact Hp].
    intros Hin. apply list_elem_of_singleton in Hin. auto. }
  assert (Hpr2 : field "parentRefs"
            (if is_undef bt then fr else obj_set "type" bt fr) = VRef p).
  { destruct (is_undef bt); [assumption|]. rewrite field_set. assumption. }
  clear Hr Hp K2. revert Hr2 Hpr2.
  generalize (if is_undef bt then fr else obj_set "type" bt fr).
  clear fr Hpr. intros fr Hr Hpr.
  (* properties *)
  eapply run_ok_bind; [exact Hw | apply run_ok_merge_properties, Hr|].
  intros [] s3 K3 (bp & _ & H3).
  assert (Hp3 : heap s3 !! p = Some (CArr xs)).
  { eapply keeps_lookup; [exact K3 | | exact Hp2].
    intros Hin. apply list_elem_of_singleton in Hin. auto. }
  assert (L3 : (length (heap s2) <= length (heap s3))%nat) by apply K3.
  assert (exists fr3, heap s3 !! r = Some (CObj fr3) /\
            field "parentRefs" fr3 = VRef p) as (fr3 & Hr3 & Hpr3).
  { destruct (is_undef bp).
    - subst s3. eauto.
    - destruct H3 as (o & h1 & fbase & fb & _ & _ & _ & _ & _ & H3).
      eexists. split; [exact H3|]. rewrite field_set. assumption. }
  clear Hr Hpr Hp2 K3 H3 fr.
  (* required *)
  eapply run_ok_bind; [exact Hw | apply run_ok_merge_required, Hr3|].
  intros [] s4 K4 (bq & _ & H4).
  assert (Hp4 : heap s4 !! p = Some (CArr xs)).
  { eapply keeps_lookup; [exact K4 | | exact Hp3].
    intros Hin. apply list_elem_of_singleton in Hin. auto. }
  assert (L4 : (length (heap s3) <= length (heap s4))%nat) by apply K4.
  assert (exists fr4, heap s4 !! r = Some (CObj fr4) /\
            field "parentRefs" fr4 = VRef p) as (fr4 & Hr4 & Hpr4).
  { destruct (is_undef bq).
    - subst s4. eauto.
    - destruct H4 as (q & H4 & _).
      eexists. split; [exact H4|]. rewrite field_set. assumption. }
  clear Hr3 Hpr3 Hp3 K4 H4 fr3.
  (* the next receiver *)
  eapply run_ok_bind; [apply all_any | apply run_ok_merge_rest, Hr4|].
  intros v s5 K5 (fb & _ & -> & H5).
  set (r' := length (heap s4)) in *.
  assert (Hr5 : heap s5 !! r' = Some (CObj (spread (spread [] fb) fr4))).
  { rewrite H5. apply lookup_snoc. }
  assert (Hpr5 : field "parentRefs" (spread (spread [] fb) fr4) = VRef p).
  { rewrite field_spread. unfold field in Hpr4.
    destruct (obj_get "parentRefs" fr4); [assumption | discriminate]. }
  assert (Hp5 : heap s5 !! p = Some (CArr xs)).
  { eapply keeps_lookup; [exact K5 | exact I | exact Hp4]. }
  eapply run_ok_bind; [|apply (run_ok_note_parent _ _ r' p _ _ xs _ Hr5 Hpr5 Hp5)|].
  { intros a (Ha & Har & Hap) Hin.
    apply elem_of_cons in Hin as [->|Hin]; [unfold r' in *; lia|].
    apply list_elem_of_singleton in Hin. contradiction. }
  intros [] s6 _ (L6 & Hp6 & Hr6). apply run_ok_ret.
  eexists r', _. split; [reflexivity|].
  split; [unfold r'; rewrite L6, H5, length_app; simpl; lia|].
  split; [exact Hr6|]. split; [|exact Hp6].
  destruct (_ && _); [rewrite field_set|]; assumption.
Qed.

Lemma fold_branches_struct (ref : val) (n r0 p : nat)
    (bs : list (val * val)) :
  forall (r : nat) (fr : list (string * val)) (xs : list val) (s : state),
  (n <= length (heap s))%nat -> r = r0 \/ (n <= r)%nat ->
  heap s !! r = Some (CObj fr) -> field "parentRefs" fr = VRef p ->
  heap s !! p = Some (CArr xs) ->
  run_ok (old_but n r0 p)
    (fold_branches isNamedDefinition JsonPointer_baseName ref (VRef r) bs) s
    (fun v s' => exists r' fr', v = VRef r' /\
       (r' = r0 \/ (n <= r')%nat) /\
       heap s' !! r' = Some (CObj fr') /\
       field "parentRefs" fr' = VRef p /\
       heap s' !! p = Some (CArr (xs ++ direct_refs bs))).
Proof.
  induction bs as [|b bs IH]; intros r fr xs s Hn Hr0 Hr Hpr Hp; simpl.
  - apply run_ok_ret. exists r, fr. rewrite app_nil_r. auto.
  - eapply run_ok_bind;
      [intros ? HP; exact HP
      | apply (fold_branch_struct ref n r0 r p b fr xs s); assumption|].
    intros v s1 K1 (r' & fr' & -> & Hr' & Hc & Hpr' & Hp').
    eapply run_ok_weaken; [intros ? HP; exact HP | eapply IH; eauto|].
    + pose proof (proj1 K1). lia.
    + right. lia.
    + intros v s' _ (r'' & fr'' & -> & H1 & H2 & H3 & H4).
      exists r'', fr''. rewrite app_assoc. auto.
Qed.

(** [mergeAllOf] leaves every cell of the store it was called in as
    it was, and returns either the schema it was given, having done
    nothing, or a new object with a new [parentRefs] array. *)
Lemma mergeAllOf_keeps (fuel : nat) :
  forall (schema ref : val) (force : bool) (s : state),
  run_ok all
    (mergeAllOf JsonPointer_get isNamedDefinition JsonPointer_baseName spec
       fuel schema ref force) s
    (fun v s' =>
       (v = schema /\ s' = s) \/
       exists r p, v = VRef r /\ (length (heap s) <= r)%nat /\
         (length (heap s) <= p)%nat /\ recv_inv r p (heap s')).
Proof.
  induction fuel as [|fuel IH]; intros schema ref force s; simpl.
  { apply run_ok_stop. }
  apply run_ok_below_all.
  eapply run_ok_bind; [apply all_any | apply run_ok_reading|].
  intros allOf s1 _ [-> _].
  destruct (is_undef allOf); [apply run_ok_ret; auto|].
  eapply run_ok_bind; [apply all_any | apply collect_branches_keeps|].
  { intros resolved subRef s'.
    eapply run_ok_weaken; [intros ? HP; exact HP | apply IH | auto]. }
  intros [recv bs] s2 K2 (r & p & Hrecv & Hr & Hp & Hinv).
  simpl in Hrecv. subst recv. simpl fst. simpl snd.
  pose proof (recv_inv_ne _ _ _ Hinv) as Hne.
  destruct Hinv as (fr & xs & Hfr & Hpr & Hxs).
  eapply run_ok_bind;
    [| apply (fold_branches_struct ref (length (heap s)) r p bs r fr xs s2);
       [apply K2 | auto | assumption..] |].
  { intros a Ha. unfold below in Ha. unfold old_but. lia. }
  intros v s3 K3 (r' & fr' & -> & Hr' & Hc & Hpr' & Hp').
  assert (Hr'' : (length (heap s) <= r')%nat) by (destruct Hr'; lia).
  eapply run_ok_bind; [|apply run_ok_name_top_level, Hc|].
  { intros a Ha Hin. apply list_elem_of_singleton in Hin. subst a.
    unfold below in Ha. lia. }
  intros [] s4 K4 (t & _ & _ & Hr4).
  assert (Hinv4 : recv_inv r' p (heap s4)).
  { eexists _, _. split; [exact Hr4|]. split.
    - destruct (_ && _); [rewrite field_set|]; exact Hpr'.
    - eapply keeps_lookup; [exact K4 | | exact Hp'].
      intros Hin. apply list_elem_of_singleton in Hin. subst p. congruence. }
  apply run_ok_ret. right. exists r', p. auto.
Qed.

Lemma derived_step_keeps (fuel a : nat) (refs : list string)
    (schemas : list (string * val)) (defName : string) (s : state) :
  run_ok (but [a])
    (derived_step JsonPointer_get spec fuel refs (VRef a) schemas defName) s
    (fun _ _ => True).
Proof.
  unfold derived_step.
  eapply run_ok_bind; [apply all_any | apply deref_keeps|].
  intros def s1 _ _.
  eapply run_ok_bind; [apply all_any | apply run_ok_same, heap_same_reading|].
  intros allOf s2 _ _.
  destruct (negb (is_undef allOf)); [|apply run_ok_ret; exact I].
  eapply run_ok_bind; [apply all_any | apply run_ok_same, heap_same_reading|].
  intros elems s3 _ _.
  eapply run_ok_bind; [apply all_any | apply run_ok_same, heap_same_findM|].
  { intros x. apply heap_same_refers_to. }
  intros found s4 _ _.
  destruct (truthy found); [|apply run_ok_ret; exact I].
  eapply run_ok_weaken; [intros ? HP; exact HP | apply run_ok_set_prop | auto].
Qed.

Lemma for_in_keeps (P : nat -> Prop) (body : string -> M unit)
    (keys : list string) :
  (forall k s, run_ok P (body k) s (fun _ _ => True)) ->
  forall s, run_ok P (for_in body keys) s (fun _ _ => True).
Proof.
  intros Hbody. induction keys as [|k keys IH]; intros s; simpl.
  - apply run_ok_ret. exact I.
  - eapply run_ok_bind; [intros ? HP; exact HP | apply Hbody|].
    intros [] s1 _ _. apply IH.
Qed.

Lemma run_ok_definitions (s : state) :
  run_ok all (definitions spec) s (fun _ s' => refCounter s' = refCounter s).
Proof.
  unfold definitions.
  eapply run_ok_bind; [apply all_any | apply run_ok_reading|].
  intros components s2 _ [-> _].
  eapply run_ok_bind with (Q := fun _ s' => s' = s); [apply all_any | |].
  { destruct (truthy components).
    - eapply run_ok_weaken; [intros ? HP; exact HP | apply run_ok_reading|].
      intros a s' _ [H _]. exact H.
    - apply run_ok_ret. reflexivity. }
  intros inner s3 _ ->.
  eapply run_ok_bind; [apply all_any | apply run_ok_or_alloc|].
  intros dict s4 _ [Hc _].
  eapply run_ok_weaken; [intros ? HP; exact HP | apply run_ok_reading|].
  intros fs s' _ [-> _]. exact Hc.
Qed.

(** [findDerived] leaves every cell of the store it was called in as
    it was. *)
Lemma findDerived_keeps (fuel : nat) (refs : list string) (s : state) :
  run_ok all (findDerived JsonPointer_get spec fuel refs) s (fun _ _ => True).
Proof.
  apply run_ok_below_all. unfold findDerived.
  eapply run_ok_bind; [apply all_any | apply run_ok_alloc|].
  intros v s1 _ (-> & _ & _).
  eapply run_ok_bind; [apply all_any | apply run_ok_definitions|].
  intros schemas s5 _ _.
  eapply run_ok_bind;
    [|apply for_in_keeps; intros k s'; apply derived_step_keeps|].
  { intros a Ha Hin. apply list_elem_of_singleton in Hin. subst a.
    unfold below in Ha. lia. }
  intros [] s6 _ _. apply run_ok_ret. exact I.
Qed.

(** C8. [deref], [mergeAllOf] and [findDerived] never change a cell
    that was in the store when they were called: after any sequence
    of these calls, made from any state, the store they started from
    is a prefix of the store they leave, so every node of the
    document and of the inputs is field-for-field as it was.  What a
    call adds (the circular-reference copy, the receiver of a merge
    and its [parentRefs], the result of [findDerived]) is allocated
    after that prefix. *)
Theorem document_never_mutated (fuel : nat) (qs : list request) (s : state) :
  heap s `prefix_of`
    heap (session JsonPointer_get isNamedDefinition JsonPointer_baseName
            spec fuel qs s).
Proof.
  revert s. induction qs as [|q qs IH]; intros s; simpl; [reflexivity|].
  etransitivity; [|apply IH].
  apply keeps_prefix.
  destruct q as [obj force | schema ref force | refs]; simpl.
  - apply (deref_keeps fuel obj force s).
  - apply (mergeAllOf_keeps fuel schema ref force s).
  - apply (findDerived_keeps fuel refs s).
Qed.

End ParserFrame.

(* ================================================================== *)
(** * Fuel                                                             *)
(* ================================================================== *)

(** The fuel of [deref], [mergeAllOf] and [findDerived] bounds the
    depth of the recursion and nothing else: a run that ends before
    the fuel does, with a value or an exception, ends the same way
    with any larger amount. *)

Lemma refines_refl {A} (m : M A) : refines m m.
Proof. intros s s' o H _. exact H. Qed.

Lemma refines_bind {A B} (m m' : M A) (k k' : A -> M B) :
  refines m m' -> (forall a, refines (k a) (k' a)) ->
  refines (bind m k) (bind m' k').
Proof.
  intros Hm Hk s s' o. unfold bind.
  destruct (m s) as [[a|e|w] s1] eqn:E.
  - intros H Ho. rewrite (Hm _ _ _ E) by discriminate. exact (Hk a _ _ _ H Ho).
  - intros [= <- <-] _. rewrite (Hm _ _ _ E) by discriminate. reflexivity.
  - intros [= <- <-] Ho. rewrite (Hm _ _ _ E); [reflexivity|].
    intros [= ->]. apply Ho. reflexivity.
Qed.

Lemma refines_map_each {A B} (f f' : A -> M B) (l : list A) :
  (forall x, refines (f x) (f' x)) -> refines (map_each f l) (map_each f' l).
Proof.
  intros Hf. induction l as [|x l IH]; simpl; [apply refines_refl|].
  apply refines_bind; [apply Hf|]. intros y.
  apply refines_bind; [exact IH|]. intros ys. apply refines_refl.
Qed.

Lemma refines_for_in (body body' : string -> M unit) (keys : list string) :
  (forall k, refines (body k) (body' k)) ->
  refines (for_in body keys) (for_in body' keys).
Proof.
  intros Hb. induction keys as [|k keys IH]; simpl; [apply refines_refl|].
  apply refines_bind; [apply Hb|]. intros _. exact IH.
Qed.

Lemma refines_stop {A} (m : M A) : refines (stop OutOfFuel) m.
Proof. intros s s' o [= <- <-] Ho. contradiction. Qed.

Section Fuel.

Variable JsonPointer_get : list cell -> val -> string -> option val.
Variable isNamedDefinition : val -> bool.
Variable JsonPointer_baseName : val -> option string.
Variable spec : val.

Abbreviation deref := (deref JsonPointer_get spec).
Abbreviation mergeAllOf :=
  (mergeAllOf JsonPointer_get isNamedDefinition JsonPointer_baseName spec).
Abbreviation findDerived := (findDerived JsonPointer_get spec).

Lemma deref_fuel_mono (fuel : nat) :
  forall (fuel' : nat) (obj : val) (force : bool),
  (fuel <= fuel')%nat ->
  refines (deref fuel obj force) (deref fuel' obj force).
Proof.
  induction fuel as [|fuel IH]; intros fuel' obj force Hle.
  { apply refines_stop. }
  destruct fuel' as [|fuel']; [lia|]. simpl.
  apply refines_bind; [apply refines_refl|]. intros b.
  destruct b; [|apply refines_refl].
  apply refines_bind; [apply refines_refl|]. intros r.
  apply refines_bind; [apply refines_refl|]. intros resolved.
  apply refines_bind; [apply refines_refl|]. intros visited.
  apply refines_bind; [apply refines_refl|]. intros _.
  destruct (visited && negb force); [apply refines_refl|].
  apply refines_bind; [apply refines_refl|]. intros b'.
  destruct b'; [|apply refines_refl].
  apply refines_bind; [apply IH; lia|]. intros res. apply refines_refl.
Qed.

Lemma mergeAllOf_fuel_mono (fuel : nat) :
  forall (fuel' : nat) (schema ref : val) (force : bool),
  (fuel <= fuel')%nat ->
  refines (mergeAllOf fuel schema ref force)
          (mergeAllOf fuel' schema ref force).
Proof.
  induction fuel as [|fuel IH]; intros fuel' schema ref force Hle.
  { apply refines_stop. }
  destruct fuel' as [|fuel']; [lia|]. simpl.
  apply refines_bind; [apply refines_refl|]. intros allOf.
  destruct (is_undef allOf); [apply refines_refl|].
  apply refines_bind; [|intros c; apply refines_refl].
  unfold collect_branches.
  apply refines_bind; [apply refines_refl|]. intros fs.
  apply refines_bind; [apply refines_refl|]. intros parentRefs.
  apply refines_bind; [apply refines_refl|]. intros receiver.
  apply refines_bind; [apply refines_refl|]. intros subs.
  apply refines_bind; [|intros bs; apply refines_refl].
  apply refines_map_each. intros sub. unfold map_branch.
  apply refines_bind; [apply deref_fuel_mono; lia|]. intros resolved.
  apply refines_bind; [apply refines_refl|]. intros sr.
  apply refines_bind; [apply IH; lia|]. intros subMerged.
  apply refines_refl.
Qed.

Lemma findDerived_fuel_mono (fuel fuel' : nat) (refs : list string) :
  (fuel <= fuel')%nat ->
  refines (findDerived fuel refs) (findDerived fuel' refs).
Proof.
  intros Hle. unfold findDerived.
  apply refines_bind; [apply refines_refl|]. intros res.
  apply refines_bind; [apply refines_refl|]. intros schemas.
  apply refines_bind; [|intros u; apply refines_refl].
  apply refines_for_in. intros k. unfold derived_step.
  apply refines_bind; [apply deref_fuel_mono; exact Hle|]. intros def.
  apply refines_refl.
Qed.

End Fuel.

(* ================================================================== *)
(** * deref                                                            *)
(* ================================================================== *)

Section DerefFacts.

Variable JsonPointer_get : list cell -> val -> string -> option val.
Variable spec : val.

Abbreviation deref := (deref JsonPointer_get spec).
Abbreviation byRef := (byRef JsonPointer_get spec).
Abbreviation resolve := (resolve JsonPointer_get spec).
Abbreviation next := (next JsonPointer_get spec).
Abbreviation chain := (chain JsonPointer_get spec).
Abbreviation hits := (hits JsonPointer_get spec).
Abbreviation stops_at := (stops_at JsonPointer_get spec).

Lemma getp_str_isRef (obj : val) (r : string) (s : state) :
  getp (heap s) obj "$ref" = Ret (VStr r) -> isRef obj s = (Ret true, s).
Proof.
  intros H. unfold isRef.
  assert (truthy obj = true) as ->.
  { destruct obj; simpl in H; try discriminate; reflexivity. }
  simpl. unfold bind, get_prop, reading. rewrite H. reflexivity.
Qed.

Lemma ref_of_getp (h : list cell) (v : val) (r : string) :
  ref_of h v = Some r -> getp h v "$ref" = Ret (VStr r).
Proof.
  unfold ref_of. destruct (getp h v "$ref") as [[]| |]; congruence.
Qed.

Lemma byRef_resolve (r : string) (node : val) (s : state) :
  resolve (heap s) r = Some node ->
  byRef (VStr r) s = (Ret node, s).
Proof.
  unfold resolve, byRef, normalize.
  destruct (is_undef spec); [intros [= <-]; reflexivity|].
  destruct (decodeURIComponent _) as [r2|]; [|discriminate].
  intros [= <-]. unfold reading.
  destruct (JsonPointer_get (heap s) spec r2); reflexivity.
Qed.

(** One round of [deref] on a Reference whose pointer decodes. *)
Lemma deref_ref_eq (fuel : nat) (obj node : val) (r : string) (force : bool)
    (s : state) :
  getp (heap s) obj "$ref" = Ret (VStr r) ->
  resolve (heap s) r = Some node ->
  deref (S fuel) obj force s =
  let s1 := State (heap s) (RefCounter.visit r (refCounter s)) in
  if RefCounter.visited r (refCounter s) && negb force
  then circular_copy node s1
  else bind (isRef node)
         (fun b' => if b' then
                      let! res := deref fuel node false in
                      exitRef node;;; ret res
                    else ret node) s1.
Proof.
  intros Hobj Hres. cbn [deref].
  unfold bind at 1. rewrite (getp_str_isRef _ _ _ Hobj).
  unfold bind at 1. unfold get_prop at 1, reading at 1. rewrite Hobj.
  unfold bind at 1. rewrite (byRef_resolve _ _ _ Hres).
  unfold bind at 1, rc_visited, rc_visit, to_key. cbn [to_string].
  unfold bind at 1 2 3, ret at 1 2. cbn [fst snd].
  destruct (RefCounter.visited r (refCounter s) && negb force); reflexivity.
Qed.


Lemma circular_copy_eq (node : val) (fs : list (string * val)) (s : state) :
  own_props (heap s) node = Some fs ->
  circular_copy node s =
  (Ret (VRef (length (heap s))),
   State (heap s ++
            [CObj (spread (spread [] fs) [("x-circular-ref"%string, VBool true)])])
         (refCounter s)).
Proof.
  intros H. unfold circular_copy, bind, props_of, reading. rewrite H.
  reflexivity.
Qed.

Lemma getp_app (h ext : list cell) (v w : val) (k : string) :
  getp h v k = Ret w -> getp (h ++ ext) v k = Ret w.
Proof.
  destruct v; simpl; try congruence.
  destruct (h !! a) as [c|] eqn:E; [|discriminate].
  rewrite (lookup_app_l_Some _ _ _ _ E). trivial.
Qed.

Lemma exitRef_ref (node : val) (r : string) (s : state) :
  getp (heap s) node "$ref" = Ret (VStr r) ->
  exitRef node s =
  (Ret tt, State (heap s) (RefCounter.exit r (refCounter s))).
Proof.
  intros H. unfold exitRef, bind. rewrite (getp_str_isRef _ _ _ H). simpl.
  unfold get_prop, reading. rewrite H. reflexivity.
Qed.

Lemma ref_of_own_props (h : list cell) (v : val) (r : string) :
  ref_of h v = Some r -> exists fs, own_props h v = Some fs.
Proof.
  intros H. apply ref_of_getp in H. destruct v; simpl in *; try discriminate.
  destruct (h !! a) as [[fs|vs]|]; try discriminate; eauto.
Qed.

(** When a visited pointer comes up within [n] References, [deref]
    with more than [n] units of fuel returns a fresh copy, with the
    marker, of a node on the chain. *)
Lemma deref_hits (n : nat) :
  forall (fuel : nat) (obj : val) (r : string) (s : state),
  (n < fuel)%nat ->
  RefCounter.wf (refCounter s) ->
  getp (heap s) obj "$ref" = Ret (VStr r) ->
  hits (heap s) n r (refCounter s) ->
  exists (j : nat) (rj : string) (node : val) (fs : list (string * val))
         (c' : gmap string RefCounter.slot),
    (j <= n)%nat /\ chain (heap s) r j = Some rj /\
    resolve (heap s) rj = Some node /\
    own_props (heap s) node = Some fs /\
    deref fuel obj false s =
    (Ret (VRef (length (heap s))),
     State (heap s ++
              [CObj (spread (spread [] fs)
                       [("x-circular-ref"%string, VBool true)])]) c').
Proof.
  induction n as [|n IH]; intros fuel obj r s Hfuel Hwf Hobj Hhit;
    (destruct fuel as [|fuel]; [lia|]);
    destruct Hhit as (r' & Hnext & Hhit);
    unfold next in Hnext;
    destruct (resolve (heap s) r) as [node|] eqn:Hres; try discriminate;
    rewrite (deref_ref_eq _ _ _ _ _ _ Hobj Hres); cbn zeta;
    destruct (ref_of_own_props _ _ _ Hnext) as [fs Hfs].
  - destruct Hhit as [Hv|[]]. rewrite Hv. simpl.
    exists 0%nat, r, node, fs. eexists. repeat split; [lia | assumption..|].
    rewrite (circular_copy_eq _ fs); [reflexivity | assumption].
  - destruct (RefCounter.visited r (refCounter s)) eqn:Hv; simpl.
    + exists 0%nat, r, node, fs. eexists. repeat split; [lia | assumption..|].
      rewrite (circular_copy_eq _ fs); [reflexivity | assumption].
    + destruct Hhit as [|Hhit]; [discriminate|].
      pose proof (ref_of_getp _ _ _ Hnext) as Hnode.
      set (s1 := State (heap s) (RefCounter.visit r (refCounter s))).
      destruct (IH fuel node r' s1) as (j & rj & node' & fs' & c' & Hj & Hch
                                         & Hres' & Hfs' & Hd);
        [lia | apply RefCounterFacts.wf_visit, Hwf
        | exact Hnode | exact Hhit |].
      exists (S j), rj, node', fs'. eexists.
      repeat split; [lia | | assumption | assumption |].
      { simpl. unfold next. rewrite Hres, Hnext. exact Hch. }
      unfold bind at 1. rewrite (getp_str_isRef node r' s1 Hnode).
      unfold bind at 1. rewrite Hd. unfold bind at 1.
      erewrite exitRef_ref; [reflexivity|].
      simpl. apply getp_app. exact Hnode.
Qed.

Lemma chain_hits (k : nat) :
  forall (h : list cell) (r r' rn : string) (c : gmap string RefCounter.slot),
  chain h r k = Some r' -> next h r' = Some rn ->
  RefCounter.wf c -> RefCounter.visited r' c = true ->
  hits h k r c.
Proof.
  induction k as [|k IH]; intros h r r' rn c Hch Hn Hwf Hv; simpl in *.
  - injection Hch as ->. exists rn. auto.
  - destruct (next h r) as [r1|] eqn:Hr1; [|discriminate].
    exists r1. split; [reflexivity|]. right.
    eapply IH; [exact Hch | exact Hn | apply RefCounterFacts.wf_visit, Hwf|].
    apply RefCounterFacts.visited_visit_other; assumption.
Qed.


(** [deref] with [forceCircular = false] on a chain of References
    that comes to a pointer already marked visited: the result is
    the marked copy of the node at that pointer, and the counter has
    one visit more for each pointer met, in order, then one [exit]
    for each but the first, the last first. *)
Lemma deref_stops (rs : list string) :
  forall (fuel : nat) (obj target : val) (r rl : string)
         (fs : list (string * val)) (s : state),
  getp (heap s) obj "$ref" = Ret (VStr r) ->
  stops_at (heap s) rs r (refCounter s) rl ->
  resolve (heap s) rl = Some target ->
  own_props (heap s) target = Some fs ->
  (length rs < fuel)%nat ->
  deref fuel obj false s =
  (Ret (VRef (length (heap s))),
   State (heap s ++
            [CObj (spread (spread [] fs)
                     [("x-circular-ref"%string, VBool true)])])
         (fold_right RefCounter.exit
            (fold_left (fun c x => RefCounter.visit x c) (r :: rs)
               (refCounter s))
            rs)).
Proof.
  induction rs as [|r' rs IH];
    intros fuel obj target r rl fs s Hobj Hst Hres Hfs Hfuel;
    (destruct fuel as [|fuel]; [simpl in Hfuel; lia|]).
  - destruct Hst as [-> Hv].
    rewrite (deref_ref_eq _ _ _ _ _ _ Hobj Hres), Hv. cbn zeta.
    simpl andb. cbv iota. rewrite (circular_copy_eq _ fs) by exact Hfs.
    reflexivity.
  - destruct Hst as (Hv & Hnext & Hst).
    unfold next in Hnext.
    destruct (resolve (heap s) r) as [node|] eqn:Hres1; [|discriminate].
    apply ref_of_getp in Hnext.
    rewrite (deref_ref_eq _ _ _ _ _ _ Hobj Hres1), Hv. cbn zeta.
    simpl andb. cbv iota.
    set (s1 := State (heap s) (RefCounter.visit r (refCounter s))).
    unfold bind at 1. rewrite (getp_str_isRef node r' s1 Hnext).
    unfold bind at 1.
    rewrite (IH fuel node target r' rl fs s1 Hnext Hst Hres Hfs)
      by (simpl in Hfuel; lia).
    unfold bind at 1. erewrite exitRef_ref;
      [reflexivity | simpl; apply getp_app; exact Hnext].
Qed.


(** C3, as the code has it.  When the [$ref] of a node is a string
    that percent-decodes and the lookup of the decoded pointer fails,
    [deref] does not throw.  It returns [undefined] when the pointer
    was not marked visited or [forceCircular] is set, and otherwise a
    new object whose only field is the circular-reference marker. *)
Theorem deref_unresolved_never_throws (fuel : nat) (obj : val)
    (r r2 : string) (force : bool) (s : state) :
  getp (heap s) obj "$ref" = Ret (VStr r) ->
  decodeURIComponent (normalize r) = Some r2 ->
  JsonPointer_get (heap s) spec r2 = None ->
  deref (S fuel) obj force s =
  if RefCounter.visited r (refCounter s) && negb force
  then (Ret (VRef (length (heap s))),
        State (heap s ++ [CObj [("x-circular-ref"%string, VBool true)]])
              (RefCounter.visit r (refCounter s)))
  else (Ret VUndef, State (heap s) (RefCounter.visit r (refCounter s))).
Proof.
  intros Hobj Hdec Hget.
  assert (Hres : resolve (heap s) r = Some VUndef).
  { unfold resolve. destruct (is_undef spec); [reflexivity|].
    rewrite Hdec, Hget. reflexivity. }
  rewrite (deref_ref_eq _ _ _ _ _ _ Hobj Hres). cbn zeta.
  destruct (RefCounter.visited r (refCounter s) && negb force); reflexivity.
Qed.

End DerefFacts.




Lemma deref_unresolved_never_throws_witness :
  deref Utils.get Examples.root 1 (Examples.at_ "#/dangling") false
    Examples.start =
  (Ret VUndef,
   State Examples.store
     (RefCounter.visit "#/components/schemas/Nope" RefCounter.reset)) /\
  deref Utils.get Examples.aliased_root 1 (Examples.aliased_at "#/odd") false
    Examples.aliased_start =
  (Ret (VRef (length Examples.aliased_store)),
   State (Examples.aliased_store ++
            [CObj [("x-circular-ref"%string, VBool true)]])
     (RefCounter.visit "constructor" RefCounter.reset)).
Proof.
  split.
  - apply (deref_unresolved_never_throws Utils.get Examples.root 0
             (Examples.at_ "#/dangling") "#/components/schemas/Nope"
             "#/components/schemas/Nope" false Examples.start);
      reflexivity.
  - rewrite (deref_unresolved_never_throws Utils.get Examples.aliased_root 0
               (Examples.aliased_at "#/odd") "constructor" "#constructor"
               false Examples.aliased_start);
      reflexivity.
Defined.

(** C3 as stated fails three times.  A second [deref] of a Reference
    whose pointer does not resolve returns an object, not
    [undefined]; so does the first [deref], on a new parser, of a
    Reference whose pointer is the name of a member of
    [Object.prototype], which the counter reads as visited; and a
    [$ref] that is not a percent-encoding makes [deref] throw, the
    decoding being outside the [try] of [byRef]. *)
Lemma deref_unresolved_not_always_undefined :
  let s1 := (deref Utils.get Examples.root 2 (Examples.at_ "#/dangling")
               false Examples.start).2 in
  let odd := deref Utils.get Examples.aliased_root 2
               (Examples.aliased_at "#/odd") false Examples.aliased_start in
  Utils.get Examples.store Examples.root "#/components/schemas/Nope" = None /\
  (deref Utils.get Examples.root 2 (Examples.at_ "#/dangling") false s1).1 =
    Ret (VRef (length Examples.store)) /\
  getp Examples.aliased_store (Examples.aliased_at "#/odd") "$ref" =
    Ret (VStr "constructor") /\
  Utils.get Examples.aliased_store Examples.aliased_root "#constructor" =
    None /\
  odd.1 = Ret (VRef (length Examples.aliased_store)) /\
  getp (heap odd.2) (VRef (length Examples.aliased_store)) "x-circular-ref" =
    Ret (VBool true) /\
  (deref Utils.get Examples.root 2 (Examples.at_ "#/malformed") false
     Examples.start).1 = Throw URIError.
Proof. vm_compute. repeat split; reflexivity. Qed.

(* ================================================================== *)
(** * mergeAllOf                                                       *)
(* ================================================================== *)

Section MergeFacts.

Variable JsonPointer_get : list cell -> val -> string -> option val.
Variable isNamedDefinition : val -> bool.
Variable JsonPointer_baseName : val -> option string.
Variable spec : val.

Abbreviation mergeAllOf :=
  (mergeAllOf JsonPointer_get isNamedDefinition JsonPointer_baseName spec).
Abbreviation collect_branches := (collect_branches JsonPointer_get spec).
Abbreviation fold_branches :=
  (fold_branches isNamedDefinition JsonPointer_baseName).
Abbreviation fold_branch :=
  (fold_branch isNamedDefinition JsonPointer_baseName).
Abbreviation base_title := (base_title JsonPointer_baseName).

Lemma fold_branches_app (ref recv : val) (bs1 bs2 : list (val * val))
    (s : state) :
  fold_branches ref recv (bs1 ++ bs2) s =
  bind (fold_branches ref recv bs1)
       (fun recv1 => fold_branches ref recv1 bs2) s.
Proof.
  revert recv s. induction bs1 as [|b bs1 IH]; intros recv s; simpl.
  - reflexivity.
  - unfold bind in *.
    destruct (fold_branch ref recv b s) as [[recv'|e|w] s1]; [|reflexivity..].
    apply IH.
Qed.

Lemma check_types_conflict (ref receiver sub rt bt : val) (p : string)
    (s : state) :
  getp (heap s) receiver "type" = Ret rt ->
  getp (heap s) sub "type" = Ret bt ->
  rt <> VUndef -> bt <> VUndef -> rt <> bt ->
  to_string ref = Some p ->
  check_types ref receiver sub s = (Throw (Error (type_conflict_message p)), s).
Proof.
  intros Hrt Hbt Hr Hb Hne Hp. unfold check_types, bind, get_prop, reading.
  rewrite Hrt, Hbt. unfold strict_eq, is_undef.
  rewrite !bool_decide_eq_false_2 by assumption. simpl. rewrite Hp. reflexivity.
Qed.


Lemma getp_obj (h : list cell) (v w : val) (k : string) :
  getp h v k = Ret w -> w <> VUndef ->
  exists a fs, v = VRef a /\ h !! a = Some (CObj fs) /\ field k fs = w.
Proof.
  destruct v; simpl; intros H Hw; try congruence.
  destruct (h !! a) as [[fs|vs]|] eqn:E; try congruence.
  injection H as <-. eauto.
Qed.


End MergeFacts.



(** In that run the fold had taken the title from the branch that
    refers to [Base]; the top-level name replaced it. *)
Example pet_title_after_fold :
  ((let! c := collect_branches Utils.get Examples.root
                (fun resolved subRef =>
                   mergeAllOf Utils.get Utils.isNamedDefinition
                     Utils.baseName Examples.root 1 resolved subRef false)
                1 (Examples.at_ "#/components/schemas/Pet") (VRef 9) false in
    let! r := fold_branches Utils.isNamedDefinition Utils.baseName
                (VStr "#/components/schemas/Pet") c.1 c.2 in
    get_prop r "title") Examples.start).1 = Ret (VStr "Base").
Proof. vm_compute. reflexivity. Qed.

(* ================================================================== *)
(** * The fold over the branches, field by field                       *)
(* ================================================================== *)

Lemma field_spread_nil (k : string) (fs : list (string * val)) :
  field k (spread [] fs) = field k fs.
Proof. rewrite field_spread. unfold field. destruct (obj_get k fs); reflexivity. Qed.

Lemma obj_get_spread_nil (k : string) (fs : list (string * val)) :
  obj_get k (spread [] fs) = obj_get k fs.
Proof. rewrite obj_get_spread. destruct (obj_get k fs); reflexivity. Qed.

Lemma obj_get_val (k : string) (x : val) (fs : list (string * val)) :
  obj_get k fs = Some x -> x ∈ map snd fs.
Proof.
  induction fs as [|[k0 v0] fs IH]; simpl; [discriminate|].
  destruct (decide (k = k0)).
  - intros [= ->]. left.
  - intros H. right. auto.
Qed.

Lemma field_val_in (P : nat -> Prop) (k : string) (fs : list (string * val)) :
  Forall (val_in P) (map snd fs) -> val_in P (field k fs).
Proof.
  intros H. unfold field. destruct (obj_get k fs) as [x|] eqn:E; [|exact I].
  rewrite Forall_forall in H. apply H. eapply obj_get_val, E.
Qed.

Lemma own_props_agree (h h' : list cell) (v : val) :
  (forall a, v = VRef a -> h' !! a = h !! a) -> own_props h' v = own_props h v.
Proof. intros H. destruct v; simpl; try reflexivity. rewrite (H a eq_refl). reflexivity. Qed.

Lemma as_array_agree (h h' : list cell) (v : val) :
  (forall a, v = VRef a -> h' !! a = h !! a) -> as_array h' v = as_array h v.
Proof. intros H. destruct v; simpl; try reflexivity. rewrite (H a eq_refl). reflexivity. Qed.

Section FoldFacts.

Variable isNamedDefinition : val -> bool.
Variable JsonPointer_baseName : val -> option string.

Abbreviation fold_branch :=
  (fold_branch isNamedDefinition JsonPointer_baseName).
Abbreviation note_parent :=
  (note_parent isNamedDefinition JsonPointer_baseName).
Abbreviation base_title := (base_title JsonPointer_baseName).

(** What [note_parent] does to the receiver, and that it touches
    nothing else but the receiver's [parentRefs]. *)
Lemma note_parent_ret (r : nat) (subRef : val) (fr : list (string * val))
    (s s' : state) :
  heap s !! r = Some (CObj fr) ->
  note_parent (VRef r) subRef s = (Ret tt, s') ->
  heap s' !! r =
    Some (CObj (if truthy subRef && is_undef (field "title" fr) &&
                   isNamedDefinition subRef
                then obj_set "title" (base_title subRef) fr
                else fr)) /\
  forall a, a <> r -> field "parentRefs" fr <> VRef a ->
    heap s' !! a = heap s !! a.
Proof.
  intros Hr. unfold note_parent. destruct (truthy subRef); simpl.
  2:{ intros [= <-]. auto. }
  intros H. apply bind_ret_inv in H as (rp & s1 & Hg & H).
  unfold get_prop, reading in Hg. simpl in Hg. rewrite Hr in Hg.
  injection Hg as <- <-.
  apply bind_ret_inv in H as ([] & s2 & Hpush & H).
  unfold array_push in Hpush.
  destruct (field "parentRefs" fr) as [| | | | |p] eqn:Hpr; try discriminate.
  destruct (heap s !! p) as [[fs|vs]|] eqn:Hp; try discriminate.
  injection Hpush as <-.
  assert (Hne : p <> r) by (intros ->; congruence).
  apply bind_ret_inv in H as (t & s3 & Hg & H).
  unfold get_prop, reading in Hg. simpl in Hg.
  rewrite list_lookup_insert_ne in Hg by assumption. rewrite Hr in Hg.
  injection Hg as <- <-.
  destruct (is_undef (field "title" fr) && isNamedDefinition subRef).
  - unfold set_prop in H. simpl in H.
    rewrite list_lookup_insert_ne in H by assumption. rewrite Hr in H.
    injection H as <-. simpl. split.
    + apply list_lookup_insert_eq. rewrite length_insert.
      eapply lookup_lt_Some, Hr.
    + intros a Har Hap. rewrite !list_lookup_insert_ne; congruence.
  - injection H as <-. simpl. split.
    + rewrite list_lookup_insert_ne by assumption. exact Hr.
    + intros a Har Hap. rewrite list_lookup_insert_ne; congruence.
Qed.


(** C4. One round of the fold over the merged branches, for a
    receiver and a branch that are objects of the store.  In the
    receiver the round returns: a [type] the branch declares replaces
    the receiver's; when the branch declares [properties], the
    receiver's [properties] is a new object in which each key holds
    the very value the branch's map has for it, or else the one the
    receiver's map had (the values are not merged); when the branch
    declares [required] and the receiver's [required] is an array or
    is falsy, the receiver's [required] is a new array, the
    receiver's elements followed by the branch's (the branch's value
    itself as one element when it is not an array), nothing removed;
    when the receiver's [required] is a string that is not empty,
    [concat] is the string's, and the receiver's [required] is that
    string followed by the text of the branch's value; every other
    field has the receiver's value when the receiver had the key, and
    the branch's otherwise.  The [title]
    follows that rule too, and is then set to the base name of the
    branch's pointer when it is still undefined and the pointer names
    a definition. *)
Theorem fold_branch_field_categories (ref subRef v : val) (r b : nat)
    (fr fb : list (string * val)) (s s' : state) :
  heap s !! r = Some (CObj fr) ->
  heap s !! b = Some (CObj fb) ->
  b <> r ->
  Forall (val_in (others (heap s) r)) (map snd fr) ->
  Forall (val_in (others (heap s) r)) (map snd fb) ->
  fold_branch ref (VRef r) (subRef, VRef b) s = (Ret v, s') ->
  exists (r' : nat) (fr' : list (string * val)),
    v = VRef r' /\ (length (heap s) <= r')%nat /\
    heap s' !! r' = Some (CObj fr') /\
    field "type" fr' =
      (if is_undef (field "type" fb) then field "type" fr
       else field "type" fb) /\
    (if is_undef (field "properties" fb)
     then field "properties" fr' = field "properties" fr
     else exists (o : nat) (ps fbp frp : list (string * val)),
       field "properties" fr' = VRef o /\ (length (heap s) <= o)%nat /\
       heap s' !! o = Some (CObj ps) /\
       own_props (heap s) (field "properties" fb) = Some fbp /\
       (if truthy (field "properties" fr)
        then own_props (heap s) (field "properties" fr) = Some frp
        else frp = []) /\
       forall k : string,
         obj_get k ps = match obj_get k fbp with
                        | Some x => Some x
                        | None => obj_get k frp
                        end) /\
    (if is_undef (field "required" fb)
     then field "required" fr' = field "required" fr
     else (exists b t : string,
             field "required" fr = VStr b /\ b <> EmptyString /\
             to_string (field "required" fb) = Some t /\
             field "required" fr' = VStr (b +:+ t)) \/
          exists (q : nat) (xs : list val),
            field "required" fr' = VRef q /\ (length (heap s) <= q)%nat /\
            (if truthy (field "required" fr)
             then as_array (heap s) (field "required" fr) = Some xs
             else xs = []) /\
            heap s' !! q =
              Some (CArr (xs ++
                          match as_array (heap s) (field "required" fb) with
                          | Some l => l
                          | None => [field "required" fb]
                          end))) /\
    (forall k : string,
       k ∉ ["type"; "properties"; "required"; "title"]%string ->
       field k fr' = match obj_get k fr with
                     | Some x => x
                     | None => field k fb
                     end) /\
    field "title" fr' =
      (let t := match obj_get "title" fr with
                | Some x => x
                | None => field "title" fb
                end in
       if truthy subRef && is_undef t && isNamedDefinition subRef
       then base_title subRef else t).
Proof.
  intros Hr Hb Hne Hfr Hfb Hrun.
  pose proof (lookup_lt_Some _ _ _ Hr) as Hrlt.
  pose proof (lookup_lt_Some _ _ _ Hb) as Hblt.
  unfold fold_branch in Hrun. cbn [fst snd] in Hrun.
  (* the guard *)
  apply bind_ret_inv in Hrun as ([] & s1 & Hc & Hrun).
  apply check_types_ret in Hc as [-> _].
  (* type *)
  apply bind_ret_inv in Hrun as ([] & s2 & H2 & Hrun).
  destruct (run_ok_inv _ _ _ _ _ _ (run_ok_merge_type r (VRef b) fr s Hr) H2)
    as (K2 & bt & Hbt & L2 & Hr2).
  simpl in Hbt. rewrite Hb in Hbt. injection Hbt as <-.
  set (bt := field "type" fb) in *.
  set (fr2 := if is_undef bt then fr else obj_set "type" bt fr) in *.
  assert (E2 : forall a, (a < length (heap s))%nat -> a <> r ->
                 heap s2 !! a = heap s !! a).
  { intros a Ha Har. apply K2; [|exact Ha].
    intros Hin. apply list_elem_of_singleton in Hin. contradiction. }
  assert (G2 : forall k, obj_get k fr2 =
            if decide (k = "type"%string)
            then (if is_undef bt then obj_get k fr else Some bt)
            else obj_get k fr).
  { intros k. unfold fr2. destruct (is_undef bt).
    - destruct (decide _); reflexivity.
    - apply obj_get_set. }
  clearbody fr2. clear H2 K2.
  (* properties *)
  apply bind_ret_inv in Hrun as ([] & s3 & H3 & Hrun).
  destruct (run_ok_inv _ _ _ _ _ _
              (run_ok_merge_properties r (VRef b) fr2 s2 Hr2) H3)
    as (K3 & bp & Hbp & P3).
  simpl in Hbp. rewrite (E2 b Hblt Hne), Hb in Hbp. injection Hbp as <-.
  set (bp := field "properties" fb) in *.
  assert (Hrp : field "properties" fr2 = field "properties" fr).
  { unfold field. rewrite G2. reflexivity. }
  rewrite Hrp in P3.
  assert (Vbp : val_in (others (heap s) r) bp) by apply field_val_in, Hfb.
  assert (Vrp : val_in (others (heap s) r) (field "properties" fr))
    by apply field_val_in, Hfr.
  assert (E3 : forall a, (a < length (heap s))%nat -> a <> r ->
                 heap s3 !! a = heap s !! a).
  { intros a Ha Har. rewrite <- (E2 a Ha Har). apply K3; [|lia].
    intros Hin. apply list_elem_of_singleton in Hin. contradiction. }
  assert (L3 : (length (heap s) <= length (heap s3))%nat).
  { pose proof (proj1 K3). lia. }
  assert (exists fr3, heap s3 !! r = Some (CObj fr3) /\
            (forall k, obj_get k fr3 =
               if decide (k = "properties"%string)
               then (if is_undef bp then obj_get k fr2
                     else obj_get k fr3)
               else obj_get k fr2) /\
            (if is_undef bp
             then field "properties" fr3 = field "properties" fr
             else exists (o : nat) (ps fbp frp : list (string * val)),
               field "properties" fr3 = VRef o /\
               (length (heap s) <= o < length (heap s3))%nat /\
               heap s3 !! o = Some (CObj ps) /\
               own_props (heap s) bp = Some fbp /\
               (if truthy (field "properties" fr)
                then own_props (heap s) (field "properties" fr) = Some frp
                else frp = []) /\
               forall k : string,
                 obj_get k ps = match obj_get k fbp with
                                | Some x => Some x
                                | None => obj_get k frp
                                end))
    as (fr3 & Hr3 & G3 & P3').
  { destruct (is_undef bp).
    - subst s3. exists fr2. split; [exact Hr2|]. split; [|exact Hrp].
      intros k. destruct (decide _); reflexivity.
    - destruct P3 as (o & h1 & fbase & fbp & K1 & Hfbp & Hfbase & Ho & Hoc & Hrc).
      eexists. split; [exact Hrc|]. split.
      { intros k. rewrite obj_get_set. destruct (decide _); reflexivity. }
      exists o, (spread (spread [] fbase) fbp), fbp, fbase.
      split; [rewrite field_set; reflexivity|].
      split; [lia|]. split; [exact Hoc|]. split.
      { rewrite <- Hfbp. symmetry. apply own_props_agree.
        intros a ->. destruct Vbp as [Ha Har].
        rewrite <- (E2 a Ha Har). apply K1; [exact I | lia]. }
      split.
      { destruct (truthy (field "properties" fr)); [|exact Hfbase].
        rewrite <- Hfbase. symmetry. apply own_props_agree.
        intros a Heq. rewrite Heq in Vrp. destruct Vrp as [Ha Har].
        apply E2; assumption. }
      intros k. rewrite obj_get_spread, obj_get_spread_nil. reflexivity. }
  clear P3 H3 K3 Hr2.
  (* required *)
  apply bind_ret_inv in Hrun as ([] & s4 & H4 & Hrun).
  destruct (run_ok_inv _ _ _ _ _ _
              (run_ok_merge_required r (VRef b) fr3 s3 Hr3) H4)
    as (K4 & bq & Hbq & P4).
  simpl in Hbq. rewrite (E3 b Hblt Hne), Hb in Hbq. injection Hbq as <-.
  set (bq := field "required" fb) in *.
  assert (Hrq : field "required" fr3 = field "required" fr).
  { unfold field. rewrite G3, G2. reflexivity. }
  rewrite Hrq in P4.
  assert (Vbq : val_in (others (heap s) r) bq) by apply field_val_in, Hfb.
  assert (Vrq : val_in (others (heap s) r) (field "required" fr))
    by apply field_val_in, Hfr.
  assert (E4 : forall a, (a < length (heap s3))%nat -> a <> r ->
                 heap s4 !! a = heap s3 !! a).
  { intros a Ha Har. apply K4; [|lia].
    intros Hin. apply list_elem_of_singleton in Hin. contradiction. }
  assert (L4 : (length (heap s3) <= length (heap s4))%nat) by apply K4.
  assert (exists fr4, heap s4 !! r = Some (CObj fr4) /\
            (forall k, obj_get k fr4 =
               if decide (k = "required"%string)
               then (if is_undef bq then obj_get k fr3
                     else obj_get k fr4)
               else obj_get k fr3) /\
            (if is_undef bq
             then field "required" fr4 = field "required" fr
             else (exists b t : string,
                     field "required" fr = VStr b /\ b <> EmptyString /\
                     to_string bq = Some t /\
                     field "required" fr4 = VStr (b +:+ t)) \/
                  exists (q : nat) (xs : list val),
                    field "required" fr4 = VRef q /\
                    (length (heap s) <= q < length (heap s4))%nat /\
                    (if truthy (field "required" fr)
                     then as_array (heap s) (field "required" fr) = Some xs
                     else xs = []) /\
                    heap s4 !! q =
                      Some (CArr (xs ++ match as_array (heap s) bq with
                                        | Some l => l
                                        | None => [bq]
                                        end))))
    as (fr4 & Hr4 & G4 & P4').
  { destruct (is_undef bq).
    - subst s4. exists fr3. split; [exact Hr3|]. split; [|exact Hrq].
      intros k. destruct (decide _); reflexivity.
    - destruct P4 as (q & Hrc & Hq). eexists. split; [exact Hrc|]. split.
      { intros k. rewrite obj_get_set. destruct (decide _); reflexivity. }
      rewrite field_set. simpl.
      destruct Hq as [(b0 & t & Hb0 & Htr & Ht & ->)
                     | (a & h1 & xs & -> & Ha & K1 & Hxs & Hac)].
      { left. exists b0, t. split; [exact Hb0|]. split; [|auto].
        intros ->. discriminate. }
      right. exists a, xs. split; [reflexivity|]. split; [lia|]. split.
      { destruct (truthy (field "required" fr)); [|exact Hxs].
        rewrite <- Hxs. symmetry. apply as_array_agree.
        intros x Heq. rewrite Heq in Vrq. destruct Vrq as [Hx Hxr].
        apply E3; assumption. }
      rewrite Hac. 
      assert (as_array h1 bq = as_array (heap s) bq) as ->; [|reflexivity].
      apply as_array_agree.
      intros x Heq. rewrite Heq in Vbq. destruct Vbq as [Hx Hxr].
      rewrite <- (E3 x Hx Hxr). apply K1; [exact I | lia]. }
  clear P4 H4 K4 Hr3.
  (* the next receiver *)
  apply bind_ret_inv in Hrun as (v5 & s5 & H5 & Hrun).
  destruct (run_ok_inv _ _ _ _ _ _
              (run_ok_merge_rest r (VRef b) fr4 s4 Hr4) H5)
    as (_ & fb' & Hfb' & -> & Hh5).
  simpl in Hfb'. rewrite E4, E3, Hb in Hfb' by (assumption || lia).
  injection Hfb' as <-.
  set (r' := length (heap s4)) in *.
  set (f5 := spread (spread [] fb) fr4) in *.
  assert (Hr5 : heap s5 !! r' = Some (CObj f5)).
  { rewrite Hh5. apply lookup_snoc. }
  assert (G5 : forall k, obj_get k f5 = match obj_get k fr4 with
                                         | Some x => Some x
                                         | None => obj_get k fb
                                         end).
  { intros k. unfold f5. rewrite obj_get_spread, obj_get_spread_nil.
    reflexivity. }
  (* the parent *)
  apply bind_ret_inv in Hrun as ([] & s6 & H6 & Hrun).
  injection Hrun as <- <-.
  destruct (note_parent_ret r' subRef f5 s5 s6 Hr5 H6) as (Hr6 & E6).
  assert (Hpr5 : val_in (others (heap s) r) (field "parentRefs" f5)).
  { unfold field. rewrite G5, G4, G3, G2. simpl.
    destruct (obj_get "parentRefs" fr) as [x|] eqn:Ex.
    - rewrite Forall_forall in Hfr. apply Hfr. eapply obj_get_val, Ex.
    - apply (field_val_in _ "parentRefs"), Hfb. }
  assert (E6' : forall a, (length (heap s) <= a < r')%nat ->
                  heap s6 !! a = heap s4 !! a).
  { intros a Ha. rewrite E6.
    - rewrite Hh5. apply lookup_app_l. unfold r' in Ha. lia.
    - lia.
    - intros Heq. rewrite Heq in Hpr5. destruct Hpr5 as [Hlt _]. lia. }
  eexists r', _. split; [reflexivity|]. split; [unfold r'; lia|].
  split; [exact Hr6|].
  set (t0 := field "title" f5) in *.
  assert (Ht0 : t0 = match obj_get "title" fr with
                     | Some x => x
                     | None => field "title" fb
                     end).
  { unfold t0, field. rewrite G5, G4, G3, G2. simpl.
    destruct (obj_get "title" fr); reflexivity. }
  assert (Gf : forall k, k <> "title"%string ->
            field k (if truthy subRef && is_undef t0 &&
                        isNamedDefinition subRef
                     then obj_set "title" (base_title subRef) f5 else f5) =
            field k f5).
  { intros k Hk. destruct (_ && _); [|reflexivity].
    rewrite field_set. destruct (decide _); [contradiction | reflexivity]. }
  split.
  { rewrite Gf by discriminate. unfold field. rewrite G5, G4, G3, G2. simpl.
    fold bt. unfold field in bt. fold bt.
    destruct (is_undef bt) eqn:Eb.
    - destruct (obj_get "type" fr); [reflexivity|].
      unfold is_undef in Eb. apply bool_decide_eq_true in Eb.
      fold (field "type" fb). exact Eb.
    - reflexivity. }
  split.
  { destruct (is_undef bp) eqn:Eb.
    - rewrite Gf by discriminate. rewrite <- P3'.
      unfold field. rewrite G5, G4. simpl.
      destruct (obj_get "properties" fr3) eqn:E; [reflexivity|].
      rewrite G3 in E. simpl in E. rewrite ?Eb, G2 in E. simpl in E.
      unfold is_undef in Eb. apply bool_decide_eq_true in Eb.
      unfold bp, field in Eb. rewrite Eb. reflexivity.
    - destruct P3' as (o & ps & fbp & frp & Ho & Hol & Hoc & Hfbp & Hfrp & Hps).
      exists o, ps, fbp, frp. split.
      { rewrite Gf by discriminate. rewrite <- Ho.
        unfold field. rewrite G5, G4. simpl.
        destruct (obj_get "properties" fr3) eqn:E; [reflexivity|].
        unfold field in Ho. rewrite E in Ho. discriminate. }
      split; [lia|]. split; [|auto].
      rewrite E6' by (unfold r'; lia). rewrite E4; [exact Hoc | lia|].
      intros ->. lia. }
  split.
  { destruct (is_undef bq) eqn:Eb.
    - rewrite Gf by discriminate. rewrite <- P4'.
      unfold field. rewrite G5. 
      destruct (obj_get "required" fr4) eqn:E; [reflexivity|].
      rewrite G4 in E. simpl in E. rewrite ?Eb, G3, G2 in E. simpl in E.
      unfold is_undef in Eb. apply bool_decide_eq_true in Eb.
      unfold bq, field in Eb. rewrite Eb. reflexivity.
    - assert (Hsame : field "required"
                        (if truthy subRef && is_undef t0 &&
                            isNamedDefinition subRef
                         then obj_set "title" (base_title subRef) f5
                         else f5) = field "required" fr4).
      { rewrite Gf by discriminate. unfold field. rewrite G5.
        destruct (obj_get "required" fr4) eqn:E; [reflexivity|].
        destruct P4' as [(b0 & t & _ & _ & _ & Ht) | (q & xs & Hq & _)];
          unfold field in *; rewrite E in *; discriminate. }
      rewrite Hsame.
      destruct P4' as [Hstr | (q & xs & Hq & Hql & Hxs & Hqc)]; [left; exact Hstr|].
      right. exists q, xs. split; [exact Hq|]. split; [lia|].
      split; [exact Hxs|].
      rewrite E6' by (unfold r'; lia). exact Hqc. }
  split.
  { intros k Hk. rewrite Gf.
    2:{ intros ->. apply Hk. do 3 apply list_elem_of_further.
        apply list_elem_of_here. }
    unfold field. rewrite G5, G4, G3, G2.
    destruct (decide (k = "required"%string)) as [->|_].
    { exfalso. apply Hk. do 2 apply list_elem_of_further. apply list_elem_of_here. }
    destruct (decide (k = "properties"%string)) as [->|_].
    { exfalso. apply Hk. apply list_elem_of_further. apply list_elem_of_here. }
    destruct (decide (k = "type"%string)) as [->|_].
    { exfalso. apply Hk. apply list_elem_of_here. }
    destruct (obj_get k fr); reflexivity. }
  cbv zeta. rewrite <- Ht0.
  destruct (truthy subRef && is_undef t0 && isNamedDefinition subRef);
    [rewrite field_set; reflexivity | reflexivity].
Qed.

End FoldFacts.

Lemma fold_branch_field_categories_witness :
  let run := fold_branch Utils.isNamedDefinition Utils.baseName VUndef
               (Examples.merging_at "#/receiver")
               (VUndef, Examples.merging_at "#/branch")
               Examples.merging_state in
  exists (r' o q : nat) (fr' ps : list (string * val)),
    run.1 = Ret (VRef r') /\ heap run.2 !! r' = Some (CObj fr') /\
    field "type" fr' = VStr "object" /\
    field "description" fr' = VStr "the receiver" /\
    field "format" fr' = VStr "int32" /\
    field "properties" fr' = VRef o /\ heap run.2 !! o = Some (CObj ps) /\
    obj_get "a" ps = Some (Examples.merging_at "#/branch/properties/a") /\
    obj_get "b" ps = Some (Examples.merging_at "#/branch/properties/b") /\
    field "required" fr' = VRef q /\
    heap run.2 !! q = Some (CArr [VStr "a"; VStr "a"; VStr "b"]).
Proof.
  intros run.
  assert (Hrun : run = (Ret (VRef 13), run.2)) by (vm_compute; reflexivity).
  assert (Hlen : length (heap Examples.merging_state) = 11%nat) by reflexivity.
  destruct (fold_branch_field_categories Utils.isNamedDefinition
              Utils.baseName VUndef VUndef (VRef 13) 4 9
              [("type", VStr "object"); ("properties", VRef 1);
               ("required", VRef 2); ("description", VStr "the receiver");
               ("parentRefs", VRef 3)]%string
              [("properties", VRef 7); ("required", VRef 8);
               ("description", VStr "the branch");
               ("format", VStr "int32")]%string
              Examples.merging_state run.2 eq_refl eq_refl
              ltac:(lia)
              ltac:(simpl map;
                    repeat (apply Forall_cons_2;
                              [first [exact I | split; [rewrite Hlen|]; lia]|]);
                    apply Forall_nil_2)
              ltac:(simpl map;
                    repeat (apply Forall_cons_2;
                              [first [exact I | split; [rewrite Hlen|]; lia]|]);
                    apply Forall_nil_2)
              Hrun)
    as (r' & fr' & Hv & _ & Hc & Ht & Hp & Hq & Hk & _).
  simpl in Ht, Hp, Hq.
  destruct Hp as (o & ps & fbp & frp & Ho & _ & Hoc & Hfbp & Hfrp & Hps).
  injection Hfbp as <-. injection Hfrp as <-.
  destruct Hq as [(b0 & t & Hq & _) | (q & xs & Hq & _ & Hxs & Hqc)].
  { discriminate Hq. }
  injection Hxs as <-.
  exists r', o, q, fr', ps. injection Hv as <-.
  split; [reflexivity|]. split; [exact Hc|]. split; [exact Ht|].
  split; [apply (Hk "description"%string), (bool_decide_unpack _);
          vm_compute; exact I|].
  split; [apply (Hk "format"%string), (bool_decide_unpack _);
          vm_compute; exact I|].
  split; [exact Ho|]. split; [exact Hoc|].
  split; [rewrite Hps; reflexivity|]. split; [rewrite Hps; reflexivity|].
  split; [exact Hq | exact Hqc].
Defined.

(* ================================================================== *)
(** * findDerived                                                      *)
(* ================================================================== *)

Lemma getp_ext (h h' : list cell) (v w : val) (k : string) :
  (forall a c, h !! a = Some c -> h' !! a = Some c) ->
  getp h v k = Ret w -> getp h' v k = Ret w.
Proof.
  intros He. destruct v as [| | | | |a]; simpl; try (intros H; exact H).
  destruct (h !! a) as [c|] eqn:Ea; [|discriminate].
  rewrite (He a c Ea). intros H; exact H.
Qed.

Lemma is_reference_ext (h h' : list cell) (v : val) (b : bool) :
  (forall a c, h !! a = Some c -> h' !! a = Some c) ->
  is_reference h v = Ret b -> is_reference h' v = Ret b.
Proof.
  intros He. unfold is_reference. destruct (negb (truthy v)); [auto|].
  destruct (getp h v "$ref") as [r| |] eqn:E; try discriminate.
  rewrite (getp_ext h h' v r _ He E). auto.
Qed.

Lemma as_array_ext (h h' : list cell) (v : val) (vs : list val) :
  (forall a c, h !! a = Some c -> h' !! a = Some c) ->
  as_array h v = Some vs -> as_array h' v = Some vs.
Proof.
  intros He. destruct v as [| | | | |a]; simpl; try discriminate.
  destruct (h !! a) as [c|] eqn:Ea; [|discriminate].
  rewrite (He a c Ea). auto.
Qed.

Lemma inline_schema_ext (h h' : list cell) (d : val) :
  (forall a c, h !! a = Some c -> h' !! a = Some c) ->
  inline_schema h d -> inline_schema h' d.
Proof.
  intros He (Hr & allOf & Ha & Hs). split; [eapply is_reference_ext; eauto|].
  exists allOf. split; [eapply getp_ext; eauto|].
  destruct Hs as [-> | (elems & Harr & Hel)]; [left; reflexivity | right].
  exists elems. split; [eapply as_array_ext; eauto|].
  eapply Forall_impl; [exact Hel|]. intros obj [r Hr']. exists r.
  eapply getp_ext; eauto.
Qed.

Lemma refers_to_eq (refs : list string) (obj r : val) (s : state) :
  getp (heap s) obj "$ref" = Ret r ->
  refers_to refs obj s =
    (Ret (negb (is_undef r) &&
          match r with
          | VStr p => bool_decide (p ∈ refs)
          | _ => false
          end), s).
Proof.
  intros H. unfold refers_to, bind, get_prop, reading. rewrite H. reflexivity.
Qed.

Lemma findM_returns (refs : list string) (elems : list val) (s : state) :
  Forall (fun obj => exists r, getp (heap s) obj "$ref" = Ret r) elems ->
  exists found, findM (refers_to refs) elems s = (Ret found, s) /\
    (truthy found = true -> exists a, found = VRef a).
Proof.
  induction 1 as [|obj elems [r Hr] _ (found & IH & Ht)]; simpl.
  - exists VUndef. split; [reflexivity | discriminate].
  - unfold bind at 1. rewrite (refers_to_eq refs obj r s Hr).
    destruct (negb (is_undef r) && _) eqn:E.
    + exists obj. split; [reflexivity|]. intros _.
      apply andb_true_iff in E as [E _].
      destruct obj as [| | | | |a]; simpl in Hr; try discriminate;
        try (injection Hr as <-; discriminate). eauto.
    + exists found. auto.
Qed.

Section DerivedFacts.

Variable JsonPointer_get : list cell -> val -> string -> option val.
Variable spec : val.

Abbreviation deref := (deref JsonPointer_get spec).
Abbreviation derived_step := (derived_step JsonPointer_get spec).
Abbreviation derived_at := (derived_at JsonPointer_get spec).
Abbreviation round_state := (round_state JsonPointer_get spec).
Abbreviation findDerived := (findDerived JsonPointer_get spec).
Abbreviation definitions := (definitions spec).

Lemma refers_to_ret (refs : list string) (obj : val) (b : bool)
    (s s' : state) :
  refers_to refs obj s = (Ret b, s') ->
  s' = s /\
  (b = true <-> exists r, getp (heap s) obj "$ref" = Ret (VStr r) /\ r ∈ refs).
Proof.
  unfold refers_to, bind, get_prop, reading.
  destruct (getp (heap s) obj "$ref") as [r| |]; try discriminate.
  intros [= <- <-]. split; [reflexivity|]. split.
  - intros H. apply andb_true_iff in H as [_ H].
    destruct r; try discriminate. apply bool_decide_eq_true in H. eauto.
  - intros (r' & [= ->] & Hin). simpl. apply bool_decide_eq_true. exact Hin.
Qed.

Lemma findM_ret (refs : list string) (elems : list val) :
  forall (found : val) (s s' : state),
  findM (refers_to refs) elems s = (Ret found, s') ->
  s' = s /\
  ((found ∈ elems /\
    exists r, getp (heap s) found "$ref" = Ret (VStr r) /\ r ∈ refs) \/
   (found = VUndef /\
    forall obj r, obj ∈ elems ->
      getp (heap s) obj "$ref" = Ret (VStr r) -> r ∉ refs)).
Proof.
  induction elems as [|x elems IH]; intros found s s'; simpl.
  - intros [= <- <-]. split; [reflexivity|]. right. split; [reflexivity|].
    intros obj r Hin. inversion Hin.
  - intros H. apply bind_ret_inv in H as (b & s1 & Hb & H).
    apply refers_to_ret in Hb as [-> Hb]. destruct b.
    + injection H as <- <-. split; [reflexivity|]. left.
      split; [left | apply Hb; reflexivity].
    + apply IH in H as [-> H]. split; [reflexivity|].
      destruct H as [[Hin Hr] | [-> Hno]].
      * left. split; [right; exact Hin | exact Hr].
      * right. split; [reflexivity|]. intros obj r Hin Hg Hr.
        apply elem_of_cons in Hin as [->|Hin]; [|eapply Hno; eassumption].
        assert (false = true); [|discriminate]. apply Hb. eauto.
Qed.

Lemma array_elems_ret (v : val) (elems : list val) (s s' : state) :
  array_elems v s = (Ret elems, s') ->
  s' = s /\ as_array (heap s) v = Some elems.
Proof.
  unfold array_elems, reading, as_array. destruct v; try discriminate.
  destruct (heap s !! a) as [[fs|vs]|]; try discriminate.
  intros [= <- <-]. auto.
Qed.

(** One round of the loop records the definition exactly when it is
    derived. *)
Lemma derived_step_ret (fuel a : nat) (refs : list string)
    (schemas fs : list (string * val)) (k : string) (s s1 : state) :
  heap s !! a = Some (CObj fs) ->
  derived_step fuel refs (VRef a) schemas k s = (Ret tt, s1) ->
  (derived_at fuel refs schemas s k /\
   heap s1 !! a =
     Some (CObj (obj_set ("#/components/schemas/" +:+ k) (VStr k) fs))) \/
  (~ derived_at fuel refs schemas s k /\ heap s1 !! a = Some (CObj fs)).
Proof.
  intros Ha H. unfold derived_step in H.
  apply bind_ret_inv in H as (def & sa & Hd & H).
  destruct (run_ok_inv _ _ _ _ _ _
              (deref_keeps JsonPointer_get spec fuel _ false s) Hd) as [Kd _].
  pose proof (keeps_lookup _ _ _ _ _ Kd I Ha) as Ha'.
  apply bind_ret_inv in H as (allOf & sb & Hg & H).
  unfold get_prop, reading in Hg.
  destruct (getp (heap sa) def "allOf") as [allOf'| |] eqn:Eg; try discriminate.
  injection Hg as -> <-.
  destruct (is_undef allOf) eqn:Eu; simpl in H.
  { injection H as <-. right. split; [|exact Ha'].
    intros (def' & allOf' & obj & s1' & elems & r & Hd' & Hg' & Hne & _).
    rewrite Hd in Hd'. injection Hd' as <- <-. rewrite Eg in Hg'.
    injection Hg' as <-. unfold is_undef in Eu.
    apply bool_decide_eq_true in Eu. contradiction. }
  apply bind_ret_inv in H as (elems & sc & He & H).
  apply array_elems_ret in He as [-> He].
  apply bind_ret_inv in H as (found & sd & Hf & H).
  apply findM_ret in Hf as [-> Hf].
  assert (Hne : allOf <> VUndef).
  { unfold is_undef in Eu. apply bool_decide_eq_false in Eu. exact Eu. }
  destruct Hf as [[Hin (r & Hr & Hrin)] | [-> Hno]].
  - assert (truthy found = true) as Ht.
    { destruct found; simpl in Hr; try discriminate; reflexivity. }
    rewrite Ht in H. unfold set_prop in H. rewrite Ha' in H.
    injection H as <-. left. split.
    + exists def, allOf, found, sa, elems, r. auto 10.
    + simpl. apply list_lookup_insert_eq. eapply lookup_lt_Some, Ha'.
  - simpl in H. injection H as <-. right. split; [|exact Ha'].
    intros (def' & allOf' & obj & s1' & elems' & r & Hd' & Hg' & _ & He'
            & Hin & Hr & Hrin).
    rewrite Hd in Hd'. injection Hd' as <- <-. rewrite Eg in Hg'.
    injection Hg' as <-. rewrite He in He'. injection He' as <-.
    exact (Hno obj r Hin Hr Hrin).
Qed.


Lemma round_state_0 (fuel : nat) (refs : list string) (res : val)
    (schemas : list (string * val)) (s : state) :
  round_state fuel refs res schemas s 0 = s.
Proof. reflexivity. Qed.

Lemma for_in_take_S (body : string -> M unit) (k : string)
    (keys : list string) (i : nat) (s s1 : state) :
  body k s = (Ret tt, s1) ->
  (for_in body (take (S i) (k :: keys)) s).2 =
  (for_in body (take i keys) s1).2.
Proof. intros H. simpl. unfold bind. rewrite H. reflexivity. Qed.

Lemma for_in_derived (fuel a : nat) (refs : list string)
    (schemas : list (string * val)) (keys : list string) :
  forall (s s' : state) (fs : list (string * val)),
  heap s !! a = Some (CObj fs) ->
  (forall p x, obj_get p fs = Some x ->
     exists k, p = "#/components/schemas/" +:+ k /\ x = VStr k) ->
  for_in (derived_step fuel refs (VRef a) schemas) keys s = (Ret tt, s') ->
  exists fs', heap s' !! a = Some (CObj fs') /\
    forall p x, obj_get p fs' = Some x <->
      (obj_get p fs = Some x \/
       exists i k, keys !! i = Some k /\
         p = "#/components/schemas/" +:+ k /\ x = VStr k /\
         derived_at fuel refs schemas
           (for_in (derived_step fuel refs (VRef a) schemas)
                   (take i keys) s).2 k).
Proof.
  induction keys as [|k0 keys IH]; intros s s' fs Ha Hnamed H; simpl in H.
  - injection H as <-. exists fs. split; [exact Ha|]. intros p x. split.
    + auto.
    + intros [H | (i & k & Hi & _)]; [exact H | discriminate].
  - apply bind_ret_inv in H as ([] & s1 & Hstep & H).
    destruct (derived_step_ret fuel a refs schemas fs k0 s s1 Ha Hstep)
      as [[Hd Ha1] | [Hnd Ha1]].
    + destruct (IH s1 s' _ Ha1) as (fs' & Ha' & Hfs'); [|exact H|].
      { intros p x. rewrite obj_get_set. destruct (decide _) as [->|_].
        - intros [= <-]. eauto.
        - apply Hnamed. }
      exists fs'. split; [exact Ha'|]. intros p x. rewrite Hfs'. split.
      * intros [Hg | (i & k & Hi & -> & -> & Hdi)].
        -- rewrite obj_get_set in Hg. destruct (decide _) as [->|_].
           ++ injection Hg as <-. right. exists 0%nat, k0. auto.
           ++ auto.
        -- right. exists (S i), k. split; [exact Hi|].
           split; [reflexivity|]. split; [reflexivity|].
           rewrite (for_in_take_S _ _ _ _ _ _ Hstep). exact Hdi.
      * intros [Hg | (i & k & Hi & -> & -> & Hdi)].
        -- left. rewrite obj_get_set. destruct (decide _) as [Heq|_]; [|exact Hg].
           destruct (Hnamed _ _ Hg) as (k & Hk & ->). rewrite Heq in Hk.
           apply String.app_inj in Hk. subst k. reflexivity.
        -- destruct i as [|i].
           ++ injection Hi as <-. left. rewrite obj_get_set.
              destruct (decide _); [reflexivity | contradiction].
           ++ right. exists i, k. split; [exact Hi|].
              split; [reflexivity|]. split; [reflexivity|].
              rewrite <- (for_in_take_S _ _ _ _ _ _ Hstep). exact Hdi.
    + destruct (IH s1 s' _ Ha1 Hnamed H) as (fs' & Ha' & Hfs').
      exists fs'. split; [exact Ha'|]. intros p x. rewrite Hfs'. split.
      * intros [Hg | (i & k & Hi & -> & -> & Hdi)]; [auto|].
        right. exists (S i), k. split; [exact Hi|].
        split; [reflexivity|]. split; [reflexivity|].
        rewrite (for_in_take_S _ _ _ _ _ _ Hstep). exact Hdi.
      * intros [Hg | (i & k & Hi & -> & -> & Hdi)]; [auto|].
        destruct i as [|i].
        -- injection Hi as <-. contradiction.
        -- right. exists i, k. split; [exact Hi|].
           split; [reflexivity|]. split; [reflexivity|].
           rewrite <- (for_in_take_S _ _ _ _ _ _ Hstep). exact Hdi.
Qed.

Lemma deref_inline (fuel : nat) (d : val) (s : state) :
  is_reference (heap s) d = Ret false ->
  deref (S fuel) d false s = (Ret d, s).
Proof.
  intros H. simpl. unfold bind. rewrite isRef_is_reference, H. reflexivity.
Qed.

(** One round of the loop returns on a definition that is inline, and
    touches nothing but the result. *)
Lemma derived_step_returns (fuel n : nat) (refs : list string)
    (schemas fs : list (string * val)) (k : string) (s : state) :
  inline_schema (heap s) (field k schemas) ->
  heap s !! n = Some (CObj fs) ->
  exists (fs' : list (string * val)),
    derived_step (S fuel) refs (VRef n) schemas k s =
      (Ret tt, State (<[n := CObj fs']> (heap s)) (refCounter s)).
Proof.
  intros (Hr & allOf & Ha & Hs) Hn. unfold derived_step.
  assert (Hsame : State (<[n := CObj fs]> (heap s)) (refCounter s) = s).
  { rewrite list_insert_id by exact Hn. destruct s; reflexivity. }
  unfold bind at 1. rewrite (deref_inline fuel _ s Hr).
  unfold bind at 1, get_prop at 1, reading at 1. rewrite Ha.
  destruct Hs as [-> | (elems & Harr & Hel)].
  { simpl. exists fs. rewrite Hsame. reflexivity. }
  destruct (is_undef allOf) eqn:Eu; simpl.
  { exists fs. rewrite Hsame. reflexivity. }
  unfold bind at 1, array_elems at 1, reading at 1.
  destruct allOf as [| | | | |a]; try discriminate. simpl in Harr.
  destruct (heap s !! a) as [[?|vs]|]; try discriminate.
  injection Harr as ->.
  destruct (findM_returns refs elems s Hel) as (found & Hf & Ht).
  unfold bind. rewrite Hf. destruct (truthy found).
  - unfold set_prop. rewrite Hn. eauto.
  - exists fs. rewrite Hsame. reflexivity.
Qed.

Lemma for_in_returns (fuel n : nat) (refs : list string)
    (schemas : list (string * val)) (h : list cell) (keys : list string) :
  (length h <= n)%nat ->
  Forall (fun k => inline_schema h (field k schemas)) keys ->
  forall (s : state) (fs : list (string * val)),
  (forall a c, h !! a = Some c -> heap s !! a = Some c) ->
  heap s !! n = Some (CObj fs) ->
  exists s', for_in (derived_step (S fuel) refs (VRef n) schemas) keys s =
               (Ret tt, s').
Proof.
  intros Hn. induction 1 as [|k keys Hk _ IH]; intros s fs He Hfs; simpl.
  - eauto.
  - destruct (derived_step_returns fuel n refs schemas fs k s
                (inline_schema_ext _ _ _ He Hk) Hfs) as (fs' & Hstep).
    unfold bind. rewrite Hstep.
    apply (IH _ fs'); simpl.
    + intros a c Ha. rewrite list_lookup_insert_ne; [auto|].
      intros ->. apply lookup_lt_Some in Ha. lia.
    + apply list_lookup_insert_eq. eapply lookup_lt_Some, Hfs.
Qed.

(** When every definition is inline, [findDerived] returns. *)
Lemma findDerived_returns (fuel : nat) (refs : list string)
    (schemas : list (string * val)) (s s0 : state) :
  definitions (State (heap s ++ [CObj []]) (refCounter s)) =
    (Ret schemas, s0) ->
  Forall (fun kd => inline_schema (heap s) kd.2) schemas ->
  exists s', findDerived (S fuel) refs s = (Ret (VRef (length (heap s))), s').
Proof.
  intros Hdef Hin. unfold findDerived.
  unfold bind at 1, alloc at 1. unfold bind at 1. rewrite Hdef.
  destruct (run_ok_inv _ _ _ _ _ _ (run_ok_definitions spec _) Hdef)
    as [K0 _]. simpl in K0.
  destruct (for_in_returns fuel (length (heap s)) refs schemas (heap s)
              (map fst schemas) (le_n _)) with (s := s0) (fs := @nil (string * val))
    as (s' & Hloop).
  - apply Forall_forall. intros k Hk.
    apply list_elem_of_fmap in Hk as ([k' d] & -> & Hkd). simpl.
    unfold field. destruct (obj_get k' schemas) as [x|] eqn:Ex.
    + apply obj_get_val in Ex. apply list_elem_of_fmap in Ex as (kd & -> & Hx).
      rewrite Forall_forall in Hin. apply Hin, Hx.
    + exfalso. assert (Hs : is_Some (obj_get k' schemas)).
      { apply obj_get_keys. apply list_elem_of_fmap. exists (k', d). auto. }
      rewrite Ex in Hs. destruct Hs; discriminate.
  - intros a c Ha. pose proof (lookup_lt_Some _ _ _ Ha) as Hl.
    rewrite (proj2 K0 a I) by (rewrite length_app; simpl; lia).
    rewrite lookup_app_l by exact Hl. exact Ha.
  - rewrite (proj2 K0 _ I) by (rewrite length_app; simpl; lia).
    apply lookup_snoc.
  - exists s'. unfold bind. rewrite Hloop. reflexivity.
Qed.

(** The loop, round by round.  [findDerived] returns whenever every
    definition under [components.schemas] is inline.  And whenever it
    returns, it returns a new object that holds exactly these
    entries: for each definition name under [components.schemas]
    whose value, dereferenced in the state in which the loop reaches
    it, declares an [allOf] array with an element whose [$ref] is one
    of the pointers asked for, the key [#/components/schemas/<name>]
    with the name as its value. *)
Lemma findDerived_rounds (fuel : nat) (refs : list string) (s : state) :
  (forall (schemas : list (string * val)) (s0 : state),
     (0 < fuel)%nat ->
     definitions (State (heap s ++ [CObj []]) (refCounter s)) =
       (Ret schemas, s0) ->
     Forall (fun kd => inline_schema (heap s) kd.2) schemas ->
     exists s', findDerived fuel refs s = (Ret (VRef (length (heap s))), s'))
  /\
  (forall (res : val) (s' : state),
     findDerived fuel refs s = (Ret res, s') ->
     exists (schemas fs : list (string * val)) (s0 : state),
       definitions (State (heap s ++ [CObj []]) (refCounter s)) =
         (Ret schemas, s0) /\
       res = VRef (length (heap s)) /\
       heap s' !! length (heap s) = Some (CObj fs) /\
       forall (p : string) (x : val),
         obj_get p fs = Some x <->
         exists (i : nat) (defName : string),
           map fst schemas !! i = Some defName /\
           p = "#/components/schemas/" +:+ defName /\ x = VStr defName /\
           derived_at fuel refs schemas
             (round_state fuel refs res schemas s0 i) defName).
Proof.
  split.
  { intros schemas s0 Hfuel Hdef Hin. destruct fuel as [|fuel]; [lia|].
    eapply findDerived_returns; eassumption. }
  intros res s' H. unfold findDerived in H.
  apply bind_ret_inv in H as (res0 & sa & Hal & H).
  unfold alloc in Hal. injection Hal as <- <-.
  apply bind_ret_inv in H as (schemas & s0 & Hdef & H).
  apply bind_ret_inv in H as ([] & s1 & Hloop & H).
  injection H as <- <-.
  destruct (run_ok_inv _ _ _ _ _ _ (run_ok_definitions spec _) Hdef)
    as [K0 _].
  assert (Ha : heap s0 !! length (heap s) = Some (CObj [])).
  { eapply keeps_lookup; [exact K0 | exact I|]. simpl. apply lookup_snoc. }
  destruct (for_in_derived fuel (length (heap s)) refs schemas
              (map fst schemas) s0 s1 [] Ha) as (fs & Hfs & Hiff);
    [intros p x; discriminate | exact Hloop|].
  exists schemas, fs, s0. split; [exact Hdef|]. split; [reflexivity|].
  split; [exact Hfs|]. intros p x. rewrite Hiff. split.
  - intros [Hg | Hh]; [discriminate | exact Hh].
  - intros Hh. right. exact Hh.
Qed.

(** The loop over inline definitions returns, and leaves the
    document as it was. *)
Lemma for_in_inline (fuel n : nat) (refs : list string)
    (schemas : list (string * val)) (h : list cell) (keys : list string) :
  (length h <= n)%nat ->
  Forall (fun k => inline_schema h (field k schemas)) keys ->
  forall (s : state) (fs : list (string * val)),
  (forall a c, h !! a = Some c -> heap s !! a = Some c) ->
  heap s !! n = Some (CObj fs) ->
  exists s', for_in (derived_step (S fuel) refs (VRef n) schemas) keys s =
               (Ret tt, s') /\
    forall a c, h !! a = Some c -> heap s' !! a = Some c.
Proof.
  intros Hn. induction 1 as [|k keys Hk _ IH]; intros s fs He Hfs; simpl.
  - eauto.
  - destruct (derived_step_returns fuel n refs schemas fs k s
                (inline_schema_ext _ _ _ He Hk) Hfs) as (fs' & Hstep).
    unfold bind. rewrite Hstep.
    apply (IH _ fs'); simpl.
    + intros a c Ha. rewrite list_lookup_insert_ne; [auto|].
      intros ->. apply lookup_lt_Some in Ha. lia.
    + apply list_lookup_insert_eq. eapply lookup_lt_Some, Hfs.
Qed.

(** An inline definition is derived in a state that holds the
    document exactly when it is derived as the document has it. *)
Lemma derived_at_inline (fuel : nat) (refs : list string)
    (schemas : list (string * val)) (h : list cell) (s : state)
    (k : string) :
  (forall a c, h !! a = Some c -> heap s !! a = Some c) ->
  inline_schema h (field k schemas) ->
  derived_at (S fuel) refs schemas s k <-> derives h refs (field k schemas).
Proof.
  intros He Hin. pose proof Hin as (Hr & allOf0 & Ha0 & Hs0).
  pose proof (is_reference_ext _ _ _ _ He Hr) as Hr'.
  pose proof (getp_ext _ _ _ _ _ He Ha0) as Ha0'.
  split.
  - intros (def & allOf & obj & s1 & elems & r & Hd & Hg & Hne & Harr & Hobj
            & Href & Hrin).
    rewrite (deref_inline fuel _ s Hr') in Hd.
    injection Hd as <- <-. rewrite Ha0' in Hg. injection Hg as <-.
    destruct Hs0 as [-> | (elems0 & Harr0 & Hel)]; [contradiction|].
    rewrite (as_array_ext _ _ _ _ He Harr0) in Harr. injection Harr as <-.
    rewrite Forall_forall in Hel. destruct (Hel obj Hobj) as [r0 Hr0].
    assert (r0 = VStr r) as ->.
    { rewrite (getp_ext _ _ _ _ _ He Hr0) in Href. congruence. }
    exists allOf0, obj, elems0, r. auto 10.
  - intros (allOf & obj & elems & r & Hg & Hne & Harr & Hobj & Href & Hrin).
    exists (field k schemas), allOf, obj, s, elems, r.
    split; [apply deref_inline, Hr'|].
    split; [eapply getp_ext; eauto|]. split; [exact Hne|].
    split; [eapply as_array_ext; eauto|]. split; [exact Hobj|].
    split; [eapply getp_ext; eauto | exact Hrin].
Qed.

Lemma Forall_inline_keys (h : list cell) (schemas : list (string * val)) :
  Forall (fun kd => inline_schema h kd.2) schemas ->
  Forall (fun k => inline_schema h (field k schemas)) (map fst schemas).
Proof.
  intros Hin. apply Forall_forall. intros k Hk.
  apply list_elem_of_fmap in Hk as ([k' d] & -> & Hkd). simpl.
  unfold field. destruct (obj_get k' schemas) as [x|] eqn:Ex.
  - apply obj_get_val in Ex. apply list_elem_of_fmap in Ex as (kd & -> & Hx).
    rewrite Forall_forall in Hin. apply Hin, Hx.
  - exfalso. assert (Hs : is_Some (obj_get k' schemas)).
    { apply obj_get_keys. apply list_elem_of_fmap. exists (k', d). auto. }
    rewrite Ex in Hs. destruct Hs; discriminate.
Qed.


End DerivedFacts.




(* ================================================================== *)
(** * What a call can reach                                            *)
(* ================================================================== *)

Lemma val_in_mono (P Q : nat -> Prop) (v : val) :
  (forall a, P a -> Q a) -> val_in P v -> val_in Q v.
Proof. intros H. destruct v; simpl; auto. Qed.

Lemma Forall_val_in_mono (P Q : nat -> Prop) (l : list val) :
  (forall a, P a -> Q a) -> Forall (val_in P) l -> Forall (val_in Q) l.
Proof.
  intros H Hl. eapply Forall_impl; [exact Hl|].
  intros v. apply val_in_mono, H.
Qed.

Lemma imap_keys_vals (g : nat -> string) (vs : list val) :
  map snd (imap (fun i v => (g i, v)) vs) = vs.
Proof.
  revert g. induction vs as [|v vs IH]; intros g; simpl; [reflexivity|].
  f_equal. apply (IH (g ∘ S)).
Qed.

Lemma index_keys_vals (vs : list val) : map snd (index_keys vs) = vs.
Proof. apply imap_keys_vals. Qed.

Lemma chars_prim (P : nat -> Prop) (t : string) : Forall (val_in P) (chars t).
Proof.
  unfold chars. apply Forall_forall. intros v Hin.
  apply list_elem_of_fmap in Hin as (c & -> & _). exact I.
Qed.

Lemma closed_keeps (P P' : nat -> Prop) (h h' : list cell) :
  closed P h -> keeps P' h h' -> (forall a, P a -> P' a) -> closed P h'.
Proof.
  intros Hc K HP a Pa. destruct (Hc a Pa) as (c & Hl & Hv).
  exists c. split; [|exact Hv]. eapply keeps_lookup; eauto.
Qed.

Lemma closed_own_props (P : nat -> Prop) (h : list cell) (v : val)
    (fs : list (string * val)) :
  closed P h -> val_in P v -> own_props h v = Some fs ->
  Forall (val_in P) (map snd fs).
Proof.
  intros Hc Hv. destruct v; simpl; try (intros [= <-]; constructor).
  - intros [= <-]. rewrite index_keys_vals. apply chars_prim.
  - destruct (Hc a Hv) as (c & -> & Hvals). destruct c; intros [= <-].
    + exact Hvals.
    + rewrite index_keys_vals. exact Hvals.
Qed.

Lemma closed_getp (P : nat -> Prop) (h : list cell) (v w : val) (k : string) :
  closed P h -> val_in P v -> getp h v k = Ret w -> val_in P w.
Proof.
  intros Hc Hv. destruct v; simpl; try discriminate;
    try (intros [= <-]; exact I).
  destruct (Hc a Hv) as (c & -> & Hvals). destruct c; intros [= <-].
  - unfold field. destruct (obj_get k fields) as [x|] eqn:E; [|exact I].
    rewrite Forall_forall in Hvals. apply Hvals.
    clear -E. induction fields as [|[k0 v0] fs IH]; simpl in *; [discriminate|].
    destruct (decide (k = k0)); [injection E as ->; left | right; auto].
  - exact I.
Qed.

Lemma closed_as_array (P : nat -> Prop) (h : list cell) (v : val)
    (vs : list val) :
  closed P h -> val_in P v -> as_array h v = Some vs -> Forall (val_in P) vs.
Proof.
  intros Hc Hv. destruct v; simpl; try discriminate.
  destruct (Hc a Hv) as (c & -> & Hvals). destruct c; intros [= <-].
  exact Hvals.
Qed.

Lemma pr_ok_closed (P : nat -> Prop) (h : list cell) (v : val) :
  closed P h -> val_in P v -> pr_ok P h v.
Proof.
  intros Hc Hv. split; [exact Hv|]. intros a fs -> Ha.
  apply (closed_getp P h (VRef a) _ "parentRefs" Hc Hv).
  simpl. rewrite Ha. reflexivity.
Qed.

Lemma pr_ok_mono (G G' : nat -> Prop) (h : list cell) (v : val) :
  (forall a, G a -> G' a) -> pr_ok G h v -> pr_ok G' h v.
Proof.
  intros HG [Hv Hp]. split; [eapply val_in_mono; eauto|].
  intros a fs Hva Ha. eapply val_in_mono; eauto.
Qed.

Lemma pr_ok_agree (G : nat -> Prop) (h h' : list cell) (v : val) :
  (forall a, v = VRef a -> h' !! a = h !! a) -> pr_ok G h v -> pr_ok G h' v.
Proof.
  intros He [Hv Hp]. split; [exact Hv|]. intros a fs Hva Ha.
  apply (Hp a fs Hva). rewrite <- (He a Hva). exact Ha.
Qed.

Lemma parent_items_agree (G : nat -> Prop) (h h' : list cell) (v : val) :
  pr_ok G h v -> (forall a, G a -> h' !! a = h !! a) ->
  parent_items h' v = parent_items h v.
Proof.
  intros [Hv Hp] He. unfold parent_items.
  destruct v as [| | | | |a]; try reflexivity. simpl in Hv. simpl getp.
  rewrite (He a Hv). destruct (h !! a) as [[fs|vs]|] eqn:Ea; try reflexivity.
  specialize (Hp a fs eq_refl Ea).
  destruct (field "parentRefs" fs) as [| | | | |b]; try reflexivity.
  simpl in Hp. simpl. rewrite (He b Hp). reflexivity.
Qed.

Lemma flat_map_agree {A B} (f g : A -> list B) (l : list A) :
  Forall (fun x => f x = g x) l -> flat_map f l = flat_map g l.
Proof.
  induction 1 as [|x l Hx _ IH]; simpl; [reflexivity|]. rewrite Hx, IH.
  reflexivity.
Qed.

Section ReachFacts.

Variable JsonPointer_get : list cell -> val -> string -> option val.
Variable isNamedDefinition : val -> bool.
Variable JsonPointer_baseName : val -> option string.
Variable spec : val.

Hypothesis get_reaches : reaches JsonPointer_get.

Abbreviation deref := (deref JsonPointer_get spec).
Abbreviation byRef := (byRef JsonPointer_get spec).
Abbreviation mergeAllOf :=
  (mergeAllOf JsonPointer_get isNamedDefinition JsonPointer_baseName spec).

Lemma byRef_reach (P : nat -> Prop) (ref v : val) (s s' : state) :
  closed P (heap s) -> val_in P spec ->
  byRef ref s = (Ret v, s') -> s' = s /\ val_in P v.
Proof.
  intros Hc Hs. unfold byRef.
  destruct (is_undef spec); [intros [= <- <-]; split; [reflexivity | exact I]|].
  destruct ref; try discriminate.
  destruct (decodeURIComponent _) as [r2|]; [|discriminate].
  unfold reading.
  destruct (JsonPointer_get (heap s) spec r2) as [w|] eqn:E;
    intros [= <- <-]; (split; [reflexivity|]); [|exact I].
  eapply get_reaches; eauto.
Qed.

(** What [deref] returns is the value it was given, a value found
    from the root, or a new copy of one: its [parentRefs], if any,
    was in the store before. *)
Lemma deref_reach (P : nat -> Prop) (fuel : nat) :
  forall (obj : val) (force : bool) (s : state),
  closed P (heap s) -> val_in P spec -> val_in P obj ->
  run_ok all (deref fuel obj force) s
    (fun v s' =>
       pr_ok (grow P (length (heap s)) (length (heap s'))) (heap s') v).
Proof.
  induction fuel as [|fuel IH]; intros obj force s Hc Hs Ho; simpl.
  { apply run_ok_stop. }
  assert (Hgrow : forall m a, P a -> grow P (length (heap s)) m a)
    by (intros m a Pa; left; exact Pa).
  eapply run_ok_bind; [apply all_any | apply run_ok_same, heap_same_isRef|].
  intros b s1 _ [H1 _]. destruct b.
  2:{ apply run_ok_ret. rewrite H1. eapply pr_ok_mono; [apply Hgrow|].
      apply pr_ok_closed; assumption. }
  eapply run_ok_bind; [apply all_any | apply run_ok_same, heap_same_reading|].
  intros r s2 _ [H2 _].
  eapply run_ok_bind; [apply all_any | apply run_ok_same, heap_same_byRef|].
  intros resolved s3 _ [H3 Hb].
  assert (Hres : val_in P resolved).
  { eapply (byRef_reach P r resolved s2 s3);
      [rewrite H2, H1; exact Hc | assumption | exact Hb]. }
  eapply run_ok_bind; [apply all_any | apply run_ok_same, heap_same_rc_visited|].
  intros visited s4 _ [H4 _].
  eapply run_ok_bind; [apply all_any | apply run_ok_same, heap_same_rc_visit|].
  intros [] s5 _ [H5 _].
  assert (E5 : heap s5 = heap s) by congruence.
  destruct (visited && negb force).
  { eapply run_ok_weaken; [apply all_any | apply run_ok_circular_copy|].
    intros v s' _ (fs & Hfs & -> & Hh & _). rewrite Hh, E5, length_app. simpl.
    split; [right; lia|]. intros a fs' [= <-]. rewrite lookup_snoc.
    intros [= <-]. rewrite field_spread. simpl. rewrite field_spread.
    simpl. eapply val_in_mono; [apply Hgrow|].
    rewrite E5 in Hfs.
    pose proof (closed_own_props P _ _ _ Hc Hres Hfs) as Hvals.
    destruct (obj_get "parentRefs" fs) as [x|] eqn:E; [|exact I].
    rewrite Forall_forall in Hvals. apply Hvals.
    clear -E. induction fs as [|[k0 v0] fs IH]; simpl in *; [discriminate|].
    destruct (decide _); [injection E as ->; left | right; auto]. }
  eapply run_ok_bind; [apply all_any | apply run_ok_same, heap_same_isRef|].
  intros b' s6 _ [H6 _]. destruct b'.
  2:{ apply run_ok_ret. rewrite H6, E5. eapply pr_ok_mono; [apply Hgrow|].
      apply pr_ok_closed; assumption. }
  assert (E6 : heap s6 = heap s) by congruence.
  eapply run_ok_bind;
    [apply all_any | apply (IH resolved false s6); rewrite ?E6; assumption|].
  intros res s7 _ Hok. rewrite E6 in Hok.
  eapply run_ok_bind; [apply all_any | apply run_ok_same, heap_same_exitRef|].
  intros [] s8 _ [H8 _]. apply run_ok_ret. rewrite H8. exact Hok.
Qed.

(** What [mergeAllOf] returns is the schema it was given or a new
    receiver with a new [parentRefs]. *)
Lemma mergeAllOf_reach (G : nat -> Prop) (fuel : nat) (schema ref : val)
    (force : bool) (s : state) :
  pr_ok G (heap s) schema ->
  run_ok all (mergeAllOf fuel schema ref force) s
    (fun v s' =>
       pr_ok (grow G (length (heap s)) (length (heap s'))) (heap s') v).
Proof.
  intros Hok.
  eapply run_ok_weaken; [intros ? HP; exact HP | apply mergeAllOf_keeps|].
  intros v s' _ [[-> ->] | (r & p & -> & Hr & Hp & Hinv)].
  - eapply pr_ok_mono; [|exact Hok]. intros a Ga. left. exact Ga.
  - destruct Hinv as (fs & xs & Hfs & Hpr & Hxs).
    pose proof (lookup_lt_Some _ _ _ Hfs). pose proof (lookup_lt_Some _ _ _ Hxs).
    split; [right; lia|]. intros a fs' [= <-] Ha.
    assert (fs' = fs) as -> by congruence. rewrite Hpr. right. lia.
Qed.


Section BranchItems.

Variable merge : val -> val -> M val.
Hypothesis merge_ok :
  forall (G : nat -> Prop) (resolved subRef : val) (s : state),
  pr_ok G (heap s) resolved ->
  run_ok all (merge resolved subRef) s
    (fun v s' =>
       pr_ok (grow G (length (heap s)) (length (heap s'))) (heap s') v).

(** One branch: what is appended to the receiver's [parentRefs] is
    the [parentRefs] of the merged branch, as it still reads after
    the call. *)
Lemma map_branch_items (P : nat -> Prop) (dfuel r p : nat) (force : bool)
    (sub : val) (fr : list (string * val)) (xs : list val) (s : state) :
  closed P (heap s) -> val_in P spec -> val_in P sub ->
  (forall a, P a -> (a < p)%nat) -> (p < r < length (heap s))%nat ->
  heap s !! r = Some (CObj fr) -> field "parentRefs" fr = VRef p ->
  heap s !! p = Some (CArr xs) ->
  run_ok (but [p])
    (map_branch JsonPointer_get spec merge dfuel (VRef r) force sub) s
    (fun b s' =>
       heap s' !! r = Some (CObj fr) /\
       heap s' !! p = Some (CArr (xs ++ parent_items (heap s') b.2)) /\
       pr_ok (grow P (S r) (length (heap s'))) (heap s') b.2 /\
       exists sr, getp (heap s) sub "$ref" = Ret sr /\ b.1 = js_or sr VUndef).
Proof.
  intros Hc Hs Hsub HP Hrp Hr Hpr Hp. unfold map_branch.
  eapply run_ok_bind; [apply all_any | apply (deref_reach P); assumption|].
  intros resolved s1 K1 Hres.
  eapply run_ok_bind; [apply all_any | apply run_ok_reading|].
  intros sr s2 _ [-> Hsr].
  assert (Hsr0 : getp (heap s) sub "$ref" = Ret sr).
  { destruct sub as [| | | | |a]; try exact Hsr. simpl in Hsr |- *.
    destruct (Hc a Hsub) as (c & Ha & _).
    rewrite (keeps_lookup _ _ _ _ _ K1 I Ha) in Hsr. rewrite Ha. exact Hsr. }
  eapply run_ok_bind; [apply all_any | apply (merge_ok _ _ _ _ Hres)|].
  intros subMerged s3 K3 Hm.
  assert (L13 : (length (heap s) <= length (heap s1) <= length (heap s3))%nat).
  { split; [apply K1 | apply K3]. }
  assert (Hm3 : pr_ok (grow P (S r) (length (heap s3))) (heap s3) subMerged).
  { eapply pr_ok_mono; [|exact Hm]. intros a [[Pa | Ha] | Ha].
    - left. exact Pa.
    - right. lia.
    - right. lia. }
  clear Hm Hres.
  assert (Hr3 : heap s3 !! r = Some (CObj fr)).
  { eapply keeps_lookup; [exact K3 | exact I|].
    eapply keeps_lookup; [exact K1 | exact I | exact Hr]. }
  assert (Hp3 : heap s3 !! p = Some (CArr xs)).
  { eapply keeps_lookup; [exact K3 | exact I|].
    eapply keeps_lookup; [exact K1 | exact I | exact Hp]. }
  eapply run_ok_bind; [apply all_any | apply run_ok_reading|].
  intros rp s4 _ [-> Hrp']. simpl in Hrp'. rewrite Hr3, Hpr in Hrp'.
  injection Hrp' as <-.
  eapply run_ok_bind; [apply all_any | apply run_ok_reading|].
  intros sp s4 _ [-> Hsp].
  eapply run_ok_bind; [apply all_any | apply run_ok_or_alloc|].
  intros src s6 K6 [_ Hsrc].
  eapply run_ok_bind; [apply all_any | apply run_ok_reading|].
  intros items s7 _ [-> Hitems].
  eapply run_ok_bind; [intros ? HP'; exact HP' | apply run_ok_array_push|].
  intros [] s8 _ (vs & Hvs & H8 & _).
  assert (Hp6 : heap s6 !! p = Some (CArr xs)).
  { eapply keeps_lookup; [exact K6 | exact I | exact Hp3]. }
  assert (vs = xs) as -> by congruence.
  assert (Hpne : p <> r) by lia.
  assert (E8 : forall a, grow P (S r) (length (heap s3)) a ->
                 heap s8 !! a = heap s3 !! a).
  { intros a Ga. assert (a <> p /\ (a < length (heap s3))%nat) as [Hap Hal].
    { destruct Ga as [Pa | Ha]; [specialize (HP a Pa)|]; lia. }
    rewrite H8, list_lookup_insert_ne by auto.
    apply K6; [exact I | exact Hal]. }
  assert (Hitems' : items = parent_items (heap s3) subMerged).
  { unfold parent_items. rewrite Hsp. destruct (truthy sp) eqn:Et.
    - destruct Hsrc as [-> ->]. destruct sp as [| | | |t|a]; try discriminate.
      + injection Hitems as <-. reflexivity.
      + simpl in Hitems |- *.
        destruct (heap s3 !! a) as [[fs|ys]|]; try discriminate.
        injection Hitems as <-. reflexivity.
    - destruct Hsrc as [-> Hh]. rewrite Hh in Hitems.
      rewrite lookup_snoc in Hitems. injection Hitems as <-. reflexivity. }
  apply run_ok_ret. simpl.
  split.
  { rewrite H8, list_lookup_insert_ne by auto.
    eapply keeps_lookup; [exact K6 | exact I | exact Hr3]. }
  split.
  { rewrite (parent_items_agree _ _ _ _ Hm3 E8), <- Hitems', H8.
    apply list_lookup_insert_eq. eapply lookup_lt_Some, Hp6. }
  split; [|eauto].
  eapply pr_ok_mono; [|eapply pr_ok_agree; [|exact Hm3]].
  - intros a [Pa | Ha]; [left; exact Pa | right].
    rewrite H8, length_insert. pose proof (proj1 K6). lia.
  - intros a ->. apply E8. apply Hm3.
Qed.

(** The whole list: after the map, [parentRefs] holds the items of
    every branch, in the order of the branches. *)
Lemma map_each_branch_items (P : nat -> Prop) (h0 : list cell)
    (dfuel r p : nat) (force : bool) (fr : list (string * val))
    (subs : list val) :
  forall (xs : list val) (s : state),
  closed P (heap s) -> val_in P spec -> Forall (val_in P) subs ->
  (forall a, P a -> (a < p)%nat) -> (p < r < length (heap s))%nat ->
  (forall a, P a -> heap s !! a = h0 !! a) ->
  heap s !! r = Some (CObj fr) -> field "parentRefs" fr = VRef p ->
  heap s !! p = Some (CArr xs) ->
  run_ok (but [p])
    (map_each (map_branch JsonPointer_get spec merge dfuel (VRef r) force)
       subs) s
    (fun bs s' =>
       heap s' !! r = Some (CObj fr) /\
       heap s' !! p =
         Some (CArr (xs ++ flat_map (fun b => parent_items (heap s') b.2) bs))
       /\
       Forall (fun b => pr_ok (grow P (S r) (length (heap s'))) (heap s') b.2)
         bs /\
       Forall2 (fun sub b => exists sr, getp h0 sub "$ref" = Ret sr /\
                                       b.1 = js_or sr VUndef) subs bs).
Proof.
  induction subs as [|sub subs IH];
    intros xs s Hc Hs Hsubs HP Hrp H0 Hr Hpr Hp; simpl.
  { apply run_ok_ret. rewrite app_nil_r. auto. }
  apply Forall_cons_1 in Hsubs as [Hsub Hsubs].
  eapply run_ok_bind;
    [intros ? HP'; exact HP'
    | apply (map_branch_items P dfuel r p force sub fr xs s); assumption|].
  intros b s1 K1 (Hr1 & Hp1 & Hb1 & sr & Hsr & Hb).
  assert (HPp : forall a, P a -> but [p] a).
  { intros a Pa Hin. apply list_elem_of_singleton in Hin as ->.
    specialize (HP _ Pa). lia. }
  assert (L1 : (length (heap s) <= length (heap s1))%nat) by apply K1.
  assert (H01 : forall a, P a -> heap s1 !! a = h0 !! a).
  { intros a Pa. rewrite <- (H0 a Pa). apply K1; [apply HPp, Pa|].
    specialize (HP _ Pa). lia. }
  eapply run_ok_bind;
    [intros ? HP'; exact HP'
    | apply (IH (xs ++ parent_items (heap s1) b.2) s1); try assumption|].
  { eapply closed_keeps; eauto. }
  { lia. }
  intros bs s2 K2 (Hr2 & Hp2 & Hbs & Hrefs). apply run_ok_ret.
  assert (E2 : forall a, grow P (S r) (length (heap s1)) a ->
                 heap s2 !! a = heap s1 !! a).
  { intros a Ga. apply K2.
    - intros Hin. apply list_elem_of_singleton in Hin as ->.
      destruct Ga as [Pa | Ha]; [specialize (HP _ Pa)|]; lia.
    - destruct Ga as [Pa | Ha]; [specialize (HP _ Pa)|]; lia. }
  split; [exact Hr2|]. split.
  { rewrite Hp2. simpl. rewrite (parent_items_agree _ _ _ _ Hb1 E2).
    rewrite <- app_assoc. reflexivity. }
  split.
  - apply Forall_cons_2; [|exact Hbs].
    eapply pr_ok_mono; [|eapply pr_ok_agree; [|exact Hb1]].
    + intros a [Pa | Ha]; [left; exact Pa | right].
      pose proof (proj1 K2). lia.
    + intros a Ea. apply E2. destruct Hb1 as [Hv _]. rewrite Ea in Hv.
      exact Hv.
  - apply Forall2_cons_2; [|exact Hrefs]. exists sr. split; [|exact Hb].
    rewrite <- Hsr. destruct sub as [| | | | |a]; try reflexivity.
    simpl. rewrite (H0 a Hsub). reflexivity.
Qed.

(** The first half of a merge: a new receiver whose new [parentRefs]
    holds the items of every branch. *)
Lemma collect_branches_items (dfuel : nat) (schema allOf : val)
    (force : bool) (s : state) :
  closed (below (length (heap s))) (heap s) ->
  val_in (below (length (heap s))) spec ->
  val_in (below (length (heap s))) allOf ->
  run_ok all
    (collect_branches JsonPointer_get spec merge dfuel schema allOf force) s
    (fun c s' => exists subs fr,
       let p := length (heap s) in
       let r := S (length (heap s)) in
       c.1 = VRef r /\ (r < length (heap s'))%nat /\
       as_array (heap s) allOf = Some subs /\
       Forall2 (fun sub b => exists sr, getp (heap s) sub "$ref" = Ret sr /\
                                       b.1 = js_or sr VUndef) subs c.2 /\
       heap s' !! r = Some (CObj fr) /\ field "parentRefs" fr = VRef p /\
       heap s' !! p =
         Some (CArr (flat_map (fun b => parent_items (heap s') b.2) c.2)) /\
       Forall (fun b => pr_ok (old_but (length (heap s')) r p) (heap s') b.2)
         c.2).
Proof.
  intros Hc Hs HallOf. apply run_ok_below_all. unfold collect_branches.
  set (n := length (heap s)) in *.
  eapply run_ok_bind; [apply all_any | apply run_ok_same, heap_same_reading|].
  intros fs s1 _ [H1 _].
  eapply run_ok_bind; [apply all_any | apply run_ok_alloc|].
  intros v s2 K2 (-> & H2 & _).
  eapply run_ok_bind; [apply all_any | apply run_ok_alloc|].
  intros v s3 K3 (-> & H3 & _).
  rewrite H1 in H2, H3. rewrite H2 in H3. rewrite H2, length_app. fold n.
  simpl length. replace (n + 1)%nat with (S n) by lia. fold n in H3.
  set (fr := obj_set "parentRefs" (VRef n) _) in *.
  assert (Hr3 : heap s3 !! S n = Some (CObj fr)).
  { rewrite H3. replace (S n) with (length (heap s ++ [CArr []])).
    - apply lookup_snoc.
    - rewrite length_app. simpl. lia. }
  assert (Hp3 : heap s3 !! n = Some (CArr [])).
  { rewrite H3. rewrite lookup_app_l by (rewrite length_app; simpl; lia).
    apply lookup_snoc. }
  assert (L3 : length (heap s3) = S (S n)).
  { rewrite H3, !length_app. simpl. lia. }
  assert (E3 : forall a, below n a -> heap s3 !! a = heap s !! a).
  { intros a Ha. unfold below in Ha. rewrite H3.
    rewrite !lookup_app_l; [reflexivity|..]; rewrite ?length_app; simpl; lia. }
  assert (Hc3 : closed (below n) (heap s3)).
  { intros a Ha. destruct (Hc a Ha) as (c & Hl & Hv). exists c.
    rewrite (E3 a Ha). auto. }
  eapply run_ok_bind; [apply all_any | apply run_ok_reading|].
  intros subs s4 _ [-> Hsubs].
  assert (Harr : as_array (heap s) allOf = Some subs).
  { destruct allOf as [| | | | |a]; try discriminate. simpl in HallOf.
    unfold as_array. rewrite <- (E3 a HallOf).
    destruct (heap s3 !! a) as [[?|?]|]; try discriminate.
    injection Hsubs as <-. reflexivity. }
  eapply run_ok_bind;
    [| apply (map_each_branch_items (below n) (heap s) dfuel (S n) n force fr
               subs [] s3); try assumption |].
  { intros a Ha Hin. apply list_elem_of_singleton in Hin as ->.
    unfold below in Ha. lia. }
  { eapply (closed_as_array _ (heap s)); eauto. }
  { intros a Ha. exact Ha. }
  { rewrite L3. lia. }
  { unfold fr. rewrite field_set. reflexivity. }
  intros bs s5 K5 (Hr5 & Hp5 & Hbs & Hrefs). apply run_ok_ret.
  exists subs, fr. simpl.
  assert (L5 : (S (S n) <= length (heap s5))%nat).
  { rewrite <- L3. apply K5. }
  split; [reflexivity|]. split; [lia|]. split; [exact Harr|].
  split; [exact Hrefs|]. split; [exact Hr5|].
  split; [unfold fr; rewrite field_set; reflexivity|].
  split; [exact Hp5|].
  eapply Forall_impl; [exact Hbs|]. intros b. apply pr_ok_mono.
  intros a [Ha | Ha]; unfold below in *; unfold old_but; lia.
Qed.

End BranchItems.

(** C6. A merge of a schema that declares [allOf] returns an object
    whose [parentRefs] is a new array that holds, first, for every
    branch in the order of the list, the items of the [parentRefs] of
    that branch as merged by the recursive call, and then, again in
    the order of the list, the pointer of every branch whose [$ref]
    is truthy; a Reference whose [$ref] is the empty string is not
    listed.  The branches [bs] are the pairs that the map over
    [allOf] returned: the pointer [subSchema.$ref || undefined] of
    the branch and its merged schema.  The store the call starts in
    holds no address that is not allocated, the document and the
    schema are in it, and [JsonPointer.get] returns only nodes that
    can be reached from the document. *)
Theorem mergeAllOf_parentRefs (fuel : nat) (schema ref allOf v : val)
    (force : bool) (s s' : state) :
  closed (below (length (heap s))) (heap s) ->
  val_in (below (length (heap s))) spec ->
  val_in (below (length (heap s))) schema ->
  getp (heap s) schema "allOf" = Ret allOf -> is_undef allOf = false ->
  mergeAllOf (S fuel) schema ref force s = (Ret v, s') ->
  exists (subs : list val) (recv : val) (bs : list (val * val))
         (s1 : state) (p : nat),
    as_array (heap s) allOf = Some subs /\
    collect_branches JsonPointer_get spec
      (fun resolved subRef => mergeAllOf fuel resolved subRef force)
      fuel schema allOf force s = (Ret (recv, bs), s1) /\
    Forall2 (fun sub b => exists sr, getp (heap s) sub "$ref" = Ret sr /\
                                    b.1 = js_or sr VUndef) subs bs /\
    getp (heap s') v "parentRefs" = Ret (VRef p) /\
    (length (heap s) <= p)%nat /\
    heap s' !! p =
      Some (CArr (flat_map (fun b => parent_items (heap s') b.2) bs
                  ++ direct_refs bs)).
Proof.
  intros Hc Hs Hsch HallOf Hdef Hrun. simpl in Hrun.
  apply bind_ret_inv in Hrun as (allOf' & s0 & Hget & Hrun).
  unfold get_prop, reading in Hget. rewrite HallOf in Hget.
  injection Hget as <- <-. rewrite Hdef in Hrun.
  apply bind_ret_inv in Hrun as ([recv bs] & s1 & Hcol & Hrun).
  apply bind_ret_inv in Hrun as (receiver & s2 & Hfold & Hrun).
  apply bind_ret_inv in Hrun as ([] & s3 & Hname & Hrun).
  injection Hrun as <- <-. simpl in Hfold.
  assert (Ha : val_in (below (length (heap s))) allOf).
  { eapply closed_getp; eauto. }
  destruct (run_ok_inv _ _ _ _ _ _
              (collect_branches_items _
                 (fun G resolved subRef s0 =>
                    mergeAllOf_reach G fuel resolved subRef force s0)
                 fuel schema allOf force s Hc Hs Ha) Hcol)
    as [K1 (subs & fr & Hrecv & L1 & Harr & Hrefs & Hr1 & Hpr1 & Hp1 & Hbs)].
  simpl in Hrecv, Hrefs, Hp1, Hbs. subst recv.
  set (n := length (heap s)) in *.
  destruct (run_ok_inv _ _ _ _ _ _
              (fold_branches_struct isNamedDefinition JsonPointer_baseName
                 ref (length (heap s1)) (S n) n bs (S n) fr _ s1
                 (le_n _) (or_introl eq_refl) Hr1 Hpr1 Hp1) Hfold)
    as [K2 (r' & fr' & -> & Hr' & Hr2 & Hpr2 & Hp2)].
  destruct (run_ok_inv _ _ _ _ _ _
              (run_ok_name_top_level isNamedDefinition JsonPointer_baseName
                 r' schema ref fr' s2 Hr2) Hname)
    as [K3 (t & _ & L3 & Hr3)].
  assert (Hne : n <> r') by (intros ->; congruence).
  assert (L2 : (length (heap s1) <= length (heap s2))%nat) by apply K2.
  assert (Hp3 : heap s3 !! n = heap s2 !! n).
  { apply K3; [|lia]. intros Hin. apply list_elem_of_singleton in Hin. auto. }
  assert (E3 : forall a, old_but (length (heap s1)) (S n) n a ->
                 heap s3 !! a = heap s1 !! a).
  { intros a Ga. pose proof Ga as (Hal & Har & Hap).
    transitivity (heap s2 !! a).
    - apply K3; [|lia]. intros Hin. apply list_elem_of_singleton in Hin as ->.
      destruct Hr'; [contradiction | lia].
    - apply K2; assumption. }
  exists subs, (VRef (S n)), bs, s1, n.
  split; [exact Harr|]. split; [exact Hcol|]. split; [exact Hrefs|].
  split.
  { simpl. rewrite Hr3. f_equal.
    destruct (_ && _); [rewrite field_set; simpl|]; exact Hpr2. }
  split; [lia|].
  rewrite Hp3, Hp2. do 3 f_equal. apply flat_map_agree.
  eapply Forall_impl; [exact Hbs|]. intros b Hb. symmetry.
  eapply parent_items_agree; [exact Hb | exact E3].
Qed.

End ReachFacts.

(** * The helpers of the examples and their store *)

Lemma wf_store_closed (h : list cell) :
  wf_store h = true -> closed (below (length h)) h.
Proof.
  unfold wf_store. intros H a Ha. unfold below in Ha.
  destruct (lookup_lt_is_Some_2 h a Ha) as [c Hc]. exists c.
  split; [exact Hc|]. rewrite forallb_forall in H.
  specialize (H c). rewrite <- list_elem_of_In in H.
  specialize (H (list_elem_of_lookup_2 _ _ _ Hc)).
  rewrite forallb_forall in H. apply Forall_forall. intros v Hv.
  apply list_elem_of_In in Hv. specialize (H v Hv).
  destruct v as [| | | | |b]; try exact I.
  simpl. unfold below. apply bool_decide_eq_true in H. exact H.
Qed.

Lemma step_into_reaches (P : nat -> Prop) (h : list cell) (v w : val)
    (tok : string) :
  closed P h -> val_in P v -> Utils.step_into h v tok = Some w -> val_in P w.
Proof.
  intros Hc Hv. destruct v as [| | | | |a]; try discriminate. simpl.
  destruct (Hc a Hv) as (c & -> & Hf). destruct c as [fs|vs]; simpl in Hf.
  - intros Hw. apply obj_get_val in Hw.
    rewrite Forall_forall in Hf. auto.
  - intros Hw. apply obj_get_val in Hw. rewrite index_keys_vals in Hw.
    rewrite Forall_forall in Hf. auto.
Qed.

Lemma walk_reaches (P : nat -> Prop) (h : list cell) (toks : list string) :
  forall v w : val,
  closed P h -> val_in P v -> Utils.walk h v toks = Some w -> val_in P w.
Proof.
  induction toks as [|t toks IH]; intros v w Hc Hv; simpl.
  - intros [= <-]. exact Hv.
  - destruct (Utils.step_into h v t) as [v'|] eqn:E; [|discriminate].
    apply IH; [exact Hc|]. eapply step_into_reaches; eauto.
Qed.

Lemma utils_get_reaches : reaches Utils.get.
Proof.
  intros P h root p v Hc Hr. unfold Utils.get.
  destruct (Utils.parse p) as [toks|]; [|discriminate].
  apply walk_reaches; assumption.
Qed.

Lemma mergeAllOf_parentRefs_witness :
  let run := mergeAllOf Utils.get Utils.isNamedDefinition Utils.baseName
               Examples.lineage_root 3
               (Examples.lineage_at "#/components/schemas/Dog")
               (VStr "#/components/schemas/Dog") false
               Examples.lineage_start in
  exists (v : val) (p : nat), run.1 = Ret v /\
    getp (heap run.2) v "parentRefs" = Ret (VRef p) /\
    heap run.2 !! p = Some (CArr [VStr "#/components/schemas/Base";
                                  VStr "#/components/schemas/Pet"]).
Proof.
  intros run. destruct run as [o s'] eqn:E.
  assert (Ho : exists v, o = Ret v).
  { assert (o = run.1) as -> by (rewrite E; reflexivity).
    eexists. vm_compute. reflexivity. }
  destruct Ho as [v ->].
  destruct (mergeAllOf_parentRefs Utils.get Utils.isNamedDefinition
              Utils.baseName Examples.lineage_root utils_get_reaches 2
              (Examples.lineage_at "#/components/schemas/Dog")
              (VStr "#/components/schemas/Dog")
              (default VUndef
                 (Utils.get Examples.lineage_store Examples.lineage_root
                    "#/components/schemas/Dog/allOf"))
              v false Examples.lineage_start s')
    as (subs & recv & bs & s1 & p & _ & Hcol & _ & Hget & _ & Hp).
  - apply wf_store_closed. vm_compute. reflexivity.
  - vm_compute. lia.
  - vm_compute. lia.
  - vm_compute. reflexivity.
  - reflexivity.
  - exact E.
  - exists v, p. split; [reflexivity|]. split; [exact Hget|].
    simpl. rewrite Hp. vm_compute in Hcol. injection Hcol as _ <- _.
    assert (Hs' : s' = run.2) by (rewrite E; reflexivity).
    rewrite Hs'. vm_compute. reflexivity.
Defined.

(** C6 as stated fails for a branch that is a Reference whose [$ref]
    is the empty string.  [isRef] holds of the branch, and [deref]
    follows it (to the document itself) and marks its pointer
    visited; but the loop appends the pointer only when
    [subSchema.$ref || undefined] is truthy, which the empty string
    is not: the [parentRefs] of the merged schema is empty. *)
Lemma mergeAllOf_parentRefs_skips_empty_ref :
  let branch := Examples.aliased_at "#/blank/allOf/0" in
  let run := mergeAllOf Utils.get Utils.isNamedDefinition Utils.baseName
               Examples.aliased_root 3 (Examples.aliased_at "#/blank")
               (VStr "#/blank") false Examples.aliased_start in
  as_array Examples.aliased_store (Examples.aliased_at "#/blank/allOf") =
    Some [branch] /\
  getp Examples.aliased_store branch "$ref" = Ret (VStr EmptyString) /\
  is_reference Examples.aliased_store branch = Ret true /\
  RefCounter.count (refCounter run.2) EmptyString = 1 /\
  exists (v : val) (p : nat), run.1 = Ret v /\
    getp (heap run.2) v "parentRefs" = Ret (VRef p) /\
    heap run.2 !! p = Some (CArr []).
Proof.
  intros branch run. split; [vm_compute; reflexivity|].
  split; [vm_compute; reflexivity|]. split; [vm_compute; reflexivity|].
  split; [vm_compute; reflexivity|].
  exists (VRef 22), 19%nat. repeat split; vm_compute; reflexivity.
Qed.

(* ================================================================== *)
(** * More of RefCounter                                               *)
(* ================================================================== *)

Module RefCounterMore.
Import RefCounter RefCounterFacts.

Lemma count_exit_visit (r ref : string) (c : gmap string slot) :
  wf c -> numeric c r = true ->
  count (exit r (visit r c)) ref = count c ref.
Proof.
  intros H Hn. rewrite count_exit, !(count_visit _ _ _ Hn).
  destruct (decide (r = ref)) as [->|]; [|reflexivity].
  destruct (decide (ref = ref)); [|congruence]. specialize (H ref).
  destruct (count c ref =? 0) eqn:E.
  - apply Z.eqb_eq in E. simpl. lia.
  - apply Z.eqb_neq in E.
    destruct (count c ref + 1 =? 0) eqn:E'; [apply Z.eqb_eq in E'|]; lia.
Qed.

Lemma visited_visit_ne (r ref : string) (c : gmap string slot) :
  r <> ref -> visited ref (visit r c) = visited ref c.
Proof. intros Hne. unfold visited. rewrite read_visit_ne by exact Hne. reflexivity. Qed.

Lemma visited_exit_ne (r ref : string) (c : gmap string slot) :
  r <> ref -> visited ref (exit r c) = visited ref c.
Proof. intros Hne. unfold visited. rewrite read_exit_ne by exact Hne. reflexivity. Qed.

Lemma visited_exit_unvisited (r : string) (c : gmap string slot) :
  visited r c = false -> visited r (exit r c) = false.
Proof.
  intros Hv. unfold visited in *. rewrite read_exit.
  destruct (decide (r = r)); [|congruence].
  destruct (decide (r = "__proto__"%string)) as [->|]; [discriminate|].
  rewrite Hv. exact Hv.
Qed.

Lemma count_unvisited (r : string) (c : gmap string slot) :
  visited r c = false -> count c r = 0.
Proof.
  unfold visited, count. destruct (read c r) as [|z| | |]; try reflexivity.
  simpl. intros H. apply negb_false_iff, Z.eqb_eq in H. exact H.
Qed.

(** X1. [exit] undoes [visit] on a pointer whose slot holds a number
    or [undefined], as every pointer has that is not the name of a
    member of [Object.prototype]: after the two calls every pointer
    counts what it counted before, and is visited exactly when it
    was; the calls in the other order do not cancel on a pointer that
    was not visited. *)
Theorem exit_undoes_visit (r ref : string) (c : gmap string slot) :
  wf c -> numeric c r = true ->
  count (exit r (visit r c)) ref = count c ref /\
  visited ref (exit r (visit r c)) = visited ref c /\
  (visited r c = false -> count (visit r (exit r c)) r = 1).
Proof.
  intros H Hn. pose proof (count_exit_visit r ref c H Hn) as Hc.
  split; [exact Hc|]. split.
  - destruct (decide (r = ref)) as [<-|Hne].
    + rewrite !visited_count, Hc;
        [reflexivity | exact Hn | apply numeric_exit, numeric_visit, Hn].
    + rewrite visited_exit_ne, visited_visit_ne by exact Hne. reflexivity.
  - intros Hv.
    rewrite (count_visit_unvisited _ _ _ (visited_exit_unvisited _ _ Hv)).
    rewrite count_exit. destruct (decide (r = r)); [|congruence].
    rewrite (count_unvisited _ _ Hv). reflexivity.
Qed.

Lemma count_visit_wf (r ref : string) (c : gmap string slot) :
  wf c -> numeric c r = true ->
  count (visit r c) ref = count c ref + (if decide (ref = r) then 1 else 0).
Proof.
  intros H Hn. rewrite (count_visit _ _ _ Hn).
  destruct (decide (r = ref)) as [->|Hne].
  - destruct (decide (ref = ref)); [|congruence]. specialize (H ref).
    destruct (count c ref =? 0) eqn:E; [apply Z.eqb_eq in E|]; lia.
  - destruct (decide (ref = r)); [congruence | lia].
Qed.

Lemma wf_counts (c c' : gmap string slot) :
  (forall r, count c' r = count c r) -> wf c -> wf c'.
Proof. intros He H r. rewrite He. apply H. Qed.

End RefCounterMore.

Lemma exit_undoes_visit_witness :
  RefCounter.count
    (RefCounter.exit "#/a" (RefCounter.visit "#/a" RefCounter.reset)) "#/a" = 0
  /\ RefCounter.visited "#/a"
       (RefCounter.exit "#/a" (RefCounter.visit "#/a" RefCounter.reset)) = false.
Proof.
  destruct (RefCounterMore.exit_undoes_visit "#/a" "#/a" RefCounter.reset
              RefCounterFacts.wf_reset eq_refl) as (H1 & H2 & _).
  split; [rewrite H1 | rewrite H2]; reflexivity.
Defined.

(* ================================================================== *)
(** * More of byRef, isRef and deref                                   *)
(* ================================================================== *)

Lemma decode_from_plain (l : list ascii) :
  "%"%char ∉ l -> decode_from l 0 [] = Some l.
Proof.
  induction l as [|c l IH]; intros H; simpl; [reflexivity|].
  destruct (decide (c = "%"%char)) as [->|Hne].
  - exfalso. apply H. left.
  - rewrite IH; [reflexivity|]. intros Hin. apply H. right. exact Hin.
Qed.

Lemma decodeURIComponent_plain (s : string) :
  "%"%char ∉ list_ascii_of_string s -> decodeURIComponent s = Some s.
Proof.
  intros H. unfold decodeURIComponent. rewrite decode_from_plain by exact H.
  simpl. rewrite string_of_list_ascii_of_string. reflexivity.
Qed.

Lemma normalize_plain (r : string) :
  "%"%char ∉ list_ascii_of_string r ->
  "%"%char ∉ list_ascii_of_string (normalize r).
Proof.
  intros H. unfold normalize. destruct (bool_decide _); [exact H|].
  simpl. intros Hin. apply elem_of_cons in Hin as [Hin|Hin];
    [discriminate | contradiction].
Qed.

Lemma normalize_idem (r : string) : normalize (normalize r) = normalize r.
Proof.
  unfold normalize. destruct (bool_decide (String.get 0 r = _)) eqn:E.
  - rewrite E. reflexivity.
  - cbn [String.get append]. rewrite bool_decide_eq_true_2 by reflexivity.
    reflexivity.
Qed.

Section DerefMore.

Variable JsonPointer_get : list cell -> val -> string -> option val.
Variable spec : val.

Abbreviation deref := (deref JsonPointer_get spec).
Abbreviation byRef := (byRef JsonPointer_get spec).
Abbreviation resolve := (resolve JsonPointer_get spec).
Abbreviation next := (next JsonPointer_get spec).
Abbreviation follows := (follows JsonPointer_get spec).

(** X3. [byRef] on a pointer without percent escapes never throws and
    leaves the state as it is: it returns what [JsonPointer.get]
    finds at the pointer, with [#] put in front when the pointer
    does not begin with it, and [undefined] when there is no
    document or the lookup fails.  So a pointer and the same pointer
    behind [#] resolve alike. *)
Theorem byRef_plain_pointer (r : string) (s : state) :
  "%"%char ∉ list_ascii_of_string r ->
  byRef (VStr r) s =
    (Ret (if is_undef spec then VUndef
          else default VUndef (JsonPointer_get (heap s) spec (normalize r))),
     s) /\
  byRef (VStr (normalize r)) s = byRef (VStr r) s.
Proof.
  intros H. assert (E : forall r', normalize r' = normalize r ->
    byRef (VStr r') s =
    (Ret (if is_undef spec then VUndef
          else default VUndef (JsonPointer_get (heap s) spec (normalize r))),
     s)).
  { intros r' Hr'. unfold byRef. destruct (is_undef spec); [reflexivity|].
    fold (normalize r'). rewrite Hr'.
    rewrite (decodeURIComponent_plain _ (normalize_plain _ H)).
    unfold reading. destruct (JsonPointer_get _ _ _); reflexivity. }
  split; [apply E; reflexivity|].
  rewrite (E r eq_refl). apply E, normalize_idem.
Qed.

(** X4. [isRef] never throws, whatever it is given ([null] and
    [undefined] too), and changes nothing; it answers true exactly
    for a value whose [$ref] is neither [undefined] nor [null]. *)
Theorem isRef_never_throws (obj : val) (s : state) :
  val_in (below (length (heap s))) obj ->
  exists b : bool, isRef obj s = (Ret b, s) /\
    (b = true <->
     exists r, getp (heap s) obj "$ref" = Ret r /\ r <> VUndef /\ r <> VNull).
Proof.
  intros Hobj. rewrite isRef_is_reference. unfold is_reference.
  destruct obj as [| |b|n|t|a]; simpl.
  - exists false. split; [reflexivity|]. split; [discriminate|].
    intros (r & Hr & _). discriminate.
  - exists false. split; [reflexivity|]. split; [discriminate|].
    intros (r & Hr & _). discriminate.
  - exists false. split; [destruct b; reflexivity|]. split; [discriminate|].
    intros (r & [= <-] & Hr & _). congruence.
  - exists false. split; [destruct (negb (n =? 0)%Z); reflexivity|].
    split; [discriminate|]. intros (r & [= <-] & Hr & _). congruence.
  - exists false. split; [destruct (negb (bool_decide _)); reflexivity|].
    split; [discriminate|]. intros (r & [= <-] & Hr & _). congruence.
  - simpl in Hobj. unfold below in Hobj.
    destruct (lookup_lt_is_Some_2 _ _ Hobj) as [c ->].
    destruct c as [fs|vs].
    + eexists. split; [reflexivity|]. unfold is_undef, strict_eq. split.
      * intros Hb. apply andb_true_iff in Hb as [H1 H2].
        apply negb_true_iff, bool_decide_eq_false in H1, H2. eauto.
      * intros (r & [= <-] & H1 & H2).
        rewrite !bool_decide_eq_false_2 by assumption. reflexivity.
    + exists false. split; [reflexivity|]. split; [discriminate|].
      intros (r & [= <-] & Hr & _). congruence.
Qed.

End DerefMore.

Section DerefMore2.

Variable JsonPointer_get : list cell -> val -> string -> option val.
Variable spec : val.

Abbreviation deref := (deref JsonPointer_get spec).
Abbreviation byRef := (byRef JsonPointer_get spec).
Abbreviation resolve := (resolve JsonPointer_get spec).
Abbreviation next := (next JsonPointer_get spec).
Abbreviation follows := (follows JsonPointer_get spec).

Lemma byRef_state (ref : val) (s s' : state) (o : outcome val) :
  byRef ref s = (o, s') -> s' = s.
Proof.
  unfold byRef. destruct (is_undef spec); [intros [= _ <-]; reflexivity|].
  destruct ref; try (intros [= _ <-]; reflexivity).
  destruct (decodeURIComponent _); intros [= _ <-]; reflexivity.
Qed.

(** The ways a call of [deref] returns. *)
Lemma deref_S_inv (fuel : nat) (obj v : val) (force : bool) (s s' : state) :
  deref (S fuel) obj force s = (Ret v, s') ->
  (is_reference (heap s) obj = Ret false /\ v = obj /\ s' = s) \/
  exists (r resolved : val) (k : string),
    is_reference (heap s) obj = Ret true /\
    getp (heap s) obj "$ref" = Ret r /\
    byRef r s = (Ret resolved, s) /\ to_string r = Some k /\
    let s1 := State (heap s) (RefCounter.visit k (refCounter s)) in
    let short := RefCounter.visited k (refCounter s) && negb force in
    (short = true /\ circular_copy resolved s1 = (Ret v, s')) \/
    (short = false /\ is_reference (heap s) resolved = Ret false /\
     v = resolved /\ s' = s1) \/
    (short = false /\ is_reference (heap s) resolved = Ret true /\
     exists s2, deref fuel resolved false s1 = (Ret v, s2) /\
                exitRef resolved s2 = (Ret tt, s')).
Proof.
  cbn [deref]. intros H.
  apply bind_ret_inv in H as (b & s0 & Hb & H).
  rewrite isRef_is_reference in Hb. injection Hb as Hb <-.
  destruct b; [|injection H as <- <-; auto].
  right. apply bind_ret_inv in H as (r & s0 & Hr & H).
  unfold get_prop, reading in Hr. injection Hr as Hr <-.
  apply bind_ret_inv in H as (resolved & s0 & Hres & H).
  pose proof (byRef_state _ _ _ _ Hres) as ->.
  apply bind_ret_inv in H as (visited & s0 & Hv & H).
  unfold rc_visited, to_key in Hv.
  destruct (to_string r) as [k|] eqn:Hk; [|discriminate].
  unfold bind, ret in Hv. injection Hv as <- <-.
  apply bind_ret_inv in H as ([] & s0 & Hvis & H).
  unfold rc_visit, to_key in Hvis. rewrite Hk in Hvis.
  unfold bind, ret in Hvis. injection Hvis as <-.
  exists r, resolved, k. do 4 (split; [assumption || reflexivity|]).
  cbn zeta. destruct (RefCounter.visited k (refCounter s) && negb force).
  { left. auto. }
  right. apply bind_ret_inv in H as (b' & s0 & Hb' & H).
  rewrite isRef_is_reference in Hb'. simpl heap in Hb'.
  injection Hb' as Hb' <-.
  destruct b'; [|injection H as <- <-; left; auto].
  right. split; [reflexivity|]. split; [assumption|].
  apply bind_ret_inv in H as (res & s2 & Hd & H).
  apply bind_ret_inv in H as ([] & s3 & He & H).
  injection H as <- <-. eauto.
Qed.

(** X5. What [deref] returns is not a Reference, or it is the marked
    copy; and the only cell a call ever adds to the store is that
    copy. *)
Theorem deref_returns_inline_or_marked (fuel : nat) :
  forall (obj v : val) (force : bool) (s s' : state),
  deref fuel obj force s = (Ret v, s') ->
  (heap s' = heap s /\ is_reference (heap s) v = Ret false) \/
  exists fs, v = VRef (length (heap s)) /\ heap s' = heap s ++ [CObj fs] /\
    field "x-circular-ref" fs = VBool true.
Proof.
  induction fuel as [|fuel IH]; intros obj v force s s' H; [discriminate|].
  apply deref_S_inv in H
    as [(Hn & -> & ->) | (r & resolved & k & _ & _ & _ & _ & H)]; [auto|].
  cbn zeta in H.
  destruct H as [[_ H] | [(_ & Hn & -> & ->) | (_ & _ & s2 & Hd & He)]].
  - right.
    destruct (run_ok_inv _ _ _ _ _ _ (run_ok_circular_copy resolved _) H)
      as [_ (fs & _ & -> & -> & _)].
    eexists. split; [reflexivity|]. split; [reflexivity|].
    rewrite field_spread. reflexivity.
  - auto.
  - pose proof (heap_same_exitRef resolved s2) as Hh. rewrite He in Hh.
    simpl in Hh. rewrite Hh. apply IH in Hd. exact Hd.
Qed.

Lemma exitRef_not_ref (obj : val) (s : state) :
  is_reference (heap s) obj = Ret false -> exitRef obj s = (Ret tt, s).
Proof.
  intros H. unfold exitRef, bind. rewrite isRef_is_reference, H. reflexivity.
Qed.

Lemma exitRef_key (obj r : val) (k : string) (s : state) :
  is_reference (heap s) obj = Ret true ->
  getp (heap s) obj "$ref" = Ret r -> to_string r = Some k ->
  exitRef obj s = (Ret tt, State (heap s) (RefCounter.exit k (refCounter s))).
Proof.
  intros Hi Hr Hk. unfold exitRef, bind. rewrite isRef_is_reference, Hi.
  simpl. unfold get_prop, reading. rewrite Hr. unfold rc_exit, to_key, bind.
  rewrite Hk. reflexivity.
Qed.

Lemma is_reference_keeps (h h' : list cell) (v : val) (b : bool) :
  keeps all h h' -> is_reference h v = Ret b -> is_reference h' v = Ret b.
Proof.
  intros K. unfold is_reference. destruct (negb (truthy v)); [auto|].
  destruct (getp h v "$ref") as [r| |] eqn:E; try discriminate.
  rewrite (keeps_getp all h h' v r _ K (fun _ _ => I) E). auto.
Qed.

Lemma count_visit_num (r x : string) (c : gmap string RefCounter.slot) :
  RefCounter.wf c -> RefCounter.numeric c x = true ->
  RefCounter.count (RefCounter.visit r c) x =
  RefCounter.count c x + (if decide (x = r) then 1 else 0).
Proof.
  intros Hwf Hn. destruct (decide (x = r)) as [->|Hne].
  - rewrite (RefCounterMore.count_visit_wf _ _ _ Hwf Hn).
    destruct (decide (r = r)); [reflexivity | congruence].
  - rewrite RefCounterFacts.count_visit_ne by congruence. lia.
Qed.

(** The effect on a slot of an [exit] of [k] after a run that left
    one more visit on [k]. *)
Lemma count_exit_after (k x : string) (c c' : gmap string RefCounter.slot) :
  RefCounter.wf c ->
  RefCounter.count c' x =
    RefCounter.count c x + (if decide (x = k) then 1 else 0) ->
  RefCounter.count (RefCounter.exit k c') x = RefCounter.count c x.
Proof.
  intros Hwf Hc. rewrite RefCounterFacts.count_exit. pose proof (Hwf x) as Hx.
  destruct (decide (k = x)) as [->|Hne].
  - destruct (decide (x = x)); [|congruence].
    destruct (RefCounter.count c' x =? 0) eqn:E;
      [apply Z.eqb_eq in E|]; lia.
  - destruct (decide (x = k)); [congruence | lia].
Qed.

(** What a call of [deref] that returns has done to the counter:
    nothing for a node that is not a Reference, and otherwise one
    more visit of the node's own pointer, in every slot that held a
    number or [undefined]. *)
Lemma deref_counts (fuel : nat) :
  forall (obj v : val) (force : bool) (s s1 : state),
  RefCounter.wf (refCounter s) ->
  deref fuel obj force s = (Ret v, s1) ->
  (is_reference (heap s) obj = Ret false /\ s1 = s) \/
  exists (r : val) (k : string),
    is_reference (heap s) obj = Ret true /\
    getp (heap s) obj "$ref" = Ret r /\ to_string r = Some k /\
    forall x, RefCounter.numeric (refCounter s) x = true ->
      RefCounter.numeric (refCounter s1) x = true /\
      RefCounter.count (refCounter s1) x =
      RefCounter.count (refCounter s) x +
      (if decide (x = k) then 1 else 0).
Proof.
  induction fuel as [|fuel IH]; intros obj v force s s1 Hwf H; [discriminate|].
  apply deref_S_inv in H
    as [(Hn & -> & ->) | (r & resolved & k & Hi & Hr & _ & Hk & H)]; [auto|].
  right. exists r, k. do 3 (split; [assumption|]). cbn zeta in H.
  intros x Hx.
  pose proof (RefCounterFacts.numeric_visit k x _ Hx) as Hx1.
  pose proof (count_visit_num k x _ Hwf Hx) as Hc1.
  destruct H as [[_ H] | [(_ & _ & _ & ->) | (_ & Hir & s2 & Hd & He)]].
  - destruct (run_ok_inv _ _ _ _ _ _ (run_ok_circular_copy resolved _) H)
      as [_ (fs & _ & _ & _ & ->)]. auto.
  - auto.
  - pose proof (RefCounterFacts.wf_visit k _ Hwf) as Hwf1.
    pose proof (run_ok_inv _ _ _ _ _ _
                  (deref_keeps JsonPointer_get spec _ resolved false _) Hd)
      as [K _].
    destruct (IH resolved v false
                (State (heap s) (RefCounter.visit k (refCounter s))) s2
                Hwf1 Hd)
      as [[Hn _] | (r' & k' & _ & Hr' & Hk' & Hc)];
      [simpl in Hn; congruence|].
    simpl heap in *. simpl refCounter in Hc.
    destruct (Hc x Hx1) as [Hx2 Hc2].
    rewrite (exitRef_key resolved r' k' s2) in He; [| | |exact Hk'].
    + injection He as <-. simpl refCounter. split.
      * apply RefCounterFacts.numeric_exit, Hx2.
      * rewrite (count_exit_after k' x _ _ Hwf1 Hc2). exact Hc1.
    + eapply is_reference_keeps; eassumption.
    + eapply keeps_getp; [exact K | intros; exact I | exact Hr'].
Qed.

(** X6. A call of [deref] that returns has visited the node's own
    pointer once more and left every other pointer with the count
    it had; the [exitRef] of the same node then returns and takes
    that visit back.  This is so in every slot that held a number or
    [undefined] before the call, as the slot of every pointer does
    that is not the name of a member of [Object.prototype]. *)
Theorem deref_exitRef_balanced (fuel : nat) (obj v : val) (force : bool)
    (s s1 : state) :
  RefCounter.wf (refCounter s) ->
  deref fuel obj force s = (Ret v, s1) ->
  (forall r, getp (heap s) obj "$ref" = Ret (VStr r) ->
     forall x, RefCounter.numeric (refCounter s) x = true ->
       RefCounter.count (refCounter s1) x =
       RefCounter.count (refCounter s) x +
       (if decide (x = r) then 1 else 0)) /\
  exists c2, exitRef obj s1 = (Ret tt, State (heap s1) c2) /\
    forall x, RefCounter.numeric (refCounter s) x = true ->
      RefCounter.numeric c2 x = true /\
      RefCounter.count c2 x = RefCounter.count (refCounter s) x.
Proof.
  intros Hwf H.
  pose proof (run_ok_inv _ _ _ _ _ _
                (deref_keeps JsonPointer_get spec _ obj force s) H) as [K _].
  destruct (deref_counts _ _ _ _ _ _ Hwf H)
    as [[Hn ->] | (r & k & Hi & Hr & Hk & Hc)].
  - split.
    + intros r Hr. exfalso. unfold is_reference in Hn.
      assert (truthy obj = true) as Ht
        by (destruct obj; simpl in Hr; try discriminate; reflexivity).
      rewrite Ht, Hr in Hn. discriminate.
    + exists (refCounter s). rewrite (exitRef_not_ref _ _ Hn).
      destruct s; auto.
  - split.
    + intros r0 Hr0. rewrite Hr in Hr0. injection Hr0 as ->.
      simpl in Hk. injection Hk as <-. intros x Hx. apply Hc, Hx.
    + exists (RefCounter.exit k (refCounter s1)). split.
      * apply (exitRef_key obj r k s1); [| |exact Hk].
        -- eapply is_reference_keeps; eassumption.
        -- eapply keeps_getp; [exact K | intros; exact I | exact Hr].
      * intros x Hx. destruct (Hc x Hx) as [Hx1 Hc1]. split.
        -- apply RefCounterFacts.numeric_exit, Hx1.
        -- apply (count_exit_after k x _ _ Hwf Hc1).
Qed.


(** X7. A chain of References that meets no visited pointer and no
    pointer twice: [deref] returns the node at its end, the very
    node of the document and not a copy, adds nothing to the store,
    and leaves one more visit on the first pointer only. *)
Theorem deref_follows_to_target (rs : list string) :
  forall (fuel : nat) (obj node : val) (r rl : string) (force : bool)
         (s : state),
  RefCounter.wf (refCounter s) ->
  getp (heap s) obj "$ref" = Ret (VStr r) ->
  follows (heap s) r rs -> last (r :: rs) = Some rl ->
  resolve (heap s) rl = Some node ->
  is_reference (heap s) node = Ret false ->
  NoDup (r :: rs) ->
  Forall (fun x => RefCounter.visited x (refCounter s) = false) (r :: rs) ->
  (length rs < fuel)%nat ->
  exists c', deref fuel obj force s = (Ret node, State (heap s) c') /\
    forall x, RefCounter.count c' x =
              RefCounter.count (refCounter s) x +
              (if decide (x = r) then 1 else 0).
Proof.
  induction rs as [|r' rs IH];
    intros fuel obj node r rl force s Hwf Hobj Hf Hl Hres Hn Hnd Hun Hfuel;
    (destruct fuel as [|fuel]; [simpl in Hfuel; lia|]);
    apply Forall_cons_1 in Hun as [Hv Hun]; apply NoDup_cons in Hnd as [Hr Hnd].
  - injection Hl as <-.
    rewrite (deref_ref_eq _ _ _ _ _ _ _ _ Hobj Hres), Hv. cbn zeta. simpl andb.
    unfold bind. rewrite isRef_is_reference. simpl heap. rewrite Hn.
    eexists. split; [reflexivity|]. intros x.
    apply RefCounterFacts.count_visit_unvisited, Hv.
  - destruct Hf as [Hnext Hf]. pose proof Hnext as Hnext'.
    unfold next in Hnext.
    destruct (resolve (heap s) r) as [node1|] eqn:Hres1; [|discriminate].
    apply ref_of_getp in Hnext.
    rewrite (deref_ref_eq _ _ _ _ _ _ _ _ Hobj Hres1), Hv. cbn zeta.
    simpl andb. cbv iota.
    set (s1 := State (heap s) (RefCounter.visit r (refCounter s))).
    unfold bind at 1. rewrite (getp_str_isRef node1 r' s1 Hnext).
    assert (Hne : r <> r'). { intros ->. apply Hr. left. }
    destruct (IH fuel node1 node r' rl false s1) as (c1 & Hd & Hc1);
      try assumption.
    + apply RefCounterFacts.wf_visit, Hwf.
    + apply Forall_forall. intros x Hx. simpl refCounter.
      rewrite RefCounterMore.visited_visit_ne.
      * rewrite Forall_forall in Hun. apply Hun, Hx.
      * intros ->. apply Hr, Hx.
    + simpl in Hfuel. lia.
    + unfold bind at 1. rewrite Hd. unfold bind at 1.
      rewrite (exitRef_ref node1 r' (State (heap s1) c1) Hnext).
      eexists. split; [reflexivity|]. intros x. simpl refCounter.
      rewrite RefCounterFacts.count_exit, !Hc1. simpl refCounter.
      rewrite !(RefCounterFacts.count_visit_unvisited _ _ _ Hv).
      pose proof (Hwf r') as Hr'. pose proof (Hwf x) as Hx.
      destruct (decide (r' = x)) as [<-|Hx'].
      * destruct (decide (r' = r)); [congruence|].
        destruct (decide (r' = r')); [|congruence].
        destruct (_ =? 0) eqn:E; [apply Z.eqb_eq in E|]; lia.
      * destruct (decide (x = r')); [congruence|]. lia.
Qed.

End DerefMore2.

Section DerefThrows.

Variable JsonPointer_get : list cell -> val -> string -> option val.
Variable spec : val.

Abbreviation deref := (deref JsonPointer_get spec).

(** X8. A [$ref] that cannot be a pointer makes [deref] throw, before
    anything is looked up or counted: a [URIError] for a string with
    a malformed percent escape (the decoding is outside the [try] of
    [byRef]), a [TypeError] for a value that is not a string.  The
    state is as it was. *)
Theorem deref_bad_pointer_throws (fuel : nat) (obj r : val) (force : bool)
    (s : state) :
  spec <> VUndef ->
  getp (heap s) obj "$ref" = Ret r -> r <> VUndef -> r <> VNull ->
  match r with
  | VStr t => decodeURIComponent (normalize t) = None
  | _ => True
  end ->
  deref (S fuel) obj force s =
  (Throw (match r with VStr _ => URIError | _ => TypeError end), s).
Proof.
  intros Hspec Hr Hu Hn Hbad. cbn [deref].
  assert (Hi : isRef obj s = (Ret true, s)).
  { rewrite isRef_is_reference. unfold is_reference.
    assert (truthy obj = true) as ->.
    { destruct obj; simpl in Hr; try discriminate; try reflexivity;
        injection Hr as <-; contradiction. }
    simpl. rewrite Hr. unfold is_undef, strict_eq.
    rewrite !bool_decide_eq_false_2 by assumption. reflexivity. }
  unfold bind at 1. rewrite Hi.
  unfold bind at 1, get_prop at 1, reading at 1. rewrite Hr.
  unfold bind at 1, byRef, is_undef.
  rewrite bool_decide_eq_false_2 by exact Hspec.
  destruct r as [| |b|n|t|a]; try reflexivity.
  fold (normalize t). rewrite Hbad. reflexivity.
Qed.

End DerefThrows.

(* ================================================================== *)
(** * The counter through every call                                   *)
(* ================================================================== *)

Lemma invariant_wf : invariant RefCounter.wf.
Proof.
  split; [apply RefCounterFacts.wf_reset|].
  split; [apply RefCounterFacts.wf_visit | apply RefCounterFacts.wf_exit].
Qed.

Lemma invariant_tidy : invariant RefCounter.tidy.
Proof.
  split; [apply RefCounterFacts.tidy_reset|].
  split; [apply RefCounterFacts.tidy_visit | apply RefCounterFacts.tidy_exit].
Qed.

Lemma counter_ok_wf {A} (m : M A) (s : state) :
  counter_ok m -> RefCounter.wf (refCounter s) ->
  RefCounter.wf (refCounter (m s).2).
Proof. intros Hm. apply Hm, invariant_wf. Qed.

Lemma counter_ok_bind {A B} (m : M A) (k : A -> M B) :
  counter_ok m -> (forall a, counter_ok (k a)) -> counter_ok (bind m k).
Proof.
  intros Hm Hk P HP s H. unfold bind. specialize (Hm P HP s H).
  destruct (m s) as [[a|e|w] s1]; simpl in *;
    [apply (Hk a P HP), Hm | exact Hm..].
Qed.

(** A computation that leaves the counter as it is. *)
Lemma counter_ok_same {A} (m : M A) :
  (forall s, refCounter (m s).2 = refCounter s) -> counter_ok m.
Proof. intros E P _ s H. rewrite E. exact H. Qed.

Lemma counter_ok_ret {A} (a : A) : counter_ok (ret a).
Proof. apply counter_ok_same. reflexivity. Qed.

Lemma counter_ok_throw {A} (e : error) : counter_ok (@throw A e).
Proof. apply counter_ok_same. reflexivity. Qed.

Lemma counter_ok_stop {A} (w : halt) : counter_ok (@stop A w).
Proof. apply counter_ok_same. reflexivity. Qed.

Lemma counter_ok_reading {A} (f : list cell -> outcome A) :
  counter_ok (reading f).
Proof. apply counter_ok_same. reflexivity. Qed.

Lemma counter_ok_alloc (c : cell) : counter_ok (alloc c).
Proof. apply counter_ok_same. reflexivity. Qed.

Lemma counter_ok_set_prop (o : val) (k : string) (v : val) :
  counter_ok (set_prop o k v).
Proof.
  apply counter_ok_same. intros s. unfold set_prop.
  destruct o; try reflexivity. destruct (heap s !! a) as [[?|?]|]; reflexivity.
Qed.

Lemma counter_ok_array_push (o : val) (items : list val) :
  counter_ok (array_push o items).
Proof.
  apply counter_ok_same. intros s. unfold array_push.
  destruct o; try reflexivity. destruct (heap s !! a) as [[?|?]|]; reflexivity.
Qed.

Lemma counter_ok_js_concat (base arg : val) : counter_ok (js_concat base arg).
Proof.
  apply counter_ok_same. intros s. unfold js_concat.
  destruct base; try reflexivity.
  - destruct (to_string arg); reflexivity.
  - destruct (heap s !! a) as [[?|?]|]; try reflexivity.
    destruct arg; try reflexivity.
    destruct (heap s !! a0) as [[?|?]|]; reflexivity.
Qed.

Lemma counter_ok_or_alloc (v : val) (c : cell) :
  counter_ok (if truthy v then ret v else alloc c).
Proof. destruct (truthy v); [apply counter_ok_ret | apply counter_ok_alloc]. Qed.

Lemma counter_ok_to_key (v : val) : counter_ok (to_key v).
Proof.
  unfold to_key. destruct (to_string v);
    [apply counter_ok_ret | apply counter_ok_stop].
Qed.

Lemma counter_ok_rc_visited (r : val) : counter_ok (rc_visited r).
Proof.
  apply counter_ok_bind; [apply counter_ok_to_key|]. intros k.
  apply counter_ok_same. reflexivity.
Qed.

Lemma counter_ok_rc_visit (r : val) : counter_ok (rc_visit r).
Proof.
  apply counter_ok_bind; [apply counter_ok_to_key|].
  intros k P (_ & Hv & _) s H. apply Hv, H.
Qed.

Lemma counter_ok_rc_exit (r : val) : counter_ok (rc_exit r).
Proof.
  apply counter_ok_bind; [apply counter_ok_to_key|].
  intros k P (_ & _ & He) s H. apply He, H.
Qed.

Lemma counter_ok_isRef (obj : val) : counter_ok (isRef obj).
Proof.
  unfold isRef. destruct (negb (truthy obj)); [apply counter_ok_ret|].
  apply counter_ok_bind; [apply counter_ok_reading|]. intros r.
  apply counter_ok_ret.
Qed.

Lemma counter_ok_exitRef (ref : val) : counter_ok (exitRef ref).
Proof.
  unfold exitRef. apply counter_ok_bind; [apply counter_ok_isRef|].
  intros b. destruct (negb b); [apply counter_ok_ret|].
  apply counter_ok_bind; [apply counter_ok_reading|]. intros r.
  apply counter_ok_rc_exit.
Qed.

Lemma counter_ok_resetVisited : counter_ok resetVisited.
Proof. intros P (Hr & _) s _. exact Hr. Qed.

Lemma counter_ok_map_each {A B} (f : A -> M B) (l : list A) :
  (forall x, counter_ok (f x)) -> counter_ok (map_each f l).
Proof.
  intros Hf. induction l as [|x l IH]; simpl; [apply counter_ok_ret|].
  apply counter_ok_bind; [apply Hf|]. intros y.
  apply counter_ok_bind; [exact IH|]. intros ys. apply counter_ok_ret.
Qed.

Lemma counter_ok_for_in (body : string -> M unit) (keys : list string) :
  (forall k, counter_ok (body k)) -> counter_ok (for_in body keys).
Proof.
  intros Hb. induction keys as [|k keys IH]; simpl; [apply counter_ok_ret|].
  apply counter_ok_bind; [apply Hb|]. intros _. exact IH.
Qed.

Lemma counter_ok_findM (p : val -> M bool) (l : list val) :
  (forall x, counter_ok (p x)) -> counter_ok (findM p l).
Proof.
  intros Hp. induction l as [|x l IH]; simpl; [apply counter_ok_ret|].
  apply counter_ok_bind; [apply Hp|]. intros b.
  destruct b; [apply counter_ok_ret | exact IH].
Qed.

Create HintDb counter discriminated.
#[local] Hint Resolve counter_ok_ret counter_ok_throw counter_ok_stop
  counter_ok_reading counter_ok_alloc counter_ok_set_prop
  counter_ok_array_push counter_ok_js_concat counter_ok_or_alloc
  counter_ok_to_key counter_ok_rc_visited counter_ok_rc_visit
  counter_ok_rc_exit counter_ok_isRef counter_ok_exitRef
  counter_ok_resetVisited : counter.

(** Split a computation at its binds and conditionals and close
    each step from the database. *)
Ltac counter_steps :=
  repeat first
    [ progress eauto 2 with counter
    | apply counter_ok_bind; [|intros ?]
    | match goal with
      | |- counter_ok (if ?b then _ else _) => destruct b
      | |- counter_ok (match ?x with _ => _ end) => destruct x
      end ].

Section CounterFacts.

Variable JsonPointer_get : list cell -> val -> string -> option val.
Variable isNamedDefinition : val -> bool.
Variable JsonPointer_baseName : val -> option string.
Variable spec : val.

Abbreviation deref := (deref JsonPointer_get spec).
Abbreviation byRef := (byRef JsonPointer_get spec).
Abbreviation mergeAllOf :=
  (mergeAllOf JsonPointer_get isNamedDefinition JsonPointer_baseName spec).
Abbreviation findDerived := (findDerived JsonPointer_get spec).
Abbreviation play :=
  (play JsonPointer_get isNamedDefinition JsonPointer_baseName spec).

Lemma counter_ok_byRef (ref : val) : counter_ok (byRef ref).
Proof. unfold byRef. counter_steps. Qed.

Lemma counter_ok_circular_copy (v : val) : counter_ok (circular_copy v).
Proof. unfold circular_copy. counter_steps. Qed.

Lemma counter_ok_deref (fuel : nat) :
  forall (obj : val) (force : bool), counter_ok (deref fuel obj force).
Proof.
  induction fuel as [|fuel IH]; intros obj force; simpl;
    [apply counter_ok_stop|].
  pose proof counter_ok_byRef. pose proof counter_ok_circular_copy.
  counter_steps.
Qed.

Lemma counter_ok_fold_branches (ref : val) (bs : list (val * val)) :
  forall receiver,
  counter_ok (fold_branches isNamedDefinition JsonPointer_baseName ref
                receiver bs).
Proof.
  induction bs as [|b bs IH]; intros receiver; simpl; [apply counter_ok_ret|].
  apply counter_ok_bind; [|intros r; apply IH].
  unfold fold_branch, check_types, merge_type, merge_properties,
    merge_required, merge_rest, note_parent, props_of.
  counter_steps.
Qed.

Lemma counter_ok_mergeAllOf (fuel : nat) :
  forall (schema ref : val) (force : bool),
  counter_ok (mergeAllOf fuel schema ref force).
Proof.
  induction fuel as [|fuel IH]; intros schema ref force; simpl;
    [apply counter_ok_stop|].
  apply counter_ok_bind; [apply counter_ok_reading|]. intros allOf.
  destruct (is_undef allOf); [apply counter_ok_ret|].
  apply counter_ok_bind.
  - unfold collect_branches, props_of, array_elems.
    apply counter_ok_bind; [apply counter_ok_reading|]. intros fs.
    apply counter_ok_bind; [apply counter_ok_alloc|]. intros parentRefs.
    apply counter_ok_bind; [apply counter_ok_alloc|]. intros receiver.
    apply counter_ok_bind; [apply counter_ok_reading|]. intros subs.
    apply counter_ok_bind; [|intros; apply counter_ok_ret].
    apply counter_ok_map_each. intros sub. unfold map_branch, iterate.
    pose proof (counter_ok_deref fuel). counter_steps.
  - intros c. apply counter_ok_bind; [apply counter_ok_fold_branches|].
    intros receiver. unfold name_top_level. counter_steps.
Qed.

Lemma counter_ok_findDerived (fuel : nat) (refs : list string) :
  counter_ok (findDerived fuel refs).
Proof.
  unfold findDerived, definitions, props_of.
  apply counter_ok_bind; [apply counter_ok_alloc|]. intros res.
  apply counter_ok_bind; [counter_steps|]. intros schemas.
  apply counter_ok_bind; [|intros; apply counter_ok_ret].
  apply counter_ok_for_in. intros k. unfold derived_step, array_elems.
  pose proof (counter_ok_deref fuel).
  assert (forall l, counter_ok (findM (refers_to refs) l)).
  { intros l. apply counter_ok_findM. intros x. unfold refers_to.
    counter_steps. }
  counter_steps.
Qed.

(** The methods of a parser keep what [visit], [exit] and a new
    counter keep. *)
Lemma play_invariant (P : gmap string RefCounter.slot -> Prop)
    (fuel : nat) (os : list operation) (s : state) :
  invariant P -> P (refCounter s) -> P (refCounter (play fuel os s)).
Proof.
  intros HP. revert s. induction os as [|o os IH]; intros s H; simpl;
    [exact H|].
  apply IH. destruct o as [[obj force | schema ref force | refs] | ref |];
    simpl.
  - apply (counter_ok_deref _ _ _ P HP), H.
  - apply (counter_ok_mergeAllOf _ _ _ _ P HP), H.
  - apply (counter_ok_findDerived _ _ P HP), H.
  - apply (counter_ok_exitRef _ P HP), H.
  - apply HP.
Qed.

(** X2. Whatever is called on a parser, in whatever order and with
    whatever outcome ([deref], [mergeAllOf], [findDerived],
    [exitRef], [resetVisited]), no pointer of its counter ever
    counts less than zero; an [exitRef] without its [deref] does not
    bring one below. *)
Theorem play_counter_never_negative (fuel : nat) (os : list operation)
    (s : state) :
  RefCounter.wf (refCounter s) ->
  RefCounter.wf (refCounter (play fuel os s)).
Proof. apply play_invariant, invariant_wf. Qed.

(** X25. Whatever is called on a new parser, in whatever order and
    with whatever outcome, the slot of a pointer that is not the name
    of a member of [Object.prototype] holds a number or [undefined],
    the number is not negative, and [visited] answers true for the
    pointer exactly when its counter is positive. *)
Theorem play_counter_numeric (fuel : nat) (os : list operation) (s : state)
    (ref : string) :
  refCounter s = RefCounter.reset ->
  RefCounter.inherited ref = false ->
  let c := refCounter (play fuel os s) in
  RefCounter.numeric c ref = true /\
  0 <= RefCounter.count c ref /\
  (RefCounter.visited ref c = true <-> 0 < RefCounter.count c ref).
Proof.
  intros Hs Hin c.
  assert (Ht : RefCounter.tidy c).
  { apply play_invariant; [apply invariant_tidy|]. rewrite Hs.
    apply RefCounterFacts.tidy_reset. }
  assert (Hw : RefCounter.wf c).
  { apply play_invariant; [apply invariant_wf|]. rewrite Hs.
    apply RefCounterFacts.wf_reset. }
  pose proof (Ht ref Hin) as Hn. pose proof (Hw ref) as Hr.
  split; [exact Hn|]. split; [exact Hr|].
  rewrite (RefCounterFacts.visited_count _ _ Hn). split; intros H.
  - apply negb_true_iff, Z.eqb_neq in H. lia.
  - apply negb_true_iff, Z.eqb_neq. lia.
Qed.

End CounterFacts.

(* ================================================================== *)
(** * What the merge loop keeps                                        *)
(* ================================================================== *)

Lemma run_ok_and {A} (P : nat -> Prop) (m : M A) (s : state)
    (Q1 Q2 : A -> state -> Prop) :
  run_ok P m s Q1 -> run_ok P m s Q2 ->
  run_ok P m s (fun a s' => Q1 a s' /\ Q2 a s').
Proof.
  unfold run_ok. intros [K H1] [_ H2]. split; [exact K|].
  destruct ((m s).1); auto.
Qed.

Section FoldWant.

Variable isNamedDefinition : val -> bool.
Variable JsonPointer_baseName : val -> option string.

Variable Want : string -> val -> Prop.
Hypothesis Want_not_set :
  forall k x, Want k x ->
    k <> "properties"%string /\ k <> "required"%string /\ k <> "title"%string.

Lemma has_fields_set (k : string) (v : val) (fs : list (string * val)) :
  k = "properties"%string \/ k = "required"%string \/ k = "title"%string ->
  has_fields Want fs -> has_fields Want (obj_set k v fs).
Proof.
  intros Hk H k' x Hw. rewrite obj_get_set.
  destruct (Want_not_set _ _ Hw) as (H1 & H2 & H3).
  destruct (decide (k' = k)) as [->|_]; [|apply H, Hw].
  destruct Hk as [-> | [-> | ->]]; contradiction.
Qed.

Lemma has_fields_spread (fb fs : list (string * val)) :
  has_fields Want fs -> has_fields Want (spread (spread [] fb) fs).
Proof. intros H k x Hw. rewrite obj_get_spread, (H k x Hw). reflexivity. Qed.

(** One round of the loop keeps the fields asked for, when the
    assignment of [type] does. *)
Lemma fold_branch_want (ref : val) (n r0 r p : nat) (b : val * val)
    (fr : list (string * val)) (xs : list val) (s : state) :
  (n <= length (heap s))%nat -> r = r0 \/ (n <= r)%nat ->
  heap s !! r = Some (CObj fr) -> field "parentRefs" fr = VRef p ->
  heap s !! p = Some (CArr xs) ->
  (forall bt, getp (heap s) b.2 "type" = Ret bt ->
     types_pass (field "type" fr) bt -> has_fields Want (typed bt fr)) ->
  run_ok (old_but n r0 p)
    (fold_branch isNamedDefinition JsonPointer_baseName ref (VRef r) b) s
    (fun v s' => exists r' fr', v = VRef r' /\
       (length (heap s) <= r' < length (heap s'))%nat /\
       heap s' !! r' = Some (CObj fr') /\
       field "parentRefs" fr' = VRef p /\
       heap s' !! p = Some (CArr (xs ++ if truthy b.1 then [b.1] else [])) /\
       has_fields Want fr').
Proof.
  intros Hn Hr0 Hr Hpr Hp HJ. assert (Hne : r <> p) by (intros ->; congruence).
  assert (Hw : forall a, old_but n r0 p a -> but [r] a).
  { intros a (Ha & Har & Hap) Hin. apply list_elem_of_singleton in Hin as ->.
    destruct Hr0; [contradiction | lia]. }
  unfold fold_branch.
  eapply run_ok_bind;
    [apply all_any | apply run_ok_same, heap_same_check_types|].
  intros [] s1 _ [H1 Hck].
  apply check_types_ret in Hck as (_ & rt & bt0 & Hrt & Hbt0 & Hpass).
  simpl in Hrt. rewrite Hr in Hrt. injection Hrt as <-.
  specialize (HJ bt0 Hbt0 Hpass).
  rewrite <- H1 in Hr, Hp, Hbt0.
  assert (L1 : (length (heap s) <= length (heap s1))%nat) by (rewrite H1; lia).
  clear H1.
  (* type *)
  eapply run_ok_bind; [exact Hw | apply run_ok_merge_type, Hr|].
  intros [] s2 K2 (bt & Hbt & L2 & Hr2).
  assert (bt = bt0) as -> by congruence.
  assert (Hp2 : heap s2 !! p = Some (CArr xs)).
  { eapply keeps_lookup; [exact K2 | | exact Hp].
    intros Hin. apply list_elem_of_singleton in Hin. auto. }
  assert (Hpr2 : field "parentRefs" (typed bt0 fr) = VRef p).
  { unfold typed. destruct (is_undef bt0); [assumption|].
    rewrite field_set. assumption. }
  fold (typed bt0 fr) in Hr2. clear Hr Hp K2 Hbt Hbt0 Hpass. revert Hr2 Hpr2 HJ.
  generalize (typed bt0 fr). clear fr Hpr. intros fr Hr Hpr HJ.
  (* properties *)
  eapply run_ok_bind; [exact Hw | apply run_ok_merge_properties, Hr|].
  intros [] s3 K3 (bp & _ & H3).
  assert (Hp3 : heap s3 !! p = Some (CArr xs)).
  { eapply keeps_lookup; [exact K3 | | exact Hp2].
    intros Hin. apply list_elem_of_singleton in Hin. auto. }
  assert (L3 : (length (heap s2) <= length (heap s3))%nat) by apply K3.
  assert (exists fr3, heap s3 !! r = Some (CObj fr3) /\
            field "parentRefs" fr3 = VRef p /\ has_fields Want fr3)
    as (fr3 & Hr3 & Hpr3 & HJ3).
  { destruct (is_undef bp).
    - subst s3. eauto.
    - destruct H3 as (o & h1 & fbase & fb & _ & _ & _ & _ & _ & H3).
      eexists. split; [exact H3|]. rewrite field_set.
      split; [assumption | apply has_fields_set; auto]. }
  clear Hr Hpr Hp2 K3 H3 HJ fr.
  (* required *)
  eapply run_ok_bind; [exact Hw | apply run_ok_merge_required, Hr3|].
  intros [] s4 K4 (bq & _ & H4).
  assert (Hp4 : heap s4 !! p = Some (CArr xs)).
  { eapply keeps_lookup; [exact K4 | | exact Hp3].
    intros Hin. apply list_elem_of_singleton in Hin. auto. }
  assert (L4 : (length (heap s3) <= length (heap s4))%nat) by apply K4.
  assert (exists fr4, heap s4 !! r = Some (CObj fr4) /\
            field "parentRefs" fr4 = VRef p /\ has_fields Want fr4)
    as (fr4 & Hr4 & Hpr4 & HJ4).
  { destruct (is_undef bq).
    - subst s4. eauto.
    - destruct H4 as (q & H4 & _).
      eexists. split; [exact H4|]. rewrite field_set.
      split; [assumption | apply has_fields_set; auto]. }
  clear Hr3 Hpr3 Hp3 K4 H4 HJ3 fr3.
  (* the next receiver *)
  eapply run_ok_bind; [apply all_any | apply run_ok_merge_rest, Hr4|].
  intros v s5 K5 (fb & _ & -> & H5).
  set (r' := length (heap s4)) in *.
  assert (Hr5 : heap s5 !! r' = Some (CObj (spread (spread [] fb) fr4))).
  { rewrite H5. apply lookup_snoc. }
  assert (Hpr5 : field "parentRefs" (spread (spread [] fb) fr4) = VRef p).
  { rewrite field_spread. unfold field in Hpr4.
    destruct (obj_get "parentRefs" fr4); [assumption | discriminate]. }
  assert (Hp5 : heap s5 !! p = Some (CArr xs)).
  { eapply keeps_lookup; [exact K5 | exact I | exact Hp4]. }
  eapply run_ok_bind;
    [|apply (run_ok_note_parent _ _ r' p _ _ xs _ Hr5 Hpr5 Hp5)|].
  { intros a (Ha & Har & Hap) Hin.
    apply elem_of_cons in Hin as [->|Hin]; [unfold r' in *; lia|].
    apply list_elem_of_singleton in Hin. contradiction. }
  intros [] s6 _ (L6 & Hp6 & Hr6). apply run_ok_ret.
  eexists r', _. split; [reflexivity|].
  split; [unfold r'; rewrite L6, H5, length_app; simpl; lia|].
  split; [exact Hr6|]. split; [|split; [exact Hp6|]].
  - destruct (_ && _); [rewrite field_set|]; assumption.
  - destruct (_ && _); [apply has_fields_set; [auto|]|];
      apply has_fields_spread, HJ4.
Qed.

Hypothesis Want_typed :
  forall fr bt, has_fields Want fr -> types_pass (field "type" fr) bt ->
    has_fields Want (typed bt fr).

(** The whole loop keeps them. *)
Lemma fold_branches_want (ref : val) (n r0 p : nat)
    (bs : list (val * val)) :
  forall (r : nat) (fr : list (string * val)) (xs : list val) (s : state),
  (n <= length (heap s))%nat -> r = r0 \/ (n <= r)%nat ->
  heap s !! r = Some (CObj fr) -> field "parentRefs" fr = VRef p ->
  heap s !! p = Some (CArr xs) -> has_fields Want fr ->
  run_ok (old_but n r0 p)
    (fold_branches isNamedDefinition JsonPointer_baseName ref (VRef r) bs) s
    (fun v s' => exists r' fr', v = VRef r' /\
       (r' = r0 \/ (n <= r')%nat) /\
       heap s' !! r' = Some (CObj fr') /\ has_fields Want fr').
Proof.
  induction bs as [|b bs IH]; intros r fr xs s Hn Hr0 Hr Hpr Hp HJ; simpl.
  - apply run_ok_ret. exists r, fr. auto.
  - eapply run_ok_bind;
      [intros ? HP; exact HP
      | apply (fold_branch_want ref n r0 r p b fr xs s); auto|].
    intros v s1 K1 (r' & fr' & -> & Hr' & Hc & Hpr' & Hp' & HJ').
    eapply IH; eauto.
    + pose proof (proj1 K1). lia.
    + right. lia.
Qed.

End FoldWant.

Lemma getp_agree (h h' : list cell) (v : val) (k : string) :
  (forall a, v = VRef a -> h' !! a = h !! a) -> getp h' v k = getp h v k.
Proof.
  intros H. destruct v; simpl; try reflexivity. rewrite (H a eq_refl).
  reflexivity.
Qed.

Section MergeMore.

Variable JsonPointer_get : list cell -> val -> string -> option val.
Variable isNamedDefinition : val -> bool.
Variable JsonPointer_baseName : val -> option string.
Variable spec : val.

Abbreviation mergeAllOf :=
  (mergeAllOf JsonPointer_get isNamedDefinition JsonPointer_baseName spec).
Abbreviation base_title := (base_title JsonPointer_baseName).

(** The receiver the map over [allOf] leaves: the copy of the
    schema, as it was made. *)
Lemma collect_branches_receiver (fuel : nat) (schema allOf recv : val)
    (force : bool) (fs : list (string * val)) (bs : list (val * val))
    (s s1 : state) :
  own_props (heap s) schema = Some fs ->
  collect_branches JsonPointer_get spec
    (fun resolved subRef => mergeAllOf fuel resolved subRef force)
    fuel schema allOf force s = (Ret (recv, bs), s1) ->
  let n := length (heap s) in
  recv = VRef (S n) /\ (S (S n) <= length (heap s1))%nat /\
  heap s1 !! S n =
    Some (CObj (obj_set "parentRefs" (VRef n)
                  (obj_set "allOf" VUndef (spread [] fs)))) /\
  exists xs, heap s1 !! n = Some (CArr xs).
Proof.
  intros Hfs H n. unfold collect_branches in H.
  apply bind_ret_inv in H as (fs' & s0 & Hp & H).
  unfold props_of, reading in Hp. rewrite Hfs in Hp. injection Hp as <- <-.
  apply bind_ret_inv in H as (pr & s2 & Ha & H).
  unfold alloc in Ha. injection Ha as <- <-.
  apply bind_ret_inv in H as (rc & s3 & Ha & H).
  unfold alloc in Ha. simpl in Ha. injection Ha as <- <-.
  apply bind_ret_inv in H as (subs & s4 & He & H).
  apply array_elems_ret in He as [-> _].
  apply bind_ret_inv in H as (bs' & s5 & Hm & H).
  injection H as <- <- <-.
  rewrite length_app in *. simpl length in *.
  replace (length (heap s) + 1)%nat with (S n) in * by (unfold n; lia).
  set (fr := obj_set "parentRefs" (VRef n) _) in *.
  set (h3 := (heap s ++ [CArr []]) ++ [CObj fr]) in *.
  assert (Hr3 : h3 !! S n = Some (CObj fr)).
  { unfold h3. replace (S n) with (length (heap s ++ [CArr []])).
    - apply lookup_snoc.
    - rewrite length_app. simpl. unfold n. lia. }
  assert (Hp3 : h3 !! n = Some (CArr [])).
  { unfold h3. rewrite lookup_app_l by (rewrite length_app; simpl; lia).
    apply lookup_snoc. }
  assert (Hinv : recv_inv (S n) n h3).
  { exists fr, []. split; [exact Hr3|]. split; [|exact Hp3].
    unfold fr. rewrite field_set. reflexivity. }
  destruct (run_ok_inv _ _ _ _ _ _
              (map_each_branch_keeps JsonPointer_get spec _
                 (fun resolved subRef s0 =>
                    run_ok_weaken _ _ _ _ _ (fun _ _ => True)
                      (fun _ HP => HP)
                      (mergeAllOf_keeps JsonPointer_get isNamedDefinition
                         JsonPointer_baseName spec fuel resolved subRef
                         force s0)
                      (fun _ _ _ _ => I))
                 fuel (S n) n force subs (State h3 (refCounter s)) Hinv) Hm)
    as [K (fr5 & xs & _ & _ & Hxs)].
  simpl heap in K.
  assert (L3 : length h3 = S (S n)).
  { unfold h3. rewrite !length_app. simpl. unfold n. lia. }
  split; [reflexivity|]. split; [rewrite <- L3; apply K|].
  split; [|eauto].
  eapply keeps_lookup; [exact K | | exact Hr3].
  intros Hin. apply list_elem_of_singleton in Hin. lia.
Qed.

(** X9. What the schema itself declares stays: in the schema that a
    merge returns, every field of the given schema other than
    [type], [properties], [required], [title], [parentRefs] and
    [allOf] holds the value the given schema has for it, whatever
    the branches hold for that key; and [allOf] is [undefined]. *)
Theorem mergeAllOf_keeps_own_fields (fuel a : nat) (ref v : val)
    (force : bool) (fs : list (string * val)) (s s' : state) :
  heap s !! a = Some (CObj fs) -> field "allOf" fs <> VUndef ->
  mergeAllOf (S fuel) (VRef a) ref force s = (Ret v, s') ->
  exists (r' : nat) (fr' : list (string * val)),
    v = VRef r' /\ (length (heap s) <= r')%nat /\
    heap s' !! r' = Some (CObj fr') /\
    obj_get "allOf" fr' = Some VUndef /\
    forall (k : string) (x : val),
      obj_get k fs = Some x ->
      k ∉ ["allOf"; "parentRefs"; "type"; "properties"; "required";
           "title"]%string ->
      obj_get k fr' = Some x.
Proof.
  intros Ha Hdef Hrun. cbn [mergeAllOf] in Hrun.
  apply bind_ret_inv in Hrun as (allOf & s0 & Hg & Hrun).
  unfold get_prop, reading in Hg. simpl in Hg. rewrite Ha in Hg.
  injection Hg as <- <-.
  unfold is_undef in Hrun. rewrite bool_decide_eq_false_2 in Hrun by assumption.
  apply bind_ret_inv in Hrun as ([recv bs] & s1 & Hcol & Hrun).
  apply bind_ret_inv in Hrun as (recv_f & s2 & Hfold & Hrun).
  apply bind_ret_inv in Hrun as ([] & s3 & Hname & Hrun).
  injection Hrun as <- <-. cbn [fst snd] in Hfold.
  assert (Hown : own_props (heap s) (VRef a) = Some fs)
    by (simpl; rewrite Ha; reflexivity).
  destruct (collect_branches_receiver _ _ _ _ _ _ _ _ _ Hown Hcol)
    as (-> & L1 & Hr1 & xs & Hp1).
  set (n := length (heap s)) in *.
  set (fr := obj_set "parentRefs" (VRef n) _) in *.
  set (Want := fun (k : string) (x : val) =>
         (k = "allOf"%string /\ x = VUndef) \/
         (obj_get k fs = Some x /\
          k ∉ ["allOf"; "parentRefs"; "type"; "properties"; "required";
               "title"]%string)).
  assert (HW : forall k x, Want k x ->
            k <> "properties"%string /\ k <> "required"%string /\
            k <> "title"%string).
  { intros k x [[-> _] | [_ Hk]]; [repeat split; discriminate|].
    repeat split; intros ->; apply Hk; set_unfold; tauto. }
  assert (HWt : forall k x, Want k x -> k <> "type"%string).
  { intros k x [[-> _] | [_ Hk]]; [discriminate|].
    intros ->; apply Hk; set_unfold; tauto. }
  assert (HT : forall f bt, has_fields Want f ->
            types_pass (field "type" f) bt -> has_fields Want (typed bt f)).
  { intros f bt Hf _ k x Hw. unfold typed.
    destruct (is_undef bt); [apply Hf, Hw|]. rewrite obj_get_set.
    destruct (decide (k = "type"%string)) as [->|_]; [|apply Hf, Hw].
    exfalso. exact (HWt _ _ Hw eq_refl). }
  assert (H0 : has_fields Want fr).
  { intros k x Hw. unfold fr. rewrite !obj_get_set.
    destruct Hw as [[-> ->] | [Hk Hn]].
    - reflexivity.
    - destruct (decide (k = "parentRefs"%string)) as [->|_];
        [exfalso; apply Hn; set_unfold; tauto|].
      destruct (decide (k = "allOf"%string)) as [->|_];
        [exfalso; apply Hn; set_unfold; tauto|].
      rewrite obj_get_spread_nil. exact Hk. }
  assert (Hpr : field "parentRefs" fr = VRef n)
    by (unfold fr; rewrite field_set; reflexivity).
  destruct (run_ok_inv _ _ _ _ _ _
              (fold_branches_want isNamedDefinition JsonPointer_baseName
                 Want HW HT ref (length (heap s1)) (S n) n bs (S n) fr xs s1
                 (le_n _) (or_introl eq_refl) Hr1 Hpr Hp1 H0) Hfold)
    as (K2 & r' & fr' & -> & Hr' & Hc & HJ).
  destruct (run_ok_inv _ _ _ _ _ _
              (run_ok_name_top_level isNamedDefinition JsonPointer_baseName
                 r' (VRef a) ref fr' s2 Hc) Hname)
    as (_ & t & _ & _ & Hfin).
  eexists r', _. split; [reflexivity|].
  split; [destruct Hr'; lia|]. split; [exact Hfin|].
  assert (HJ' : has_fields Want
            (if is_undef t && isNamedDefinition ref
             then obj_set "title" (base_title ref) fr' else fr')).
  { destruct (_ && _); [apply (has_fields_set Want HW); auto | exact HJ]. }
  split.
  - apply HJ'. left. auto.
  - intros k x Hk Hn. apply HJ'. right. auto.
Qed.

End MergeMore.

Section FoldTypes.

Variable isNamedDefinition : val -> bool.
Variable JsonPointer_baseName : val -> option string.

(** After the loop the receiver has every type that it had or that
    a branch declared: the guard let no other through. *)
Lemma fold_branches_types (ref : val) (n r0 p : nat)
    (bs : list (val * val)) :
  forall (r : nat) (fr : list (string * val)) (xs : list val) (s : state),
  (n <= length (heap s))%nat -> r = r0 \/ (n <= r)%nat ->
  heap s !! r = Some (CObj fr) -> field "parentRefs" fr = VRef p ->
  heap s !! p = Some (CArr xs) ->
  Forall (fun b => val_in (old_but n r0 p) b.2) bs ->
  run_ok (old_but n r0 p)
    (fold_branches isNamedDefinition JsonPointer_baseName ref (VRef r) bs) s
    (fun v s' => exists r' fr', v = VRef r' /\
       (r' = r0 \/ (n <= r')%nat) /\
       heap s' !! r' = Some (CObj fr') /\
       forall t, t <> VUndef ->
         (obj_get "type" fr = Some t \/
          exists b, b ∈ bs /\ getp (heap s) b.2 "type" = Ret t) ->
         obj_get "type" fr' = Some t).
Proof.
  induction bs as [|b bs IH]; intros r fr xs s Hn Hr0 Hr Hpr Hp Hbs; simpl.
  { apply run_ok_ret. exists r, fr. do 3 (split; [auto|]).
    intros t _ [H | (b & Hb & _)]; [exact H | inversion Hb]. }
  apply Forall_cons_1 in Hbs as [Hb Hbs].
  set (Want := fun (k : string) (x : val) =>
         k = "type"%string /\ x <> VUndef /\
         (obj_get "type" fr = Some x \/ getp (heap s) b.2 "type" = Ret x)).
  assert (HW : forall k x, Want k x ->
            k <> "properties"%string /\ k <> "required"%string /\
            k <> "title"%string).
  { intros k x (-> & _). repeat split; discriminate. }
  eapply run_ok_bind;
    [intros ? HP; exact HP
    | apply (fold_branch_want isNamedDefinition JsonPointer_baseName Want HW
               ref n r0 r p b fr xs s); auto|].
  { intros bt Hbt Hpass k x (-> & Hx & Hsrc). unfold typed, is_undef.
    assert (Hcase : bt = VUndef /\ obj_get "type" fr = Some x \/ bt = x).
    { destruct Hsrc as [Hfr | Hg]; [|right; congruence].
      unfold field in Hpass. rewrite Hfr in Hpass. simpl in Hpass.
      destruct Hpass as [<- | [-> | ->]]; [auto | contradiction | auto]. }
    destruct Hcase as [[-> Hfr] | ->].
    - rewrite bool_decide_eq_true_2 by reflexivity. exact Hfr.
    - rewrite bool_decide_eq_false_2 by exact Hx. rewrite obj_get_set.
      destruct (decide ("type"%string = "type"%string)); [reflexivity|].
      congruence. }
  intros v s1 K1 (r' & fr' & -> & Hr' & Hc & Hpr' & Hp' & HJ).
  eapply run_ok_weaken; [intros ? HP; exact HP | eapply IH; eauto|].
  - pose proof (proj1 K1). lia.
  - right. lia.
  - intros v s' _ (r'' & fr'' & -> & H1 & H2 & H3).
    exists r'', fr''. do 3 (split; [auto|]). intros t Ht Hsrc. apply H3; [exact Ht|].
    destruct Hsrc as [Hfr | (b' & Hin & Hg)].
    + left. apply HJ. split; [reflexivity|]. auto.
    + apply elem_of_cons in Hin as [-> | Hin].
      * left. apply HJ. split; [reflexivity|]. auto.
      * right. exists b'. split; [exact Hin|]. rewrite <- Hg.
        apply getp_agree. intros a Ea. rewrite Forall_forall in Hbs.
        specialize (Hbs b' Hin). rewrite Ea in Hbs. simpl in Hbs.
        apply K1; [exact Hbs|]. destruct Hbs. lia.
Qed.

End FoldTypes.

Section MergeTypes.

Variable JsonPointer_get : list cell -> val -> string -> option val.
Variable isNamedDefinition : val -> bool.
Variable JsonPointer_baseName : val -> option string.
Variable spec : val.
Hypothesis get_reaches : reaches JsonPointer_get.

Abbreviation mergeAllOf :=
  (mergeAllOf JsonPointer_get isNamedDefinition JsonPointer_baseName spec).

(** X10. Every type declared agrees with the type returned: when a merge
    returns, the [type] of the schema it returns is the [type] the
    given schema declares, if it declares one, and the [type] of
    every merged branch that declares one.  (A merge whose declared
    types differ does not return.) *)
Theorem mergeAllOf_type_agrees (fuel : nat) (schema ref allOf v : val)
    (force : bool) (s s' : state) :
  closed (below (length (heap s))) (heap s) ->
  val_in (below (length (heap s))) spec ->
  val_in (below (length (heap s))) schema ->
  getp (heap s) schema "allOf" = Ret allOf -> is_undef allOf = false ->
  mergeAllOf (S fuel) schema ref force s = (Ret v, s') ->
  exists (recv : val) (bs : list (val * val)) (s1 : state),
    collect_branches JsonPointer_get spec
      (fun resolved subRef => mergeAllOf fuel resolved subRef force)
      fuel schema allOf force s = (Ret (recv, bs), s1) /\
    forall t, t <> VUndef ->
      (getp (heap s) schema "type" = Ret t \/
       exists b, b ∈ bs /\ getp (heap s') b.2 "type" = Ret t) ->
      getp (heap s') v "type" = Ret t.
Proof.
  intros Hc Hs Hsch HallOf Hdef Hrun. simpl in Hrun.
  apply bind_ret_inv in Hrun as (allOf' & s0 & Hget & Hrun).
  unfold get_prop, reading in Hget. rewrite HallOf in Hget.
  injection Hget as <- <-. rewrite Hdef in Hrun.
  apply bind_ret_inv in Hrun as ([recv bs] & s1 & Hcol & Hrun).
  apply bind_ret_inv in Hrun as (receiver & s2 & Hfold & Hrun).
  apply bind_ret_inv in Hrun as ([] & s3 & Hname & Hrun).
  injection Hrun as <- <-. simpl in Hfold.
  exists recv, bs, s1. split; [exact Hcol|].
  assert (Ha : val_in (below (length (heap s))) allOf).
  { eapply closed_getp; eauto. }
  assert (Hobj : exists a fs, schema = VRef a /\ heap s !! a = Some (CObj fs)).
  { unfold is_undef in Hdef. apply bool_decide_eq_false in Hdef.
    destruct (getp_obj _ _ _ _ HallOf Hdef) as (a & fs & -> & Hfs & _). eauto. }
  destruct Hobj as (a & fs & -> & Hfs).
  assert (Hown : own_props (heap s) (VRef a) = Some fs)
    by (simpl; rewrite Hfs; reflexivity).
  destruct (collect_branches_receiver _ _ _ _ _ _ _ _ _ _ _ _ _ Hown Hcol)
    as (-> & L1 & Hr1 & xs & Hp1).
  destruct (run_ok_inv _ _ _ _ _ _
              (collect_branches_items JsonPointer_get spec get_reaches _
                 (fun G resolved subRef s0 =>
                    mergeAllOf_reach JsonPointer_get isNamedDefinition
                      JsonPointer_baseName spec G fuel resolved
                      subRef force s0)
                 fuel (VRef a) allOf force s Hc Hs Ha) Hcol)
    as [K1 (subs & fr0 & _ & _ & _ & _ & _ & _ & _ & Hbs)].
  simpl in Hbs.
  set (n := length (heap s)) in *.
  set (fr := obj_set "parentRefs" (VRef n) _) in *.
  assert (Hpr : field "parentRefs" fr = VRef n)
    by (unfold fr; rewrite field_set; reflexivity).
  assert (Hbs' : Forall (fun b => val_in (old_but (length (heap s1)) (S n) n)
                                    b.2) bs).
  { eapply Forall_impl; [exact Hbs|]. intros b Hb. apply Hb. }
  destruct (run_ok_inv _ _ _ _ _ _
              (fold_branches_types isNamedDefinition JsonPointer_baseName
                 ref (length (heap s1)) (S n) n bs (S n) fr xs s1
                 (le_n _) (or_introl eq_refl) Hr1 Hpr Hp1 Hbs') Hfold)
    as (K2 & r' & fr' & -> & Hr' & Hc2 & Hty).
  destruct (run_ok_inv _ _ _ _ _ _
              (run_ok_name_top_level isNamedDefinition JsonPointer_baseName
                 r' (VRef a) ref fr' s2 Hc2) Hname)
    as (K3 & t0 & _ & L3 & Hfin).
  assert (L2 : (length (heap s1) <= length (heap s2))%nat) by apply K2.
  assert (E3 : forall x, old_but (length (heap s1)) (S n) n x ->
                 heap s3 !! x = heap s1 !! x).
  { intros x Gx. pose proof Gx as (Hal & Har & Hap).
    transitivity (heap s2 !! x).
    - apply K3; [|lia]. intros Hin. apply list_elem_of_singleton in Hin as ->.
      destruct Hr'; [contradiction | lia].
    - apply K2; assumption. }
  intros t Ht Hsrc. simpl. rewrite Hfin.
  assert (Hget : obj_get "type" fr' = Some t).
  { apply Hty; [exact Ht|]. destruct Hsrc as [Hs0 | (b & Hin & Hg)].
    - left. simpl in Hs0. rewrite Hfs in Hs0. injection Hs0 as Hs0.
      unfold fr. rewrite !obj_get_set. simpl. rewrite obj_get_spread_nil.
      unfold field in Hs0. destruct (obj_get "type" fs) as [x|];
        simpl in Hs0; [rewrite Hs0; reflexivity|].
      exfalso. apply Ht. symmetry. exact Hs0.
    - right. exists b. split; [exact Hin|]. rewrite <- Hg. symmetry.
      apply getp_agree. intros x Ex. apply E3.
      rewrite Forall_forall in Hbs'. specialize (Hbs' b Hin).
      rewrite Ex in Hbs'. exact Hbs'. }
  f_equal. destruct (_ && _); [rewrite field_set; simpl|];
    unfold field; rewrite Hget; reflexivity.
Qed.

End MergeTypes.

Section MergeEmpty.

Variable JsonPointer_get : list cell -> val -> string -> option val.
Variable isNamedDefinition : val -> bool.
Variable JsonPointer_baseName : val -> option string.
Variable spec : val.

Abbreviation mergeAllOf :=
  (mergeAllOf JsonPointer_get isNamedDefinition JsonPointer_baseName spec).
Abbreviation base_title := (base_title JsonPointer_baseName).

Lemma collect_branches_empty (merge : val -> val -> M val) (dfuel a e : nat)
    (force : bool) (fs : list (string * val)) (s : state) :
  heap s !! a = Some (CObj fs) -> heap s !! e = Some (CArr []) ->
  collect_branches JsonPointer_get spec merge dfuel (VRef a) (VRef e) force s =
  (Ret (VRef (S (length (heap s))), []),
   State ((heap s ++ [CArr []]) ++
            [CObj (obj_set "parentRefs" (VRef (length (heap s)))
                     (obj_set "allOf" VUndef (spread [] fs)))])
         (refCounter s)).
Proof.
  intros Ha He. pose proof (lookup_lt_Some _ _ _ He) as Le.
  unfold collect_branches.
  unfold bind at 1, props_of, reading. cbn [own_props]. rewrite Ha.
  unfold bind at 1, alloc at 1. unfold bind at 1, alloc at 1.
  cbn [heap refCounter]. unfold bind at 1, array_elems, reading.
  cbn [heap]. rewrite (lookup_app_l _ [_]) by (rewrite length_app; simpl; lia).
  rewrite (lookup_app_l _ [_]) by lia. rewrite He. cbn [map_each].
  unfold bind, ret. rewrite length_app. simpl length.
  replace (length (heap s) + 1)%nat with (S (length (heap s))) by lia.
  reflexivity.
Qed.

(** X11. A schema whose [allOf] is the empty array is not returned as it
    is: the merge returns a new copy of it, with [allOf] set to
    [undefined], a new empty [parentRefs], and the [title] taken
    from the pointer when the schema has none and the pointer names
    a definition.  The given schema is not touched. *)
Theorem mergeAllOf_empty_allOf (fuel a e : nat) (ref : val) (force : bool)
    (fs : list (string * val)) (s : state) :
  heap s !! a = Some (CObj fs) -> field "allOf" fs = VRef e ->
  heap s !! e = Some (CArr []) ->
  let n := length (heap s) in
  let fr := obj_set "parentRefs" (VRef n)
              (obj_set "allOf" VUndef (spread [] fs)) in
  mergeAllOf (S fuel) (VRef a) ref force s =
  (Ret (VRef (S n)),
   State (heap s ++
            [CArr [];
             CObj (if is_undef (field "title" fs) && isNamedDefinition ref
                   then obj_set "title" (base_title ref) fr else fr)])
         (refCounter s)).
Proof.
  intros Ha Hall He n fr. cbn [mergeAllOf].
  pose proof (lookup_lt_Some _ _ _ Ha) as La.
  unfold bind at 1, get_prop at 1, reading at 1. cbn [getp heap].
  rewrite Ha, Hall. unfold is_undef at 1.
  rewrite bool_decide_eq_false_2 by discriminate.
  unfold bind at 1. rewrite (collect_branches_empty _ _ _ _ _ fs s Ha He).
  cbn [fst snd fold_branches]. unfold bind at 1, ret at 1.
  fold n. fold fr. unfold bind, name_top_level.
  unfold bind, get_prop, reading. cbn [getp heap].
  rewrite (lookup_app_l _ [_]) by (rewrite length_app; simpl; lia).
  rewrite (lookup_app_l _ [_]) by lia. rewrite Ha.
  assert (Hr : ((heap s ++ [CArr []]) ++ [CObj fr]) !! S n = Some (CObj fr)).
  { replace (S n) with (length (heap s ++ [CArr []])).
    - apply lookup_snoc.
    - rewrite length_app. simpl. unfold n. lia. }
  destruct (is_undef (field "title" fs) && isNamedDefinition ref).
  - unfold set_prop. cbn [heap]. rewrite Hr. unfold ret. cbn [refCounter].
    do 2 f_equal. rewrite insert_app_r_alt
      by (rewrite length_app; simpl; unfold n; lia).
    rewrite length_app. simpl length.
    replace (S n - (length (heap s) + 1))%nat with 0%nat by (unfold n; lia).
    simpl. rewrite <- app_assoc. reflexivity.
  - unfold ret. do 2 f_equal. rewrite <- app_assoc. reflexivity.
Qed.

End MergeEmpty.

(* ================================================================== *)
(** * More of findDerived                                              *)
(* ================================================================== *)

Lemma bind_ext {A B} (m m' : M A) (k k' : A -> M B) (s : state) :
  m s = m' s -> (forall a s1, k a s1 = k' a s1) -> bind m k s = bind m' k' s.
Proof.
  intros Hm Hk. unfold bind. rewrite Hm.
  destruct (m' s) as [[a|e|w] s1]; [apply Hk | reflexivity..].
Qed.

Lemma findM_ext (p p' : val -> M bool) (l : list val) (s : state) :
  (forall x s1, p x s1 = p' x s1) -> findM p l s = findM p' l s.
Proof.
  intros Hp. revert s. induction l as [|x l IH]; intros s; simpl;
    [reflexivity|].
  apply bind_ext; [apply Hp|]. intros b s1. destruct b; [reflexivity | apply IH].
Qed.

Lemma for_in_ext (body body' : string -> M unit) (keys : list string)
    (s : state) :
  (forall k s1, body k s1 = body' k s1) ->
  for_in body keys s = for_in body' keys s.
Proof.
  intros Hb. revert s. induction keys as [|k keys IH]; intros s; simpl;
    [reflexivity|].
  apply bind_ext; [apply Hb|]. intros _ s1. apply IH.
Qed.

Lemma no_fields (fs : list (string * val)) :
  (forall p x, obj_get p fs <> Some x) -> fs = [].
Proof.
  destruct fs as [|[k v] fs]; [reflexivity|]. intros H. exfalso.
  apply (H k v). simpl. destruct (decide (k = k)); [reflexivity | congruence].
Qed.

Section DerivedMore.

Variable JsonPointer_get : list cell -> val -> string -> option val.
Variable spec : val.

Abbreviation findDerived := (findDerived JsonPointer_get spec).
Abbreviation definitions := (definitions spec).

(** X12. The pointers asked for are a set: two lists with the same
    members, in any order and with any repetitions, give the same
    run, outcome and state. *)
Theorem findDerived_refs_as_set (fuel : nat) (refs refs' : list string)
    (s : state) :
  (forall r, r ∈ refs <-> r ∈ refs') ->
  findDerived fuel refs s = findDerived fuel refs' s.
Proof.
  intros Hset. unfold findDerived.
  apply bind_ext; [reflexivity|]. intros res s1.
  apply bind_ext; [reflexivity|]. intros schemas s2.
  apply bind_ext; [|reflexivity].
  apply for_in_ext. intros k s3. unfold derived_step.
  apply bind_ext; [reflexivity|]. intros def s4.
  apply bind_ext; [reflexivity|]. intros allOf s5.
  destruct (negb (is_undef allOf)); [|reflexivity].
  apply bind_ext; [reflexivity|]. intros elems s6.
  apply bind_ext; [|reflexivity].
  apply findM_ext. intros x s7. unfold refers_to.
  apply bind_ext; [reflexivity|]. intros r s8.
  destruct r; try reflexivity. do 3 f_equal.
  apply bool_decide_ext, Hset.
Qed.

(** X13. Asked for nothing, [findDerived] finds nothing: when it returns,
    the result is a new object without a field. *)
Theorem findDerived_empty_refs (fuel : nat) (res : val) (s s' : state) :
  findDerived fuel [] s = (Ret res, s') ->
  res = VRef (length (heap s)) /\
  heap s' !! length (heap s) = Some (CObj []).
Proof.
  intros H. unfold findDerived in H.
  apply bind_ret_inv in H as (res0 & sa & Hal & H).
  unfold alloc in Hal. injection Hal as <- <-.
  apply bind_ret_inv in H as (schemas & s0 & Hdef & H).
  apply bind_ret_inv in H as ([] & s1 & Hloop & H).
  injection H as <- <-. split; [reflexivity|].
  destruct (run_ok_inv _ _ _ _ _ _ (run_ok_definitions spec _) Hdef)
    as [K0 _].
  assert (Ha : heap s0 !! length (heap s) = Some (CObj [])).
  { eapply keeps_lookup; [exact K0 | exact I|]. simpl. apply lookup_snoc. }
  destruct (for_in_derived JsonPointer_get spec fuel (length (heap s)) []
              schemas (map fst schemas) s0 s1 [] Ha) as (fs & Hfs & Hiff);
    [intros p x; discriminate | exact Hloop|].
  rewrite Hfs. do 2 f_equal. apply no_fields. intros p x Hp.
  apply Hiff in Hp as [Hp | (i & k & _ & _ & _ & Hd)]; [discriminate|].
  destruct Hd as (def & allOf & obj & s2 & elems & r & _ & _ & _ & _ & _ & _
                  & Hin).
  inversion Hin.
Qed.

(** X14. A document without [components], or without [components.schemas],
    has no definition to look at: [findDerived] returns a new empty
    object, with any fuel and whatever is asked for, and touches
    neither the document nor the counter. *)
Theorem findDerived_no_schemas (fuel : nat) (refs : list string)
    (components : val) (s : state) :
  getp (heap s) spec "components" = Ret components ->
  truthy components = false \/
  (exists inner, getp (heap s) components "schemas" = Ret inner /\
                 truthy inner = false) ->
  findDerived fuel refs s =
  (Ret (VRef (length (heap s))),
   State (heap s ++ [CObj []; CObj []]) (refCounter s)).
Proof.
  intros Hc Hno. unfold findDerived.
  unfold bind at 1, alloc at 1.
  assert (Hdef : definitions (State (heap s ++ [CObj []]) (refCounter s)) =
                 (Ret [], State ((heap s ++ [CObj []]) ++ [CObj []])
                                (refCounter s))).
  { unfold definitions.
    unfold bind at 1, get_prop at 1, reading at 1. cbn [heap].
    rewrite (getp_app _ _ _ _ _ Hc).
    assert (Hinner : exists inner, truthy inner = false /\
              (if truthy components then get_prop components "schemas"
               else ret components)
                (State (heap s ++ [CObj []]) (refCounter s)) =
              (Ret inner, State (heap s ++ [CObj []]) (refCounter s))).
    { destruct Hno as [Hf | (inner & Hi & Hf)].
      - exists components. rewrite Hf. auto.
      - destruct (truthy components) eqn:Ht.
        + exists inner. split; [exact Hf|]. unfold get_prop, reading.
          cbn [heap]. rewrite (getp_app _ _ _ _ _ Hi). reflexivity.
        + exists components. auto. }
    destruct Hinner as (inner & Hf & Hi).
    unfold bind at 1. rewrite Hi. rewrite Hf.
    unfold bind, alloc, props_of, reading. cbn [heap own_props].
    rewrite lookup_snoc. reflexivity. }
  unfold bind at 1. rewrite Hdef. simpl. unfold bind, ret.
  rewrite <- app_assoc. reflexivity.
Qed.

End DerivedMore.

(* ================================================================== *)
(** * Construction                                                     *)
(* ================================================================== *)

Section ConstructionFacts.

Variable noAutoAuth : bool.
Variable securityRegexp_test : string -> bool.
Variable security_comment : string.
Variable appendToMdHeading : string -> string -> string -> string.
Variable isBrowser : bool.
Variable location_href : string.
Variable urlResolve : string -> string -> string.

Abbreviation preprocess :=
  (preprocess noAutoAuth securityRegexp_test security_comment
     appendToMdHeading).
Abbreviation construct :=
  (construct noAutoAuth securityRegexp_test security_comment
     appendToMdHeading isBrowser location_href urlResolve).

Lemma preprocess_frame (spec : val) (s : state) :
  let s' := (preprocess spec s).2 in
  refCounter s' = refCounter s /\
  (heap s' = heap s \/
   exists (i : nat) (fi : list (string * val)) (d : string),
     getp (heap s) spec "info" = Ret (VRef i) /\
     heap s !! i = Some (CObj fi) /\
     heap s' = <[i := CObj (obj_set "description" (VStr d) fi)]> (heap s)).
Proof.
  unfold preprocess. destruct noAutoAuth; [simpl; auto|].
  unfold bind, get_prop, reading.
  destruct (getp (heap s) spec "info") as [info| |] eqn:Hi; auto.
  destruct (negb (truthy info)); auto.
  destruct (getp (heap s) spec "components") as [c| |]; auto.
  destruct (negb (truthy c)); auto.
  destruct (getp (heap s) c "securitySchemes") as [ss| |]; auto.
  destruct (negb (truthy ss)); auto.
  destruct (getp (heap s) info "description") as [d| |]; auto.
  destruct (js_or d (VStr EmptyString)); auto.
  destruct (securityRegexp_test s0); auto.
  unfold set_prop. destruct info as [| | | | |i]; auto.
  destruct (heap s !! i) as [[fi|?]|] eqn:Hc; auto.
  split; [reflexivity|]. right. exists i, fi. eexists. auto.
Qed.

(** X15. Whatever its outcome, [preprocess] changes at most one thing: the
    [description] of the object at [spec.info], which becomes a
    string; every other field and every other object is as it was.
    It changes nothing when the document has no [info], no
    [components] or no [components.securitySchemes]. *)
Theorem preprocess_touches_description_only (spec : val) (s : state) :
  let s' := (preprocess spec s).2 in
  (heap s' = heap s \/
   exists (i : nat) (fi fi' : list (string * val)),
     getp (heap s) spec "info" = Ret (VRef i) /\
     heap s !! i = Some (CObj fi) /\ heap s' = <[i := CObj fi']> (heap s) /\
     (exists d, field "description" fi' = VStr d) /\
     forall k, k <> "description"%string -> obj_get k fi' = obj_get k fi) /\
  (forall info components ss,
     getp (heap s) spec "info" = Ret info ->
     getp (heap s) spec "components" = Ret components ->
     (truthy components = true ->
      getp (heap s) components "securitySchemes" = Ret ss) ->
     truthy info && truthy components && truthy ss = false ->
     preprocess spec s = (Ret tt, s)).
Proof.
  split.
  - destruct (preprocess_frame spec s)
      as [_ [H | (i & fi & d & Hi & Hc & H)]]; [left; exact H | right].
    exists i, fi. eexists. do 3 (split; [eassumption|]). split.
    + exists d. rewrite field_set. reflexivity.
    + intros k Hk. rewrite obj_get_set.
      destruct (decide (k = "description"%string)); [contradiction|].
      reflexivity.
  - intros info components ss Hi Hc Hs Hf. unfold preprocess.
    destruct noAutoAuth; [reflexivity|].
    unfold bind, get_prop, reading. rewrite Hi.
    destruct (truthy info); [|reflexivity]. simpl. rewrite Hc.
    destruct (truthy components); [|reflexivity]. simpl.
    rewrite (Hs eq_refl). simpl in Hf. rewrite Hf. reflexivity.
Qed.

(** X16. The constructor validates before it does anything to the
    document: without an [openapi] field it throws and the document
    is as it was.  When it returns, the parser holds the very
    document it was given, its counter is new, the document had an
    [openapi] field ([null] or empty would do), and nothing changed
    but, at most, the description under [info]. *)
Theorem construct_validates_first (spec specUrl : val) (s : state) :
  (getp (heap s) spec "openapi" = Ret VUndef ->
   construct spec specUrl s =
   (Throw (Error "Document must be valid OpenAPI 3.0.0 definition"),
    State (heap s) RefCounter.reset)) /\
  (forall (this_spec : val) (this_specUrl : string) (s' : state),
   construct spec specUrl s = (Ret (this_spec, this_specUrl), s') ->
   this_spec = spec /\ refCounter s' = RefCounter.reset /\
   (exists openapi, getp (heap s) spec "openapi" = Ret openapi /\
                    openapi <> VUndef) /\
   this_specUrl =
     (let href := if isBrowser then location_href else EmptyString in
      match specUrl with
      | VStr u => urlResolve href u
      | _ => href
      end) /\
   (heap s' = heap s \/
    exists (i : nat) (fi : list (string * val)) (d : string),
      getp (heap s) spec "info" = Ret (VRef i) /\
      heap s !! i = Some (CObj fi) /\
      heap s' = <[i := CObj (obj_set "description" (VStr d) fi)]> (heap s))).
Proof.
  split.
  - intros Ho. unfold construct, validate.
    unfold bind at 1. unfold bind at 1, bind at 1, get_prop, reading.
    cbn [heap]. rewrite Ho. reflexivity.
  - intros this_spec this_specUrl s' H. unfold construct in H.
    apply bind_ret_inv in H as ([] & s0 & H0 & H). injection H0 as <-.
    apply bind_ret_inv in H as ([] & s1 & Hv & H).
    unfold validate in Hv. apply bind_ret_inv in Hv as (o & s2 & Ho & Hv).
    unfold get_prop, reading in Ho. cbn [heap] in Ho. injection Ho as Ho <-.
    destruct (is_undef o) eqn:Eo; [discriminate|]. injection Hv as <-.
    apply bind_ret_inv in H as ([] & s2 & Hp & H).
    pose proof (preprocess_frame spec (State (heap s) RefCounter.reset))
      as [Hc Hh].
    rewrite Hp in Hc, Hh. cbn [snd heap refCounter] in Hc, Hh.
    assert (Hres : this_spec = spec /\ s' = s2 /\
              this_specUrl =
                (let href := if isBrowser then location_href else EmptyString in
                 match specUrl with
                 | VStr u => urlResolve href u
                 | _ => href
                 end)).
    { destruct specUrl; injection H as <- <- <-; auto. }
    destruct Hres as (-> & -> & ->).
    split; [reflexivity|]. split; [exact Hc|]. split.
    + exists o. split; [exact Ho|]. unfold is_undef in Eo.
      apply bool_decide_eq_false in Eo. exact Eo.
    + split; [reflexivity | exact Hh].
Qed.

End ConstructionFacts.

(* ================================================================== *)
(** * The further facts on the examples                                *)
(* ================================================================== *)

Lemma play_counter_never_negative_witness :
  RefCounter.wf
    (refCounter
       (play Utils.get Utils.isNamedDefinition Utils.baseName Examples.root 3
          [ExitRef (Examples.at_ "#/viaAlias");
           Call (Deref (Examples.at_ "#/viaAlias") false);
           ExitRef (Examples.at_ "#/viaAlias");
           ExitRef (Examples.at_ "#/viaAlias");
           Call (FindDerived ["#/components/schemas/Base"]%string);
           ResetVisited;
           Call (MergeAllOf (Examples.at_ "#/components/schemas/Pet")
                   (VStr "#/components/schemas/Pet") false)]
          Examples.start)).
Proof.
  apply play_counter_never_negative. apply RefCounterFacts.wf_reset.
Defined.

Lemma play_counter_numeric_witness :
  let c := refCounter
             (play Utils.get Utils.isNamedDefinition Utils.baseName
                Examples.aliased_root 3
                [Call (Deref (Examples.aliased_at "#/odd") false);
                 Call (FindDerived ["#/components/schemas/Base"]%string);
                 ExitRef (Examples.aliased_at "#/viaAlias");
                 Call (MergeAllOf (Examples.aliased_at "#/blank")
                         (VStr "#/blank") false)]
                Examples.aliased_start) in
  RefCounter.read c "constructor" = RefCounter.Text /\
  RefCounter.numeric c "#/components/schemas/Alias" = true /\
  0 <= RefCounter.count c "#/components/schemas/Alias" /\
  (RefCounter.visited "#/components/schemas/Alias" c = true <->
   0 < RefCounter.count c "#/components/schemas/Alias").
Proof.
  intros c. split; [vm_compute; reflexivity|].
  apply (play_counter_numeric Utils.get Utils.isNamedDefinition
           Utils.baseName Examples.aliased_root 3 _ Examples.aliased_start
           "#/components/schemas/Alias"); reflexivity.
Defined.

Lemma byRef_plain_pointer_witness :
  byRef Utils.get Examples.root (VStr "/components/schemas/Pet")
    Examples.start =
  (Ret (Examples.at_ "#/components/schemas/Pet"), Examples.start).
Proof.
  destruct (byRef_plain_pointer Utils.get Examples.root
              "/components/schemas/Pet" Examples.start) as [H _].
  - apply (bool_decide_unpack _). vm_compute. exact I.
  - rewrite H. reflexivity.
Defined.

Lemma isRef_never_throws_witness :
  exists b : bool, isRef VNull Examples.start = (Ret b, Examples.start) /\
    (b = true <->
     exists r, getp (heap Examples.start) VNull "$ref" = Ret r /\
               r <> VUndef /\ r <> VNull).
Proof. apply isRef_never_throws. exact I. Defined.

Lemma deref_returns_inline_or_marked_witness :
  let run := deref Utils.get Examples.root 2
               (Examples.at_ "#/components/schemas/Loop") false
               Examples.start in
  let n := length Examples.store in
  run.1 = Ret (VRef n) /\
  exists fs, heap run.2 = Examples.store ++ [CObj fs] /\
    field "x-circular-ref" fs = VBool true.
Proof.
  intros run n.
  assert (Hrun : run = (Ret (VRef n), run.2)) by (vm_compute; reflexivity).
  split; [rewrite Hrun; reflexivity|].
  destruct (deref_returns_inline_or_marked Utils.get Examples.root 2 _ _ _ _ _
              Hrun) as [[_ H] | (fs & _ & H1 & H2)].
  - vm_compute in H. discriminate.
  - exists fs. auto.
Defined.

Lemma deref_exitRef_balanced_witness :
  let run := deref Utils.get Examples.root 3 (Examples.at_ "#/viaAlias") false
               Examples.start in
  RefCounter.count (refCounter run.2) "#/components/schemas/Alias" = 1 /\
  RefCounter.count (refCounter run.2) "#/components/schemas/Pet" = 0 /\
  exists c2,
    exitRef (Examples.at_ "#/viaAlias") run.2 =
      (Ret tt, State (heap run.2) c2) /\
    RefCounter.count c2 "#/components/schemas/Alias" = 0 /\
    RefCounter.count c2 "#/components/schemas/Pet" = 0.
Proof.
  intros run.
  assert (Hrun : run = (Ret (Examples.at_ "#/components/schemas/Pet"), run.2))
    by (vm_compute; reflexivity).
  destruct (deref_exitRef_balanced Utils.get Examples.root 3 _ _ _
              Examples.start run.2 RefCounterFacts.wf_reset Hrun)
    as (Hown & c2 & He & Hc).
  specialize (Hown "#/components/schemas/Alias"%string eq_refl).
  assert (Ha : RefCounter.numeric (refCounter Examples.start)
                 "#/components/schemas/Alias" = true)
    by (vm_compute; reflexivity).
  assert (Hp : RefCounter.numeric (refCounter Examples.start)
                 "#/components/schemas/Pet" = true)
    by (vm_compute; reflexivity).
  split; [rewrite (Hown _ Ha); reflexivity|].
  split; [rewrite (Hown _ Hp); reflexivity|].
  exists c2. split; [exact He|].
  split; [rewrite (proj2 (Hc _ Ha)) | rewrite (proj2 (Hc _ Hp))]; reflexivity.
Defined.

Lemma deref_follows_to_target_witness :
  exists c',
    deref Utils.get Examples.root 2 (Examples.at_ "#/viaAlias") false
      Examples.start =
    (Ret (Examples.at_ "#/components/schemas/Pet"),
     State Examples.store c') /\
    RefCounter.count c' "#/components/schemas/Alias" = 1 /\
    RefCounter.count c' "#/components/schemas/Pet" = 0.
Proof.
  destruct (deref_follows_to_target Utils.get Examples.root
              ["#/components/schemas/Pet"]%string 2
              (Examples.at_ "#/viaAlias")
              (Examples.at_ "#/components/schemas/Pet")
              "#/components/schemas/Alias" "#/components/schemas/Pet"
              false Examples.start) as (c' & Hd & Hc).
  - apply RefCounterFacts.wf_reset.
  - vm_compute. reflexivity.
  - split; [vm_compute; reflexivity | exact I].
  - reflexivity.
  - vm_compute. reflexivity.
  - vm_compute. reflexivity.
  - apply (bool_decide_unpack _). vm_compute. exact I.
  - repeat (apply Forall_cons_2 || apply Forall_nil_2); reflexivity.
  - simpl. lia.
  - exists c'. split; [exact Hd|]. rewrite !Hc. split; reflexivity.
Defined.

Lemma mergeAllOf_keeps_own_fields_witness :
  let run := mergeAllOf Utils.get Utils.isNamedDefinition Utils.baseName
               Examples.labelled_root 2
               (Examples.labelled_at "#/components/schemas/Cat")
               (VStr "#/components/schemas/Cat") false
               Examples.labelled_start in
  exists (r' : nat) (fr' : list (string * val)),
    run.1 = Ret (VRef r') /\ heap run.2 !! r' = Some (CObj fr') /\
    obj_get "allOf" fr' = Some VUndef /\
    obj_get "description" fr' = Some (VStr "a cat").
Proof.
  intros run.
  assert (Hrun : run = (Ret (VRef 18), run.2)) by (vm_compute; reflexivity).
  destruct (mergeAllOf_keeps_own_fields Utils.get Utils.isNamedDefinition
              Utils.baseName Examples.labelled_root 1 5
              (VStr "#/components/schemas/Cat") (VRef 18) false
              [("description", VStr "a cat"); ("type", VStr "object");
               ("allOf", VRef 4)]%string
              Examples.labelled_start run.2)
    as (r' & fr' & Hv & _ & Hc & Ha & Hk).
  - vm_compute. reflexivity.
  - discriminate.
  - exact Hrun.
  - exists r', fr'. split; [rewrite Hrun, Hv; reflexivity|].
    split; [exact Hc|]. split; [exact Ha|].
    apply Hk; [reflexivity|]. apply (bool_decide_unpack _). vm_compute. exact I.
Defined.

Lemma mergeAllOf_type_agrees_witness :
  let run := mergeAllOf Utils.get Utils.isNamedDefinition Utils.baseName
               Examples.labelled_root 2
               (Examples.labelled_at "#/components/schemas/Cat")
               (VStr "#/components/schemas/Cat") false
               Examples.labelled_start in
  exists v, run.1 = Ret v /\
    getp (heap run.2) v "type" = Ret (VStr "object").
Proof.
  intros run.
  assert (Hrun : run = (Ret (VRef 18), run.2)) by (vm_compute; reflexivity).
  destruct (mergeAllOf_type_agrees Utils.get Utils.isNamedDefinition
              Utils.baseName Examples.labelled_root utils_get_reaches 1
              (Examples.labelled_at "#/components/schemas/Cat")
              (VStr "#/components/schemas/Cat") (VRef 4) (VRef 18) false
              Examples.labelled_start run.2)
    as (recv & bs & s1 & _ & Ht).
  - apply wf_store_closed. vm_compute. reflexivity.
  - vm_compute. lia.
  - vm_compute. lia.
  - vm_compute. reflexivity.
  - reflexivity.
  - exact Hrun.
  - exists (VRef 18). split; [rewrite Hrun; reflexivity|].
    apply Ht; [discriminate|]. left. vm_compute. reflexivity.
Defined.

Lemma mergeAllOf_empty_allOf_witness :
  exists fr,
    mergeAllOf Utils.get Utils.isNamedDefinition Utils.baseName
      Examples.labelled_root 1
      (Examples.labelled_at "#/components/schemas/Empty")
      (VStr "#/components/schemas/Empty") false Examples.labelled_start =
    (Ret (VRef 14),
     State (Examples.labelled_store ++ [CArr []; CObj fr]) RefCounter.reset)
    /\ field "title" fr = VStr "Empty" /\ field "allOf" fr = VUndef.
Proof.
  eexists. split.
  - apply (mergeAllOf_empty_allOf Utils.get Utils.isNamedDefinition
             Utils.baseName Examples.labelled_root 0 7 6
             (VStr "#/components/schemas/Empty") false
             [("description", VStr "nothing to merge");
              ("allOf", VRef 6)]%string Examples.labelled_start);
      vm_compute; reflexivity.
  - vm_compute. auto.
Defined.

Lemma findDerived_refs_as_set_witness :
  findDerived Utils.get Examples.root 2
    ["#/components/schemas/Base"; "#/components/schemas/Base"]%string
    Examples.start =
  findDerived Utils.get Examples.root 2 ["#/components/schemas/Base"]%string
    Examples.start.
Proof.
  apply findDerived_refs_as_set. intros r. split.
  - intros H. apply elem_of_cons in H as [-> | H]; [left | exact H].
  - intros H. right. exact H.
Defined.

Lemma findDerived_empty_refs_witness :
  let run := findDerived Utils.get Examples.root 2 [] Examples.start in
  run.1 = Ret (VRef (length Examples.store)) /\
  heap run.2 !! length Examples.store = Some (CObj []).
Proof.
  intros run.
  assert (Hrun : run = (Ret (VRef (length Examples.store)), run.2))
    by (vm_compute; reflexivity).
  destruct (findDerived_empty_refs Utils.get Examples.root 2 _ _ _ Hrun)
    as [_ H].
  split; [rewrite Hrun; reflexivity | exact H].
Defined.

Lemma findDerived_no_schemas_witness :
  findDerived Utils.get (load Examples.merging []).1 0
    ["#/components/schemas/Base"]%string Examples.merging_state =
  (Ret (VRef (length (heap Examples.merging_state))),
   State (heap Examples.merging_state ++ [CObj []; CObj []])
         (refCounter Examples.merging_state)).
Proof.
  apply (findDerived_no_schemas Utils.get (load Examples.merging []).1 0 _
           VUndef Examples.merging_state).
  - vm_compute. reflexivity.
  - left. reflexivity.
Defined.

Lemma deref_bad_pointer_throws_witness :
  deref Utils.get Examples.root 2 (Examples.at_ "#/malformed") false
    Examples.start = (Throw URIError, Examples.start).
Proof.
  apply (deref_bad_pointer_throws Utils.get Examples.root 1
           (Examples.at_ "#/malformed") (VStr "#/%") false Examples.start);
    try discriminate; vm_compute; reflexivity.
Defined.


(* ================================================================== *)
(** * What the merge loop collects                                     *)
(* ================================================================== *)

Lemma as_array_keeps (h h' : list cell) (v : val) :
  keeps all h h' -> val_in (below (length h)) v ->
  as_array h' v = as_array h v.
Proof.
  intros K Hv. apply as_array_agree. intros a ->. apply K; [exact I | exact Hv].
Qed.

Lemma own_props_keeps (h h' : list cell) (v : val) :
  keeps all h h' -> val_in (below (length h)) v ->
  own_props h' v = own_props h v.
Proof.
  intros K Hv. apply own_props_agree. intros a ->.
  apply K; [exact I | exact Hv].
Qed.

(** [merge_required]: when the receiver's [required] is an array or
    falsy, the new [required] is a new array, the old elements and
    then what [concat] takes from the branch. *)
Lemma run_ok_merge_required_elems (r : nat) (sub bq : val)
    (fr : list (string * val)) (s : state) :
  heap s !! r = Some (CObj fr) ->
  getp (heap s) sub "required" = Ret bq ->
  val_in (below (length (heap s))) bq ->
  run_ok (but [r]) (merge_required (VRef r) sub) s
    (fun _ s' =>
       if is_undef bq then s' = s
       else exists q,
         heap s' !! r = Some (CObj (obj_set "required" q fr)) /\
         forall rxs, elements_of (heap s) (field "required" fr) = Some rxs ->
           exists a, q = VRef a /\
             (length (heap s) <= a < length (heap s'))%nat /\
             heap s' !! a =
               Some (CArr (rxs ++ match as_array (heap s) bq with
                                  | Some l => l
                                  | None => [bq]
                                  end))).
Proof.
  intros Hr Hbq Hal. pose proof (lookup_lt_Some _ _ _ Hr) as Hlt.
  unfold merge_required.
  eapply run_ok_bind; [apply all_any | apply run_ok_reading|].
  intros bq' s1 _ [-> Hbq']. assert (bq' = bq) as -> by congruence.
  destruct (is_undef bq) eqn:E; simpl.
  { apply run_ok_ret. reflexivity. }
  eapply run_ok_bind; [apply all_any | apply run_ok_reading|].
  intros rq s1 _ [-> Hrq]. simpl in Hrq. rewrite Hr in Hrq. injection Hrq as <-.
  eapply run_ok_bind; [apply all_any | apply run_ok_or_alloc|].
  intros base s1 K1 [_ Hbase].
  eapply run_ok_bind; [apply all_any | apply run_ok_js_concat|].
  intros q s2 K2 [_ Hq].
  assert (Hr2 : heap s2 !! r = Some (CObj fr)).
  { eapply keeps_lookup; [exact K2 | exact I|].
    eapply keeps_lookup; [exact K1 | exact I | exact Hr]. }
  eapply run_ok_weaken; [intros ? HP; exact HP | apply run_ok_set_prop|].
  intros [] s' _ (fs & Hfs & -> & _). assert (fs = fr) as -> by congruence.
  exists q. split.
  { apply list_lookup_insert_eq. eapply lookup_lt_Some, Hr2. }
  intros rxs Hel. unfold elements_of in Hel.
  destruct Hq as [(b & t & Hb & _ & _ & _) | (a & xs & Hb & Ha & -> & H2)].
  { exfalso. destruct (truthy (field "required" fr)).
    - destruct Hbase as [-> _]. rewrite Hb in Hel. discriminate.
    - destruct Hbase as [-> _]. discriminate. }
  pose proof (proj1 K1) as L1.
  exists (length (heap s1)). split; [reflexivity|]. split.
  { rewrite length_insert, H2, length_app. simpl. lia. }
  assert (Hne : length (heap s1) <> r) by lia.
  rewrite list_lookup_insert_ne by (intros Heq; apply Hne; auto).
  rewrite H2, lookup_snoc. rewrite (as_array_keeps _ _ _ K1 Hal).
  do 3 f_equal. destruct (truthy (field "required" fr)).
  - destruct Hbase as [-> ->]. rewrite Hb in Hel. simpl in Hel.
    rewrite Ha in Hel. congruence.
  - destruct Hbase as [-> Hh]. injection Hb as <-.
    rewrite Hh, lookup_snoc in Ha. congruence.
Qed.

Section FoldContent.

Variable isNamedDefinition : val -> bool.
Variable JsonPointer_baseName : val -> option string.

(** One round of the loop, for a branch that is an object of the
    store: what [required] and [properties] of the receiver are
    afterwards. *)
Lemma fold_branch_content (ref : val) (r p ab : nat) (b : val * val)
    (fr fb : list (string * val)) (xs : list val) (s : state) :
  let old := old_but (length (heap s)) r p in
  heap s !! r = Some (CObj fr) -> field "parentRefs" fr = VRef p ->
  heap s !! p = Some (CArr xs) ->
  b.2 = VRef ab -> old ab -> heap s !! ab = Some (CObj fb) ->
  Forall (val_in old) (map snd fb) ->
  run_ok old
    (fold_branch isNamedDefinition JsonPointer_baseName ref (VRef r) b) s
    (fun v s' => exists r' fr', v = VRef r' /\
       (length (heap s) <= r' < length (heap s'))%nat /\
       heap s' !! r' = Some (CObj fr') /\
       field "parentRefs" fr' = VRef p /\
       heap s' !! p = Some (CArr (xs ++ if truthy b.1 then [b.1] else [])) /\
       (if is_undef (field "required" fb)
        then field "required" fr' = field "required" fr
        else forall rxs, val_in old (field "required" fr) ->
          elements_of (heap s) (field "required" fr) = Some rxs ->
          exists a, field "required" fr' = VRef a /\
            (length (heap s) <= a < r')%nat /\
            heap s' !! a =
              Some (CArr (rxs ++
                          match as_array (heap s) (field "required" fb) with
                          | Some l => l
                          | None => [field "required" fb]
                          end))) /\
       (if is_undef (field "properties" fb)
        then field "properties" fr' = field "properties" fr
        else exists o fbase fbp, field "properties" fr' = VRef o /\
          (length (heap s) <= o < r')%nat /\
          heap s' !! o = Some (CObj (spread (spread [] fbase) fbp)) /\
          own_props (heap s) (field "properties" fb) = Some fbp /\
          (val_in old (field "properties" fr) ->
           fields_of (heap s) (field "properties" fr) = Some fbase))).
Proof.
  intros old Hr Hpr Hp Hb Hab Hfb Hal.
  destruct b as [b1 b2]. simpl in Hb. subst b2. cbn [fst snd].
  assert (Hne : r <> p) by (intros ->; congruence).
  pose proof (lookup_lt_Some _ _ _ Hr) as Lr.
  pose proof (lookup_lt_Some _ _ _ Hp) as Lp.
  assert (Hw : forall a, old a -> but [r] a).
  { intros a (Ha & Har & Hap) Hin. apply list_elem_of_singleton in Hin as ->.
    contradiction. }
  set (bq := field "required" fb). set (bp := field "properties" fb).
  assert (Hbq : val_in old bq) by (apply field_val_in, Hal).
  assert (Hbp : val_in old bp) by (apply field_val_in, Hal).
  (* reading an old value in a later store *)
  assert (Hread : forall h', keeps old (heap s) h' ->
            forall v, val_in old v ->
              own_props h' v = own_props (heap s) v /\
              as_array h' v = as_array (heap s) v).
  { intros h' K v Hv. split.
    - apply own_props_agree. intros a ->. apply K; [exact Hv | apply Hv].
    - apply as_array_agree. intros a ->. apply K; [exact Hv | apply Hv]. }
  unfold fold_branch. cbn [fst snd].
  eapply run_ok_bind;
    [apply all_any | apply run_ok_same, heap_same_check_types|].
  intros [] s1 K0 [E1 _].
  (* type *)
  assert (Hr1 : heap s1 !! r = Some (CObj fr)) by (rewrite E1; exact Hr).
  eapply run_ok_bind; [exact Hw | apply run_ok_merge_type, Hr1|].
  intros [] s2 K2 (bt & _ & L2 & Hr2). fold (typed bt fr) in Hr2.
  rewrite E1 in K2, L2.
  assert (K2' : keeps old (heap s) (heap s2)).
  { eapply keeps_mono; [exact Hw | exact K2]. }
  set (fr2 := typed bt fr) in *.
  assert (Hf2 : forall k, k <> "type"%string -> field k fr2 = field k fr).
  { intros k Hk. unfold fr2, typed. destruct (is_undef bt); [reflexivity|].
    rewrite field_set. destruct (decide (k = "type"%string)); [contradiction|].
    reflexivity. }
  (* properties *)
  eapply run_ok_bind; [exact Hw | apply run_ok_merge_properties, Hr2|].
  intros [] s3 K3 (bp' & Hbp' & H3).
  assert (Hab2 : heap s2 !! ab = Some (CObj fb)).
  { eapply keeps_lookup; [exact K2' | exact Hab | exact Hfb]. }
  simpl in Hbp'. rewrite Hab2 in Hbp'. injection Hbp' as <-. fold bp in H3.
  assert (K3' : keeps old (heap s) (heap s3)).
  { eapply keeps_trans; [exact K2'|]. split; [apply K3|].
    intros a Ha Hl. rewrite L2 in Hl. apply K3; [apply Hw, Ha|].
    rewrite L2. exact Hl. }
  assert (Hprops : exists fr3, heap s3 !! r = Some (CObj fr3) /\
            (forall k, k <> "type"%string -> k <> "properties"%string ->
               field k fr3 = field k fr) /\
            (if is_undef bp then field "properties" fr3 = field "properties" fr
             else exists o fbase fbp, field "properties" fr3 = VRef o /\
               (length (heap s) <= o < length (heap s3))%nat /\
               heap s3 !! o = Some (CObj (spread (spread [] fbase) fbp)) /\
               own_props (heap s) bp = Some fbp /\
               (val_in old (field "properties" fr) ->
                fields_of (heap s) (field "properties" fr) = Some fbase))).
  { destruct (is_undef bp).
    - subst s3. exists fr2. split; [exact Hr2|]. split.
      + intros k Hk _. apply Hf2, Hk.
      + apply Hf2. discriminate.
    - destruct H3 as (o & h1 & fbase & fbp & K1 & Hfbp & Hbase & Ho & Hoc & H3).
      eexists. split; [exact H3|]. split.
      + intros k Hk Hk'. rewrite field_set.
        destruct (decide (k = "properties"%string)); [contradiction|].
        apply Hf2, Hk.
      + rewrite field_set. simpl. exists o, fbase, fbp.
        split; [reflexivity|]. split; [lia|]. split; [exact Hoc|]. split.
        * rewrite <- Hfbp. symmetry. apply own_props_agree. intros a Ea.
          rewrite Ea in Hbp. transitivity (heap s2 !! a).
          -- apply K1; [exact I|]. rewrite L2. apply Hbp.
          -- apply K2'; [exact Hbp | apply Hbp].
        * intros Hso. unfold fields_of.
          rewrite (Hf2 "properties"%string) in Hbase by discriminate.
          destruct (truthy (field "properties" fr)); [|congruence].
          rewrite <- Hbase. symmetry.
          apply (Hread _ K2' _ Hso). }
  destruct Hprops as (fr3 & Hr3 & Hf3 & Hprops).
  (* required *)
  assert (Hab3 : heap s3 !! ab = Some (CObj fb)).
  { eapply keeps_lookup; [exact K3' | exact Hab | exact Hfb]. }
  assert (Hq3 : field "required" fr3 = field "required" fr)
    by (apply Hf3; discriminate).
  assert (L3 : (length (heap s) <= length (heap s3))%nat) by apply K3'.
  eapply run_ok_bind;
    [exact Hw
    | apply (run_ok_merge_required_elems r (VRef ab) bq fr3 s3 Hr3)|].
  { simpl. rewrite Hab3. reflexivity. }
  { eapply val_in_mono; [|exact Hbq]. intros a Ha. unfold below.
    destruct Ha. lia. }
  intros [] s4 K4 H4.
  assert (K4' : keeps old (heap s) (heap s4)).
  { eapply keeps_trans; [exact K3'|]. split; [apply K4|].
    intros a Ha Hl. apply K4; [apply Hw, Ha | exact Hl]. }
  assert (L4 : (length (heap s3) <= length (heap s4))%nat) by apply K4.
  assert (Hreq : exists fr4, heap s4 !! r = Some (CObj fr4) /\
            (forall k, k <> "type"%string -> k <> "properties"%string ->
               k <> "required"%string -> field k fr4 = field k fr) /\
            field "properties" fr4 = field "properties" fr3 /\
            (forall k, is_Some (obj_get k fr3) -> is_Some (obj_get k fr4)) /\
            (if is_undef bq then fr4 = fr3
             else is_Some (obj_get "required" fr4) /\
               forall rxs, val_in old (field "required" fr) ->
               elements_of (heap s) (field "required" fr) = Some rxs ->
               exists a, field "required" fr4 = VRef a /\
                 (length (heap s) <= a < length (heap s4))%nat /\
                 heap s4 !! a =
                   Some (CArr (rxs ++ match as_array (heap s) bq with
                                      | Some l => l
                                      | None => [bq]
                                      end)))).
  { destruct (is_undef bq).
    - subst s4. exists fr3. split; [exact Hr3|]. split.
      + intros k H1 H2 _. apply Hf3; assumption.
      + auto.
    - destruct H4 as (q & H4 & Hq4). eexists. split; [exact H4|]. split.
      + intros k H1 H2 H3'. rewrite field_set.
        destruct (decide (k = "required"%string)); [contradiction|].
        apply Hf3; assumption.
      + split; [rewrite field_set; reflexivity|]. split.
        * intros k Hk. rewrite obj_get_set.
          destruct (decide (k = "required"%string)); [eauto | exact Hk].
        * split; [rewrite obj_get_set; simpl; eauto|].
          intros rxs Hsq Hel.
          destruct (Hq4 rxs) as (a & -> & La & Hac).
          { rewrite Hq3. unfold elements_of in *.
            destruct (truthy (field "required" fr)); [|exact Hel].
            rewrite (proj2 (Hread _ K3' _ Hsq)). exact Hel. }
          exists a. rewrite field_set. simpl. split; [reflexivity|].
          split; [lia|]. rewrite Hac. do 3 f_equal.
          rewrite (proj2 (Hread _ K3' _ Hbq)). reflexivity. }
  destruct Hreq as (fr4 & Hr4 & Hf4 & Ho4 & Hk4 & Hreq).
  (* the next receiver *)
  assert (Hab4 : heap s4 !! ab = Some (CObj fb)).
  { eapply keeps_lookup; [exact K4' | exact Hab | exact Hfb]. }
  assert (Hp4 : heap s4 !! p = Some (CArr xs)).
  { rewrite <- Hp. assert (Hlp : (p < length (heap s))%nat) by exact Lp.
    clear -K4 K3 K2 E1 L2 L3 Hne Hlp.
    transitivity (heap s3 !! p).
    { apply K4; [|lia]. intros Hin. apply list_elem_of_singleton in Hin. auto. }
    transitivity (heap s2 !! p).
    { apply K3; [|lia]. intros Hin. apply list_elem_of_singleton in Hin. auto. }
    apply K2; [|lia]. intros Hin. apply list_elem_of_singleton in Hin. auto. }
  assert (Hpr4 : field "parentRefs" fr4 = VRef p).
  { rewrite Hf4 by discriminate. exact Hpr. }
  eapply run_ok_bind; [apply all_any | apply run_ok_merge_rest, Hr4|].
  intros v s5 K5 (fb' & Hfb' & -> & H5).
  simpl in Hfb'. rewrite Hab4 in Hfb'. injection Hfb' as <-.
  set (r' := length (heap s4)) in *.
  set (fr5 := spread (spread [] fb) fr4) in *.
  assert (Hr5 : heap s5 !! r' = Some (CObj fr5)).
  { rewrite H5. apply lookup_snoc. }
  assert (Hpr5 : field "parentRefs" fr5 = VRef p).
  { unfold fr5. rewrite field_spread. unfold field in Hpr4.
    destruct (obj_get "parentRefs" fr4); [assumption | discriminate]. }
  assert (Hp5 : heap s5 !! p = Some (CArr xs)).
  { eapply keeps_lookup; [exact K5 | exact I | exact Hp4]. }
  eapply run_ok_bind;
    [|apply (run_ok_note_parent _ _ r' p _ _ xs _ Hr5 Hpr5 Hp5)|].
  { intros a (Ha & Har & Hap) Hin.
    apply elem_of_cons in Hin as [->|Hin]; [unfold r' in *; lia|].
    apply list_elem_of_singleton in Hin. contradiction. }
  intros [] s6 K6 (L6 & Hp6 & Hr6). apply run_ok_ret.
  set (fr6 := if _ && _ then _ else fr5) in Hr6.
  assert (Hf6 : forall k, k <> "title"%string -> field k fr6 = field k fr5).
  { intros k Hk. unfold fr6. destruct (_ && _); [|reflexivity].
    rewrite field_set. destruct (decide (k = "title"%string)); [contradiction|].
    reflexivity. }
  assert (L5 : length (heap s5) = S r').
  { rewrite H5, length_app. simpl. unfold r'. lia. }
  assert (Hold6 : forall a c, (a < r')%nat -> a <> p ->
            heap s4 !! a = Some c -> heap s6 !! a = Some c).
  { intros a c Ha Hap Hc. rewrite <- Hc. transitivity (heap s5 !! a).
    - apply K6; [|rewrite L5; lia]. intros Hin.
      apply elem_of_cons in Hin as [->|Hin]; [lia|].
      apply list_elem_of_singleton in Hin. contradiction.
    - apply K5; [exact I | exact Ha]. }
  exists r', fr6. split; [reflexivity|].
  split; [rewrite L6, L5; unfold r'; lia|].
  split; [exact Hr6|]. split; [rewrite Hf6 by discriminate; exact Hpr5|].
  split; [exact Hp6|]. split.
  - rewrite Hf6 by discriminate. unfold fr5. rewrite field_spread.
    fold bq. destruct (is_undef bq) eqn:Ebq.
    + subst fr4. rewrite field_spread_nil, <- Hq3.
      apply bool_decide_eq_true_1 in Ebq.
      destruct (obj_get "required" fr3) eqn:E3; unfold field; rewrite ?E3;
        [reflexivity | exact Ebq].
    + destruct Hreq as [Hsome Hreq]. intros rxs Hsq Hel.
      destruct (Hreq rxs Hsq Hel) as (a & Ha & La & Hac). exists a.
      destruct Hsome as [x Hx]. rewrite Hx. unfold field in Ha.
      rewrite Hx in Ha. simpl in Ha. split; [exact Ha|].
      split; [unfold r'; lia|]. apply Hold6; [apply La| |exact Hac].
      intros ->. lia.
  - rewrite Hf6 by discriminate. unfold fr5. rewrite field_spread.
    fold bp. destruct (is_undef bp) eqn:Ebp.
    + rewrite field_spread_nil, <- Hprops, <- Ho4.
      apply bool_decide_eq_true_1 in Ebp.
      destruct (obj_get "properties" fr4) eqn:E4; unfold field; rewrite ?E4;
        [reflexivity | exact Ebp].
    + destruct Hprops as (o & fbase & fbp & Ho & Lo & Hoc & Hfbp & Hbase).
      exists o, fbase, fbp.
      assert (Hsome : is_Some (obj_get "properties" fr4)).
      { apply Hk4. destruct (obj_get "properties" fr3) eqn:Ex; [eauto|].
        unfold field in Ho. rewrite Ex in Ho. discriminate. }
      destruct Hsome as [x Hx]. rewrite Hx. rewrite <- Ho4 in Ho.
      unfold field in Ho. rewrite Hx in Ho. simpl in Ho.
      split; [exact Ho|]. split; [unfold r'; lia|]. split; [|auto].
      apply Hold6; [unfold r'; lia| |].
      * intros ->. lia.
      * eapply keeps_lookup; [exact K4| |exact Hoc].
        intros Hin. apply list_elem_of_singleton in Hin. subst o. lia.
Qed.

(** The whole loop: [required] is the concatenation and
    [properties] the union, branch by branch, as the branches read in
    the store [h0] the loop started from.  [Q] and [O] say which of
    the two is known of the receiver at the start. *)
Lemma fold_branches_content (Q O : Prop) (ref : val) (h0 : list cell)
    (r0 p : nat) (bs : list (val * val)) :
  forall (r : nat) (fr : list (string * val)) (xs rxs : list val)
         (rps : list (string * val)) (s : state),
  keeps (old_but (length h0) r0 p) h0 (heap s) ->
  r = r0 \/ (length h0 <= r)%nat -> (p < length h0)%nat ->
  heap s !! r = Some (CObj fr) -> field "parentRefs" fr = VRef p ->
  heap s !! p = Some (CArr xs) ->
  Forall (fun b => apart h0 r0 p b.2) bs ->
  (Q -> val_in (old_but (length (heap s)) r p) (field "required" fr) /\
        elements_of (heap s) (field "required" fr) = Some rxs) ->
  (O -> val_in (old_but (length (heap s)) r p) (field "properties" fr) /\
        fields_of (heap s) (field "properties" fr) = Some rps) ->
  run_ok (old_but (length h0) r0 p)
    (fold_branches isNamedDefinition JsonPointer_baseName ref (VRef r) bs) s
    (fun v s' => exists r' fr', v = VRef r' /\
       (r' = r0 \/ (length h0 <= r')%nat) /\
       heap s' !! r' = Some (CObj fr') /\
       (Q -> val_in (old_but (length (heap s')) r' p)
               (field "required" fr') /\
             elements_of (heap s') (field "required" fr') =
               Some (rxs ++ flat_map (fun b => required_items h0 b.2) bs)) /\
       (O -> val_in (old_but (length (heap s')) r' p)
               (field "properties" fr') /\
             fields_of (heap s') (field "properties" fr') =
               Some (fold_left (fun acc b => merged_properties h0 acc b.2)
                       bs rps))).
Proof.
  induction bs as [|b bs IH];
    intros r fr xs rxs rps s K Hr0 Lp Hr Hpr Hp Hbs HQ HO; simpl.
  { apply run_ok_ret. exists r, fr. rewrite app_nil_r.
    split; [reflexivity|]. split; [exact Hr0|]. split; [exact Hr|].
    split; intros H; [apply (HQ H) | apply (HO H)]. }
  apply Forall_cons in Hbs as [(ab & fb & Hb & Gab & Hab & Hal) Hbs].
  set (G := old_but (length h0) r0 p) in *.
  set (old := old_but (length (heap s)) r p) in *.
  assert (L0 : (length h0 <= length (heap s))%nat) by apply K.
  assert (HG : forall a, G a -> old a).
  { intros a (Ha & Har & Hap). repeat split; [lia| |exact Hap].
    destruct Hr0 as [->|Hr0]; [exact Har | lia]. }
  assert (Hab' : heap s !! ab = Some (CObj fb)).
  { rewrite <- Hab. apply K; [exact Gab | apply Gab]. }
  assert (Hal' : Forall (val_in old) (map snd fb)).
  { eapply Forall_impl; [exact Hal|]. intros v Hv.
    eapply val_in_mono; [exact HG | exact Hv]. }
  eapply run_ok_bind;
    [exact HG
    | apply (fold_branch_content ref r p ab b fr fb xs s
               Hr Hpr Hp Hb (HG _ Gab) Hab' Hal')|].
  intros v s1 K1 (r' & fr' & -> & Lr' & Hr' & Hpr' & Hp' & Hq' & Ho').
  fold old in K1, Hq', Ho'.
  assert (K' : keeps G h0 (heap s1)).
  { eapply keeps_trans; [exact K|]. split; [apply K1|].
    intros a Ha Hl. apply K1; [apply HG, Ha | exact Hl]. }
  assert (L1 : (length (heap s) <= length (heap s1))%nat) by apply K1.
  assert (Hold : forall v, val_in old v ->
            val_in (old_but (length (heap s1)) r' p) v).
  { intros v Hv. eapply val_in_mono; [|exact Hv].
    intros a (Ha & Har & Hap). repeat split; [lia | lia | exact Hap]. }
  assert (Hnew : forall a, (length (heap s) <= a < r')%nat ->
            old_but (length (heap s1)) r' p a).
  { intros a Ha. repeat split; lia. }
  set (bq := field "required" fb) in *.
  set (bp := field "properties" fb) in *.
  assert (Hbq : val_in G bq) by (apply field_val_in, Hal).
  assert (Hbp : val_in G bp) by (apply field_val_in, Hal).
  assert (Hh0 : forall v, val_in G v ->
            as_array (heap s) v = as_array h0 v /\
            own_props (heap s) v = own_props h0 v).
  { intros v Hv. split.
    - apply as_array_agree. intros a ->. apply K; [exact Hv | apply Hv].
    - apply own_props_agree. intros a ->. apply K; [exact Hv | apply Hv]. }
  assert (Hitems : required_items h0 b.2 =
            if is_undef bq then []
            else match as_array (heap s) bq with
                 | Some l => l
                 | None => [bq]
                 end).
  { rewrite Hb. unfold required_items. simpl. rewrite Hab. fold bq.
    rewrite (proj1 (Hh0 _ Hbq)). reflexivity. }
  assert (Hq1 : Q -> val_in (old_but (length (heap s1)) r' p)
                       (field "required" fr') /\
                     elements_of (heap s1) (field "required" fr') =
                       Some (rxs ++ required_items h0 b.2)).
  { intros HQ'. destruct (HQ HQ') as [Hsq Hel].
    rewrite Hitems. destruct (is_undef bq).
    - rewrite Hq', app_nil_r. split; [apply Hold, Hsq|].
      rewrite <- Hel. unfold elements_of.
      destruct (truthy (field "required" fr)); [|reflexivity].
      apply as_array_agree. intros a Ea. rewrite Ea in Hsq.
      apply K1; [exact Hsq | apply Hsq].
    - destruct (Hq' rxs Hsq Hel) as (a & -> & La & Hac).
      split; [apply Hnew, La|].
      unfold elements_of. simpl. rewrite Hac. reflexivity. }
  assert (Ho1 : O -> val_in (old_but (length (heap s1)) r' p)
                       (field "properties" fr') /\
                     fields_of (heap s1) (field "properties" fr') =
                       Some (merged_properties h0 rps b.2)).
  { intros HO'. destruct (HO HO') as [Hso Hfl].
    rewrite Hb. unfold merged_properties. simpl. rewrite Hab. fold bp.
    destruct (is_undef bp).
    - rewrite Ho'. split; [apply Hold, Hso|].
      rewrite <- Hfl. unfold fields_of.
      destruct (truthy (field "properties" fr)); [|reflexivity].
      apply own_props_agree. intros a Ea. rewrite Ea in Hso.
      apply K1; [exact Hso | apply Hso].
    - destruct Ho' as (o & fbase & fbp & -> & Lo & Hoc & Hfbp & Hbase).
      split; [apply Hnew, Lo|].
      rewrite <- (proj2 (Hh0 _ Hbp)), Hfbp.
      assert (fbase = rps) as -> by (specialize (Hbase Hso); congruence).
      unfold fields_of. simpl. rewrite Hoc. reflexivity. }
  eapply run_ok_weaken;
    [intros ? HP; exact HP
    | apply (IH r' fr' _ _ _ s1 K'
               (or_intror (Nat.le_trans _ _ _ L0 (proj1 Lr')))
               Lp Hr' Hpr' Hp' Hbs Hq1 Ho1)|].
  intros v s2 _ (r2 & fr2 & -> & Hr2 & Hc2 & He2 & Hf2).
  exists r2, fr2. split; [reflexivity|]. split; [exact Hr2|].
  split; [exact Hc2|]. split; [|exact Hf2].
  intros HQ'. destruct (He2 HQ') as [Hv2 He2']. split; [exact Hv2|].
  rewrite He2', <- app_assoc. reflexivity.
Qed.

End FoldContent.

Section MergeContent.

Variable JsonPointer_get : list cell -> val -> string -> option val.
Variable isNamedDefinition : val -> bool.
Variable JsonPointer_baseName : val -> option string.
Variable spec : val.

Abbreviation mergeAllOf :=
  (mergeAllOf JsonPointer_get isNamedDefinition JsonPointer_baseName spec).

(** A merge, from what the map over [allOf] collected: the loop
    starts from the schema's own [required] and [properties]. *)
Lemma mergeAllOf_content (Q O : Prop) (fuel a : nat) (ref recv v : val)
    (force : bool) (fs : list (string * val)) (bs : list (val * val))
    (base : list val) (pbase : list (string * val)) (s s1 s' : state) :
  heap s !! a = Some (CObj fs) -> field "allOf" fs <> VUndef ->
  collect_branches JsonPointer_get spec
    (fun resolved subRef => mergeAllOf fuel resolved subRef force)
    fuel (VRef a) (field "allOf" fs) force s = (Ret (recv, bs), s1) ->
  Forall (fun b => apart (heap s1) (S (length (heap s))) (length (heap s)) b.2)
    bs ->
  (Q -> elements_of (heap s) (field "required" fs) = Some base) ->
  (O -> fields_of (heap s) (field "properties" fs) = Some pbase) ->
  mergeAllOf (S fuel) (VRef a) ref force s = (Ret v, s') ->
  exists (r' : nat) (fr' : list (string * val)),
    v = VRef r' /\ heap s' !! r' = Some (CObj fr') /\
    (Q -> elements_of (heap s') (field "required" fr') =
            Some (base ++
                  flat_map (fun b => required_items (heap s1) b.2) bs)) /\
    (O -> fields_of (heap s') (field "properties" fr') =
            Some (fold_left
                    (fun acc b => merged_properties (heap s1) acc b.2)
                    bs pbase)).
Proof.
  intros Ha Hdef Hcol Hbs HQ HO Hrun. cbn [mergeAllOf] in Hrun.
  apply bind_ret_inv in Hrun as (allOf & s0 & Hg & Hrun).
  unfold get_prop, reading in Hg. simpl in Hg. rewrite Ha in Hg.
  injection Hg as <- <-.
  unfold is_undef in Hrun. rewrite bool_decide_eq_false_2 in Hrun by assumption.
  apply bind_ret_inv in Hrun as ([recv' bs'] & s1' & Hcol' & Hrun).
  rewrite Hcol in Hcol'. injection Hcol' as <- <- <-.
  apply bind_ret_inv in Hrun as (recv_f & s2 & Hfold & Hrun).
  apply bind_ret_inv in Hrun as ([] & s3 & Hname & Hrun).
  injection Hrun as <- <-. cbn [fst snd] in Hfold.
  assert (Hown : own_props (heap s) (VRef a) = Some fs)
    by (simpl; rewrite Ha; reflexivity).
  destruct (collect_branches_receiver _ _ _ _ _ _ _ _ _ _ _ _ _ Hown Hcol)
    as (-> & L1 & Hr1 & xs & Hp1).
  destruct (run_ok_inv _ _ _ _ _ _
              (collect_branches_keeps JsonPointer_get spec _
                 (fun resolved subRef s =>
                    run_ok_weaken _ _ _ _ _ (fun _ _ => True)
                      (fun _ HP => HP)
                      (mergeAllOf_keeps JsonPointer_get isNamedDefinition
                         JsonPointer_baseName spec fuel resolved subRef
                         force s)
                      (fun _ _ _ _ => I))
                 fuel (VRef a) (field "allOf" fs) force s) Hcol)
    as (K1 & _).
  set (n := length (heap s)) in *.
  set (fr := obj_set "parentRefs" (VRef n) _) in *.
  assert (Hpr : field "parentRefs" fr = VRef n)
    by (unfold fr; rewrite field_set; reflexivity).
  assert (Hsame : forall k, k <> "parentRefs"%string -> k <> "allOf"%string ->
            field k fr = field k fs).
  { intros k H1 H2. unfold fr. rewrite !field_set.
    destruct (decide (k = "parentRefs"%string)); [contradiction|].
    destruct (decide (k = "allOf"%string)); [contradiction|].
    apply field_spread_nil. }
  assert (Hin : forall x, (x < n)%nat ->
            old_but (length (heap s1)) (S n) n x).
  { intros x Hx. repeat split; lia. }
  assert (HQ1 : Q ->
            val_in (old_but (length (heap s1)) (S n) n)
              (field "required" fr) /\
            elements_of (heap s1) (field "required" fr) = Some base).
  { intros HQ'. specialize (HQ HQ'). rewrite Hsame by discriminate.
    unfold elements_of in *.
    destruct (field "required" fs) as [| | | | |x] eqn:E; simpl in *;
      try (split; [exact I | exact HQ]).
    destruct (heap s !! x) as [c|] eqn:Ex; [|discriminate].
    pose proof (lookup_lt_Some _ _ _ Ex) as Lx. split; [apply Hin, Lx|].
    rewrite (proj2 K1 x I Lx), Ex. exact HQ. }
  assert (HO1 : O ->
            val_in (old_but (length (heap s1)) (S n) n)
              (field "properties" fr) /\
            fields_of (heap s1) (field "properties" fr) = Some pbase).
  { intros HO'. specialize (HO HO'). rewrite Hsame by discriminate.
    unfold fields_of in *.
    destruct (field "properties" fs) as [| | | | |x] eqn:E; simpl in *;
      try (split; [exact I | exact HO]).
    destruct (heap s !! x) as [c|] eqn:Ex; [|discriminate].
    pose proof (lookup_lt_Some _ _ _ Ex) as Lx. split; [apply Hin, Lx|].
    rewrite (proj2 K1 x I Lx), Ex. exact HO. }
  destruct (run_ok_inv _ _ _ _ _ _
              (fold_branches_content isNamedDefinition JsonPointer_baseName
                 Q O ref (heap s1) (S n) n bs (S n) fr xs base pbase s1
                 (keeps_refl _ _) (or_introl eq_refl)
                 (Nat.lt_le_trans _ _ _ (Nat.lt_succ_diag_r _)
                    (Nat.le_trans _ _ _ (Nat.le_succ_diag_r _) L1))
                 Hr1 Hpr Hp1 Hbs HQ1 HO1) Hfold)
    as (K2 & r' & fr' & -> & Hr' & Hc & He & Hf).
  destruct (run_ok_inv _ _ _ _ _ _
              (run_ok_name_top_level isNamedDefinition JsonPointer_baseName
                 r' (VRef a) ref fr' s2 Hc) Hname)
    as (K3 & t & _ & L3 & Hfin).
  eexists r', _. split; [reflexivity|]. split; [exact Hfin|].
  assert (Hf3 : forall k, k <> "title"%string ->
            field k (if is_undef t && isNamedDefinition ref
                     then obj_set "title"
                            (base_title JsonPointer_baseName ref) fr'
                     else fr') = field k fr').
  { intros k Hk. destruct (_ && _); [|reflexivity]. rewrite field_set.
    destruct (decide (k = "title"%string)); [contradiction | reflexivity]. }
  assert (Hk3 : forall x, old_but (length (heap s2)) r' n x ->
            heap s3 !! x = heap s2 !! x).
  { intros x (Hx & Hxr & _). apply K3; [|exact Hx].
    intros Hin'. apply list_elem_of_singleton in Hin'. contradiction. }
  split.
  - intros HQ'. destruct (He HQ') as [Hv He']. rewrite Hf3 by discriminate.
    rewrite <- He'. unfold elements_of.
    destruct (truthy (field "required" fr')); [|reflexivity].
    apply as_array_agree. intros x Ex. rewrite Ex in Hv. apply Hk3, Hv.
  - intros HO'. destruct (Hf HO') as [Hv Hf']. rewrite Hf3 by discriminate.
    rewrite <- Hf'. unfold fields_of.
    destruct (truthy (field "properties" fr')); [|reflexivity].
    apply own_props_agree. intros x Ex. rewrite Ex in Hv. apply Hk3, Hv.
Qed.

(** X18. [required] of a merged schema is a concatenation: when the
    schema's own [required] is an array or absent, and every branch
    the map over [allOf] collected is an object apart from the
    receiver, the schema returned has for [required] the elements of
    the schema's own, then what each branch contributes, in the order
    of [allOf]: nothing for a branch without [required], the elements
    of an array, and any other value as one element.  Nothing is
    removed, and an element named twice stays twice. *)
Theorem mergeAllOf_required_concat (fuel a : nat) (ref recv v : val)
    (force : bool) (fs : list (string * val)) (bs : list (val * val))
    (base : list val) (s s1 s' : state) :
  heap s !! a = Some (CObj fs) -> field "allOf" fs <> VUndef ->
  collect_branches JsonPointer_get spec
    (fun resolved subRef => mergeAllOf fuel resolved subRef force)
    fuel (VRef a) (field "allOf" fs) force s = (Ret (recv, bs), s1) ->
  Forall (fun b => apart (heap s1) (S (length (heap s))) (length (heap s)) b.2)
    bs ->
  elements_of (heap s) (field "required" fs) = Some base ->
  mergeAllOf (S fuel) (VRef a) ref force s = (Ret v, s') ->
  exists (r' : nat) (fr' : list (string * val)),
    v = VRef r' /\ heap s' !! r' = Some (CObj fr') /\
    elements_of (heap s') (field "required" fr') =
      Some (base ++ flat_map (fun b => required_items (heap s1) b.2) bs).
Proof.
  intros Ha Hdef Hcol Hbs Hel Hrun.
  destruct (mergeAllOf_content True False fuel a ref recv v force fs bs
              base [] s s1 s' Ha Hdef Hcol Hbs (fun _ => Hel)
              (fun F : False => match F with end) Hrun)
    as (r' & fr' & Hv & Hr' & He & _).
  exists r', fr'. split; [exact Hv|]. split; [exact Hr'|]. exact (He I).
Qed.

Lemma obj_get_merged_properties (k : string) (h : list cell)
    (bs : list (val * val)) :
  forall acc : list (string * val),
  obj_get k (fold_left (fun acc b => merged_properties h acc b.2) bs acc) =
  fold_left (fun o b => merged_property k h o b.2) bs (obj_get k acc).
Proof.
  induction bs as [|b bs IH]; intros acc; simpl; [reflexivity|].
  rewrite IH. f_equal. unfold merged_properties, merged_property.
  destruct (getp h b.2 "properties") as [bp| |]; try reflexivity.
  destruct (is_undef bp); [reflexivity|].
  destruct (own_props h bp) as [pb|]; [|reflexivity].
  rewrite obj_get_spread, obj_get_spread_nil. reflexivity.
Qed.

(** X19. [properties] of a merged schema is a union in which the
    later wins: when the schema's own [properties] is an object or
    absent, and every branch the map over [allOf] collected is an
    object apart from the receiver, the schema returned has for
    [properties] an object that holds, under each key, the value
    that the last of the schema itself and the branches, in the order
    of [allOf], declares for that key in its [properties], and no
    other key.  The values that two of them declare under one key are
    not merged. *)
Theorem mergeAllOf_properties_union (fuel a : nat) (ref recv v : val)
    (force : bool) (fs : list (string * val)) (bs : list (val * val))
    (pbase : list (string * val)) (s s1 s' : state) :
  heap s !! a = Some (CObj fs) -> field "allOf" fs <> VUndef ->
  collect_branches JsonPointer_get spec
    (fun resolved subRef => mergeAllOf fuel resolved subRef force)
    fuel (VRef a) (field "allOf" fs) force s = (Ret (recv, bs), s1) ->
  Forall (fun b => apart (heap s1) (S (length (heap s))) (length (heap s)) b.2)
    bs ->
  fields_of (heap s) (field "properties" fs) = Some pbase ->
  mergeAllOf (S fuel) (VRef a) ref force s = (Ret v, s') ->
  exists (r' : nat) (fr' ps : list (string * val)),
    v = VRef r' /\ heap s' !! r' = Some (CObj fr') /\
    fields_of (heap s') (field "properties" fr') = Some ps /\
    forall k : string,
      obj_get k ps =
      fold_left (fun o b => merged_property k (heap s1) o b.2) bs
        (obj_get k pbase).
Proof.
  intros Ha Hdef Hcol Hbs Hfl Hrun.
  destruct (mergeAllOf_content False True fuel a ref recv v force fs bs
              [] pbase s s1 s' Ha Hdef Hcol Hbs
              (fun F : False => match F with end) (fun _ => Hfl) Hrun)
    as (r' & fr' & Hv & Hr' & _ & Hf).
  exists r', fr'. eexists. split; [exact Hv|]. split; [exact Hr'|].
  split; [exact (Hf I)|]. intros k. apply obj_get_merged_properties.
Qed.

End MergeContent.

Lemma mergeAllOf_required_concat_witness :
  let run := mergeAllOf Utils.get Utils.isNamedDefinition Utils.baseName
               Examples.tagged_root 4
               (Examples.tagged_at "#/components/schemas/Tagged")
               (VStr "#/components/schemas/Tagged") false
               Examples.tagged_start in
  exists (r' : nat) (fr' : list (string * val)),
    run.1 = Ret (VRef r') /\ heap run.2 !! r' = Some (CObj fr') /\
    elements_of (heap run.2) (field "required" fr') =
      Some [VStr "tag"; VStr "name"; VStr "name"; VStr "tag"].
Proof.
  intros run.
  set (bs := [(VStr "#/components/schemas/Named", VRef 3);
              (VUndef, VRef 12)]).
  set (col := collect_branches Utils.get Examples.tagged_root
                (fun resolved subRef =>
                   mergeAllOf Utils.get Utils.isNamedDefinition Utils.baseName
                     Examples.tagged_root 3 resolved subRef false)
                3 (VRef 14) (VRef 13) false Examples.tagged_start).
  assert (Hcol : col = (Ret (VRef 19, bs), col.2)) by (vm_compute; reflexivity).
  assert (Hrun : run = (Ret (VRef 27), run.2)) by (vm_compute; reflexivity).
  destruct (mergeAllOf_required_concat Utils.get Utils.isNamedDefinition
              Utils.baseName Examples.tagged_root 3 14
              (VStr "#/components/schemas/Tagged") (VRef 19) (VRef 27) false
              [("required", VRef 4); ("properties", VRef 7);
               ("allOf", VRef 13)]%string
              bs [VStr "tag"] Examples.tagged_start col.2 run.2)
    as (r' & fr' & Hv & Hr' & He).
  - vm_compute. reflexivity.
  - discriminate.
  - exact Hcol.
  - repeat (apply Forall_cons_2 || apply Forall_nil_2).
    + exists 3%nat, [("type", VStr "object"); ("properties", VRef 1);
                     ("required", VRef 2)]%string.
      split; [reflexivity|]. split; [vm_compute; lia|].
      split; [vm_compute; reflexivity|].
      repeat (apply Forall_cons_2 || apply Forall_nil_2);
        try exact I; vm_compute; lia.
    + exists 12%nat, [("required", VRef 9); ("properties", VRef 11)]%string.
      split; [reflexivity|]. split; [vm_compute; lia|].
      split; [vm_compute; reflexivity|].
      repeat (apply Forall_cons_2 || apply Forall_nil_2);
        try exact I; vm_compute; lia.
  - vm_compute. reflexivity.
  - exact Hrun.
  - exists r', fr'. split; [rewrite Hrun, Hv; reflexivity|].
    split; [exact Hr'|]. rewrite He. vm_compute. reflexivity.
Defined.

Lemma mergeAllOf_properties_union_witness :
  let run := mergeAllOf Utils.get Utils.isNamedDefinition Utils.baseName
               Examples.tagged_root 4
               (Examples.tagged_at "#/components/schemas/Tagged")
               (VStr "#/components/schemas/Tagged") false
               Examples.tagged_start in
  exists (r' : nat) (fr' ps : list (string * val)),
    run.1 = Ret (VRef r') /\ heap run.2 !! r' = Some (CObj fr') /\
    fields_of (heap run.2) (field "properties" fr') = Some ps /\
    obj_get "tag" ps =
      Some (Examples.tagged_at
              "#/components/schemas/Tagged/allOf/1/properties/tag") /\
    obj_get "name" ps =
      Some (Examples.tagged_at
              "#/components/schemas/Named/properties/name") /\
    obj_get "id" ps = None.
Proof.
  intros run.
  set (bs := [(VStr "#/components/schemas/Named", VRef 3);
              (VUndef, VRef 12)]).
  set (col := collect_branches Utils.get Examples.tagged_root
                (fun resolved subRef =>
                   mergeAllOf Utils.get Utils.isNamedDefinition Utils.baseName
                     Examples.tagged_root 3 resolved subRef false)
                3 (VRef 14) (VRef 13) false Examples.tagged_start).
  assert (Hcol : col = (Ret (VRef 19, bs), col.2)) by (vm_compute; reflexivity).
  assert (Hrun : run = (Ret (VRef 27), run.2)) by (vm_compute; reflexivity).
  destruct (mergeAllOf_properties_union Utils.get Utils.isNamedDefinition
              Utils.baseName Examples.tagged_root 3 14
              (VStr "#/components/schemas/Tagged") (VRef 19) (VRef 27) false
              [("required", VRef 4); ("properties", VRef 7);
               ("allOf", VRef 13)]%string
              bs [("tag", VRef 5); ("name", VRef 6)]%string
              Examples.tagged_start col.2 run.2)
    as (r' & fr' & ps & Hv & Hr' & He & Hk).
  - vm_compute. reflexivity.
  - discriminate.
  - exact Hcol.
  - repeat (apply Forall_cons_2 || apply Forall_nil_2).
    + exists 3%nat, [("type", VStr "object"); ("properties", VRef 1);
                     ("required", VRef 2)]%string.
      split; [reflexivity|]. split; [vm_compute; lia|].
      split; [vm_compute; reflexivity|].
      repeat (apply Forall_cons_2 || apply Forall_nil_2);
        try exact I; vm_compute; lia.
    + exists 12%nat, [("required", VRef 9); ("properties", VRef 11)]%string.
      split; [reflexivity|]. split; [vm_compute; lia|].
      split; [vm_compute; reflexivity|].
      repeat (apply Forall_cons_2 || apply Forall_nil_2);
        try exact I; vm_compute; lia.
  - vm_compute. reflexivity.
  - exact Hrun.
  - exists r', fr', ps. split; [rewrite Hrun, Hv; reflexivity|].
    split; [exact Hr'|]. split; [exact He|].
    rewrite !Hk. vm_compute. repeat split; reflexivity.
Defined.

(* ================================================================== *)
(** * The counter and [parentRefs]                                      *)
(* ================================================================== *)

Lemma listed_nil (x : string) : listed x [] = 0%Z.
Proof. reflexivity. Qed.

Lemma listed_app (x : string) (l1 l2 : list val) :
  listed x (l1 ++ l2) = (listed x l1 + listed x l2)%Z.
Proof.
  unfold listed. rewrite (filter_app (fun v => v = VStr x)), length_app. lia.
Qed.

Lemma listed_one (x p : string) :
  listed x [VStr p] = if decide (x = p) then 1%Z else 0%Z.
Proof.
  unfold listed. rewrite (filter_cons (fun v => v = VStr x)), filter_nil.
  destruct (decide (VStr p = VStr x)) as [E|E];
    destruct (decide (x = p)) as [E'|E']; try reflexivity.
  - injection E as ->. contradiction.
  - subst. contradiction.
Qed.

Lemma plain_store_plain (h : list cell) :
  plain_store h = true -> plain (length h) h.
Proof.
  unfold plain_store. rewrite forallb_forall. intros H a fs _ Ha.
  specialize (H (CObj fs)). simpl in H.
  apply andb_prop in H as [H1 H2].
  - unfold is_undef in H1. apply bool_decide_eq_true_1 in H1.
    split; [exact H1|]. unfold ref_value.
    destruct (field "$ref" fs) as [| | | |p|]; try discriminate; auto.
    right. right. exists p. split; [reflexivity|].
    apply negb_true_iff in H2. apply bool_decide_eq_false_1 in H2. exact H2.
  - apply list_elem_of_In. eapply list_elem_of_lookup_2, Ha.
Qed.

Lemma plain_keeps (P : nat -> Prop) (n : nat) (h h' : list cell) :
  plain n h -> keeps P h h' -> (forall a, (a < n)%nat -> P a) ->
  (n <= length h)%nat -> plain n h'.
Proof.
  intros Hp K HP Hn a fs Ha Hl. apply (Hp a fs Ha).
  rewrite <- Hl. symmetry. apply K; [apply HP, Ha | lia].
Qed.

Lemma clean_old (n : nat) (h : list cell) (v : val) :
  closed (below n) h -> plain n h -> val_in (below n) v -> clean n h v.
Proof.
  intros Hc Hp Hv a fs -> Ha. split; [apply (Hp a fs Hv Ha)|].
  apply (closed_getp (below n) h (VRef a) _ "allOf" Hc Hv).
  simpl. rewrite Ha. reflexivity.
Qed.

Lemma parent_items_clean (n : nat) (h : list cell) (v : val) :
  clean n h v -> parent_items h v = [].
Proof.
  intros Hc. unfold parent_items.
  destruct v as [| | | | |a]; try reflexivity. simpl.
  destruct (h !! a) as [[fs|xs]|] eqn:E; try reflexivity.
  destruct (Hc a fs eq_refl E) as [-> _]. reflexivity.
Qed.

(** ** Computations that leave the counter alone *)

Lemma rc_same_bind {A B} (m : M A) (k : A -> M B) :
  rc_same m -> (forall a, rc_same (k a)) -> rc_same (bind m k).
Proof.
  intros Hm Hk s. unfold bind. specialize (Hm s).
  destruct (m s) as [[a|e|w] s1]; simpl in *; [rewrite Hk|..]; exact Hm.
Qed.

Lemma rc_same_ret {A} (a : A) : rc_same (ret a).
Proof. intros s. reflexivity. Qed.

Lemma rc_same_throw {A} (e : error) : rc_same (@throw A e).
Proof. intros s. reflexivity. Qed.

Lemma rc_same_stop {A} (w : halt) : rc_same (@stop A w).
Proof. intros s. reflexivity. Qed.

Lemma rc_same_reading {A} (f : list cell -> outcome A) : rc_same (reading f).
Proof. intros s. reflexivity. Qed.

Lemma rc_same_alloc (c : cell) : rc_same (alloc c).
Proof. intros s. reflexivity. Qed.

Lemma rc_same_set_prop (o : val) (k : string) (v : val) :
  rc_same (set_prop o k v).
Proof.
  intros s. unfold set_prop.
  destruct o; try reflexivity. destruct (heap s !! a) as [[?|?]|]; reflexivity.
Qed.

Lemma rc_same_array_push (o : val) (items : list val) :
  rc_same (array_push o items).
Proof.
  intros s. unfold array_push.
  destruct o; try reflexivity. destruct (heap s !! a) as [[?|?]|]; reflexivity.
Qed.

Lemma rc_same_js_concat (base arg : val) : rc_same (js_concat base arg).
Proof.
  intros s. unfold js_concat.
  destruct base; try reflexivity.
  - destruct (to_string arg); reflexivity.
  - destruct (heap s !! a) as [[?|?]|]; try reflexivity.
    destruct arg; try reflexivity.
    destruct (heap s !! a0) as [[?|?]|]; reflexivity.
Qed.

Create HintDb rc discriminated.
#[local] Hint Resolve rc_same_ret rc_same_throw rc_same_stop rc_same_reading
  rc_same_alloc rc_same_set_prop rc_same_array_push rc_same_js_concat : rc.

(** Split a computation at its binds and conditionals. *)
Ltac rc_steps :=
  repeat first
    [ progress eauto 2 with rc
    | apply rc_same_bind; [|intros ?]
    | match goal with
      | |- rc_same (if ?b then _ else _) => destruct b
      | |- rc_same (match ?x with _ => _ end) => destruct x
      end ].

Lemma run_ok_rc {A} (P : nat -> Prop) (m : M A) (s : state)
    (Q : A -> state -> Prop) :
  rc_same m -> run_ok P m s Q ->
  run_ok P m s (fun a s' => Q a s' /\ refCounter s' = refCounter s).
Proof.
  intros Hm [K HQ]. split; [exact K|]. specialize (Hm s).
  destruct (m s) as [[a|e|w] s1]; simpl in *; auto.
Qed.

Lemma run_ok_of_ret {A} (P : nat -> Prop) (m : M A) (s : state)
    (Q : A -> state -> Prop) :
  keeps P (heap s) (heap (m s).2) ->
  (forall a s', m s = (Ret a, s') -> Q a s') -> run_ok P m s Q.
Proof.
  intros K H. split; [exact K|].
  destruct (m s) as [[a|e|w] s1] eqn:E; simpl; auto.
Qed.

Section RcFold.

Variable isNamedDefinition : val -> bool.
Variable JsonPointer_baseName : val -> option string.

Lemma rc_same_fold_branches (ref : val) (bs : list (val * val)) :
  forall receiver,
  rc_same (fold_branches isNamedDefinition JsonPointer_baseName ref
             receiver bs).
Proof.
  induction bs as [|b bs IH]; intros receiver; simpl; [apply rc_same_ret|].
  apply rc_same_bind; [|intros r; apply IH].
  unfold fold_branch, check_types, merge_type, merge_properties,
    merge_required, merge_rest, note_parent, props_of, get_prop.
  rc_steps.
Qed.

Lemma rc_same_name_top_level (schema ref receiver : val) :
  rc_same (name_top_level isNamedDefinition JsonPointer_baseName schema ref
             receiver).
Proof. unfold name_top_level, get_prop. rc_steps. Qed.

End RcFold.

(** ** Index keys are numerals *)

Lemma pretty_N_go_head (x : N) :
  forall s c rest,
  (forall c' rest', s = String c' rest' ->
     exists d, (d < 10)%N /\ c' = pretty_N_char d) ->
  pretty_N_go x s = String c rest ->
  exists d, (d < 10)%N /\ c = pretty_N_char d.
Proof.
  induction (N.lt_wf_0 x) as [x _ IH]. intros s c rest Hs E.
  assert (x = 0 \/ 0 < x)%N as [->|Hx] by lia.
  - rewrite pretty_N_go_0 in E. eauto.
  - rewrite pretty_N_go_step in E by exact Hx.
    eapply (IH (x `div` 10)%N); [|intros c' rest' E'|exact E].
    + apply N.div_lt; lia.
    + exists (x `mod` 10)%N. split; [apply N.mod_lt; discriminate|].
      congruence.
Qed.

Lemma pretty_nat_head (i : nat) (c : ascii) (rest : string) :
  pretty i = String c rest -> exists d, (d < 10)%N /\ c = pretty_N_char d.
Proof.
  unfold pretty, pretty_nat, pretty, pretty_N.
  destruct (decide (N.of_nat i = 0%N)).
  - intros [= <- _]. exists 0%N. split; [lia | reflexivity].
  - apply pretty_N_go_head. discriminate.
Qed.

(** A name that starts with a letter is no index. *)
Lemma obj_get_index_keys (c : ascii) (rest : string) (vs : list val) :
  (forall d, (d < 10)%N -> c <> pretty_N_char d) ->
  obj_get (String c rest) (index_keys vs) = None.
Proof.
  intros Hc. unfold index_keys.
  assert (H : forall g : nat -> nat,
            obj_get (String c rest) (imap (fun i v => (pretty (g i), v)) vs)
            = None).
  { induction vs as [|v vs IH]; intros g; simpl; [reflexivity|].
    destruct (decide (String c rest = pretty (g 0%nat))) as [E|_].
    - symmetry in E. apply pretty_nat_head in E as (d & Hd & ->).
      destruct (Hc d Hd eq_refl).
    - apply (IH (g ∘ S)). }
  apply (H id).
Qed.

Lemma letter_no_digit (c : ascii) :
  (Ascii.nat_of_ascii c < 48 \/ 57 < Ascii.nat_of_ascii c)%nat ->
  forall d, (d < 10)%N -> c <> pretty_N_char d.
Proof.
  intros Hc d Hd ->. unfold pretty_N_char in Hc.
  repeat case_match;
    match type of Hc with
    | context [Ascii.nat_of_ascii ?c] =>
        let k := eval vm_compute in (Ascii.nat_of_ascii c) in
        change (Ascii.nat_of_ascii c) with k in Hc
    end; lia.
Qed.

(** What a copy of a node of the document declares. *)
Lemma own_props_clean (n : nat) (h : list cell) (v : val)
    (fs : list (string * val)) :
  closed (below n) h -> plain n h -> val_in (below n) v ->
  own_props h v = Some fs ->
  field "parentRefs" fs = VUndef /\ val_in (below n) (field "allOf" fs).
Proof.
  intros Hc Hp Hv Hfs.
  assert (Hidx : forall vs,
            field "parentRefs" (index_keys vs) = VUndef /\
            val_in (below n) (field "allOf" (index_keys vs))).
  { intros vs. unfold field.
    rewrite !obj_get_index_keys by (apply letter_no_digit; vm_compute; lia).
    split; [reflexivity | exact I]. }
  destruct v as [| | | |t|a]; simpl in Hfs; try (injection Hfs as <-);
    try (split; [reflexivity | exact I]); try apply Hidx.
  destruct (h !! a) as [[fs'|vs]|] eqn:Ea; try discriminate;
    injection Hfs as <-; [|apply Hidx].
  apply (clean_old n h (VRef a) Hc Hp Hv a fs' eq_refl Ea).
Qed.

Section DerefCount.

Variable JsonPointer_get : list cell -> val -> string -> option val.
Variable spec : val.
Hypothesis get_reaches : reaches JsonPointer_get.

Variable n0 : nat.

Abbreviation deref := (deref JsonPointer_get spec).
Abbreviation byRef := (byRef JsonPointer_get spec).

(** What [deref] returns declares no [parentRefs]: it is a node of
    the document or a copy of one. *)
Lemma deref_clean (fuel : nat) :
  forall (obj : val) (force : bool) (s : state),
  closed (below n0) (heap s) -> plain n0 (heap s) ->
  val_in (below n0) spec -> val_in (below n0) obj ->
  run_ok all (deref fuel obj force) s (fun v s' => clean n0 (heap s') v).
Proof.
  induction fuel as [|fuel IH]; intros obj force s Hc Hp Hs Ho; simpl.
  { apply run_ok_stop. }
  eapply run_ok_bind; [apply all_any | apply run_ok_same, heap_same_isRef|].
  intros b s1 _ [H1 _]. destruct b.
  2:{ apply run_ok_ret. rewrite H1. apply clean_old; assumption. }
  eapply run_ok_bind; [apply all_any | apply run_ok_same, heap_same_reading|].
  intros r s2 _ [H2 _].
  eapply run_ok_bind; [apply all_any | apply run_ok_same, heap_same_byRef|].
  intros resolved s3 _ [H3 Hb].
  assert (Hres : val_in (below n0) resolved).
  { eapply (byRef_reach JsonPointer_get spec get_reaches (below n0) r
              resolved s2 s3);
      [rewrite H2, H1; exact Hc | assumption | exact Hb]. }
  eapply run_ok_bind; [apply all_any | apply run_ok_same, heap_same_rc_visited|].
  intros visited s4 _ [H4 _].
  eapply run_ok_bind; [apply all_any | apply run_ok_same, heap_same_rc_visit|].
  intros [] s5 _ [H5 _].
  assert (E5 : heap s5 = heap s) by congruence.
  destruct (visited && negb force).
  { eapply run_ok_weaken; [apply all_any | apply run_ok_circular_copy|].
    intros v s' _ (fs & Hfs & -> & Hh & _). rewrite E5 in Hfs.
    intros a fs' [= <-]. rewrite Hh, lookup_snoc. intros [= <-].
    destruct (own_props_clean n0 _ _ _ Hc Hp Hres Hfs) as [Hq Ha].
    assert (Hk : forall k, k <> "x-circular-ref"%string ->
              field k (spread (spread [] fs)
                         [("x-circular-ref"%string, VBool true)]) =
              field k fs).
    { intros k Hk. rewrite field_spread. cbn [obj_get].
      destruct (decide (k = "x-circular-ref"%string)); [contradiction|].
      apply field_spread_nil. }
    rewrite !Hk by discriminate. auto. }
  eapply run_ok_bind; [apply all_any | apply run_ok_same, heap_same_isRef|].
  intros b' s6 _ [H6 _]. destruct b'.
  2:{ apply run_ok_ret. rewrite H6, E5. apply clean_old; assumption. }
  assert (E6 : heap s6 = heap s) by congruence.
  eapply run_ok_bind;
    [apply all_any | apply (IH resolved false s6); rewrite ?E6; assumption|].
  intros res s7 _ Hok.
  eapply run_ok_bind; [apply all_any | apply run_ok_same, heap_same_exitRef|].
  intros [] s8 _ [H8 _]. apply run_ok_ret. rewrite H8. exact Hok.
Qed.

(** The counter after [deref] of a node of the document: one more
    visit of the pointer that [subSchema.$ref || undefined] is. *)
Lemma deref_counts_plain (fuel : nat) (obj : val) (force : bool) (s : state) :
  RefCounter.wf (refCounter s) -> plain n0 (heap s) ->
  val_in (below n0) obj ->
  run_ok all (deref fuel obj force) s
    (fun _ s' => RefCounter.wf (refCounter s') /\
       forall sr, getp (heap s) obj "$ref" = Ret sr ->
       rises (refCounter s) (refCounter s')
         (fun x => listed x (if truthy (js_or sr VUndef)
                             then [js_or sr VUndef] else []))).
Proof.
  intros Hwf Hp Ho. apply run_ok_of_ret.
  { apply (deref_keeps JsonPointer_get spec fuel obj force s). }
  intros v s' E. split.
  { pose proof (counter_ok_wf _ s
                  (counter_ok_deref JsonPointer_get spec fuel obj force) Hwf)
      as H. rewrite E in H. exact H. }
  intros sr Hsr x Hx.
  destruct (deref_counts JsonPointer_get spec fuel obj v force s s' Hwf E)
    as [[Hn ->] | (r & k & Hi & Hr & Hk & Hc)].
  - unfold is_reference in Hn. rewrite Hsr in Hn.
    assert (Hf : truthy (js_or sr VUndef) = false).
    { unfold js_or. destruct (truthy sr) eqn:Et; [|reflexivity].
      destruct (negb (truthy obj)) eqn:Eo.
      - destruct obj as [| |b|z|t|a]; try discriminate; simpl in Hsr;
          injection Hsr as <-; discriminate.
      - injection Hn as Hn. apply andb_false_iff in Hn as [Hn|Hn];
          apply negb_false_iff, bool_decide_eq_true_1 in Hn; subst sr;
          discriminate. }
    rewrite Hf, listed_nil. split; [exact Hx | lia].
  - rewrite Hsr in Hr. injection Hr as <-.
    unfold is_reference in Hi. rewrite Hsr in Hi.
    destruct (negb (truthy obj)); [discriminate|]. injection Hi as Hi.
    apply andb_true_iff in Hi as [Hu Hnl].
    apply negb_true_iff, bool_decide_eq_false_1 in Hu.
    apply negb_true_iff, bool_decide_eq_false_1 in Hnl.
    destruct (getp_obj _ _ _ _ Hsr Hu) as (a & fs & -> & Ha & Hf).
    subst sr.
    destruct (Hp a fs Ho Ha) as [_ [Hv | [Hv | (p & Hv & Hne)]]];
      try contradiction.
    rewrite Hv in *. simpl in Hk. injection Hk as <-.
    assert (Ht : truthy (VStr p) = true).
    { simpl. rewrite bool_decide_eq_false_2 by exact Hne. reflexivity. }
    unfold js_or. rewrite Ht, Ht, listed_one. apply Hc, Hx.
Qed.

End DerefCount.

Lemma closed_below_length (n : nat) (h : list cell) :
  closed (below n) h -> (n <= length h)%nat.
Proof.
  intros Hc. destruct n as [|n]; [lia|].
  destruct (Hc n) as (c & Hl & _); [unfold below; lia|].
  apply lookup_lt_Some in Hl. lia.
Qed.

Section BranchCounts.

Variable JsonPointer_get : list cell -> val -> string -> option val.
Variable spec : val.
Hypothesis get_reaches : reaches JsonPointer_get.

Variable n0 : nat.

Variable merge : val -> val -> M val.
Hypothesis merge_ok :
  forall (G : nat -> Prop) (resolved subRef : val) (s : state),
  pr_ok G (heap s) resolved ->
  run_ok all (merge resolved subRef) s
    (fun v s' =>
       pr_ok (grow G (length (heap s)) (length (heap s'))) (heap s') v).
Hypothesis merge_counts :
  forall (resolved subRef : val) (s : state),
  RefCounter.wf (refCounter s) ->
  closed (below n0) (heap s) -> plain n0 (heap s) ->
  val_in (below n0) spec -> clean n0 (heap s) resolved ->
  run_ok all (merge resolved subRef) s
    (fun v s' => RefCounter.wf (refCounter s') /\
       rises (refCounter s) (refCounter s')
         (fun x => listed x (parent_items (heap s') v))).

(** One branch: the counter rises by what the branch adds to the
    receiver's [parentRefs] and by the pointer of the branch. *)
Lemma map_branch_counts (dfuel r p : nat) (force : bool)
    (sub : val) (fr : list (string * val)) (xs : list val) (s : state) :
  RefCounter.wf (refCounter s) ->
  closed (below n0) (heap s) -> plain n0 (heap s) ->
  val_in (below n0) spec -> val_in (below n0) sub ->
  (n0 <= p)%nat -> (p < r < length (heap s))%nat ->
  heap s !! r = Some (CObj fr) -> field "parentRefs" fr = VRef p ->
  heap s !! p = Some (CArr xs) ->
  run_ok (but [p])
    (map_branch JsonPointer_get spec merge dfuel (VRef r) force sub) s
    (fun b s' => RefCounter.wf (refCounter s') /\
       rises (refCounter s) (refCounter s')
         (fun x => (listed x (parent_items (heap s') b.2) +
                    listed x (if truthy b.1 then [b.1] else []))%Z)).
Proof.
  intros Hwf Hc Hpl Hs Hsub Hn Hrp Hr Hpr Hp. unfold map_branch.
  assert (HP : forall a, below n0 a -> (a < p)%nat)
    by (intros a Ha; unfold below in Ha; lia).
  eapply run_ok_bind;
    [apply all_any
    | apply run_ok_and;
        [apply run_ok_and;
           [apply (deref_reach JsonPointer_get spec get_reaches (below n0))
           |apply (deref_clean JsonPointer_get spec get_reaches n0)]
        |apply (deref_counts_plain JsonPointer_get spec n0)];
      assumption|].
  intros resolved s1 K1 [[Hres Hcl] [Hwf1 Hcnt1]].
  eapply run_ok_bind; [apply all_any | apply run_ok_reading|].
  intros sr s2 _ [-> Hsr].
  assert (Hsr0 : getp (heap s) sub "$ref" = Ret sr).
  { destruct sub as [| | | | |a]; try exact Hsr. simpl in Hsr |- *.
    destruct (Hc a Hsub) as (c & Ha & _).
    rewrite (keeps_lookup _ _ _ _ _ K1 I Ha) in Hsr. rewrite Ha. exact Hsr. }
  specialize (Hcnt1 sr Hsr0).
  assert (Hc1 : closed (below n0) (heap s1)).
  { eapply closed_keeps; [exact Hc | exact K1 | intros; exact I]. }
  assert (Hpl1 : plain n0 (heap s1)).
  { eapply plain_keeps; [exact Hpl | exact K1 | intros; exact I | lia]. }
  eapply run_ok_bind;
    [apply all_any
    | apply run_ok_and;
        [apply (merge_ok _ _ _ _ Hres)
        |apply (merge_counts resolved _ s1 Hwf1 Hc1 Hpl1 Hs Hcl)]|].
  intros subMerged s3 K3 [Hm [Hwf3 Hcnt3]].
  assert (L13 : (length (heap s) <= length (heap s1) <= length (heap s3))%nat).
  { split; [apply K1 | apply K3]. }
  assert (Hm3 : pr_ok (grow (below n0) (S r) (length (heap s3))) (heap s3)
                  subMerged).
  { eapply pr_ok_mono; [|exact Hm]. intros a [[Pa | Ha] | Ha].
    - left. exact Pa.
    - right. lia.
    - right. lia. }
  clear Hm Hres.
  assert (Hr3 : heap s3 !! r = Some (CObj fr)).
  { eapply keeps_lookup; [exact K3 | exact I|].
    eapply keeps_lookup; [exact K1 | exact I | exact Hr]. }
  assert (Hp3 : heap s3 !! p = Some (CArr xs)).
  { eapply keeps_lookup; [exact K3 | exact I|].
    eapply keeps_lookup; [exact K1 | exact I | exact Hp]. }
  eapply run_ok_bind; [apply all_any | apply run_ok_reading|].
  intros rp s4 _ [-> Hrp']. simpl in Hrp'. rewrite Hr3, Hpr in Hrp'.
  injection Hrp' as <-.
  eapply run_ok_bind; [apply all_any | apply run_ok_reading|].
  intros sp s4 _ [-> Hsp].
  eapply run_ok_bind; [apply all_any | apply run_ok_or_alloc|].
  intros src s6 K6 [Hrc6 Hsrc].
  eapply run_ok_bind; [apply all_any | apply run_ok_reading|].
  intros items s7 _ [-> Hitems].
  eapply run_ok_bind; [intros ? HP'; exact HP' | apply run_ok_array_push|].
  intros [] s8 _ (vs & Hvs & H8 & Hrc8).
  assert (E8 : forall a, grow (below n0) (S r) (length (heap s3)) a ->
                 heap s8 !! a = heap s3 !! a).
  { intros a Ga. assert (a <> p /\ (a < length (heap s3))%nat) as [Hap Hal].
    { destruct Ga as [Pa | Ha]; [specialize (HP a Pa)|]; lia. }
    rewrite H8, list_lookup_insert_ne by auto.
    apply K6; [exact I | exact Hal]. }
  apply run_ok_ret. cbn [fst snd]. rewrite Hrc8, Hrc6.
  split; [exact Hwf3|]. intros x Hx.
  destruct (Hcnt1 x Hx) as [Hx1 E1]. destruct (Hcnt3 x Hx1) as [Hx3 E3].
  split; [exact Hx3|].
  rewrite (parent_items_agree _ _ _ _ Hm3 E8), E3, E1. lia.
Qed.

(** The whole map over [allOf]. *)
Lemma map_each_branch_counts (dfuel r p : nat) (force : bool)
    (fr : list (string * val)) (subs : list val) :
  forall (xs : list val) (s : state),
  RefCounter.wf (refCounter s) ->
  closed (below n0) (heap s) -> plain n0 (heap s) ->
  val_in (below n0) spec -> Forall (val_in (below n0)) subs ->
  (n0 <= p)%nat -> (p < r < length (heap s))%nat ->
  heap s !! r = Some (CObj fr) -> field "parentRefs" fr = VRef p ->
  heap s !! p = Some (CArr xs) ->
  run_ok (but [p])
    (map_each (map_branch JsonPointer_get spec merge dfuel (VRef r) force)
       subs) s
    (fun bs s' => RefCounter.wf (refCounter s') /\
       rises (refCounter s) (refCounter s')
         (fun x =>
            (listed x (flat_map (fun b => parent_items (heap s') b.2) bs) +
             listed x (direct_refs bs))%Z)).
Proof.
  induction subs as [|sub subs IH];
    intros xs s Hwf Hc Hpl Hs Hsubs Hn Hrp Hr Hpr Hp; simpl.
  { apply run_ok_ret. split; [exact Hwf|]. intros x Hx.
    unfold direct_refs. simpl. rewrite listed_nil. split; [exact Hx | lia]. }
  apply Forall_cons_1 in Hsubs as [Hsub Hsubs].
  assert (HP : forall a, below n0 a -> (a < p)%nat)
    by (intros a Ha; unfold below in Ha; lia).
  eapply run_ok_bind;
    [intros ? HP'; exact HP'
    | apply run_ok_and;
        [apply (map_branch_items JsonPointer_get spec get_reaches merge
                  merge_ok (below n0) dfuel r p force sub fr xs s)
        |apply (map_branch_counts dfuel r p force sub fr xs s)];
      assumption|].
  intros b s1 K1 [(Hr1 & Hp1 & Hb1 & _) [Hwf1 Hcnt1]].
  assert (HPp : forall a, below n0 a -> but [p] a).
  { intros a Pa Hin. apply list_elem_of_singleton in Hin as ->.
    specialize (HP _ Pa). lia. }
  assert (L1 : (length (heap s) <= length (heap s1))%nat) by apply K1.
  eapply run_ok_bind;
    [intros ? HP'; exact HP'
    | apply (IH (xs ++ parent_items (heap s1) b.2) s1); try assumption|].
  { eapply closed_keeps; eauto. }
  { eapply plain_keeps; [exact Hpl | exact K1 | exact HPp|].
    pose proof (closed_below_length _ _ Hc). lia. }
  { lia. }
  intros bs s2 K2 [Hwf2 Hcnt2]. apply run_ok_ret.
  assert (E2 : forall a, grow (below n0) (S r) (length (heap s1)) a ->
                 heap s2 !! a = heap s1 !! a).
  { intros a Ga. apply K2.
    - intros Hin. apply list_elem_of_singleton in Hin as ->.
      destruct Ga as [Pa | Ha]; [specialize (HP _ Pa)|]; lia.
    - destruct Ga as [Pa | Ha]; [specialize (HP _ Pa)|]; lia. }
  split; [exact Hwf2|]. intros x Hx. simpl.
  destruct (Hcnt1 x Hx) as [Hx1 E1']. destruct (Hcnt2 x Hx1) as [Hx2 E2'].
  split; [exact Hx2|].
  change (direct_refs (b :: bs))
    with ((if truthy b.1 then [b.1] else []) ++ direct_refs bs).
  rewrite !listed_app, (parent_items_agree _ _ _ _ Hb1 E2), E2', E1'.
  lia.
Qed.

(** The first half of a merge. *)
Lemma collect_branches_counts (dfuel : nat) (schema allOf : val)
    (force : bool) (s : state) :
  RefCounter.wf (refCounter s) ->
  closed (below n0) (heap s) -> plain n0 (heap s) ->
  val_in (below n0) spec -> val_in (below n0) allOf ->
  run_ok all
    (collect_branches JsonPointer_get spec merge dfuel schema allOf force) s
    (fun c s' => exists fr,
       let p := length (heap s) in
       let r := S (length (heap s)) in
       c.1 = VRef r /\ (r < length (heap s'))%nat /\
       heap s' !! r = Some (CObj fr) /\ field "parentRefs" fr = VRef p /\
       heap s' !! p =
         Some (CArr (flat_map (fun b => parent_items (heap s') b.2) c.2)) /\
       RefCounter.wf (refCounter s') /\
       rises (refCounter s) (refCounter s')
         (fun x =>
            (listed x (flat_map (fun b => parent_items (heap s') b.2) c.2) +
             listed x (direct_refs c.2))%Z)).
Proof.
  intros Hwf Hc Hpl Hs Hal.
  pose proof (closed_below_length _ _ Hc) as Ln0.
  apply run_ok_below_all. unfold collect_branches.
  set (n := length (heap s)) in *.
  eapply run_ok_bind; [apply all_any | apply run_ok_same, heap_same_reading|].
  intros fs s1 _ [H1 E1].
  assert (s1 = s) as ->.
  { unfold props_of, reading in E1. destruct (own_props _ _); congruence. }
  clear H1 E1.
  eapply run_ok_bind; [apply all_any | apply run_ok_alloc|].
  intros v s2 K2 (-> & H2 & Hrc2).
  eapply run_ok_bind; [apply all_any | apply run_ok_alloc|].
  intros v s3 K3 (-> & H3 & Hrc3).
  rewrite H2 in H3. rewrite H2, length_app. fold n.
  simpl length. replace (n + 1)%nat with (S n) by lia. fold n in H3.
  set (fr := obj_set "parentRefs" (VRef n) _) in *.
  assert (Hr3 : heap s3 !! S n = Some (CObj fr)).
  { rewrite H3. replace (S n) with (length (heap s ++ [CArr []])).
    - apply lookup_snoc.
    - rewrite length_app. simpl. lia. }
  assert (Hp3 : heap s3 !! n = Some (CArr [])).
  { rewrite H3. rewrite lookup_app_l by (rewrite length_app; simpl; lia).
    apply lookup_snoc. }
  assert (L3 : length (heap s3) = S (S n)).
  { rewrite H3, !length_app. simpl. lia. }
  assert (K03 : keeps all (heap s) (heap s3)).
  { eapply keeps_trans; [exact K2 | exact K3]. }
  assert (Hc3 : closed (below n0) (heap s3)).
  { eapply closed_keeps; [exact Hc | exact K03 | intros; exact I]. }
  assert (Hpl3 : plain n0 (heap s3)).
  { eapply plain_keeps; [exact Hpl | exact K03 | intros; exact I | exact Ln0]. }
  assert (Hwf3 : RefCounter.wf (refCounter s3)).
  { rewrite Hrc3, Hrc2. exact Hwf. }
  assert (Hpr : field "parentRefs" fr = VRef n)
    by (unfold fr; rewrite field_set; reflexivity).
  eapply run_ok_bind; [apply all_any | apply run_ok_reading|].
  intros subs s4 _ [-> Hsubs].
  assert (Harr : as_array (heap s3) allOf = Some subs).
  { destruct allOf as [| | | | |al]; try discriminate. simpl.
    destruct (heap s3 !! al) as [[?|?]|]; try discriminate.
    injection Hsubs as <-. reflexivity. }
  pose proof (closed_as_array _ _ _ _ Hc3 Hal Harr) as Hsub_in.
  eapply run_ok_bind;
    [| apply run_ok_and;
         [apply (map_each_branch_items JsonPointer_get spec get_reaches
                   merge merge_ok (below n0) (heap s) dfuel (S n) n force fr
                   subs [] s3)
         |apply (map_each_branch_counts dfuel (S n) n force fr subs [] s3)];
       try assumption |].
  { intros a Ha Hin. apply list_elem_of_singleton in Hin as ->.
    unfold below in Ha. lia. }
  { intros a Ha. unfold below in Ha. lia. }
  { rewrite L3. lia. }
  { intros a Ha. apply K03; [exact I|]. unfold below in Ha. lia. }
  { rewrite L3. lia. }
  intros bs s5 K5 [(Hr5 & Hp5 & _) [Hwf5 Hcnt5]]. apply run_ok_ret.
  simpl app in Hp5. exists fr. cbn [fst snd].
  assert (L5 : (S (S n) <= length (heap s5))%nat).
  { rewrite <- L3. apply K5. }
  split; [reflexivity|]. split; [lia|]. split; [exact Hr5|].
  split; [exact Hpr|]. split; [exact Hp5|]. split; [exact Hwf5|].
  rewrite Hrc3, Hrc2 in Hcnt5. exact Hcnt5.
Qed.

End BranchCounts.

Lemma listed_cons (x k : string) (ks : list string) :
  listed x (map VStr (k :: ks)) =
  ((if decide (x = k) then 1 else 0) + listed x (map VStr ks))%Z.
Proof.
  change (map VStr (k :: ks)) with ([VStr k] ++ map VStr ks).
  rewrite listed_app, listed_one. reflexivity.
Qed.

Lemma listed_nonneg (x : string) (l : list val) : (0 <= listed x l)%Z.
Proof. unfold listed. lia. Qed.

(** One [exit] for each pointer listed takes the visits back. *)
Lemma exits_restore (ks : list string) :
  forall c c0 : gmap string RefCounter.slot,
  RefCounter.wf c0 ->
  rises c0 c (fun x => listed x (map VStr ks)) ->
  rises c0 (RefCounter.run (map RefCounter.Exit ks) c) (fun _ => 0%Z).
Proof.
  induction ks as [|k ks IH]; intros c c0 Hwf Hc.
  { simpl. intros x Hx. destruct (Hc x Hx) as [Hx' E]. split; [exact Hx'|].
    rewrite E, listed_nil. reflexivity. }
  simpl. apply (IH _ c0 Hwf). intros y Hy.
  destruct (Hc y Hy) as [Hy' E]. split.
  { apply RefCounterFacts.numeric_exit, Hy'. }
  rewrite RefCounterFacts.count_exit. rewrite listed_cons in E.
  pose proof (listed_nonneg y (map VStr ks)). pose proof (Hwf y).
  destruct (decide (k = y)) as [->|Hne].
  - destruct (decide (y = y)); [|congruence].
    destruct (RefCounter.count c y =? 0)%Z eqn:E';
      [apply Z.eqb_eq in E'|]; lia.
  - destruct (decide (y = k)); [congruence|]. lia.
Qed.

Section MergeCounts.

Variable JsonPointer_get : list cell -> val -> string -> option val.
Variable isNamedDefinition : val -> bool.
Variable JsonPointer_baseName : val -> option string.
Variable spec : val.
Hypothesis get_reaches : reaches JsonPointer_get.

Abbreviation mergeAllOf :=
  (mergeAllOf JsonPointer_get isNamedDefinition JsonPointer_baseName spec).

(** A merge, nested or not: every pointer counts as many visits
    more as the [parentRefs] of the result lists it. *)
Lemma mergeAllOf_counts (n0 fuel : nat) :
  forall (schema ref : val) (force : bool) (s : state),
  RefCounter.wf (refCounter s) ->
  closed (below n0) (heap s) -> plain n0 (heap s) ->
  val_in (below n0) spec -> clean n0 (heap s) schema ->
  run_ok all (mergeAllOf fuel schema ref force) s
    (fun v s' => RefCounter.wf (refCounter s') /\
       rises (refCounter s) (refCounter s')
         (fun x => listed x (parent_items (heap s') v))).
Proof.
  induction fuel as [|fuel IH]; intros schema ref force s Hwf Hc Hpl Hs Hcl;
    simpl.
  { apply run_ok_stop. }
  apply run_ok_below_all. set (n := length (heap s)) in *.
  eapply run_ok_bind; [apply all_any | apply run_ok_reading|].
  intros allOf s1 _ [-> HallOf].
  destruct (is_undef allOf) eqn:Hdef.
  { apply run_ok_ret. split; [exact Hwf|]. intros x Hx.
    rewrite (parent_items_clean _ _ _ Hcl), listed_nil.
    split; [exact Hx | lia]. }
  apply bool_decide_eq_false_1 in Hdef.
  destruct (getp_obj _ _ _ _ HallOf Hdef) as (a & fs & -> & Ha & Hf).
  assert (Hal : val_in (below n0) allOf).
  { rewrite <- Hf. apply (Hcl a fs eq_refl Ha). }
  eapply run_ok_bind;
    [apply all_any
    | apply (collect_branches_counts JsonPointer_get spec get_reaches n0
               (fun resolved subRef => mergeAllOf fuel resolved subRef force)
               (fun G resolved subRef s0 =>
                  mergeAllOf_reach JsonPointer_get isNamedDefinition
                    JsonPointer_baseName spec G fuel resolved subRef force s0)
               (fun resolved subRef s0 => IH resolved subRef force s0)
               fuel (VRef a) allOf force s Hwf Hc Hpl Hs Hal)|].
  intros [recv bs] s1 K1 (fr & Hrecv & L1 & Hr1 & Hpr1 & Hp1 & Hwf1 & Hcnt1).
  cbn [fst snd] in *. subst recv. fold n in L1, Hr1, Hpr1, Hp1.
  eapply run_ok_bind;
    [| apply run_ok_rc;
         [apply rc_same_fold_branches
         |apply (fold_branches_struct isNamedDefinition JsonPointer_baseName
                   ref (length (heap s1)) (S n) n bs (S n) fr _ s1
                   (le_n _) (or_introl eq_refl) Hr1 Hpr1 Hp1)]|].
  { intros x Hx. unfold below in Hx. repeat split; lia. }
  intros v s2 K2 [(r' & fr' & -> & Hr' & Hr2 & Hpr2 & Hp2) Hrc2].
  eapply run_ok_bind;
    [| apply run_ok_rc;
         [apply rc_same_name_top_level
         |apply (run_ok_name_top_level isNamedDefinition JsonPointer_baseName
                   r' (VRef a) ref fr' s2 Hr2)]|].
  { intros x Hx Hin. apply list_elem_of_singleton in Hin as ->.
    unfold below in Hx. destruct Hr'; lia. }
  intros [] s3 K3 [(t & _ & L3 & Hr3) Hrc3]. apply run_ok_ret.
  rewrite Hrc3, Hrc2. split; [exact Hwf1|]. intros x Hx.
  destruct (Hcnt1 x Hx) as [Hx1 E1]. split; [exact Hx1|].
  assert (Hne : n <> r') by (intros ->; congruence).
  assert (L2 : (length (heap s1) <= length (heap s2))%nat) by apply K2.
  assert (Hp3 : heap s3 !! n = heap s2 !! n).
  { apply K3; [|lia]. intros Hin. apply list_elem_of_singleton in Hin. auto. }
  assert (Hitems : parent_items (heap s3) (VRef r') =
            flat_map (fun b => parent_items (heap s1) b.2) bs ++
            direct_refs bs).
  { unfold parent_items. simpl. rewrite Hr3.
    assert (Hpr3 : field "parentRefs"
                     (if is_undef t && isNamedDefinition ref
                      then obj_set "title"
                             (base_title JsonPointer_baseName ref) fr'
                      else fr') = VRef n).
    { destruct (_ && _); [rewrite field_set; simpl|]; exact Hpr2. }
    rewrite Hpr3. simpl. rewrite Hp3, Hp2. reflexivity. }
  rewrite Hitems, listed_app, E1. lia.
Qed.

(** X20. What a merge leaves visited is what [parentRefs] lists:
    when [mergeAllOf] returns, on a node of a document in which no
    object declares [parentRefs] and every [$ref] is a pointer, the
    counter of a pointer has risen by the number of times the
    [parentRefs] of the returned schema lists that pointer, and by no
    more: the references followed to merge are not exited, and
    [parentRefs] names each of them once for every visit.  This is
    so for every pointer whose slot held a number or [undefined]
    before the call, as the slot of every pointer does that is not
    the name of a member of [Object.prototype]. *)
Theorem mergeAllOf_visits_parentRefs (fuel : nat) (schema ref v : val)
    (force : bool) (s s' : state) :
  RefCounter.wf (refCounter s) ->
  closed (below (length (heap s))) (heap s) ->
  plain (length (heap s)) (heap s) ->
  val_in (below (length (heap s))) spec ->
  val_in (below (length (heap s))) schema ->
  mergeAllOf fuel schema ref force s = (Ret v, s') ->
  forall x : string,
    RefCounter.numeric (refCounter s) x = true ->
    RefCounter.numeric (refCounter s') x = true /\
    RefCounter.count (refCounter s') x =
    (RefCounter.count (refCounter s) x +
     listed x (parent_items (heap s') v))%Z.
Proof.
  intros Hwf Hc Hpl Hs Hsch Hrun.
  pose proof (clean_old _ _ _ Hc Hpl Hsch) as Hcl.
  destruct (run_ok_inv _ _ _ _ _ _
              (mergeAllOf_counts (length (heap s)) fuel schema ref force s
                 Hwf Hc Hpl Hs Hcl) Hrun)
    as [_ [_ Hcnt]].
  exact Hcnt.
Qed.

(** X21. Exiting what [parentRefs] lists undoes the visits of a
    merge: when [mergeAllOf] returns, on a node of a document in
    which no object declares [parentRefs] and every [$ref] is a
    pointer, and the [parentRefs] of the returned schema holds the
    pointers [ks], then one [exit] of the counter for each of [ks]
    brings a pointer back to the count it had before the merge.
    This is so for every pointer whose slot held a number or
    [undefined] before the call, as the slot of every pointer does
    that is not the name of a member of [Object.prototype]. *)
Theorem mergeAllOf_exits_restore (fuel : nat) (schema ref v : val)
    (force : bool) (ks : list string) (s s' : state) :
  RefCounter.wf (refCounter s) ->
  closed (below (length (heap s))) (heap s) ->
  plain (length (heap s)) (heap s) ->
  val_in (below (length (heap s))) spec ->
  val_in (below (length (heap s))) schema ->
  mergeAllOf fuel schema ref force s = (Ret v, s') ->
  parent_items (heap s') v = map VStr ks ->
  forall x : string,
    RefCounter.numeric (refCounter s) x = true ->
    RefCounter.count
      (RefCounter.run (map RefCounter.Exit ks) (refCounter s')) x =
    RefCounter.count (refCounter s) x.
Proof.
  intros Hwf Hc Hpl Hs Hsch Hrun Hks x Hx.
  pose proof (clean_old _ _ _ Hc Hpl Hsch) as Hcl.
  destruct (run_ok_inv _ _ _ _ _ _
              (mergeAllOf_counts (length (heap s)) fuel schema ref force s
                 Hwf Hc Hpl Hs Hcl) Hrun)
    as [_ [_ Hcnt]].
  rewrite Hks in Hcnt.
  destruct (exits_restore ks _ _ Hwf Hcnt x Hx) as [_ E].
  rewrite E. lia.
Qed.

End MergeCounts.

Lemma mergeAllOf_visits_parentRefs_witness :
  let run := mergeAllOf Utils.get Utils.isNamedDefinition Utils.baseName
               Examples.lineage_root 4
               (Examples.lineage_at "#/components/schemas/Dog")
               (VStr "#/components/schemas/Dog") false
               Examples.lineage_start in
  let odd := mergeAllOf Utils.get Utils.isNamedDefinition Utils.baseName
               Examples.strange_root 3
               (Examples.strange_at "#/components/schemas/Odd")
               (VStr "#/components/schemas/Odd") false
               Examples.strange_start in
  (exists v, run.1 = Ret v /\
     parent_items (heap run.2) v =
       [VStr "#/components/schemas/Base"; VStr "#/components/schemas/Pet"] /\
     RefCounter.count (refCounter run.2) "#/components/schemas/Base" = 1%Z /\
     RefCounter.count (refCounter run.2) "#/components/schemas/Pet" = 1%Z /\
     RefCounter.count (refCounter run.2) "#/components/schemas/Dog" = 0%Z) /\
  (exists w, odd.1 = Ret w /\
     parent_items (heap odd.2) w = [VStr "constructor"] /\
     RefCounter.numeric (refCounter odd.2) "#/components/schemas/Odd" = true /\
     RefCounter.count (refCounter odd.2) "#/components/schemas/Odd" = 0%Z).
Proof.
  intros run odd. split.
  - assert (Hv : exists v, run = (Ret v, run.2)) by (vm_compute; eauto).
    destruct Hv as [v Hrun]. exists v.
    assert (Hitems : parent_items (heap run.2) v =
              [VStr "#/components/schemas/Base";
               VStr "#/components/schemas/Pet"]).
    { revert Hrun. vm_compute. intros [= <-]. reflexivity. }
    assert (Hc : closed (below (length (heap Examples.lineage_start)))
                   (heap Examples.lineage_start))
      by (apply wf_store_closed; vm_compute; reflexivity).
    assert (Hpl : plain (length (heap Examples.lineage_start))
                    (heap Examples.lineage_start))
      by (apply plain_store_plain; vm_compute; reflexivity).
    assert (Hsp : val_in (below (length (heap Examples.lineage_start)))
                    Examples.lineage_root) by (vm_compute; lia).
    assert (Hsc : val_in (below (length (heap Examples.lineage_start)))
                    (Examples.lineage_at "#/components/schemas/Dog"))
      by (vm_compute; lia).
    pose proof (mergeAllOf_visits_parentRefs Utils.get
                  Utils.isNamedDefinition Utils.baseName
                  Examples.lineage_root utils_get_reaches 4
                  (Examples.lineage_at "#/components/schemas/Dog")
                  (VStr "#/components/schemas/Dog") v false
                  Examples.lineage_start run.2 RefCounterFacts.wf_reset
                  Hc Hpl Hsp Hsc Hrun)
      as H.
    split; [rewrite Hrun; reflexivity|]. split; [exact Hitems|].
    rewrite Hitems in H.
    split; [|split];
      (match goal with
       | |- RefCounter.count _ ?x = _ =>
           destruct (H x) as [_ ->]; vm_compute; reflexivity
       end).
  - assert (Hw : exists w, odd = (Ret w, odd.2)) by (vm_compute; eauto).
    destruct Hw as [w Hodd]. exists w.
    assert (Hitems : parent_items (heap odd.2) w = [VStr "constructor"]).
    { revert Hodd. vm_compute. intros [= <-]. reflexivity. }
    assert (Hc : closed (below (length (heap Examples.strange_start)))
                   (heap Examples.strange_start))
      by (apply wf_store_closed; vm_compute; reflexivity).
    assert (Hpl : plain (length (heap Examples.strange_start))
                    (heap Examples.strange_start))
      by (apply plain_store_plain; vm_compute; reflexivity).
    assert (Hsp : val_in (below (length (heap Examples.strange_start)))
                    Examples.strange_root) by (vm_compute; lia).
    assert (Hsc : val_in (below (length (heap Examples.strange_start)))
                    (Examples.strange_at "#/components/schemas/Odd"))
      by (vm_compute; lia).
    pose proof (mergeAllOf_visits_parentRefs Utils.get
                  Utils.isNamedDefinition Utils.baseName
                  Examples.strange_root utils_get_reaches 3
                  (Examples.strange_at "#/components/schemas/Odd")
                  (VStr "#/components/schemas/Odd") w false
                  Examples.strange_start odd.2 RefCounterFacts.wf_reset
                  Hc Hpl Hsp Hsc Hodd "#/components/schemas/Odd"%string)
      as H.
    split; [rewrite Hodd; reflexivity|]. split; [exact Hitems|].
    rewrite Hitems in H. destruct H as [Hn Hcount].
    + vm_compute. reflexivity.
    + split; [exact Hn|]. rewrite Hcount. vm_compute. reflexivity.
Defined.

Lemma mergeAllOf_exits_restore_witness :
  let run := mergeAllOf Utils.get Utils.isNamedDefinition Utils.baseName
               Examples.lineage_root 4
               (Examples.lineage_at "#/components/schemas/Dog")
               (VStr "#/components/schemas/Dog") false
               Examples.lineage_start in
  let after :=
    RefCounter.exit "#/components/schemas/Pet"
      (RefCounter.exit "#/components/schemas/Base" (refCounter run.2)) in
  RefCounter.count after "#/components/schemas/Base" = 0%Z /\
  RefCounter.count after "#/components/schemas/Pet" = 0%Z.
Proof.
  intros run after.
  assert (Hv : exists v, run = (Ret v, run.2)) by (vm_compute; eauto).
  destruct Hv as [v Hrun].
  assert (Hitems : parent_items (heap run.2) v =
            map VStr ["#/components/schemas/Base";
                      "#/components/schemas/Pet"]%string).
  { revert Hrun. vm_compute. intros [= <-]. reflexivity. }
  assert (Hc : closed (below (length (heap Examples.lineage_start)))
                 (heap Examples.lineage_start))
    by (apply wf_store_closed; vm_compute; reflexivity).
  assert (Hpl : plain (length (heap Examples.lineage_start))
                  (heap Examples.lineage_start))
    by (apply plain_store_plain; vm_compute; reflexivity).
  assert (Hsp : val_in (below (length (heap Examples.lineage_start)))
                  Examples.lineage_root) by (vm_compute; lia).
  assert (Hsc : val_in (below (length (heap Examples.lineage_start)))
                  (Examples.lineage_at "#/components/schemas/Dog"))
    by (vm_compute; lia).
  pose proof (mergeAllOf_exits_restore Utils.get Utils.isNamedDefinition
                Utils.baseName Examples.lineage_root utils_get_reaches 4
                (Examples.lineage_at "#/components/schemas/Dog")
                (VStr "#/components/schemas/Dog") v false
                ["#/components/schemas/Base";
                 "#/components/schemas/Pet"]%string
                Examples.lineage_start run.2 RefCounterFacts.wf_reset
                Hc Hpl Hsp Hsc Hrun Hitems) as H.
  split; [apply (H "#/components/schemas/Base"%string)
         |apply (H "#/components/schemas/Pet"%string)];
    vm_compute; reflexivity.
Defined.

(* ================================================================== *)
(** * The other fields of a merged schema                               *)
(* ================================================================== *)

Section FoldOther.

Variable isNamedDefinition : val -> bool.
Variable JsonPointer_baseName : val -> option string.

Variable k : string.
Hypothesis k_other :
  k ∉ ["allOf"; "parentRefs"; "type"; "properties"; "required";
       "title"]%string.

Lemma obj_get_set_other (k' : string) (v : val) (fs : list (string * val)) :
  k' ∈ ["type"; "properties"; "required"; "title"]%string ->
  obj_get k (obj_set k' v fs) = obj_get k fs.
Proof.
  intros Hk'. rewrite obj_get_set.
  destruct (decide (k = k')) as [->|_]; [|reflexivity].
  exfalso. apply k_other. set_unfold. tauto.
Qed.

(** One round of the loop: a key that is not merged by a rule of its
    own keeps the receiver's value, and takes the branch's when the
    receiver has none. *)
Lemma fold_branch_other (ref : val) (n r0 r p : nat) (b : val * val)
    (fr : list (string * val)) (xs : list val) (s : state) :
  (n <= length (heap s))%nat -> r = r0 \/ (n <= r)%nat ->
  heap s !! r = Some (CObj fr) -> field "parentRefs" fr = VRef p ->
  heap s !! p = Some (CArr xs) ->
  val_in (old_but n r0 p) b.2 ->
  run_ok (old_but n r0 p)
    (fold_branch isNamedDefinition JsonPointer_baseName ref (VRef r) b) s
    (fun v s' => exists r' fr' fb, v = VRef r' /\
       (length (heap s) <= r' < length (heap s'))%nat /\
       heap s' !! r' = Some (CObj fr') /\
       field "parentRefs" fr' = VRef p /\
       heap s' !! p = Some (CArr (xs ++ if truthy b.1 then [b.1] else [])) /\
       own_props (heap s) b.2 = Some fb /\
       obj_get k fr' = match obj_get k fr with
                       | Some x => Some x
                       | None => obj_get k fb
                       end).
Proof.
  intros Hn Hr0 Hr Hpr Hp Hb. assert (Hne : r <> p) by (intros ->; congruence).
  assert (Hw : forall a, old_but n r0 p a -> but [r] a).
  { intros a (Ha & Har & Hap) Hin. apply list_elem_of_singleton in Hin as ->.
    destruct Hr0; [contradiction | lia]. }
  assert (Hbr : val_in (but [r]) b.2).
  { eapply val_in_mono; [exact Hw | exact Hb]. }
  assert (Hbl : val_in (below (length (heap s))) b.2).
  { eapply val_in_mono; [|exact Hb]. intros a Ha. unfold below.
    destruct Ha. lia. }
  unfold fold_branch.
  eapply run_ok_bind;
    [apply all_any | apply run_ok_same, heap_same_check_types|].
  intros [] s1 _ [H1 _].
  assert (Hr1 : heap s1 !! r = Some (CObj fr)) by (rewrite H1; exact Hr).
  (* type *)
  eapply run_ok_bind; [exact Hw | apply run_ok_merge_type, Hr1|].
  intros [] s2 K2 (bt & _ & L2 & Hr2). rewrite H1 in K2, L2.
  fold (typed bt fr) in Hr2.
  assert (Hk2 : obj_get k (typed bt fr) = obj_get k fr).
  { unfold typed. destruct (is_undef bt); [reflexivity|].
    apply obj_get_set_other. set_unfold. tauto. }
  assert (Hpr2 : field "parentRefs" (typed bt fr) = VRef p).
  { unfold typed. destruct (is_undef bt); [assumption|].
    rewrite field_set. assumption. }
  (* properties *)
  eapply run_ok_bind; [exact Hw | apply run_ok_merge_properties, Hr2|].
  intros [] s3 K3 (bp & _ & H3).
  assert (K3' : keeps (but [r]) (heap s) (heap s3)).
  { eapply keeps_trans; [exact K2|]. split; [apply K3|].
    intros a Ha Hl. rewrite L2 in Hl. apply K3; [exact Ha|].
    rewrite L2. exact Hl. }
  assert (exists fr3, heap s3 !! r = Some (CObj fr3) /\
            field "parentRefs" fr3 = VRef p /\
            obj_get k fr3 = obj_get k fr)
    as (fr3 & Hr3 & Hpr3 & Hk3).
  { destruct (is_undef bp).
    - subst s3. eauto.
    - destruct H3 as (o & h1 & fbase & fb & _ & _ & _ & _ & _ & H3).
      eexists. split; [exact H3|]. rewrite field_set.
      split; [assumption|]. rewrite <- Hk2.
      apply obj_get_set_other. set_unfold. tauto. }
  (* required *)
  eapply run_ok_bind; [exact Hw | apply run_ok_merge_required, Hr3|].
  intros [] s4 K4 (bq & _ & H4).
  assert (K4' : keeps (but [r]) (heap s) (heap s4)).
  { eapply keeps_trans; [exact K3'|]. split; [apply K4|].
    intros a Ha Hl. apply K4; [exact Ha | exact Hl]. }
  assert (exists fr4, heap s4 !! r = Some (CObj fr4) /\
            field "parentRefs" fr4 = VRef p /\
            obj_get k fr4 = obj_get k fr)
    as (fr4 & Hr4 & Hpr4 & Hk4).
  { destruct (is_undef bq).
    - subst s4. eauto.
    - destruct H4 as (q & H4 & _).
      eexists. split; [exact H4|]. rewrite field_set.
      split; [assumption|]. rewrite <- Hk3.
      apply obj_get_set_other. set_unfold. tauto. }
  assert (Hp4 : heap s4 !! p = Some (CArr xs)).
  { eapply keeps_lookup; [exact K4' | | exact Hp].
    intros Hin. apply list_elem_of_singleton in Hin. auto. }
  (* the next receiver *)
  eapply run_ok_bind; [apply all_any | apply run_ok_merge_rest, Hr4|].
  intros v s5 K5 (fb & Hfb & -> & H5).
  assert (Hfb0 : own_props (heap s) b.2 = Some fb).
  { rewrite <- Hfb. symmetry. apply own_props_agree. intros a Ea.
    rewrite Ea in Hbr, Hbl. apply K4'; [exact Hbr | exact Hbl]. }
  set (r' := length (heap s4)) in *.
  assert (Hr5 : heap s5 !! r' = Some (CObj (spread (spread [] fb) fr4))).
  { rewrite H5. apply lookup_snoc. }
  assert (Hpr5 : field "parentRefs" (spread (spread [] fb) fr4) = VRef p).
  { rewrite field_spread. unfold field in Hpr4.
    destruct (obj_get "parentRefs" fr4); [assumption | discriminate]. }
  assert (Hp5 : heap s5 !! p = Some (CArr xs)).
  { eapply keeps_lookup; [exact K5 | exact I | exact Hp4]. }
  eapply run_ok_bind;
    [|apply (run_ok_note_parent _ _ r' p _ _ xs _ Hr5 Hpr5 Hp5)|].
  { intros a (Ha & Har & Hap) Hin.
    apply elem_of_cons in Hin as [->|Hin]; [|].
    - pose proof (proj1 K4'). unfold r' in *. lia.
    - apply list_elem_of_singleton in Hin. contradiction. }
  intros [] s6 _ (L6 & Hp6 & Hr6). apply run_ok_ret.
  eexists r', _, fb. split; [reflexivity|].
  split.
  { pose proof (proj1 K4'). unfold r'.
    rewrite L6, H5, length_app. simpl. lia. }
  split; [exact Hr6|]. split; [|split; [exact Hp6|split; [exact Hfb0|]]].
  - destruct (_ && _); [rewrite field_set|]; assumption.
  - assert (Hk5 : obj_get k (spread (spread [] fb) fr4) =
              match obj_get k fr with
              | Some x => Some x
              | None => obj_get k fb
              end).
    { rewrite obj_get_spread, Hk4, obj_get_spread_nil. reflexivity. }
    destruct (_ && _); [|exact Hk5]. rewrite <- Hk5.
    apply obj_get_set_other. set_unfold. tauto.
Qed.

(** The whole loop. *)
Lemma fold_branches_other (ref : val) (h0 : list cell) (r0 p : nat)
    (bs : list (val * val)) :
  forall (r : nat) (fr : list (string * val)) (xs : list val) (s : state),
  keeps (old_but (length h0) r0 p) h0 (heap s) ->
  r = r0 \/ (length h0 <= r)%nat ->
  heap s !! r = Some (CObj fr) -> field "parentRefs" fr = VRef p ->
  heap s !! p = Some (CArr xs) ->
  Forall (fun b => val_in (old_but (length h0) r0 p) b.2) bs ->
  run_ok (old_but (length h0) r0 p)
    (fold_branches isNamedDefinition JsonPointer_baseName ref (VRef r) bs) s
    (fun v s' => exists r' fr', v = VRef r' /\
       (r' = r0 \/ (length h0 <= r')%nat) /\
       heap s' !! r' = Some (CObj fr') /\
       obj_get k fr' = first_declared k h0 (obj_get k fr) bs).
Proof.
  induction bs as [|b bs IH]; intros r fr xs s K Hr0 Hr Hpr Hp Hbs; simpl.
  { apply run_ok_ret. exists r, fr. auto. }
  apply Forall_cons_1 in Hbs as [Hb Hbs].
  pose proof (proj1 K) as L0.
  eapply run_ok_bind;
    [intros ? HP; exact HP
    | apply (fold_branch_other ref (length h0) r0 r p b fr xs s
               L0 Hr0 Hr Hpr Hp Hb)|].
  intros v s1 K1 (r' & fr' & fb & -> & Lr' & Hr' & Hpr' & Hp' & Hfb & Hk').
  assert (K' : keeps (old_but (length h0) r0 p) h0 (heap s1)).
  { eapply keeps_trans; [exact K|]. split; [apply K1|].
    intros a Ha Hl. apply K1; [exact Ha | exact Hl]. }
  assert (Hfb0 : own_props h0 b.2 = Some fb).
  { rewrite <- Hfb. symmetry. apply own_props_agree. intros a Ea.
    rewrite Ea in Hb. apply K; [exact Hb | apply Hb]. }
  eapply run_ok_weaken;
    [intros ? HP; exact HP
    | apply (IH r' fr' _ s1 K' (or_intror (Nat.le_trans _ _ _ L0 (proj1 Lr')))
               Hr' Hpr' Hp' Hbs)|].
  intros v s2 _ (r2 & fr2 & -> & Hr2 & Hc2 & Hk2).
  exists r2, fr2. split; [reflexivity|]. split; [exact Hr2|].
  split; [exact Hc2|]. rewrite Hk2, Hk', Hfb0. unfold first_declared.
  simpl. reflexivity.
Qed.

End FoldOther.

Section MergeOther.

Variable JsonPointer_get : list cell -> val -> string -> option val.
Variable isNamedDefinition : val -> bool.
Variable JsonPointer_baseName : val -> option string.
Variable spec : val.
Hypothesis get_reaches : reaches JsonPointer_get.

Abbreviation mergeAllOf :=
  (mergeAllOf JsonPointer_get isNamedDefinition JsonPointer_baseName spec).

(** X22. For the other fields the first declaration wins: when a
    merge returns, every key of the returned schema other than
    [allOf], [parentRefs], [type], [properties], [required] and
    [title] holds the value of the schema itself when the schema
    declares the key, and otherwise the value of the first branch, in
    the order of [allOf], that declares it; it is absent when none
    does.  (For [properties] it is the last declaration that wins.)  *)
Theorem mergeAllOf_first_declaration_wins (fuel : nat)
    (schema ref allOf v : val) (force : bool) (s s' : state) :
  closed (below (length (heap s))) (heap s) ->
  val_in (below (length (heap s))) spec ->
  val_in (below (length (heap s))) schema ->
  getp (heap s) schema "allOf" = Ret allOf -> is_undef allOf = false ->
  mergeAllOf (S fuel) schema ref force s = (Ret v, s') ->
  exists (recv : val) (bs : list (val * val)) (s1 : state)
         (fs : list (string * val)) (r' : nat) (fr' : list (string * val)),
    collect_branches JsonPointer_get spec
      (fun resolved subRef => mergeAllOf fuel resolved subRef force)
      fuel schema allOf force s = (Ret (recv, bs), s1) /\
    own_props (heap s) schema = Some fs /\
    v = VRef r' /\ heap s' !! r' = Some (CObj fr') /\
    forall k : string,
      k ∉ ["allOf"; "parentRefs"; "type"; "properties"; "required";
           "title"]%string ->
      obj_get k fr' = first_declared k (heap s1) (obj_get k fs) bs.
Proof.
  intros Hc Hs Hsch HallOf Hdef Hrun. simpl in Hrun.
  apply bind_ret_inv in Hrun as (allOf' & s0 & Hget & Hrun).
  unfold get_prop, reading in Hget. rewrite HallOf in Hget.
  injection Hget as <- <-. rewrite Hdef in Hrun.
  apply bind_ret_inv in Hrun as ([recv bs] & s1 & Hcol & Hrun).
  apply bind_ret_inv in Hrun as (receiver & s2 & Hfold & Hrun).
  apply bind_ret_inv in Hrun as ([] & s3 & Hname & Hrun).
  injection Hrun as <- <-. simpl in Hfold.
  assert (Ha : val_in (below (length (heap s))) allOf).
  { eapply closed_getp; eauto. }
  assert (Hobj : exists a fs, schema = VRef a /\ heap s !! a = Some (CObj fs)).
  { unfold is_undef in Hdef. apply bool_decide_eq_false in Hdef.
    destruct (getp_obj _ _ _ _ HallOf Hdef) as (a & fs & -> & Hfs & _). eauto. }
  destruct Hobj as (a & fs & -> & Hfs).
  assert (Hown : own_props (heap s) (VRef a) = Some fs)
    by (simpl; rewrite Hfs; reflexivity).
  destruct (collect_branches_receiver _ _ _ _ _ _ _ _ _ _ _ _ _ Hown Hcol)
    as (-> & L1 & Hr1 & xs & Hp1).
  destruct (run_ok_inv _ _ _ _ _ _
              (collect_branches_items JsonPointer_get spec get_reaches _
                 (fun G resolved subRef s0 =>
                    mergeAllOf_reach JsonPointer_get isNamedDefinition
                      JsonPointer_baseName spec G fuel resolved
                      subRef force s0)
                 fuel (VRef a) allOf force s Hc Hs Ha) Hcol)
    as [K1 (subs & fr0 & _ & _ & _ & _ & _ & _ & _ & Hbs)].
  simpl in Hbs.
  set (n := length (heap s)) in *.
  set (fr := obj_set "parentRefs" (VRef n) _) in *.
  assert (Hpr : field "parentRefs" fr = VRef n)
    by (unfold fr; rewrite field_set; reflexivity).
  assert (Hbs' : Forall (fun b => val_in (old_but (length (heap s1)) (S n) n)
                                    b.2) bs).
  { eapply Forall_impl; [exact Hbs|]. intros b Hb. apply Hb. }
  exists (VRef (S n)), bs, s1, fs.
  assert (Hstruct : exists r' fr',
            receiver = VRef r' /\ heap s2 !! r' = Some (CObj fr')).
  { destruct (run_ok_inv _ _ _ _ _ _
                (fold_branches_struct isNamedDefinition JsonPointer_baseName
                   ref (length (heap s1)) (S n) n bs (S n) fr xs s1
                   (le_n _) (or_introl eq_refl) Hr1 Hpr Hp1) Hfold)
      as (_ & r' & fr' & -> & _ & Hc2 & _). eauto. }
  destruct Hstruct as (r' & fr' & -> & Hc2).
  destruct (run_ok_inv _ _ _ _ _ _
              (run_ok_name_top_level isNamedDefinition JsonPointer_baseName
                 r' (VRef a) ref fr' s2 Hc2) Hname)
    as (K3 & t0 & _ & L3 & Hfin).
  eexists r', _. split; [exact Hcol|]. split; [exact Hown|].
  split; [reflexivity|]. split; [exact Hfin|].
  intros k Hk.
  destruct (run_ok_inv _ _ _ _ _ _
              (fold_branches_other isNamedDefinition JsonPointer_baseName
                 k Hk ref (heap s1) (S n) n bs (S n) fr xs s1
                 (keeps_refl _ _) (or_introl eq_refl) Hr1 Hpr Hp1 Hbs') Hfold)
    as (_ & r2 & fr2 & Er & _ & Hc2' & Hk2).
  injection Er as <-. assert (fr2 = fr') as -> by congruence.
  assert (Hk0 : obj_get k fr = obj_get k fs).
  { unfold fr. rewrite !obj_get_set.
    destruct (decide (k = "parentRefs"%string)) as [->|_];
      [exfalso; apply Hk; set_unfold; tauto|].
    destruct (decide (k = "allOf"%string)) as [->|_];
      [exfalso; apply Hk; set_unfold; tauto|].
    apply obj_get_spread_nil. }
  rewrite <- Hk0, <- Hk2.
  destruct (_ && _); [|reflexivity]. rewrite obj_get_set.
  destruct (decide (k = "title"%string)) as [->|_]; [|reflexivity].
  exfalso. apply Hk. set_unfold. tauto.
Qed.

(** X23. Merging twice is merging once: the schema a merge returns
    declares no [allOf], so a second merge of it, with whatever
    pointer and flag, returns it as it is and changes nothing. *)
Theorem mergeAllOf_idempotent (fuel fuel' : nat) (a : nat)
    (ref ref' v : val) (force force' : bool)
    (fs : list (string * val)) (s s' : state) :
  heap s !! a = Some (CObj fs) ->
  mergeAllOf (S fuel) (VRef a) ref force s = (Ret v, s') ->
  mergeAllOf (S fuel') v ref' force' s' = (Ret v, s').
Proof.
  intros Ha Hrun. cbn [mergeAllOf] in Hrun |- *.
  apply bind_ret_inv in Hrun as (allOf & s0 & Hg & Hrun).
  unfold get_prop, reading in Hg. simpl in Hg. rewrite Ha in Hg.
  injection Hg as <- <-.
  destruct (is_undef (field "allOf" fs)) eqn:Hdef.
  { injection Hrun as <- <-. unfold bind, get_prop, reading. simpl.
    rewrite Ha, Hdef. reflexivity. }
  apply bind_ret_inv in Hrun as ([recv bs] & s1 & Hcol & Hrun).
  apply bind_ret_inv in Hrun as (recv_f & s2 & Hfold & Hrun).
  apply bind_ret_inv in Hrun as ([] & s3 & Hname & Hrun).
  injection Hrun as <- <-. cbn [fst snd] in Hfold.
  assert (Hown : own_props (heap s) (VRef a) = Some fs)
    by (simpl; rewrite Ha; reflexivity).
  destruct (collect_branches_receiver _ _ _ _ _ _ _ _ _ _ _ _ _ Hown Hcol)
    as (-> & L1 & Hr1 & xs & Hp1).
  set (n := length (heap s)) in *.
  set (fr := obj_set "parentRefs" (VRef n) _) in *.
  set (Want := fun (k : string) (x : val) => k = "allOf"%string /\ x = VUndef).
  assert (HW : forall k x, Want k x ->
            k <> "properties"%string /\ k <> "required"%string /\
            k <> "title"%string).
  { intros k x [-> _]. repeat split; discriminate. }
  assert (HT : forall f bt, has_fields Want f ->
            types_pass (field "type" f) bt -> has_fields Want (typed bt f)).
  { intros f bt Hf _ k x Hw. unfold typed.
    destruct (is_undef bt); [apply Hf, Hw|]. rewrite obj_get_set.
    destruct Hw as [-> ->]. simpl. apply Hf. split; reflexivity. }
  assert (H0 : has_fields Want fr).
  { intros k x [-> ->]. unfold fr. rewrite !obj_get_set. reflexivity. }
  assert (Hpr : field "parentRefs" fr = VRef n)
    by (unfold fr; rewrite field_set; reflexivity).
  destruct (run_ok_inv _ _ _ _ _ _
              (fold_branches_want isNamedDefinition JsonPointer_baseName
                 Want HW HT ref (length (heap s1)) (S n) n bs (S n) fr xs s1
                 (le_n _) (or_introl eq_refl) Hr1 Hpr Hp1 H0) Hfold)
    as (K2 & r' & fr' & -> & Hr' & Hc & HJ).
  destruct (run_ok_inv _ _ _ _ _ _
              (run_ok_name_top_level isNamedDefinition JsonPointer_baseName
                 r' (VRef a) ref fr' s2 Hc) Hname)
    as (_ & t & _ & _ & Hfin).
  unfold bind, get_prop, reading. simpl. rewrite Hfin.
  assert (Hall : field "allOf"
                   (if is_undef t && isNamedDefinition ref
                    then obj_set "title"
                           (base_title JsonPointer_baseName ref) fr'
                    else fr') = VUndef).
  { assert (Hg : obj_get "allOf" fr' = Some VUndef) by (apply HJ; split; auto).
    unfold field. destruct (_ && _); [rewrite obj_get_set; simpl|];
      rewrite Hg; reflexivity. }
  rewrite Hall. reflexivity.
Qed.

End MergeOther.

Lemma mergeAllOf_first_declaration_wins_witness :
  let run := mergeAllOf Utils.get Utils.isNamedDefinition Utils.baseName
               Examples.described_root 4
               (Examples.described_at "#/components/schemas/Both")
               (VStr "#/components/schemas/Both") false
               Examples.described_start in
  exists (r' : nat) (fr' : list (string * val)),
    run.1 = Ret (VRef r') /\ heap run.2 !! r' = Some (CObj fr') /\
    obj_get "description" fr' = Some (VStr "the base") /\
    obj_get "format" fr' = Some (VStr "plain") /\
    obj_get "example" fr' = Some (VNum 1) /\
    obj_get "default" fr' = None.
Proof.
  intros run.
  assert (Hrun : run = (Ret (VRef 13), run.2)) by (vm_compute; reflexivity).
  destruct (mergeAllOf_first_declaration_wins Utils.get
              Utils.isNamedDefinition Utils.baseName Examples.described_root
              utils_get_reaches 3
              (Examples.described_at "#/components/schemas/Both")
              (VStr "#/components/schemas/Both") (VRef 3) (VRef 13) false
              Examples.described_start run.2)
    as (recv & bs & s1 & fs & r' & fr' & Hcol & Hfs & Hv & Hr' & Hk).
  - apply wf_store_closed. vm_compute. reflexivity.
  - vm_compute. lia.
  - vm_compute. lia.
  - vm_compute. reflexivity.
  - reflexivity.
  - exact Hrun.
  - vm_compute in Hcol. injection Hcol as <- <- <-.
    vm_compute in Hfs. injection Hfs as <-.
    exists r', fr'. split; [rewrite Hrun, Hv; reflexivity|].
    split; [exact Hr'|].
    rewrite !Hk by (apply (bool_decide_unpack _); vm_compute; exact I).
    repeat split; vm_compute; reflexivity.
Defined.

Lemma mergeAllOf_idempotent_witness :
  let run := mergeAllOf Utils.get Utils.isNamedDefinition Utils.baseName
               Examples.described_root 4
               (Examples.described_at "#/components/schemas/Both")
               (VStr "#/components/schemas/Both") false
               Examples.described_start in
  run.1 = Ret (VRef 13) /\
  mergeAllOf Utils.get Utils.isNamedDefinition Utils.baseName
    Examples.described_root 1 (VRef 13) VUndef true run.2 =
  (Ret (VRef 13), run.2).
Proof.
  intros run.
  assert (Hrun : run = (Ret (VRef 13), run.2)) by (vm_compute; reflexivity).
  split; [rewrite Hrun; reflexivity|].
  apply (mergeAllOf_idempotent Utils.get Utils.isNamedDefinition
           Utils.baseName Examples.described_root 3 0 4
           (VStr "#/components/schemas/Both") VUndef (VRef 13) false true
           [("allOf", VRef 3)]%string Examples.described_start run.2).
  - vm_compute. reflexivity.
  - exact Hrun.
Defined.

(* ================================================================== *)
(** * The title a schema declares                                       *)
(* ================================================================== *)

Section FoldTitle.

Variable isNamedDefinition : val -> bool.
Variable JsonPointer_baseName : val -> option string.

Variable t : val.
Hypothesis t_defined : t <> VUndef.

Lemma field_set_title (k' : string) (v : val) (fs : list (string * val)) :
  k' <> "title"%string ->
  field "title" (obj_set k' v fs) = field "title" fs.
Proof.
  intros Hk'. rewrite field_set.
  destruct (decide ("title"%string = k')) as [<-|_]; [contradiction|].
  reflexivity.
Qed.

(** One round of the loop leaves a title that is declared. *)
Lemma fold_branch_title (ref : val) (n r0 r p : nat) (b : val * val)
    (fr : list (string * val)) (xs : list val) (s : state) :
  (n <= length (heap s))%nat -> r = r0 \/ (n <= r)%nat ->
  heap s !! r = Some (CObj fr) -> field "parentRefs" fr = VRef p ->
  heap s !! p = Some (CArr xs) -> field "title" fr = t ->
  run_ok (old_but n r0 p)
    (fold_branch isNamedDefinition JsonPointer_baseName ref (VRef r) b) s
    (fun v s' => exists r' fr', v = VRef r' /\
       (length (heap s) <= r' < length (heap s'))%nat /\
       heap s' !! r' = Some (CObj fr') /\
       field "parentRefs" fr' = VRef p /\
       heap s' !! p = Some (CArr (xs ++ if truthy b.1 then [b.1] else [])) /\
       field "title" fr' = t).
Proof.
  intros Hn Hr0 Hr Hpr Hp Ht. assert (Hne : r <> p) by (intros ->; congruence).
  assert (Hw : forall a, old_but n r0 p a -> but [r] a).
  { intros a (Ha & Har & Hap) Hin. apply list_elem_of_singleton in Hin as ->.
    destruct Hr0; [contradiction | lia]. }
  unfold fold_branch.
  eapply run_ok_bind;
    [apply all_any | apply run_ok_same, heap_same_check_types|].
  intros [] s1 _ [H1 _].
  assert (Hr1 : heap s1 !! r = Some (CObj fr)) by (rewrite H1; exact Hr).
  (* type *)
  eapply run_ok_bind; [exact Hw | apply run_ok_merge_type, Hr1|].
  intros [] s2 K2 (bt & _ & L2 & Hr2). rewrite H1 in K2, L2.
  fold (typed bt fr) in Hr2.
  assert (Ht2 : field "title" (typed bt fr) = t).
  { unfold typed. destruct (is_undef bt); [exact Ht|].
    rewrite field_set_title by discriminate. exact Ht. }
  assert (Hpr2 : field "parentRefs" (typed bt fr) = VRef p).
  { unfold typed. destruct (is_undef bt); [assumption|].
    rewrite field_set. assumption. }
  (* properties *)
  eapply run_ok_bind; [exact Hw | apply run_ok_merge_properties, Hr2|].
  intros [] s3 K3 (bp & _ & H3).
  assert (K3' : keeps (but [r]) (heap s) (heap s3)).
  { eapply keeps_trans; [exact K2|]. split; [apply K3|].
    intros a Ha Hl. rewrite L2 in Hl. apply K3; [exact Ha|].
    rewrite L2. exact Hl. }
  assert (exists fr3, heap s3 !! r = Some (CObj fr3) /\
            field "parentRefs" fr3 = VRef p /\ field "title" fr3 = t)
    as (fr3 & Hr3 & Hpr3 & Ht3).
  { destruct (is_undef bp).
    - subst s3. eauto.
    - destruct H3 as (o & h1 & fbase & fb & _ & _ & _ & _ & _ & H3).
      eexists. split; [exact H3|]. rewrite field_set.
      split; [assumption|]. rewrite field_set_title by discriminate.
      exact Ht2. }
  (* required *)
  eapply run_ok_bind; [exact Hw | apply run_ok_merge_required, Hr3|].
  intros [] s4 K4 (bq & _ & H4).
  assert (K4' : keeps (but [r]) (heap s) (heap s4)).
  { eapply keeps_trans; [exact K3'|]. split; [apply K4|].
    intros a Ha Hl. apply K4; [exact Ha | exact Hl]. }
  assert (exists fr4, heap s4 !! r = Some (CObj fr4) /\
            field "parentRefs" fr4 = VRef p /\ field "title" fr4 = t)
    as (fr4 & Hr4 & Hpr4 & Ht4).
  { destruct (is_undef bq).
    - subst s4. eauto.
    - destruct H4 as (q & H4 & _).
      eexists. split; [exact H4|]. rewrite field_set.
      split; [assumption|]. rewrite field_set_title by discriminate.
      exact Ht3. }
  assert (Hp4 : heap s4 !! p = Some (CArr xs)).
  { eapply keeps_lookup; [exact K4' | | exact Hp].
    intros Hin. apply list_elem_of_singleton in Hin. auto. }
  (* the next receiver *)
  eapply run_ok_bind; [apply all_any | apply run_ok_merge_rest, Hr4|].
  intros v s5 K5 (fb & Hfb & -> & H5).
  set (r' := length (heap s4)) in *.
  set (fr5 := spread (spread [] fb) fr4) in *.
  assert (Hr5 : heap s5 !! r' = Some (CObj fr5)).
  { rewrite H5. apply lookup_snoc. }
  assert (Hpr5 : field "parentRefs" fr5 = VRef p).
  { unfold fr5. rewrite field_spread. unfold field in Hpr4.
    destruct (obj_get "parentRefs" fr4); [assumption | discriminate]. }
  assert (Ht5 : field "title" fr5 = t).
  { unfold fr5. rewrite field_spread. unfold field in Ht4.
    destruct (obj_get "title" fr4); [assumption|].
    simpl in Ht4. congruence. }
  assert (Hp5 : heap s5 !! p = Some (CArr xs)).
  { eapply keeps_lookup; [exact K5 | exact I | exact Hp4]. }
  eapply run_ok_bind;
    [|apply (run_ok_note_parent _ _ r' p _ _ xs _ Hr5 Hpr5 Hp5)|].
  { intros a (Ha & Har & Hap) Hin.
    apply elem_of_cons in Hin as [->|Hin]; [|].
    - pose proof (proj1 K4'). unfold r' in *. lia.
    - apply list_elem_of_singleton in Hin. contradiction. }
  intros [] s6 _ (L6 & Hp6 & Hr6). apply run_ok_ret.
  assert (Hno : is_undef (field "title" fr5) = false).
  { rewrite Ht5. apply bool_decide_eq_false_2, t_defined. }
  rewrite Hno, andb_false_r in Hr6. simpl in Hr6.
  exists r', fr5. split; [reflexivity|].
  split.
  { pose proof (proj1 K4'). unfold r'.
    rewrite L6, H5, length_app. simpl. lia. }
  auto.
Qed.

(** The whole loop. *)
Lemma fold_branches_title (ref : val) (n r0 p : nat)
    (bs : list (val * val)) :
  forall (r : nat) (fr : list (string * val)) (xs : list val) (s : state),
  (n <= length (heap s))%nat -> r = r0 \/ (n <= r)%nat ->
  heap s !! r = Some (CObj fr) -> field "parentRefs" fr = VRef p ->
  heap s !! p = Some (CArr xs) -> field "title" fr = t ->
  run_ok (old_but n r0 p)
    (fold_branches isNamedDefinition JsonPointer_baseName ref (VRef r) bs) s
    (fun v s' => exists r' fr', v = VRef r' /\
       (r' = r0 \/ (n <= r')%nat) /\
       heap s' !! r' = Some (CObj fr') /\ field "title" fr' = t).
Proof.
  induction bs as [|b bs IH]; intros r fr xs s Hn Hr0 Hr Hpr Hp Ht; simpl.
  - apply run_ok_ret. exists r, fr. auto.
  - eapply run_ok_bind;
      [intros ? HP; exact HP
      | apply (fold_branch_title ref n r0 r p b fr xs s); auto|].
    intros v s1 K1 (r' & fr' & -> & Hr' & Hc & Hpr' & Hp' & Ht').
    eapply IH; eauto.
    + pose proof (proj1 K1). lia.
    + right. lia.
Qed.

End FoldTitle.

Section MergeTitle.

Variable JsonPointer_get : list cell -> val -> string -> option val.
Variable isNamedDefinition : val -> bool.
Variable JsonPointer_baseName : val -> option string.
Variable spec : val.

Abbreviation mergeAllOf :=
  (mergeAllOf JsonPointer_get isNamedDefinition JsonPointer_baseName spec).

(** X24. A title of its own is kept: when the schema given to a
    merge declares a [title], the schema returned has that [title],
    whatever titles the branches declare and whatever definitions the
    schema and the branches are named after. *)
Theorem mergeAllOf_keeps_own_title (fuel : nat) (schema ref t v : val)
    (force : bool) (s s' : state) :
  getp (heap s) schema "title" = Ret t -> t <> VUndef ->
  mergeAllOf (S fuel) schema ref force s = (Ret v, s') ->
  getp (heap s') v "title" = Ret t.
Proof.
  intros Ht Hdef Hrun.
  destruct (getp_obj _ _ _ _ Ht Hdef) as (a & fs & -> & Ha & Hf).
  cbn [mergeAllOf] in Hrun.
  apply bind_ret_inv in Hrun as (allOf & s0 & Hg & Hrun).
  unfold get_prop, reading in Hg. simpl in Hg. rewrite Ha in Hg.
  injection Hg as <- <-.
  destruct (is_undef (field "allOf" fs)) eqn:HallOf.
  { injection Hrun as <- <-. exact Ht. }
  apply bind_ret_inv in Hrun as ([recv bs] & s1 & Hcol & Hrun).
  apply bind_ret_inv in Hrun as (recv_f & s2 & Hfold & Hrun).
  apply bind_ret_inv in Hrun as ([] & s3 & Hname & Hrun).
  injection Hrun as <- <-. cbn [fst snd] in Hfold.
  assert (Hown : own_props (heap s) (VRef a) = Some fs)
    by (simpl; rewrite Ha; reflexivity).
  destruct (collect_branches_receiver _ _ _ _ _ _ _ _ _ _ _ _ _ Hown Hcol)
    as (-> & L1 & Hr1 & xs & Hp1).
  set (n := length (heap s)) in *.
  set (fr := obj_set "parentRefs" (VRef n) _) in *.
  assert (Hpr : field "parentRefs" fr = VRef n)
    by (unfold fr; rewrite field_set; reflexivity).
  assert (Ht0 : field "title" fr = t).
  { unfold fr. rewrite !field_set_title by discriminate.
    rewrite field_spread_nil. exact Hf. }
  destruct (run_ok_inv _ _ _ _ _ _
              (fold_branches_title isNamedDefinition JsonPointer_baseName
                 t Hdef ref (length (heap s1)) (S n) n bs (S n) fr xs s1
                 (le_n _) (or_introl eq_refl) Hr1 Hpr Hp1 Ht0) Hfold)
    as (K2 & r' & fr' & -> & Hr' & Hc & Ht').
  destruct (run_ok_inv _ _ _ _ _ _
              (run_ok_name_top_level isNamedDefinition JsonPointer_baseName
                 r' (VRef a) ref fr' s2 Hc) Hname)
    as (_ & t1 & Ht1 & _ & Hfin).
  assert (K12 : keeps all (heap s) (heap s2)).
  { destruct (run_ok_inv _ _ _ _ _ _
                (collect_branches_keeps JsonPointer_get spec _
                   (fun resolved subRef s =>
                      run_ok_weaken _ _ _ _ _ (fun _ _ => True)
                        (fun _ HP => HP)
                        (mergeAllOf_keeps JsonPointer_get isNamedDefinition
                           JsonPointer_baseName spec fuel resolved subRef
                           force s)
                        (fun _ _ _ _ => I))
                   fuel (VRef a) (field "allOf" fs) force s) Hcol)
      as (K1 & _).
    split; [pose proof (proj1 K1); pose proof (proj1 K2); lia|].
    intros x _ Hx. transitivity (heap s1 !! x).
    - apply K2; [|pose proof (proj1 K1); lia].
      repeat split; [pose proof (proj1 K1); lia | fold n; lia..].
    - apply K1; [exact I | exact Hx]. }
  assert (Ht1' : t1 = t).
  { simpl in Ht1. pose proof (lookup_lt_Some _ _ _ Ha) as La.
    rewrite (proj2 K12 a I La), Ha in Ht1. congruence. }
  subst t1. simpl. rewrite Hfin.
  assert (Hno : is_undef t = false) by apply bool_decide_eq_false_2, Hdef.
  rewrite Hno. simpl. rewrite Ht'. reflexivity.
Qed.

End MergeTitle.

Lemma mergeAllOf_keeps_own_title_witness :
  let run := mergeAllOf Utils.get Utils.isNamedDefinition Utils.baseName
               Examples.titled_root 4
               (Examples.titled_at "#/components/schemas/Pet")
               (VStr "#/components/schemas/Pet") false
               Examples.titled_start in
  exists v, run.1 = Ret v /\
    getp (heap run.2) v "title" = Ret (VStr "A pet").
Proof.
  intros run.
  assert (Hv : exists v, run = (Ret v, run.2)) by (vm_compute; eauto).
  destruct Hv as [v Hrun]. exists v. split; [rewrite Hrun; reflexivity|].
  apply (mergeAllOf_keeps_own_title Utils.get Utils.isNamedDefinition
           Utils.baseName Examples.titled_root 3
           (Examples.titled_at "#/components/schemas/Pet")
           (VStr "#/components/schemas/Pet") (VStr "A pet") v false
           Examples.titled_start run.2).
  - vm_compute. reflexivity.
  - discriminate.
  - exact Hrun.
Defined.
